(* ===== verification/_CoqProject ===== *)
-Q . S2P
Prelude.v
CString.v
Hashtable.v
SigTable.v
AllowLists.v
Paths.v
Window.v
Kill.v
Behavior.v
Netlink.v
Hooks.v
Exec.v
Life.v
Sha256.v
TlshTable.v
Tlsh.v
CText.v
Posix.v
Quarantine.v
Trust.v
QuarantineOps.v
Sock.v
History.v
ScanQueue.v
Corpus.v
Scan.v
Control.v
Server.v
Stdio.v
Replies.v
AvctlProc.v
AvctlLoad.v
AvctlCommands.v
AvctlClient.v
AvctlSave.v
Avctl.v
Daemon.v
