(* ===== verification/Prelude.v ===== *)
(** * A kernel-level antivirus, verified

    The program is a Linux kernel module (src/av/) that watches exec, open,
    unlink and rename through kprobes, and a root daemon (src/userspace/avd/)
    that scans executed files on the module's request, answers with a verdict
    and quarantines, and a command-line tool (src/userspace/avctl/) that edits
    the module's tables through /proc and talks to the daemon over a socket.
    This library models the C code of all three, and proves what makes each
    part correct and what they do together.

    ** The parts and how they interact

    A probe handler runs in atomic context; it admits the event against a
    bound on work in flight, copies the arguments and queues a work item
    (Hooks).  A worker later resolves the path (Paths) and either runs a
    behaviour check (Behavior, on the sliding windows of Window), or, for an
    exec, hashes the file, records the exec, looks the digests up (SigTable),
    asks the daemon over generic netlink (Netlink) and applies the fail-open or
    fail-closed policy (Exec).  A condemned process is killed (Kill) unless it
    is PID 1 or its exe is on the protected list (AllowLists).  The operator
    edits the tables through /proc files.  Life is the order in which all this
    is set up and torn down.

    In the daemon (Daemon starts and stops it) the netlink request is queued
    (ScanQueue) and its file scanned (Scan) with YARA's rules and the two
    corpora of fuzzy hashes (Corpus, on Tlsh and libfuzzy); the outcome is sent
    back, recorded (History) and, for a malicious file, the file is moved to a
    quarantine (QuarantineOps) whose directory is checked (Trust), with a
    sidecar from which it can be restored (Quarantine).  A thread per
    connection (Server) answers one line (Sock) with one command (Control).

    avctl reads its arguments (Avctl) and either writes to the module's /proc
    files or lists, saves and loads them (AvctlProc), saving to a file through
    a pinned directory (AvctlSave), or sends one line to the daemon and prints
    what it makes of the reply (AvctlClient).

    ** The files

    - Prelude (this one): machine integers as reduced [Z]s, error numbers,
      hints, tactics, and list lemmas shared by the components.
    - CString: C strings as lists of bytes, and the string functions of the
      kernel and libc that the source calls (strscpy, strncmp, strstr, strrchr,
      strcasecmp, sscanf, isxdigit, ...), written out.
    - Hashtable: linux/hashtable.h, and that a duplicate-free table is a finite
      map ([ht_map]).  The class [KernelHash] stands for the kernel's string
      and integer hashes, with the range of their results as its laws.
    - SigTable: av/sigtable.c.  [sigtable] is the table with its counters;
      [av_sigtable_add], [_del], [_match], the seq_file listing and the proc
      file's write are one definition each.  The specification is [spec_add],
      [spec_del], [spec_match] on a map keyed by algorithm and lower-case
      digest; the first theorems are the refinement, for every branch, and
      that saving and restoring the listing is the identity.
    - AllowLists: the trusted hashes and the protected exe paths of
      av/behavior.c, modules [Trust] and [Protect].  The classes [TrustList]
      and [ProtectList] are what they promise to Behavior and Kill, and both
      are instantiated by the tables themselves.
    - Paths: the path predicates of av/behavior.c (module [Pred]) and the
      lexical resolution of av/main.c (module [Resolve]).  The theorems relate
      both to the list of directories a path names.
    - Window: [sliding_window_note], refined to an unbounded log.  The class
      [KernelClock] is [jiffies_to_msecs].
    - Kill: [kill_with_reason] (av/behavior.c) and [av_kill] (av/main.c); the
      effects are log lines and signals in order.
    - Behavior: the per-process table of av/behavior.c: lookup with LRU
      eviction, the sweep, and the checks on exec, openat, unlink and rename.
      The theorems: an invariant over any history of calls; what eviction and
      the sweep keep; when windows are reset; that sensitive paths cannot be
      silenced; that a burst of distinct writes by a process that only opens
      files is caught whatever others do in between.
    - Netlink: av/netlink_chan.c.  Each critical section is one definition on
      [chan], whose requests live in an explicit heap; [step] interleaves
      waiters, verdict handlers, registrations, socket releases and the steps
      of the module's exit.  By rule induction over [reachable], for a daemon
      that only answers what it was sent: no request is used after it is freed,
      leaked or shared; a call that succeeds has an authentic verdict, or none
      if the exit woke it; the untimed wait is always about to be completed.
    - Hooks: the probe handlers and non-exec workers of av/main.c.  [kstate]
      counts every slot, reference and allocation; the theorems balance the
      account in every reachable state, bound it, and show that execs are
      always admitted.
    - Exec: hashing, verdict, policy file and exec worker of av/main.c.
    - Life: [av_init] with its error labels, [av_exit] and the taint report.
    - Sha256: userspace/avd/sha256.c.  Module [Fips] states FIPS 180-4 on the
      bits of words; the implementation computes it for any cutting of the
      message into pieces.
    - TlshTable, Tlsh: userspace/avd/tlsh_diff_table.h (all its entries),
      tlsh_core.c and tlsh_shim.c.  The streaming counter equals one pass over
      the input, the quickselect finds the quartiles of the sorted buckets, the
      hexadecimal codec round trips and the distance is symmetric and zero
      exactly on equal digests.
    - CText: the text functions of the daemon's and avctl's C library (strtol
      and its like, %d, [fgets]) on lists of bytes, with what reads back what.
    - Posix: the system calls the daemon makes on files, as a class of
      operations on an abstract world with laws about directory entries and
      inodes; any call may fail.  Module [ToyFs] is an instance.
    - Quarantine: the sidecar's writer and parser of userspace/avd/avd.c.
    - Trust: [dir_hierarchy_trusted] of avd.c, equivalent to a predicate on the
      directories of the path, and that the tree it accepts is out of the
      reach of other users.
    - QuarantineOps: [quarantine_file], restore and delete.  The theorems: a
      name is only removed when its contents are safe, whichever call fails; a
      restore gives the file back; nothing outside the quarantine is touched
      but the path that is restored.  No other process acts between the calls
      of one operation.
    - Sock: [write_all], [read_line] with its deadline.
    - History: the ring of verdicts, refined to the log of the last 500 scans.
    - ScanQueue: the linked queue of avd.c in a heap, its producer and workers
      as a step relation on the critical sections and the two condition
      variables: FIFO, no lost wake-up, the drain at shutdown; and
      [parse_tunable_env].
    - Corpus: the corpus files and their matching, the TLSH self-test.  The
      class [Fuzzy] is libfuzzy.
    - Scan: YARA's callback and score, [perform_scan], the netlink request and
      its verdict, up to the kernel's own check of the message (Netlink).
    - Control: every command of the control socket and the dispatch, and what
      an unprivileged peer can do and see.
    - Server: the start-up of the socket, the bound on connections.
    - Stdio: [fgets], [sscanf] and [printf] padding as avctl uses them, and
      files whose reads may fail before the end ([stream]).
    - Replies: what a reply of the control socket is, down to the fields of its
      rows, and that every request gets one.
    - AvctlProc: userspace/avctl/avctl.c, the half that works on the module's
      /proc files; a record [kernel] of the module's tables is what they show,
      and every write goes through the module's own handlers.
    - AvctlLoad: that loading a save merges it into the tables; the abstraction
      of [kernel] to maps and its invariant.
    - AvctlCommands: that each writing command changes exactly what it says.
    - AvctlClient: the requests and replies of avctl, and the theorems on
      avctl and the daemon's Control together.
    - AvctlSave: [do_save] to a file, on a class [Dirs] of calls relative to
      open directories; [changes] says what other users may do between any two
      calls and what a save may change.  The tables it reads are streams, so
      a save may be of what was read before a failure.  Module [ToyDirs] is an
      instance.
    - Avctl: avctl's [main].
    - Daemon: avd's [main]: settings, [load_rules], the order of the start-up,
      and the receive loop and the shutdown of its threads as a step relation,
      for both outcomes of the two calls of libnl's and the kernel's that
      decide it ([calls]).

    ** Conventions

    The source's names are kept.  What a call of code outside the repository
    does (an allocation that fails, [copy_from_user], [d_path], a read of a
    file) is an argument of the definition that makes the call, in the order of
    the calls, so that each theorem holds for every outcome; the functional
    parameters (hashes, clock, VFS, crypto API) are class or record arguments
    with the documented facts the code relies on as laws, and each is
    instantiated in the examples (module [Examples] or [...Examples] at the
    end of a file).  An operation that holds its lock from start to end is one
    transition; where it drops the lock, it is several.

    Fixed-width integers are [Z]s, reduced where the C arithmetic wraps
    ([u8], [u32], [u64]).  Jiffies are taken below 2^63, where [time_before]
    agrees with the order on [Z], and what must be seen in one window within
    [clock_horizon] of its start (2^32 ms, where the 32-bit result of
    [jiffies_to_msecs] wraps).

    Loops without a structural argument take fuel: [bounded_loop]
    the length of the string, as each round moves on by a byte;
    sha256's loops and the quickselect of [find_quartile] return [option], and
    their theorems prove that the fuel given is never used up; [meta_loop],
    [fgets_loop] and avctl's [load_loop] the length of the text, as each line
    takes a byte; [quarantine_rows] the length of the reply, which
    [quarantine_rows_enough] shows to be enough; [read_response]
    the number of pieces and bytes still to come ([recv_size]), and
    [read_response_total] shows that it ends with more than that.

    Not modelled: the graphical console (Python); the YARA rules and the
    packaging.  libyara, libfuzzy, libnl, pthreads' and the kernel's own
    services are the parameters described above.  Messages on the standard
    error and printk texts are left out except where they decide something.
    The kernel tables that only name handlers (struct proc_ops, struct
    genl_ops) have no counterpart. *)

From Stdlib Require Import ZArith Lia.
From stdpp Require Import prelude list gmap.

#[export] Set Default Proof Using "Type".

Declare Scope av_scope.
Delimit Scope av_scope with av.

(** ** Machine integers

    A [w]-bit unsigned integer is a [Z] kept in range by an explicit
    reduction, written where the C arithmetic wraps. *)

Definition wrap (w x : Z) : Z := (x mod 2 ^ w)%Z.
Abbreviation u8 := (wrap 8).
Abbreviation u32 := (wrap 32).
Abbreviation u64 := (wrap 64).

Lemma wrap_small w x : (0 ≤ x < 2 ^ w)%Z → wrap w x = x.
Proof. intros. by apply Z.mod_small. Qed.

Lemma wrap_range w x : (0 ≤ w)%Z → (0 ≤ wrap w x < 2 ^ w)%Z.
Proof. intros. apply Z.mod_pos_bound. by apply Z.pow_pos_nonneg. Qed.

(** ** Error numbers (asm-generic/errno-base.h, asm-generic/errno.h).
    A call that fails returns the negated number. *)

Definition EPERM : Z := 1.
Definition ENOENT : Z := 2.
Definition ENOMEM : Z := 12.
Definition EFAULT : Z := 14.
Definition EEXIST : Z := 17.
Definition EINVAL : Z := 22.
Definition EFBIG : Z := 27.
Definition ENOSPC : Z := 28.
Definition EMSGSIZE : Z := 90.
Definition ENOTCONN : Z := 107.
Definition ETIMEDOUT : Z := 110.

(** PATH_MAX (linux/limits.h), the size of every path buffer, NUL included. *)
Definition PATH_MAX : nat := 4096.

(** ** Hints and tactics shared by the development *)

Create HintDb av.
#[export] Hint Resolve wrap_range : av.
Create Rewrite HintDb av_len.
#[export] Hint Rewrite @length_app @length_fmap @length_insert @length_alter
  @length_replicate : av_len.

(** Decide every comparison of naturals in the goal. *)
Ltac nat_tests :=
  repeat match goal with
  | |- context [(?a <? ?b)%nat] => destruct (Nat.ltb_spec a b)
  | |- context [(?a =? ?b)%nat] => destruct (Nat.eqb_spec a b)
  | |- context [(?a <=? ?b)%nat] => destruct (Nat.leb_spec a b)
  end.

(** Split every conjunction of the hypotheses and turn boolean tests into
    propositions. *)
Ltac to_prop :=
  repeat match goal with
  | H : _ && _ = true |- _ => apply andb_true_iff in H as [??]
  | H : _ || _ = false |- _ => apply orb_false_iff in H as [??]
  | H : negb _ = true |- _ => apply negb_true_iff in H
  | H : negb _ = false |- _ => apply negb_false_iff in H
  | H : bool_decide _ = true |- _ => apply bool_decide_eq_true in H
  | H : bool_decide _ = false |- _ => apply bool_decide_eq_false in H
  | H : (_ <=? _)%Z = true |- _ => apply Z.leb_le in H
  | H : (_ <=? _)%Z = false |- _ => apply Z.leb_gt in H
  | H : (_ <? _)%Z = true |- _ => apply Z.ltb_lt in H
  | H : (_ <? _)%Z = false |- _ => apply Z.ltb_ge in H
  | H : (_ =? _)%Z = true |- _ => apply Z.eqb_eq in H
  | H : (_ =? _)%Z = false |- _ => apply Z.eqb_neq in H
  end.

(** Case on every [if]/[match] scrutinee of the goal, keeping the equation. *)
Ltac branch :=
  match goal with
  | |- context [if ?b then _ else _] => destruct b eqn:?
  | |- context [match ?x with _ => _ end] => destruct x eqn:?
  end.

(** Run the branches of a computation in a hypothesis. *)
Ltac branch_in H :=
  match type of H with
  | context [if ?b then _ else _] => destruct b eqn:?
  | context [match ?x with _ => _ end] => destruct x eqn:?
  end.

(** ** Lists *)

Section lists.
Context {A : Type}.
Implicit Types (l : list A) (p : A → bool).

(** The list without its first element satisfying [p], if there is one. *)
Fixpoint del_first p l : option (list A) :=
  match l with
  | [] => None
  | x :: l' => if p x then Some l' else cons x <$> del_first p l'
  end.

(** The first element satisfying [p]. *)
Fixpoint find_first p l : option A :=
  match l with
  | [] => None
  | x :: l' => if p x then Some x else find_first p l'
  end.

(** Replace the first element satisfying [p]. *)
Fixpoint upd_first p (f : A → A) l : list A :=
  match l with
  | [] => []
  | x :: l' => if p x then f x :: l' else x :: upd_first p f l'
  end.

Lemma find_first_Some p l x :
  find_first p l = Some x → x ∈ l ∧ p x = true.
Proof.
  induction l as [|y l IH]; simpl; [done|].
  rewrite elem_of_cons. destruct (p y) eqn:?; intros; simplify_eq; [auto|].
  destruct (IH ltac:(done)). auto.
Qed.

Lemma find_first_None p l :
  find_first p l = None ↔ ∀ x, x ∈ l → p x = false.
Proof.
  induction l as [|y l IH]; simpl.
  - split; [by intros _ x ?%elem_of_nil|done].
  - setoid_rewrite elem_of_cons. destruct (p y) eqn:Hy; split; [done|..].
    + intros H. by rewrite (H y) in Hy by auto.
    + rewrite IH. intros H x [->|?]; auto.
    + rewrite IH. auto.
Qed.

Lemma find_first_ext p q l :
  (∀ x, x ∈ l → p x = q x) → find_first p l = find_first q l.
Proof.
  induction l as [|y l IH]; simpl; intros H; [done|].
  setoid_rewrite elem_of_cons in H.
  rewrite (H y), IH by auto. done.
Qed.

Lemma del_first_ext p q l :
  (∀ x, x ∈ l → p x = q x) → del_first p l = del_first q l.
Proof.
  induction l as [|y l IH]; simpl; intros H; [done|].
  setoid_rewrite elem_of_cons in H.
  rewrite (H y), IH by auto. done.
Qed.

Lemma del_first_find p l :
  match find_first p l with
  | Some x => ∃ l1 l2, l = l1 ++ x :: l2 ∧ del_first p l = Some (l1 ++ l2)
  | None => del_first p l = None
  end.
Proof.
  induction l as [|y l IH]; simpl; [done|].
  destruct (p y) eqn:?; [by exists [], l|].
  destruct (find_first p l).
  - destruct IH as (l1 & l2 & -> & ->). by exists (y :: l1), l2.
  - by rewrite IH.
Qed.

Lemma filter_all p l : (∀ x, x ∈ l → p x = true) → List.filter p l = l.
Proof.
  induction l as [|x l IH]; simpl; intros Hp; [done|].
  rewrite Hp by (by left). f_equal. apply IH. intros y ?. apply Hp. by right.
Qed.

Lemma existsb_ext_elem p q l :
  (∀ x, x ∈ l → p x = q x) → existsb p l = existsb q l.
Proof.
  induction l as [|x l IH]; simpl; intros Hp; [done|].
  rewrite Hp by (by left). f_equal. apply IH. intros y ?. apply Hp. by right.
Qed.

Lemma filter_ext_elem p q l :
  (∀ x, x ∈ l → p x = q x) → List.filter p l = List.filter q l.
Proof.
  induction l as [|x l IH]; simpl; intros Hp; [done|].
  rewrite Hp, IH; [done| |by left]. intros y ?. apply Hp. by right.
Qed.

Lemma upd_first_find p f l :
  match find_first p l with
  | Some x => ∃ l1 l2, l = l1 ++ x :: l2 ∧ upd_first p f l = l1 ++ f x :: l2
  | None => upd_first p f l = l
  end.
Proof.
  induction l as [|y l IH]; simpl; [done|].
  destruct (p y) eqn:?; [by exists [], l|].
  destruct (find_first p l).
  - destruct IH as (l1 & l2 & -> & ->). by exists (y :: l1), l2.
  - by rewrite IH.
Qed.

(** A list seen as an array, one slot split out. *)
Lemma concat_lookup_split (t : list (list A)) i c :
  t !! i = Some c →
  concat t = concat (take i t) ++ c ++ concat (drop (S i) t).
Proof.
  intros Hi. rewrite <- (take_drop_middle _ _ _ Hi) at 1.
  rewrite concat_app. done.
Qed.

Lemma concat_replicate_nil n : concat (replicate n (@nil A)) = [].
Proof. induction n; simpl; auto. Qed.

Lemma concat_insert_split (t : list (list A)) i c :
  i < length t →
  concat (<[i:=c]> t) = concat (take i t) ++ c ++ concat (drop (S i) t).
Proof.
  intros Hi. rewrite insert_take_drop by done. rewrite concat_app. done.
Qed.
End lists.

(** ** Arrays

    Reading an array of integers; the models keep every index in bounds. *)

Definition at_ (l : list Z) (i : nat) : Z := nth i l 0%Z.

Lemma at_app_l l l' i : i < length l → at_ (l ++ l') i = at_ l i.
Proof. intros. by apply app_nth1. Qed.

Lemma at_snoc l x : at_ (l ++ [x]) (length l) = x.
Proof. apply nth_middle. Qed.

Lemma at_lookup l i : i < length l → l !! i = Some (at_ l i).
Proof.
  intros Hi. unfold at_. rewrite nth_lookup.
  by destruct (lookup_lt_is_Some_2 l i Hi) as [x ->].
Qed.

Lemma at_insert l i x k :
  i < length l → at_ (<[i := x]> l) k = if k =? i then x else at_ l k.
Proof.
  intros Hi. unfold at_. rewrite !nth_lookup. destruct (Nat.eqb_spec k i) as [->|Hne].
  - by rewrite list_lookup_insert_eq.
  - by rewrite list_lookup_insert_ne.
Qed.
