(* ===== verification/CString.v ===== *)
(** * C strings

    The string functions of the kernel's and libc's C library that the source
    calls (lib/string.c, lib/ctype.c and lib/vsprintf.c of Linux, string.h),
    on C strings without their terminating NUL: a [cstr] is the list of the
    bytes before it.  Fixed-size destination buffers appear as the [size]
    argument of the copying functions, which truncate as the C ones do. *)

From Stdlib Require Import ZArith Lia Ascii String.
From stdpp Require Import prelude list strings.
From S2P Require Import Prelude.

Abbreviation cstr := (list ascii).

(** String literals. *)
Definition cs (s : String.string) : cstr := String.list_ascii_of_string s.
Arguments cs s%_string_scope.

Definition code (a : ascii) : Z := Z.of_N (N_of_ascii a).
Definition chr (z : Z) : ascii := ascii_of_N (Z.to_N z).

Definition NUL : ascii := chr 0.
Definition TAB : ascii := chr 9.
Definition LF : ascii := chr 10.
Definition CR : ascii := chr 13.
Definition SPACE : ascii := chr 32.
Definition SLASH : ascii := chr 47.
Definition DOT : ascii := chr 46.

Definition aeqb (a b : ascii) : bool := (code a =? code b)%Z.

(** ** Character classes (lib/ctype.c; the upper half is Latin-1) *)

Definition isupper (a : ascii) : bool :=
  ((65 <=? code a) && (code a <=? 90)
   || (192 <=? code a) && (code a <=? 222) && negb (code a =? 215))%Z.
Definition tolower (a : ascii) : ascii :=
  if isupper a then chr (code a + 32) else a.
Definition isxdigit (a : ascii) : bool :=
  ((48 <=? code a) && (code a <=? 57) || (65 <=? code a) && (code a <=? 70)
   || (97 <=? code a) && (code a <=? 102))%Z.
Definition isspace (a : ascii) : bool :=
  ((9 <=? code a) && (code a <=? 13) || (code a =? 32) || (code a =? 160))%Z.

(** ** Comparison: [true] stands for a result of 0 *)

Fixpoint strcmp_eq (s t : cstr) : bool :=
  match s, t with
  | [], [] => true
  | a :: s', b :: t' => aeqb a b && strcmp_eq s' t'
  | _, _ => false
  end.

Fixpoint strncmp_eq (n : nat) (s t : cstr) : bool :=
  match n, s, t with
  | O, _, _ => true
  | _, [], [] => true
  | S n', a :: s', b :: t' => aeqb a b && strncmp_eq n' s' t'
  | _, _, _ => false
  end.

Fixpoint strcasecmp_eq (s t : cstr) : bool :=
  match s, t with
  | [], [] => true
  | a :: s', b :: t' => aeqb (tolower a) (tolower b) && strcasecmp_eq s' t'
  | _, _ => false
  end.

Fixpoint strncasecmp_eq (n : nat) (s t : cstr) : bool :=
  match n, s, t with
  | O, _, _ => true
  | _, [], [] => true
  | S n', a :: s', b :: t' =>
      aeqb (tolower a) (tolower b) && strncasecmp_eq n' s' t'
  | _, _, _ => false
  end.

(** ** Searching *)

Fixpoint is_prefix (needle s : cstr) : bool :=
  match needle, s with
  | [], _ => true
  | a :: n', b :: s' => aeqb a b && is_prefix n' s'
  | _ :: _, [] => false
  end.

(** [strstr]: the suffix of [s] that starts at the first occurrence. *)
Fixpoint strstr (s needle : cstr) : option cstr :=
  if is_prefix needle s then Some s
  else match s with [] => None | _ :: s' => strstr s' needle end.

Fixpoint strchr (s : cstr) (c : ascii) : option cstr :=
  match s with
  | [] => None
  | a :: s' => if aeqb a c then Some s else strchr s' c
  end.

(** [strrchr]: the suffix that starts at the last occurrence. *)
Fixpoint strrchr (s : cstr) (c : ascii) : option cstr :=
  match s with
  | [] => None
  | a :: s' =>
      match strrchr s' c with
      | Some r => Some r
      | None => if aeqb a c then Some s else None
      end
  end.

Fixpoint take_while (p : ascii → bool) (s : cstr) : cstr :=
  match s with
  | [] => []
  | a :: s' => if p a then a :: take_while p s' else []
  end.

Fixpoint drop_while (p : ascii → bool) (s : cstr) : cstr :=
  match s with
  | [] => []
  | a :: s' => if p a then drop_while p s' else s
  end.

(** ** Copying *)

(** The C string held by a buffer: what precedes the first NUL. *)
Definition buf_str (b : cstr) : cstr := take_while (λ a, negb (aeqb a NUL)) b.

(** [strscpy(dst, src, size)] and [snprintf(dst, size, "%s", src)], [0 < size]. *)
Definition strscpy (src : cstr) (size : nat) : cstr := take (size - 1) src.

(** [strlcat(dst, src, size)]. *)
Definition strlcat (dst src : cstr) (size : nat) : cstr :=
  take (size - 1) (dst ++ src).

(** [strsep(&s, d)]: the token before the first delimiter, and what follows
    it ([None], the NULL [s], when there was no delimiter). *)
Fixpoint strsep (s : cstr) (d : ascii) : cstr * option cstr :=
  match s with
  | [] => ([], None)
  | a :: s' =>
      if aeqb a d then ([], Some s')
      else let '(tok, rest) := strsep s' d in (a :: tok, rest)
  end.

(** ** sscanf (lib/vsprintf.c), for formats made of [%Ns] and [%N[^\n]]
    conversions separated by blanks.  The result is the list of converted
    fields; its length is the return value. *)

Inductive conv :=
  | ConvS (w : nat)      (* %ws *)
  | ConvNotLf (w : nat). (* %w[^\n] *)

Definition skip_spaces : cstr → cstr := drop_while isspace.

Fixpoint scan_field (p : ascii → bool) (w : nat) (s : cstr) : cstr * cstr :=
  match s, w with
  | a :: s', S w' =>
      if p a then let '(tok, rest) := scan_field p w' s' in (a :: tok, rest)
      else ([], s)
  | _, _ => ([], s)
  end.

Fixpoint sscanf (fmt : list conv) (s : cstr) : list cstr :=
  match fmt, s with
  | [], _ | _, [] => []
  | ConvS w :: fmt', _ =>
      let '(tok, rest) := scan_field (λ a, negb (isspace a)) w (skip_spaces s) in
      tok :: sscanf fmt' (skip_spaces rest)
  | ConvNotLf w :: fmt', a :: _ =>
      if aeqb a LF then []
      else let '(tok, rest) := scan_field (λ a, negb (aeqb a LF)) w s in
           tok :: sscanf fmt' (skip_spaces rest)
  end.

(** ** Lemmas *)

Lemma code_range a : (0 ≤ code a < 256)%Z.
Proof. by destruct a as [[] [] [] [] [] [] [] []]. Qed.

Lemma chr_code a : chr (code a) = a.
Proof. unfold chr, code. by rewrite N2Z.id, ascii_N_embedding. Qed.

Lemma code_chr z : (0 ≤ z < 256)%Z → code (chr z) = z.
Proof.
  intros. unfold chr, code. rewrite N_ascii_embedding by lia. lia.
Qed.

Lemma aeqb_eq a b : aeqb a b = true ↔ a = b.
Proof.
  unfold aeqb. rewrite Z.eqb_eq. split; [|by intros ->].
  intros H. by rewrite <- (chr_code a), H, chr_code.
Qed.

Lemma aeqb_neq a b : aeqb a b = false ↔ a ≠ b.
Proof. rewrite <- aeqb_eq. by destruct (aeqb a b). Qed.

Lemma aeqb_refl a : aeqb a a = true.
Proof. by apply aeqb_eq. Qed.

Lemma isupper_tolower a : isupper (tolower a) = false.
Proof. by destruct a as [[] [] [] [] [] [] [] []]. Qed.

Lemma tolower_idem a : tolower (tolower a) = tolower a.
Proof. unfold tolower at 1. by rewrite isupper_tolower. Qed.

Lemma isxdigit_tolower a : isxdigit (tolower a) = isxdigit a.
Proof. by destruct a as [[] [] [] [] [] [] [] []]. Qed.

Lemma fmap_tolower_idem (s : cstr) : tolower <$> (tolower <$> s) = tolower <$> s.
Proof.
  rewrite <- list_fmap_compose. apply list_fmap_ext.
  intros. apply tolower_idem.
Qed.

Lemma strcmp_eq_spec s t : strcmp_eq s t = true ↔ s = t.
Proof.
  revert t. induction s as [|a s IH]; intros [|b t]; csimpl; [done..|].
  rewrite andb_true_iff, aeqb_eq, IH.
  split; [by intros [-> ->]|intros [= ??]; auto].
Qed.

Lemma strcasecmp_eq_spec s t :
  strcasecmp_eq s t = true ↔ tolower <$> s = tolower <$> t.
Proof.
  revert t. induction s as [|a s IH]; intros [|b t]; csimpl; [done..|].
  rewrite andb_true_iff, aeqb_eq, IH.
  split; [by intros [-> ->]|intros [= ??]; auto].
Qed.

Lemma strncasecmp_eq_spec n s t :
  strncasecmp_eq n s t = true ↔
  take n (tolower <$> s) = take n (tolower <$> t).
Proof.
  revert s t. induction n as [|n IH]; intros [|a s] [|b t]; csimpl; [done..|].
  rewrite andb_true_iff, aeqb_eq, IH.
  split; [by intros [-> ->]|intros [= ??]; auto].
Qed.

(** On two strings of at most [n] bytes the bound is irrelevant. *)
Lemma strncasecmp_eq_full n s t :
  length s ≤ n → length t ≤ n →
  strncasecmp_eq n s t = true ↔ tolower <$> s = tolower <$> t.
Proof.
  intros Hs Ht. rewrite strncasecmp_eq_spec, !take_ge; [done|..];
    by rewrite length_fmap.
Qed.

Lemma is_prefix_spec n s : is_prefix n s = true ↔ n `prefix_of` s.
Proof.
  revert s. induction n as [|a n IH]; intros s; simpl.
  - split; [intros _; apply prefix_nil|done].
  - destruct s as [|b s].
    + split; [done|]. by intros ?%prefix_nil_not.
    + rewrite andb_true_iff, aeqb_eq, IH. split.
      * intros [-> ?]. by apply prefix_cons.
      * intros H. split; [by eapply prefix_cons_inv_1|by eapply prefix_cons_inv_2].
Qed.

Lemma strncmp_eq_prefix n s :
  strncmp_eq (length n) s n = is_prefix n s.
Proof.
  revert s. induction n as [|a n IH]; intros [|b s]; simpl; [done..|].
  rewrite IH. f_equal. unfold aeqb. by rewrite Z.eqb_sym.
Qed.

Lemma strrchr_spec s c :
  match strrchr s c with
  | Some q => ∃ d b, s = d ++ c :: b ∧ q = c :: b ∧ c ∉ b
  | None => c ∉ s
  end.
Proof.
  induction s as [|a s IH]; simpl; [by apply not_elem_of_nil|].
  destruct (strrchr s c) as [q|].
  - destruct IH as (d&b&->&->&?). by exists (a :: d), b.
  - destruct (aeqb a c) eqn:Ha.
    + apply aeqb_eq in Ha as ->. by exists [], s.
    + apply aeqb_neq in Ha. by apply not_elem_of_cons.
Qed.

Lemma take_while_all p s : Forall (λ a, p a = true) s → take_while p s = s.
Proof. induction 1 as [|a s Ha _ IH]; simpl; [done|]. by rewrite Ha, IH. Qed.

Lemma take_while_Forall p s : Forall (λ a, p a = true) (take_while p s).
Proof. induction s as [|a s IH]; simpl; [done|]. destruct (p a) eqn:?; auto. Qed.

Lemma drop_while_suffix p s : drop_while p s `suffix_of` s.
Proof.
  induction s as [|a s IH]; simpl; [done|]. destruct (p a); [|done].
  by apply suffix_cons_r.
Qed.

Lemma drop_while_app p s t :
  Forall (λ a, p a = true) s →
  match t with [] => True | a :: _ => p a = false end →
  drop_while p (s ++ t) = t.
Proof.
  intros Hs Ht. induction Hs as [|a s Ha _ IH]; simpl.
  - destruct t as [|a t]; simpl; [done|]. by rewrite Ht.
  - by rewrite Ha.
Qed.

Lemma strscpy_fit s n : length s < n → strscpy s n = s.
Proof. intros. unfold strscpy. apply take_ge. lia. Qed.

Lemma strscpy_length s n : 0 < n → length (strscpy s n) < n.
Proof. unfold strscpy. rewrite length_take. lia. Qed.

Lemma scan_field_app p w tok s :
  Forall (λ a, p a = true) tok → length tok ≤ w →
  match s with [] => True | a :: _ => p a = false end →
  scan_field p w (tok ++ s) = (tok, s).
Proof.
  revert w. induction tok as [|a tok IH]; intros w Htok Hw Hs; simpl in *.
  - destruct s as [|a s]; [by destruct w|].
    destruct w; simpl; [done|]. by rewrite Hs.
  - apply Forall_cons in Htok as [Ha ?]. destruct w as [|w]; [lia|]. simpl.
    rewrite Ha, IH by (done || lia). done.
Qed.

Lemma isxdigit_not_space a : isxdigit a = true → isspace a = false ∧ aeqb a NUL = false.
Proof. by destruct a as [[] [] [] [] [] [] [] []]. Qed.

Lemma skip_spaces_id s :
  match s with [] => True | a :: _ => isspace a = false end → skip_spaces s = s.
Proof. destruct s as [|a s]; [done|]. unfold skip_spaces. simpl. by intros ->. Qed.

(** A blank-terminated word is converted whole. *)
Lemma sscanf_word w fmt tok s :
  tok ≠ [] → Forall (λ a, isspace a = false) tok → length tok ≤ w →
  sscanf (ConvS w :: fmt) (tok ++ SPACE :: s) = tok :: sscanf fmt (skip_spaces s).
Proof.
  intros Hne Hf Hw. destruct tok as [|a tok]; [done|]. simpl.
  change (a :: tok ++ SPACE :: s) with ((a :: tok) ++ SPACE :: s).
  rewrite skip_spaces_id by (by apply Forall_cons in Hf as [? _]).
  rewrite scan_field_app; [done| |done|done].
  eapply Forall_impl; [done|]. simpl. by intros ? ->.
Qed.

(** A line remainder is converted up to its newline. *)
Lemma sscanf_line w fmt tok s :
  tok ≠ [] → Forall (λ a, a ≠ LF) tok → length tok ≤ w →
  sscanf (ConvNotLf w :: fmt) (tok ++ LF :: s) = tok :: sscanf fmt (skip_spaces (LF :: s)).
Proof.
  intros Hne Hf Hw. destruct tok as [|a tok]; [done|]. simpl.
  change (a :: tok ++ LF :: s) with ((a :: tok) ++ LF :: s).
  assert (aeqb a LF = false) as -> by (apply aeqb_neq; by apply Forall_cons in Hf as [? _]).
  rewrite scan_field_app; [done| |done|done].
  eapply Forall_impl; [done|]. intros x Hx. simpl. apply aeqb_neq in Hx. by rewrite Hx.
Qed.

Create Rewrite HintDb av_str.
#[export] Hint Rewrite strcmp_eq_spec strcasecmp_eq_spec is_prefix_spec
  aeqb_eq aeqb_neq : av_str.
#[export] Hint Resolve aeqb_refl strscpy_length : av.

(** Only the lemmas above unfold these. *)
Arguments cs : simpl never.
Arguments sscanf : simpl never.
Arguments scan_field : simpl never.
Arguments buf_str : simpl never.
Arguments strscpy : simpl never.
Arguments strlcat : simpl never.
