(* ===== verification/Hashtable.v ===== *)
(** * The kernel's fixed-size hash table (linux/hashtable.h)

    DEFINE_HASHTABLE gives an array of [2 ^ bits] chains.  [hash_add] puts a
    node at the head of the chain [hash_min] selects for its key,
    [hash_for_each_possible] walks one chain, [hash_for_each] walks them all
    in index order and [hash_del] unlinks one node.  Every table of the
    module (signatures, trusted hashes, protected paths, behaviour entries)
    is one of these; the section at the end shows that such a table, kept
    duplicate-free, is a finite map. *)

From Stdlib Require Import ZArith Lia Ascii.
From stdpp Require Import prelude list gmap.
From S2P Require Import Prelude.

Section operations.
Context {A : Type}.
Implicit Types (t : list (list A)) (p : A → bool).

Definition hash_init (nb : nat) : list (list A) := replicate nb [].

(** What [hash_for_each_possible] walks. *)
Definition hash_chain t (b : nat) : list A := default [] (t !! b).

(** What [hash_for_each] walks. *)
Definition hash_all t : list A := concat t.

Definition hash_add t (b : nat) (e : A) : list (list A) :=
  <[b := e :: hash_chain t b]> t.

(** Walk the chain up to the first node that satisfies [p] and [hash_del] it. *)
Definition hash_del_first t (b : nat) p : option (list (list A)) :=
  (λ c, <[b := c]> t) <$> del_first p (hash_chain t b).

(** [hash_for_each_possible_safe] with [hash_del] of every node that
    satisfies [p]. *)
Definition hash_del_all t (b : nat) p : list (list A) :=
  <[b := List.filter (λ e, negb (p e)) (hash_chain t b)]> t.

(** Mutate, in place, the first node that satisfies [p]. *)
Definition hash_upd_first t (b : nat) p (f : A → A) : list (list A) :=
  <[b := upd_first p f (hash_chain t b)]> t.

(** [hash_for_each_safe] with, per node, [hash_del] ([None]) or an update in
    place. *)
Definition hash_sweep (g : A → option A) t : list (list A) :=
  (λ c : list A, omap g c) <$> t.

Lemma hash_all_init nb : hash_all (hash_init nb) = [].
Proof. apply concat_replicate_nil. Qed.
End operations.

Arguments hash_init : simpl never.
Arguments hash_add : simpl never.
#[export] Hint Rewrite @hash_all_init : av_len.

(** ** Duplicate-free tables are finite maps *)

Section keyed.
Context {A K : Type} `{Countable K}.
Context (key : A → K) (bkt : K → nat) (nb : nat).
Implicit Types (t : list (list A)) (e : A) (k : K).

(** Every node sits in the chain of its key, and no key occurs twice. *)
Record ht_ok t : Prop := {
  ht_len : length t = nb;
  ht_place : ∀ i c e, t !! i = Some c → e ∈ c → bkt (key e) = i;
  ht_nodup : NoDup (key <$> hash_all t);
}.

Definition ht_map t : gmap K A := list_to_map ((λ e, (key e, e)) <$> hash_all t).

Definition keyb k e : bool := bool_decide (key e = k).

Lemma fst_keyed (l : list A) : ((λ e, (key e, e)) <$> l).*1 = key <$> l.
Proof. rewrite <- list_fmap_compose. by apply list_fmap_ext. Qed.

Lemma hash_all_elem t e :
  e ∈ hash_all t ↔ ∃ i c, t !! i = Some c ∧ e ∈ c.
Proof.
  unfold hash_all. induction t as [|c t IH]; simpl.
  - split; [by intros ?%elem_of_nil|]. by intros (?&?&?&?).
  - rewrite elem_of_app, IH. split.
    + intros [?|(i&c'&?&?)]; [by exists 0, c|by exists (S i), c'].
    + intros ([|i]&c'&?&?); simplify_eq/=; [auto|]. right. by exists i, c'.
Qed.

Lemma ht_init_ok : ht_ok (hash_init nb).
Proof.
  unfold hash_init. split.
  - apply length_replicate.
  - intros i c e [-> _]%lookup_replicate ?%elem_of_nil. done.
  - unfold hash_all. induction nb; simpl; [constructor|done].
Qed.

Lemma ht_init_map : ht_map (hash_init nb) = ∅.
Proof. unfold ht_map, hash_all, hash_init. induction nb; simpl; auto. Qed.

Lemma ht_map_Some t k e :
  ht_ok t → ht_map t !! k = Some e ↔ e ∈ hash_all t ∧ key e = k.
Proof.
  intros Hok. unfold ht_map. rewrite <- elem_of_list_to_map.
  - rewrite list_elem_of_fmap. split.
    + intros (e'&[= -> ->]&?). done.
    + intros [? <-]. by exists e.
  - rewrite fst_keyed. apply Hok.
Qed.

Lemma ht_map_elem t e :
  ht_ok t → e ∈ hash_all t ↔ ht_map t !! key e = Some e.
Proof. intros Hok. rewrite ht_map_Some by done. split; [done|by intros [? _]]. Qed.

Lemma ht_map_None t k :
  ht_ok t → ht_map t !! k = None ↔ ∀ e, e ∈ hash_all t → key e ≠ k.
Proof.
  intros Hok. rewrite eq_None_not_Some. split.
  - intros Hn e ??. apply Hn. exists e. by apply ht_map_Some.
  - intros Hn [e [? <-]%ht_map_Some]; [|done]. by apply (Hn e).
Qed.

Lemma ht_map_size t : ht_ok t → size (ht_map t) = length (hash_all t).
Proof.
  intros [_ _ Hnd]. unfold ht_map, hash_all in *.
  induction (concat t) as [|e l IH]; csimpl in *; [done|].
  apply NoDup_cons in Hnd as [Hn ?].
  rewrite map_size_insert_None, IH; [done..|].
  apply not_elem_of_list_to_map_1. by rewrite fst_keyed.
Qed.

Lemma hash_chain_elem t b e : e ∈ hash_chain t b → e ∈ hash_all t.
Proof.
  unfold hash_chain. intros He. apply hash_all_elem.
  destruct (t !! b) as [c|] eqn:?; simpl in *; [by exists b, c|].
  by apply elem_of_nil in He.
Qed.

Lemma ht_chain_elem t e :
  ht_ok t → e ∈ hash_all t → e ∈ hash_chain t (bkt (key e)).
Proof.
  intros Hok (i&c&Hi&?)%hash_all_elem. unfold hash_chain.
  rewrite (ht_place _ Hok i c e), Hi by done. done.
Qed.

(** Looking a key up in its chain is looking it up in the map. *)
Lemma ht_find t k :
  ht_ok t → find_first (keyb k) (hash_chain t (bkt k)) = ht_map t !! k.
Proof.
  intros Hok. destruct (find_first _ _) as [e|] eqn:Hf; symmetry.
  - apply find_first_Some in Hf as [He Hk]. unfold keyb in Hk. to_prop.
    apply ht_map_Some; eauto using hash_chain_elem.
  - rewrite find_first_None in Hf. apply ht_map_None; [done|].
    intros e He <-. specialize (Hf e (ht_chain_elem _ _ Hok He)).
    unfold keyb in Hf. by to_prop.
Qed.

(** One node more, wherever it is linked, is one binding more. *)
Lemma ht_map_cons_perm (l l' : list A) e :
  NoDup (key <$> l) → l ≡ₚ e :: l' →
  list_to_map (M := gmap K A) ((λ e, (key e, e)) <$> l) =
  <[key e := e]> (list_to_map ((λ e, (key e, e)) <$> l')).
Proof.
  intros Hnd Hp.
  rewrite (list_to_map_proper _ ((λ e, (key e, e)) <$> (e :: l'))).
  - done.
  - by rewrite fst_keyed.
  - by rewrite Hp.
Qed.

Lemma hash_chain_split t b :
  b < length t →
  hash_all t = concat (take b t) ++ hash_chain t b ++ concat (drop (S b) t).
Proof.
  intros [c Hc]%lookup_lt_is_Some. unfold hash_all, hash_chain.
  rewrite Hc. by apply concat_lookup_split.
Qed.

Lemma hash_insert_split t b c :
  b < length t →
  hash_all (<[b:=c]> t) = concat (take b t) ++ c ++ concat (drop (S b) t).
Proof. apply concat_insert_split. Qed.

(** Rewriting one chain with nodes of that chain keeps the layout. *)
Lemma ht_place_insert t b c :
  ht_ok t → (∀ e, e ∈ c → bkt (key e) = b) →
  ∀ i c' e, <[b:=c]> t !! i = Some c' → e ∈ c' → bkt (key e) = i.
Proof.
  intros Hok Hc i c' e. rewrite list_lookup_insert_Some.
  intros [(->&<-&_)|[_ ?]] ?; [auto|by eapply ht_place].
Qed.

Lemma hash_chain_place t b e :
  ht_ok t → e ∈ hash_chain t b → bkt (key e) = b.
Proof.
  unfold hash_chain. intros Hok. destruct (t !! b) eqn:?; simpl.
  - intros. by eapply ht_place.
  - by intros ?%elem_of_nil.
Qed.

Lemma hash_add_perm t b e :
  b < length t → hash_all (hash_add t b e) ≡ₚ e :: hash_all t.
Proof.
  intros. unfold hash_add. rewrite hash_insert_split by done.
  rewrite (hash_chain_split t b) by done. simpl.
  by rewrite <- Permutation_middle.
Qed.

Lemma ht_add t e :
  ht_ok t → bkt (key e) < nb → ht_map t !! key e = None →
  ht_ok (hash_add t (bkt (key e)) e) ∧
  ht_map (hash_add t (bkt (key e)) e) = <[key e := e]> (ht_map t).
Proof.
  intros Hok Hb Hn. assert (Hl := ht_len _ Hok).
  assert (Hp := hash_add_perm t (bkt (key e)) e ltac:(lia)).
  assert (ht_ok (hash_add t (bkt (key e)) e)) as Hok'.
  { split.
    - unfold hash_add. by rewrite length_insert.
    - apply ht_place_insert; [done|].
      intros e' [->|?]%elem_of_cons; [done|by eapply hash_chain_place].
    - rewrite Hp. csimpl. apply NoDup_cons. split; [|apply Hok].
      intros (e'&?&?)%list_elem_of_fmap.
      by eapply (proj1 (ht_map_None t (key e) Hok) Hn e'). }
  split; [done|]. apply ht_map_cons_perm; [apply Hok'|done].
Qed.

(** The nodes a chain rewrite leaves, when it drops exactly [e]. *)
Lemma ht_drop t b c1 c2 e :
  ht_ok t → b < length t → hash_chain t b = c1 ++ e :: c2 →
  ht_ok (<[b := c1 ++ c2]> t) ∧
  ht_map (<[b := c1 ++ c2]> t) = delete (key e) (ht_map t) ∧
  e :: hash_all (<[b := c1 ++ c2]> t) ≡ₚ hash_all t.
Proof.
  intros Hok Hb Hc.
  assert (e :: hash_all (<[b := c1 ++ c2]> t) ≡ₚ hash_all t) as Hp.
  { rewrite hash_insert_split, (hash_chain_split t b), Hc by done.
    rewrite <- !(assoc_L (++)). simpl. by rewrite <- !Permutation_middle. }
  assert (Hnd := ht_nodup _ Hok). rewrite <- Hp in Hnd. csimpl in Hnd.
  apply NoDup_cons in Hnd as [Hnew Hnd].
  assert (ht_ok (<[b := c1 ++ c2]> t)) as Hok'.
  { split; [by rewrite length_insert; apply Hok| |done].
    apply ht_place_insert; [done|]. intros e' He'.
    apply (hash_chain_place t b); [done|]. rewrite Hc, elem_of_app, elem_of_cons.
    apply elem_of_app in He' as [?|?]; auto. }
  split_and!; [done| |done].
  assert (ht_map t !! key e = Some e) as He.
  { apply ht_map_Some; [done|]. split; [|done]. apply (hash_chain_elem t b).
    rewrite Hc, elem_of_app, elem_of_cons. auto. }
  transitivity (delete (key e) (<[key e := e]> (ht_map (<[b := c1 ++ c2]> t)))).
  - rewrite delete_insert_id; [done|]. apply ht_map_None; [done|].
    intros e' ? Hk. apply Hnew. rewrite <- Hk. by apply list_elem_of_fmap_2.
  - f_equal. symmetry. apply ht_map_cons_perm; [apply Hok|done].
Qed.

(** Deleting the first node of a key's chain with that key. *)
Lemma ht_del t k :
  ht_ok t → bkt k < nb →
  match ht_map t !! k, hash_del_first t (bkt k) (keyb k) with
  | Some e, Some t' =>
      ht_ok t' ∧ ht_map t' = delete k (ht_map t) ∧ e :: hash_all t' ≡ₚ hash_all t
  | None, None => True
  | _, _ => False
  end.
Proof.
  intros Hok Hb. assert (Hf := del_first_find (keyb k) (hash_chain t (bkt k))).
  unfold hash_del_first. rewrite ht_find in Hf by done.
  destruct (ht_map t !! k) as [e|] eqn:Hk; [|by rewrite Hf].
  destruct Hf as (c1&c2&Hc&->). simpl.
  apply ht_map_Some in Hk as [_ <-]; [|done].
  apply ht_drop; [done| |done]. by rewrite (ht_len _ Hok).
Qed.

(** Deleting the first node of a chain that satisfies any test. *)
Lemma ht_del_any t b p t' :
  ht_ok t → b < nb → hash_del_first t b p = Some t' →
  ∃ e, find_first p (hash_chain t b) = Some e ∧ e ∈ hash_all t ∧ p e = true ∧
    ht_ok t' ∧ ht_map t' = delete (key e) (ht_map t) ∧
    e :: hash_all t' ≡ₚ hash_all t.
Proof.
  intros Hok Hb. assert (Hf := del_first_find p (hash_chain t b)).
  unfold hash_del_first. destruct (find_first p _) as [e|] eqn:He; [|by rewrite Hf].
  destruct Hf as (c1&c2&Hc&->). simpl. intros [= <-]. exists e.
  apply find_first_Some in He as [? ?].
  split_and!; eauto using hash_chain_elem; eapply ht_drop; eauto;
    by rewrite (ht_len _ Hok).
Qed.

Lemma hash_chain_nodup t b :
  ht_ok t → NoDup (key <$> hash_chain t b).
Proof.
  intros Hok. unfold hash_chain. destruct (t !! b) as [c|] eqn:Hc; simpl; [|constructor].
  pose proof (ht_nodup _ Hok) as Hnd. unfold hash_all in Hnd.
  rewrite (concat_lookup_split _ _ _ Hc), !fmap_app in Hnd.
  apply NoDup_app in Hnd as (_&_&Hnd). by apply NoDup_app in Hnd as [? _].
Qed.

(** Deleting every node of a key's chain with that key. *)
Lemma ht_del_all t k :
  ht_ok t → bkt k < nb →
  existsb (keyb k) (hash_chain t (bkt k)) = bool_decide (is_Some (ht_map t !! k)) ∧
  ht_ok (hash_del_all t (bkt k) (keyb k)) ∧
  ht_map (hash_del_all t (bkt k) (keyb k)) = delete k (ht_map t).
Proof.
  intros Hok Hb. assert (Hnd := hash_chain_nodup t (bkt k) Hok).
  assert (Hf := del_first_find (keyb k) (hash_chain t (bkt k))).
  unfold hash_del_all.
  destruct (find_first (keyb k) _) as [e|] eqn:Hfind;
    rewrite ht_find in Hfind by done; rewrite Hfind.
  - destruct Hf as (c1&c2&Hc&_). pose proof Hfind as [_ <-]%ht_map_Some; [|done].
    rewrite Hc, fmap_app in Hnd. csimpl in Hnd.
    apply NoDup_app in Hnd as (_&Hd1&[Hd2 _]%NoDup_cons).
    rewrite Hc.
    assert (List.filter (λ e0, negb (keyb (key e) e0)) (c1 ++ e :: c2) = c1 ++ c2) as ->.
    { rewrite List.filter_app. simpl. unfold keyb at 2.
      rewrite bool_decide_true by done. simpl. f_equal; apply filter_all; intros x Hx.
      - unfold keyb. rewrite bool_decide_false; [done|]. intros Heq.
        apply (Hd1 (key x)); [by apply list_elem_of_fmap_2|]. rewrite Heq. by left.
      - unfold keyb. rewrite bool_decide_false; [done|]. intros Heq.
        apply Hd2. rewrite <- Heq. by apply list_elem_of_fmap_2. }
    split.
    + rewrite existsb_app. simpl. unfold keyb at 2.
      rewrite !bool_decide_true by done. by rewrite orb_true_r.
    + destruct (ht_drop t (bkt (key e)) c1 c2 e) as (?&?&_); [done|by rewrite (ht_len _ Hok)|done|done].
  - rewrite bool_decide_false by (by intros [??]). rewrite delete_id by done.
    assert (∀ x, x ∈ hash_chain t (bkt k) → keyb k x = false) as Hno.
    { intros x Hx. unfold keyb. apply bool_decide_false. intros Heq.
      apply (proj1 (ht_map_None t k Hok) Hfind x); [by eapply hash_chain_elem|done]. }
    rewrite filter_all by (intros x Hx; by rewrite Hno).
    assert (<[bkt k := hash_chain t (bkt k)]> t = t) as ->.
    { unfold hash_chain. destruct (lookup_lt_is_Some_2 t (bkt k)) as [c Hc];
        [by rewrite (ht_len _ Hok)|]. rewrite Hc. by apply list_insert_id. }
    split_and!; [|done..]. apply not_true_iff_false. rewrite existsb_exists.
    intros (x&Hx%list_elem_of_In&Hk). by rewrite Hno in Hk.
Qed.

(** Mutating, in place, the node of a key without changing its key. *)
Lemma ht_upd t k f e :
  ht_ok t → bkt k < nb → (∀ x, key (f x) = key x) → ht_map t !! k = Some e →
  ht_ok (hash_upd_first t (bkt k) (keyb k) f) ∧
  ht_map (hash_upd_first t (bkt k) (keyb k) f) = <[k := f e]> (ht_map t).
Proof.
  intros Hok Hb Hf Hk.
  assert (Hu := upd_first_find (keyb k) f (hash_chain t (bkt k))).
  rewrite ht_find, Hk in Hu by done. destruct Hu as (c1&c2&Hc&Hu).
  unfold hash_upd_first. rewrite Hu.
  apply ht_map_Some in Hk as [_ <-]; [|done].
  assert (Hl : bkt (key e) < length t) by (rewrite (ht_len _ Hok); done).
  destruct (ht_drop t _ c1 c2 e Hok Hl Hc) as (Hok1&Hm1&Hp1).
  assert (hash_all (<[bkt (key e) := c1 ++ f e :: c2]> t) ≡ₚ
          f e :: hash_all (<[bkt (key e) := c1 ++ c2]> t)) as Hp.
  { rewrite !hash_insert_split by done.
    rewrite <- !(assoc_L (++)). simpl. by rewrite <- !Permutation_middle. }
  assert (ht_ok (<[bkt (key e) := c1 ++ f e :: c2]> t)) as Hok2.
  { split; [by rewrite length_insert; apply Hok| |].
    - apply ht_place_insert; [done|]. intros e' He'.
      assert (∀ x, x ∈ c1 ++ e :: c2 → bkt (key x) = bkt (key e)) as Hpl.
      { rewrite <- Hc. intros x. by apply hash_chain_place. }
      rewrite elem_of_app, elem_of_cons in He'.
      destruct He' as [?|[->|?]]; [|by rewrite Hf|];
        apply Hpl; rewrite elem_of_app, elem_of_cons; auto.
    - rewrite Hp. csimpl. rewrite Hf. change (NoDup (key <$> (e :: hash_all (<[bkt (key e):=c1 ++ c2]> t)))).
      rewrite Hp1. apply Hok. }
  split; [done|].
  rewrite <- insert_delete_eq, <- Hm1.
  etrans; [eapply ht_map_cons_perm; [apply Hok2|exact Hp]|by rewrite Hf].
Qed.
(** Sweeping the table: every node is kept, mutated in place or unlinked. *)
Lemma hash_sweep_all t (g : A → option A) :
  hash_all (hash_sweep g t) = omap g (hash_all t).
Proof.
  unfold hash_all, hash_sweep. induction t as [|c t IH]; csimpl; [done|].
  by rewrite IH, omap_app.
Qed.

Lemma ht_sweep t (g : A → option A) :
  ht_ok t → (∀ e e', g e = Some e' → key e' = key e) →
  ht_ok (hash_sweep g t) ∧ ht_map (hash_sweep g t) = omap g (ht_map t).
Proof.
  intros Hok Hkey.
  assert (∀ l, NoDup (key <$> l) → NoDup (key <$> omap g l) ∧
    ∀ k, k ∈ key <$> omap g l → k ∈ key <$> l) as Hnd.
  { intros l. induction l as [|e l IH]; csimpl; [done|].
    intros [Hne Hl]%NoDup_cons. destruct (IH Hl) as [IHn IHs].
    destruct (g e) as [e'|] eqn:Hg; csimpl.
    - rewrite (Hkey e e' Hg). split; [apply NoDup_cons; auto|].
      intros k. rewrite !elem_of_cons. intros [?|?]; auto.
    - split; [done|]. intros k ?. apply elem_of_cons. auto. }
  assert (ht_ok (hash_sweep g t)) as Hok'.
  { split.
    - unfold hash_sweep. rewrite length_fmap. apply Hok.
    - intros i c e. unfold hash_sweep. rewrite list_lookup_fmap. intros (c0&Hc&->)%fmap_Some He.
      apply list_elem_of_omap in He as (e0&He0&Hg). rewrite (Hkey _ _ Hg).
      by eapply ht_place.
    - rewrite hash_sweep_all. apply Hnd, Hok. }
  split; [done|]. apply map_eq. intros k. rewrite lookup_omap.
  destruct (ht_map t !! k) as [e|] eqn:He; simpl.
  - apply ht_map_Some in He as [He <-]; [|done]. destruct (g e) as [e'|] eqn:Hg.
    + apply ht_map_Some; [done|]. split; [|by eapply Hkey].
      rewrite hash_sweep_all. apply list_elem_of_omap. eauto.
    + apply ht_map_None; [done|]. intros e' He' Hk. rewrite hash_sweep_all in He'.
      apply list_elem_of_omap in He' as (e0&He0&Hg0).
      assert (e0 = e) as ->; [|congruence].
      rewrite (Hkey _ _ Hg0) in Hk. apply ht_map_elem in He0; [|done].
      apply ht_map_elem in He; [|done]. rewrite Hk in He0. congruence.
  - apply ht_map_None; [done|]. intros e' He' Hk. rewrite hash_sweep_all in He'.
    apply list_elem_of_omap in He' as (e0&He0&Hg0).
    rewrite (Hkey _ _ Hg0) in Hk. by apply (proj1 (ht_map_None _ _ Hok) He e0).
Qed.
End keyed.

(** ** The hash functions, which are the kernel's

    [full_name_hash] (linux/stringhash.h) and [hash_min] (linux/hashtable.h)
    are code outside this repository.  All the module relies on is that a
    hash is a function of the hashed bytes and that [hash_min] stays below
    the number of chains. *)

Class KernelHash := {
  full_name_hash : list Ascii.ascii → Z;
  hash_min : Z → nat → nat;
  hash_min_range : ∀ v bits, hash_min v bits < 2 ^ bits;
}.
#[export] Hint Resolve hash_min_range : av.

(** A concrete instance, for the evaluations: Fibonacci hashing
    (linux/hash.h) of a polynomial string hash. *)
Module ToyHash.
Definition poly (s : list Ascii.ascii) : Z :=
  foldl (λ h c, u32 (h * 31 + Z.of_N (Ascii.N_of_ascii c))) 7%Z s.
Definition fib (v : Z) (bits : nat) : nat :=
  Z.to_nat (u32 (v * 0x61C88647) / 2 ^ 16) `mod` 2 ^ bits.

Lemma fib_range v bits : fib v bits < 2 ^ bits.
Proof. apply Nat.mod_upper_bound. by apply Nat.pow_nonzero. Qed.

#[export] Instance toy_hash : KernelHash :=
  {| full_name_hash := poly; hash_min := fib; hash_min_range := fib_range |}.
End ToyHash.
