(* ===== verification/SigTable.v ===== *)
(** * The signature table: av/sigtable.c, av/sigtable.h

    The mutex-protected hash table of known-bad digests and its
    /proc/kernel_av_signatures interface.  Each operation runs under
    [sig_lock], so it is one transition of [sigtable]; the outcome of
    [kmalloc], [capable] and [copy_from_user] are arguments. *)

From Stdlib Require Import ZArith Lia Ascii String.
From stdpp Require Import prelude list gmap strings.
From S2P Require Import Prelude CString Hashtable.

Local Open Scope Z_scope.

(** ** Data *)

Definition AV_SIG_NAME_LEN : nat := 64.
Definition AV_HASH_HEX_MAXLEN : nat := 64.

Inductive av_algo :=
  | AV_ALGO_MD5
  | AV_ALGO_SHA1
  | AV_ALGO_SHA256
  | AV_ALGO_COUNT.

#[export] Instance av_algo_eq_dec : EqDecision av_algo.
Proof. solve_decision. Defined.

(** The enumerator's value. *)
Definition algo_index (a : av_algo) : nat :=
  match a with
  | AV_ALGO_MD5 => 0 | AV_ALGO_SHA1 => 1 | AV_ALGO_SHA256 => 2 | AV_ALGO_COUNT => 3
  end.

#[export] Instance av_algo_countable : Countable av_algo.
Proof.
  apply (inj_countable' algo_index (λ n, match n with
    | 0 => AV_ALGO_MD5 | 1 => AV_ALGO_SHA1 | 2 => AV_ALGO_SHA256
    | _ => AV_ALGO_COUNT end%nat)).
  by intros [].
Defined.

Record av_digest := { md5 : cstr; sha1 : cstr; sha256 : cstr }.

Record av_sig_entry := { se_algo : av_algo; se_name : cstr; se_hex : cstr }.

Definition SIGTABLE_BITS : nat := 10.
Definition MAX_SIG_ENTRIES : Z := 8192.

Record sigtable := {
  sig_table : list (list av_sig_entry);
  sig_count : Z;
  sig_count_algo : list Z;
}.

Definition algo_hexlen (a : av_algo) : nat :=
  nth (algo_index a) [32; 40; 64]%nat 0%nat.
Definition algo_names (a : av_algo) : cstr :=
  nth (algo_index a) [cs "md5"; cs "sha1"; cs "sha256"] [].

(** ** Operations *)

Section ops.
Context `{KernelHash}.

Definition hex_key (hex : cstr) : Z := full_name_hash hex.

(** The chain [hash_add]/[hash_for_each_possible] select in [sig_table]. *)
Definition sig_bucket (hex : cstr) : nat := hash_min (hex_key hex) SIGTABLE_BITS.

Definition hex_tolower (hex : cstr) : cstr := tolower <$> hex.

Definition digest_for_algo (d : av_digest) (algo : av_algo) : option cstr :=
  match algo with
  | AV_ALGO_MD5 => Some (md5 d)
  | AV_ALGO_SHA1 => Some (sha1 d)
  | AV_ALGO_SHA256 => Some (sha256 d)
  | AV_ALGO_COUNT => None
  end.

Definition parse_algo (s : cstr) : option av_algo :=
  if strcasecmp_eq s (cs "md5") then Some AV_ALGO_MD5
  else if strcasecmp_eq s (cs "sha1") then Some AV_ALGO_SHA1
  else if strcasecmp_eq s (cs "sha256") then Some AV_ALGO_SHA256
  else None.

(** The test the three walks of a chain share. *)
Definition sig_same (algo : av_algo) (hex : cstr) (e : av_sig_entry) : bool :=
  bool_decide (se_algo e = algo)
  && strncasecmp_eq (algo_hexlen algo) (se_hex e) hex.

Definition bump_algo (algo : av_algo) (d : Z) (l : list Z) : list Z :=
  alter (λ c, u64 (c + d)) (algo_index algo) l.

Definition av_sigtable_add (kmalloc_ok : bool) (algo : av_algo)
    (hex name : cstr) (st : sigtable) : Z * sigtable :=
  if (algo_index AV_ALGO_COUNT <=? algo_index algo)%nat then (- EINVAL, st)
  else if negb (length hex =? algo_hexlen algo)%nat then (- EINVAL, st)
  else if negb (forallb isxdigit hex) then (- EINVAL, st)
  else if negb kmalloc_ok then (- ENOMEM, st)
  else
    let e := {| se_algo := algo;
                se_hex := hex_tolower (strscpy hex (AV_HASH_HEX_MAXLEN + 1));
                se_name := strscpy name AV_SIG_NAME_LEN |} in
    let chain := hash_chain (sig_table st) (sig_bucket (se_hex e)) in
    match find_first (sig_same algo (se_hex e)) chain with
    | Some _ => (- EEXIST, st)
    | None =>
        if MAX_SIG_ENTRIES <=? sig_count st then (- ENOSPC, st)
        else (0, {| sig_table := hash_add (sig_table st) (sig_bucket (se_hex e)) e;
                    sig_count := u64 (sig_count st + 1);
                    sig_count_algo := bump_algo algo 1 (sig_count_algo st) |})
    end.

Definition av_sigtable_del (algo : av_algo) (hex : cstr) (st : sigtable)
    : Z * sigtable :=
  let lower_hex := hex_tolower (strscpy hex (AV_HASH_HEX_MAXLEN + 1)) in
  match hash_del_first (sig_table st) (sig_bucket lower_hex) (sig_same algo hex) with
  | Some t => (0, {| sig_table := t;
                     sig_count := u64 (sig_count st - 1);
                     sig_count_algo := bump_algo algo (-1) (sig_count_algo st) |})
  | None => (- ENOENT, st)
  end.

(** The loop over the algorithms, from [algos] on. *)
Fixpoint match_loop (d : av_digest) (algos : list av_algo) (st : sigtable)
    : option av_sig_entry :=
  match algos with
  | [] => None
  | algo :: rest =>
      match digest_for_algo d algo with
      | None => None
      | Some hex =>
          match find_first (sig_same algo hex)
                  (hash_chain (sig_table st) (sig_bucket hex)) with
          | Some e => Some e
          | None => match_loop d rest st
          end
      end
  end.

(** [Some name]: a hit, with the name copied to [name_out]. *)
Definition av_sigtable_match (d : av_digest) (name_out_len : nat) (st : sigtable)
    : option cstr :=
  (λ e, strscpy (se_name e) name_out_len) <$>
  match_loop d [AV_ALGO_MD5; AV_ALGO_SHA1; AV_ALGO_SHA256] st.

Definition av_sigtable_count (st : sigtable) : Z := sig_count st.

Definition av_sigtable_algo_count (algo : av_algo) (st : sigtable) : Z :=
  if (algo_index AV_ALGO_COUNT <=? algo_index algo)%nat then 0
  else nth (algo_index algo) (sig_count_algo st) 0.

(** ** The /proc interface *)

Definition sig_line (e : av_sig_entry) : cstr :=
  algo_names (se_algo e) ++ SPACE :: se_hex e ++ SPACE :: se_name e ++ [LF].

Definition sig_proc_show (st : sigtable) : cstr :=
  concat (sig_line <$> hash_all (sig_table st)).

(** [ubuf] is the bytes [copy_from_user] delivers, [None] when it faults. *)
Definition sig_proc_write (capable kmalloc_ok : bool) (count : Z)
    (ubuf : option (list ascii)) (st : sigtable) : Z * sigtable :=
  if negb capable then (- EPERM, st)
  else if 256 <=? count then (- EINVAL, st)
  else match ubuf with
  | None => (- EFAULT, st)
  | Some b =>
    match sscanf [ConvS 7; ConvS 7; ConvS 64; ConvNotLf 63] (buf_str b) with
    | cmd :: algo_str :: hex :: more =>
      match parse_algo algo_str with
      | None => (- EINVAL, st)
      | Some algo =>
        if strcasecmp_eq cmd (cs "add") then
          match more with
          | [] => (- EINVAL, st)
          | name :: _ =>
              let '(ret, st') := av_sigtable_add kmalloc_ok algo hex name st in
              (if ret =? 0 then count else ret, st')
          end
        else if strcasecmp_eq cmd (cs "del") then
          let '(ret, st') := av_sigtable_del algo hex st in
          (if ret =? 0 then count else - ENOENT, st')
        else (- EINVAL, st)
      end
    | _ => (- EINVAL, st)
    end
  end.

Definition av_sigtable_init : sigtable :=
  {| sig_table := hash_init (2 ^ SIGTABLE_BITS);
     sig_count := 0; sig_count_algo := [0; 0; 0] |}.

(** Unlinks and frees every node; the counters are left alone. *)
Definition av_sigtable_exit (st : sigtable) : sigtable :=
  {| sig_table := (λ _, []) <$> sig_table st;
     sig_count := sig_count st; sig_count_algo := sig_count_algo st |}.

(** ** Invariant and abstraction *)

Definition sig_key (e : av_sig_entry) : av_algo * cstr := (se_algo e, se_hex e).
Definition sig_bkt (k : av_algo * cstr) : nat := sig_bucket k.2.

(** A digest string that [av_sigtable_add] accepts for [algo]. *)
Definition hex_wf (algo : av_algo) (hex : cstr) : bool :=
  (algo_index algo <? algo_index AV_ALGO_COUNT)%nat
  && (length hex =? algo_hexlen algo)%nat && forallb isxdigit hex.

(** A stored entry: a canonical (lower-case) digest and a name that fits. *)
Record sig_entry_wf (e : av_sig_entry) : Prop := {
  sew_hex : hex_wf (se_algo e) (se_hex e) = true;
  sew_lower : hex_tolower (se_hex e) = se_hex e;
  sew_name : (length (se_name e) < AV_SIG_NAME_LEN)%nat;
}.

Definition algo_entries (a : av_algo) (l : list av_sig_entry) : list av_sig_entry :=
  base.filter (λ e, se_algo e = a) l.

Record sig_inv (st : sigtable) : Prop := {
  si_ht : ht_ok sig_key sig_bkt (2 ^ SIGTABLE_BITS) (sig_table st);
  si_wf : ∀ e, e ∈ hash_all (sig_table st) → sig_entry_wf e;
  si_count : sig_count st = Z.of_nat (length (hash_all (sig_table st)));
  si_bound : sig_count st ≤ MAX_SIG_ENTRIES;
  si_algos : ∀ a, a ≠ AV_ALGO_COUNT →
    sig_count_algo st !! algo_index a =
      Some (Z.of_nat (length (algo_entries a (hash_all (sig_table st)))));
}.

(** What the table is: a finite map from (algorithm, lower-case digest) to
    the signature's name. *)
Definition sig_abs (st : sigtable) : gmap (av_algo * cstr) cstr :=
  se_name <$> ht_map sig_key (sig_table st).

(** ** The contract, on the finite map *)

Definition spec_add (kmalloc_ok : bool) (algo : av_algo) (hex name : cstr)
    (m : gmap (av_algo * cstr) cstr) : Z * gmap (av_algo * cstr) cstr :=
  if negb (hex_wf algo hex) then (- EINVAL, m)
  else if negb kmalloc_ok then (- ENOMEM, m)
  else match m !! (algo, hex_tolower hex) with
  | Some _ => (- EEXIST, m)
  | None =>
      if MAX_SIG_ENTRIES <=? Z.of_nat (size m) then (- ENOSPC, m)
      else (0, <[(algo, hex_tolower hex) := strscpy name AV_SIG_NAME_LEN]> m)
  end.

Definition spec_del (algo : av_algo) (hex : cstr)
    (m : gmap (av_algo * cstr) cstr) : Z * gmap (av_algo * cstr) cstr :=
  match m !! (algo, hex_tolower hex) with
  | Some _ => (0, delete (algo, hex_tolower hex) m)
  | None => (- ENOENT, m)
  end.

Definition spec_match (d : av_digest) (m : gmap (av_algo * cstr) cstr) : option cstr :=
  match m !! (AV_ALGO_MD5, md5 d) with
  | Some n => Some n
  | None =>
      match m !! (AV_ALGO_SHA1, sha1 d) with
      | Some n => Some n
      | None => m !! (AV_ALGO_SHA256, sha256 d)
      end
  end.

(** ** Lemmas *)

Lemma algo_hexlen_bound a : (algo_hexlen a ≤ AV_HASH_HEX_MAXLEN)%nat.
Proof. destruct a; vm_compute; lia. Qed.

Lemma hex_wf_length a h : hex_wf a h = true → length h = algo_hexlen a.
Proof. unfold hex_wf. intros. to_prop. by apply Nat.eqb_eq. Qed.

Lemma hex_wf_lower a h : hex_wf a (hex_tolower h) = hex_wf a h.
Proof.
  unfold hex_wf, hex_tolower. rewrite length_fmap. f_equal.
  induction h as [|c h IH]; csimpl; [done|]. by rewrite isxdigit_tolower, IH.
Qed.

Lemma hex_tolower_idem h : hex_tolower (hex_tolower h) = hex_tolower h.
Proof. apply fmap_tolower_idem. Qed.

Lemma hex_strscpy a h :
  (length h ≤ algo_hexlen a)%nat → strscpy h (AV_HASH_HEX_MAXLEN + 1) = h.
Proof.
  intros. apply strscpy_fit. pose proof (algo_hexlen_bound a). lia.
Qed.

(** On well-formed nodes the chain test is equality of keys. *)
Lemma sig_same_keyb a h e :
  sig_entry_wf e → (length h ≤ algo_hexlen a)%nat →
  sig_same a h e = keyb sig_key (a, hex_tolower h) e.
Proof.
  intros [Hhex Hlow _] Hh. unfold sig_same, keyb, sig_key.
  apply eq_bool_prop_intro. rewrite andb_True, !bool_decide_spec, !Is_true_true.
  split.
  - intros [<- Hc]. f_equal. rewrite strncasecmp_eq_full in Hc; [|rewrite (hex_wf_length _ _ Hhex); done|done].
    unfold hex_tolower in *. congruence.
  - intros [= <- Heq]. split; [done|].
    apply strncasecmp_eq_full; [by rewrite (hex_wf_length _ _ Hhex)|done|].
    unfold hex_tolower in *. congruence.
Qed.

Lemma sig_chain_find st a h b :
  sig_inv st → (length h ≤ algo_hexlen a)%nat → b = sig_bucket (hex_tolower h) →
  se_name <$> find_first (sig_same a h) (hash_chain (sig_table st) b) =
  sig_abs st !! (a, hex_tolower h).
Proof.
  intros Hinv Hh ->. unfold sig_abs. rewrite lookup_fmap.
  rewrite <- (ht_find sig_key sig_bkt _ _ (a, hex_tolower h) (si_ht _ Hinv)).
  f_equal. apply find_first_ext. intros e He. apply sig_same_keyb; [|done].
  apply (si_wf _ Hinv). by eapply hash_chain_elem.
Qed.

Lemma sig_abs_size st :
  sig_inv st → Z.of_nat (size (sig_abs st)) = sig_count st.
Proof.
  intros Hinv. unfold sig_abs.
  rewrite map_size_fmap, (ht_map_size _ _ _ _ (si_ht _ Hinv)), si_count; done.
Qed.

Lemma bump_algo_lookup a b d l :
  bump_algo a d l !! algo_index b =
  if decide (a = b) then (λ c, u64 (c + d)) <$> l !! algo_index b
  else l !! algo_index b.
Proof.
  unfold bump_algo. rewrite list_lookup_alter.
  destruct (decide (a = b)) as [->|Hne]; [by rewrite decide_True|].
  rewrite decide_False; [done|]. by destruct a, b.
Qed.

Lemma u64_small x : 0 ≤ x ≤ MAX_SIG_ENTRIES → u64 x = x.
Proof. unfold MAX_SIG_ENTRIES. intros. apply wrap_small. lia. Qed.

Lemma algo_entries_cons a e l :
  algo_entries a (e :: l) =
  if decide (se_algo e = a) then e :: algo_entries a l else algo_entries a l.
Proof. unfold algo_entries. rewrite filter_cons. done. Qed.

Lemma algo_entries_le a l : (length (algo_entries a l) ≤ length l)%nat.
Proof. apply length_filter. Qed.

(** Linking one well-formed node with a fresh key. *)
Lemma sig_insert_inv st e :
  sig_inv st → sig_entry_wf e → ht_map sig_key (sig_table st) !! sig_key e = None →
  sig_count st < MAX_SIG_ENTRIES →
  let st' := {| sig_table := hash_add (sig_table st) (sig_bucket (se_hex e)) e;
                sig_count := u64 (sig_count st + 1);
                sig_count_algo := bump_algo (se_algo e) 1 (sig_count_algo st) |} in
  sig_inv st' ∧ sig_abs st' = <[sig_key e := se_name e]> (sig_abs st).
Proof.
  intros Hinv Hwf Hfresh Hc st'.
  assert (sig_bkt (sig_key e) < 2 ^ SIGTABLE_BITS)%nat as Hb by apply hash_min_range.
  destruct (ht_add _ _ _ _ e (si_ht _ Hinv) Hb Hfresh) as [Hok Hm].
  assert (Hp := hash_add_perm (sig_table st) (sig_bkt (sig_key e)) e
    ltac:(by rewrite (ht_len _ _ _ _ (si_ht _ Hinv)))).
  pose proof (si_count _ Hinv) as Hcnt.
  split.
  - split; simpl.
    + done.
    + intros e'. change (sig_bucket (se_hex e)) with (sig_bkt (sig_key e)).
      rewrite Hp, elem_of_cons. intros [->|?]; [done|by apply (si_wf _ Hinv)].
    + change (sig_bucket (se_hex e)) with (sig_bkt (sig_key e)).
      rewrite Hp, u64_small by lia. simpl. lia.
    + rewrite u64_small; lia.
    + intros a Ha. change (sig_bucket (se_hex e)) with (sig_bkt (sig_key e)).
      unfold algo_entries. rewrite Hp.
      fold (algo_entries a (e :: hash_all (sig_table st))).
      rewrite bump_algo_lookup, algo_entries_cons, (si_algos _ Hinv a Ha).
      pose proof (algo_entries_le a (hash_all (sig_table st))).
      case_decide; simpl; [|done]. do 2 f_equal. rewrite u64_small; lia.
  - unfold sig_abs. simpl. change (sig_bucket (se_hex e)) with (sig_bkt (sig_key e)).
    by rewrite Hm, fmap_insert.
Qed.

(** Unlinking one node. *)
Lemma sig_remove_inv st e t :
  sig_inv st → ht_ok sig_key sig_bkt (2 ^ SIGTABLE_BITS) t →
  e :: hash_all t ≡ₚ hash_all (sig_table st) →
  sig_inv {| sig_table := t; sig_count := u64 (sig_count st - 1);
             sig_count_algo := bump_algo (se_algo e) (-1) (sig_count_algo st) |}.
Proof.
  intros Hinv Hok Hp. pose proof (si_count _ Hinv) as Hcnt.
  pose proof (si_bound _ Hinv) as Hbnd. rewrite <- Hp in Hcnt. simpl in Hcnt.
  split; simpl.
  - done.
  - intros e' ?. apply (si_wf _ Hinv). rewrite <- Hp, elem_of_cons. auto.
  - rewrite u64_small; lia.
  - rewrite u64_small; lia.
  - intros a Ha. pose proof (si_algos _ Hinv a Ha) as Hal.
    unfold algo_entries in Hal. rewrite <- Hp in Hal.
    fold (algo_entries a (e :: hash_all t)) in Hal.
    rewrite algo_entries_cons in Hal.
    pose proof (algo_entries_le a (hash_all t)).
    rewrite bump_algo_lookup, Hal. case_decide; simpl; [|done].
    do 2 f_equal. rewrite u64_small; lia.
Qed.

Lemma sig_abs_init : sig_abs av_sigtable_init = ∅.
Proof. unfold sig_abs. simpl. by rewrite ht_init_map, fmap_empty. Qed.

Lemma sig_inv_init : sig_inv av_sigtable_init.
Proof.
  split; cbn [sig_table sig_count sig_count_algo av_sigtable_init].
  - apply ht_init_ok.
  - rewrite hash_all_init. by intros e ?%elem_of_nil.
  - by rewrite hash_all_init.
  - unfold MAX_SIG_ENTRIES. lia.
  - intros a Ha. rewrite hash_all_init. by destruct a.
Qed.

Lemma sig_same_chain_del st a h :
  sig_inv st → (length h ≤ algo_hexlen a)%nat →
  hash_del_first (sig_table st) (sig_bucket (hex_tolower h)) (sig_same a h) =
  hash_del_first (sig_table st) (sig_bucket (hex_tolower h))
    (keyb sig_key (a, hex_tolower h)).
Proof.
  intros Hinv Hh. unfold hash_del_first. f_equal. apply del_first_ext.
  intros e He. apply sig_same_keyb; [|done].
  apply (si_wf _ Hinv). by eapply hash_chain_elem.
Qed.

(** Any delete, whatever string it is given, keeps the invariant. *)
Lemma av_sigtable_del_inv algo hex st r st' :
  sig_inv st → av_sigtable_del algo hex st = (r, st') → sig_inv st'.
Proof.
  intros Hinv. unfold av_sigtable_del.
  destruct (hash_del_first _ _ _) as [t|] eqn:Hdel; intros [= <- <-]; [|done].
  destruct (ht_del_any sig_key sig_bkt _ _ _ _ _ (si_ht _ Hinv) (hash_min_range _ _) Hdel)
    as (e&_&_&Hp&Hok&_&Hperm).
  unfold sig_same in Hp. to_prop. subst algo. by eapply sig_remove_inv.
Qed.

Lemma sigtable_add_spec kmalloc_ok algo hex name st :
  sig_inv st →
  let '(r, st') := av_sigtable_add kmalloc_ok algo hex name st in
  sig_inv st' ∧ spec_add kmalloc_ok algo hex name (sig_abs st) = (r, sig_abs st').
Proof.
  intros Hinv. unfold av_sigtable_add, spec_add, hex_wf.
  destruct (Nat.leb_spec (algo_index AV_ALGO_COUNT) (algo_index algo)) as [Hge|Hlt].
  { by rewrite (proj2 (Nat.ltb_ge _ _)). }
  rewrite (proj2 (Nat.ltb_lt _ _)) by done. simpl.
  destruct (Nat.eqb_spec (length hex) (algo_hexlen algo)) as [Hlen|]; simpl; [|done].
  destruct (forallb isxdigit hex) eqn:Hx; simpl; [|done].
  destruct kmalloc_ok; simpl; [|done].
  assert (hex_wf algo hex = true) as Hwf.
  { unfold hex_wf. by rewrite (proj2 (Nat.ltb_lt _ _)), (proj2 (Nat.eqb_eq _ _)), Hx. }
  rewrite (hex_strscpy algo) by lia.
  assert (length (hex_tolower hex) = algo_hexlen algo) as Hll
    by (unfold hex_tolower; by rewrite length_fmap).
  assert (Hfind := sig_chain_find st algo (hex_tolower hex) (sig_bucket (hex_tolower hex))
    Hinv ltac:(lia) ltac:(by rewrite hex_tolower_idem)).
  rewrite hex_tolower_idem in Hfind. rewrite <- Hfind, sig_abs_size by done.
  destruct (find_first _ _) as [x|] eqn:Hff; simpl; [done|].
  destruct (Z.leb_spec MAX_SIG_ENTRIES (sig_count st)); [done|].
  set (e := {| se_algo := algo; se_name := _; se_hex := hex_tolower hex |}).
  assert (ht_map sig_key (sig_table st) !! sig_key e = None) as Hfresh.
  { symmetry in Hfind. unfold sig_abs in Hfind. rewrite lookup_fmap in Hfind.
    by apply fmap_None in Hfind. }
  destruct (sig_insert_inv st e Hinv) as [Hinv' Habs]; [|done|lia|].
  { split; simpl; [by rewrite hex_wf_lower|apply hex_tolower_idem|].
    apply strscpy_length. unfold AV_SIG_NAME_LEN. lia. }
  split; [exact Hinv'|]. f_equal. symmetry. exact Habs.
Qed.

(** ** Properties *)

(** C1: [av_sigtable_add] refines insertion into a finite map keyed by
    (algorithm, lower-case digest): on every branch (malformed digest, no
    memory, duplicate in any letter case, table full, success) its result and
    the table it leaves are those of [spec_add], and the invariant (no
    duplicate key, canonical digests, every node in its own chain, exact
    counters, at most MAX_SIG_ENTRIES entries) is kept. *)
Theorem av_sigtable_add_refines kmalloc_ok algo hex name st :
  sig_inv st →
  let '(r, st') := av_sigtable_add kmalloc_ok algo hex name st in
  sig_inv st' ∧ spec_add kmalloc_ok algo hex name (sig_abs st) = (r, sig_abs st').
Proof. apply sigtable_add_spec. Qed.

Lemma sigtable_del_spec algo hex st :
  sig_inv st → (length hex ≤ algo_hexlen algo)%nat →
  let '(r, st') := av_sigtable_del algo hex st in
  sig_inv st' ∧ spec_del algo hex (sig_abs st) = (r, sig_abs st').
Proof.
  intros Hinv Hlen.
  destruct (av_sigtable_del algo hex st) as [r st'] eqn:Hdel.
  split; [by eapply av_sigtable_del_inv|].
  unfold av_sigtable_del in Hdel.
  rewrite (hex_strscpy algo), sig_same_chain_del in Hdel by done.
  assert (Hd := ht_del _ sig_bkt _ _ (algo, hex_tolower hex) (si_ht _ Hinv)
    (hash_min_range _ _)).
  unfold sig_bkt in Hd at 1. simpl in Hd.
  unfold spec_del, sig_abs. rewrite lookup_fmap.
  destruct (ht_map _ _ !! _) as [e|], (hash_del_first _ _ _) as [t|]; try done; simpl.
  - destruct Hd as (_&Hm&_). simplify_eq/=. by rewrite Hm, fmap_delete.
  - by simplify_eq.
Qed.

(** [av_sigtable_del], given a digest of at most the algorithm's length,
    refines deletion from that map: it removes exactly the entry for that
    algorithm and digest, in any letter case, and answers -ENOENT and changes
    nothing when there is none; counters and layout stay exact. *)
Theorem av_sigtable_del_refines algo hex st :
  sig_inv st → (length hex ≤ algo_hexlen algo)%nat →
  let '(r, st') := av_sigtable_del algo hex st in
  sig_inv st' ∧ spec_del algo hex (sig_abs st) = (r, sig_abs st').
Proof. apply sigtable_del_spec. Qed.

(** C2: [av_sigtable_match] answers a hit exactly when one of the three
    digests of the file is in the map, the first of MD5, SHA-1 and SHA-256
    winning, and copies that signature's full name.  The digests are those
    [hash_file_multi] produces: lower-case, empty for a skipped algorithm. *)
Theorem av_sigtable_match_refines d st :
  sig_inv st →
  (∀ a h, digest_for_algo d a = Some h →
     hex_tolower h = h ∧ (length h ≤ algo_hexlen a)%nat) →
  av_sigtable_match d AV_SIG_NAME_LEN st = spec_match d (sig_abs st).
Proof.
  intros Hinv Hd.
  assert (∀ a h, digest_for_algo d a = Some h →
    se_name <$> find_first (sig_same a h) (hash_chain (sig_table st) (sig_bucket h)) =
    sig_abs st !! (a, h)) as Hlook.
  { intros a h Ha. destruct (Hd a h Ha) as [Hl Hn].
    rewrite <- Hl at 3. apply sig_chain_find; [done..|by rewrite Hl]. }
  assert (∀ p b e, find_first p (hash_chain (sig_table st) b) = Some e →
    strscpy (se_name e) AV_SIG_NAME_LEN = se_name e) as Hname.
  { intros p b e [He _]%find_first_Some. apply strscpy_fit, (si_wf _ Hinv).
    by eapply hash_chain_elem. }
  unfold av_sigtable_match, spec_match, match_loop. simpl.
  rewrite <- (Hlook AV_ALGO_MD5), <- (Hlook AV_ALGO_SHA1), <- (Hlook AV_ALGO_SHA256) by done.
  repeat match goal with
  | |- context [find_first ?p (hash_chain ?t ?b)] =>
      destruct (find_first p (hash_chain t b)) eqn:?; simpl;
      [f_equal; by eapply Hname|]
  end.
  done.
Qed.

Lemma av_sigtable_add_failed k a h n st r st' :
  av_sigtable_add k a h n st = (r, st') → r = 0 ∨ (r < 0 ∧ st' = st).
Proof.
  unfold av_sigtable_add, EINVAL, ENOMEM, EEXIST, ENOSPC.
  repeat case_match; intros [= <- <-]; (by left) || (by right).
Qed.

Lemma sig_proc_write_spec capable kmalloc_ok count ubuf st :
  sig_inv st →
  let '(r, st') := sig_proc_write capable kmalloc_ok count ubuf st in
  sig_inv st' ∧ (r = count ∨ (r < 0 ∧ st' = st)).
Proof.
  intros Hinv. unfold sig_proc_write.
  assert (∀ e, 0 < e → sig_inv st ∧ (- e = count ∨ - e < 0 ∧ st = st)) as Herr
    by (split; [done|right; split; [lia|done]]).
  destruct capable; simpl; [|by apply Herr].
  destruct (256 <=? count); [by apply Herr|].
  destruct ubuf as [b|]; [|by apply Herr].
  destruct (sscanf _ _) as [|cmd [|algo_str [|hex more]]]; try (by apply Herr).
  destruct (parse_algo algo_str) as [algo|]; [|by apply Herr].
  destruct (strcasecmp_eq cmd (cs "add")).
  { destruct more as [|name more]; [by apply Herr|].
    pose proof (sigtable_add_spec kmalloc_ok algo hex name st Hinv) as Hadd.
    destruct (av_sigtable_add _ _ _ _ _) as [r st'] eqn:Hr.
    apply av_sigtable_add_failed in Hr as [->|[? ->]]; [by split; [apply Hadd|left]|].
    destruct (Z.eqb_spec r 0); split; auto; lia. }
  destruct (strcasecmp_eq cmd (cs "del")); [|by apply Herr].
  destruct (av_sigtable_del algo hex st) as [r st'] eqn:Hr.
  assert (sig_inv st') by (by eapply av_sigtable_del_inv).
  unfold av_sigtable_del in Hr. case_match; simplify_eq/=; (split; [done|]); [by left|by right].
Qed.

(** Every write to /proc/kernel_av_signatures, whatever its bytes and
    whoever sends it, keeps the table's invariant; it either reports all of
    its bytes consumed, or fails with a negative errno and leaves the table
    exactly as it was. *)
Theorem sig_proc_write_sound capable kmalloc_ok count ubuf st :
  sig_inv st →
  let '(r, st') := sig_proc_write capable kmalloc_ok count ubuf st in
  sig_inv st' ∧ (r = count ∨ (r < 0 ∧ st' = st)).
Proof. apply sig_proc_write_spec. Qed.

Lemma sig_proc_write_inv capable kmalloc_ok count ubuf st :
  sig_inv st → sig_inv (sig_proc_write capable kmalloc_ok count ubuf st).2.
Proof.
  intros Hinv. pose proof (sig_proc_write_spec capable kmalloc_ok count ubuf st Hinv) as Hs.
  destruct (sig_proc_write _ _ _ _ _). apply Hs.
Qed.

(** ** Saving and restoring

    avctl's save/load writes each listed line back with "add " in front. *)

Definition sig_add_line (e : av_sig_entry) : cstr := cs "add" ++ SPACE :: sig_line e.

Arguments sig_line : simpl never.
Arguments sig_add_line : simpl never.

Definition sig_restore (lines : list cstr) : sigtable :=
  foldl (λ st l, (sig_proc_write true true (Z.of_nat (length l)) (Some l) st).2)
    av_sigtable_init lines.

(** A name as the write handler itself parses names: not empty, not starting
    with a blank, on one line. *)
Definition name_line (name : cstr) : Prop :=
  match name with [] => False | a :: _ => isspace a = false end ∧
  Forall (λ a, a ≠ LF ∧ a ≠ NUL) name.

Lemma algo_names_word a :
  a ≠ AV_ALGO_COUNT →
  algo_names a ≠ [] ∧ (length (algo_names a) ≤ 7)%nat ∧
  Forall (λ c, isspace c = false) (algo_names a) ∧ parse_algo (algo_names a) = Some a.
Proof. destruct a; [..|done]; intros _; (split_and!; [done|vm_compute; lia| |done]); by repeat constructor. Qed.

Lemma hex_wf_word a h :
  hex_wf a h = true →
  a ≠ AV_ALGO_COUNT ∧ h ≠ [] ∧ (length h ≤ 64)%nat ∧
  Forall (λ c, isspace c = false ∧ aeqb c NUL = false) h.
Proof.
  intros Hwf. assert (Hlen := hex_wf_length _ _ Hwf).
  pose proof (algo_hexlen_bound a).
  apply andb_true_iff in Hwf as [[Ha _]%andb_true_iff Hx].
  split_and!; [by intros ->| |unfold AV_HASH_HEX_MAXLEN in *; lia|].
  - intros ->. by destruct a.
  - rewrite List.forallb_forall in Hx. apply Forall_forall.
    intros c Hc. apply isxdigit_not_space, Hx. by apply list_elem_of_In.
Qed.

Lemma sig_add_line_buf e :
  sig_entry_wf e → name_line (se_name e) →
  buf_str (sig_add_line e) = sig_add_line e ∧
  Z.of_nat (length (sig_add_line e)) < 256.
Proof.
  intros [Hhex _ Hn] [_ Hname].
  destruct (hex_wf_word _ _ Hhex) as (Ha&_&Hlen&Hhexf).
  destruct (algo_names_word _ Ha) as (_&Hal&Haf&_).
  unfold sig_add_line, sig_line. split.
  - apply take_while_all. repeat (rewrite Forall_app || rewrite Forall_cons).
    split_and!; try done.
    + by repeat constructor.
    + destruct (se_algo e); [..|done]; by repeat constructor.
    + eapply Forall_impl; [exact Hhexf|]. simpl. by intros ? [_ ->].
    + eapply Forall_impl; [exact Hname|]. simpl.
      intros c [_ Hc]. apply negb_true_iff. by apply aeqb_neq.
  - repeat (rewrite length_app || rewrite length_cons). unfold AV_SIG_NAME_LEN in Hn.
    change (length (cs "add")) with 3%nat. simpl. lia.
Qed.

Lemma sig_add_line_scan e :
  sig_entry_wf e → name_line (se_name e) →
  sscanf [ConvS 7; ConvS 7; ConvS 64; ConvNotLf 63] (sig_add_line e) =
  [cs "add"; algo_names (se_algo e); se_hex e; se_name e].
Proof.
  intros [Hhex _ Hn] [Hn0 Hname].
  destruct (hex_wf_word _ _ Hhex) as (Ha&Hne&Hlen&Hhexf).
  destruct (algo_names_word _ Ha) as (Hane&Hal&Haf&_).
  unfold sig_add_line, sig_line.
  rewrite sscanf_word; [|done|by repeat constructor|vm_compute; lia]. f_equal.
  rewrite skip_spaces_id by (by destruct (se_algo e)).
  rewrite sscanf_word by done. f_equal.
  rewrite skip_spaces_id by (destruct (se_hex e); [done|]; by apply Forall_cons in Hhexf as [[? _] _]).
  rewrite sscanf_word; [|done|eapply Forall_impl; [exact Hhexf|by intros ? [? _]]|done]. f_equal.
  rewrite skip_spaces_id by (by destruct (se_name e)).
  rewrite sscanf_line; [done|by destruct (se_name e)| |].
  - eapply Forall_impl; [exact Hname|by intros ? [? _]].
  - unfold AV_SIG_NAME_LEN in Hn. lia.
Qed.

(** The "add" line is parsed back to its algorithm, digest and name. *)
Lemma sig_write_add e st :
  sig_entry_wf e → name_line (se_name e) →
  sig_proc_write true true (Z.of_nat (length (sig_add_line e))) (Some (sig_add_line e)) st =
  let '(ret, st') := av_sigtable_add true (se_algo e) (se_hex e) (se_name e) st in
  (if ret =? 0 then Z.of_nat (length (sig_add_line e)) else ret, st').
Proof.
  intros Hwf Hn. destruct (sig_add_line_buf e Hwf Hn) as [Hb Hlen].
  destruct (hex_wf_word _ _ (sew_hex _ Hwf)) as (Ha&_).
  destruct (algo_names_word _ Ha) as (_&_&_&Hp).
  unfold sig_proc_write. change (negb true) with false. cbv iota.
  rewrite (proj2 (Z.leb_gt _ _)), Hb, sig_add_line_scan, Hp by done.
  done.
Qed.

Lemma sig_write_add_line e st :
  sig_entry_wf e → name_line (se_name e) →
  (sig_proc_write true true (Z.of_nat (length (sig_add_line e)))
    (Some (sig_add_line e)) st).2 =
  (av_sigtable_add true (se_algo e) (se_hex e) (se_name e) st).2.
Proof. intros Hwf Hn. rewrite sig_write_add by done. by destruct (av_sigtable_add _ _ _ _ _). Qed.

(** Adding a stored entry to a table that lacks it and has room. *)
Lemma sig_add_stored e st :
  sig_inv st → sig_entry_wf e → sig_abs st !! sig_key e = None →
  sig_count st < MAX_SIG_ENTRIES →
  let st' := (av_sigtable_add true (se_algo e) (se_hex e) (se_name e) st).2 in
  sig_inv st' ∧ sig_abs st' = <[sig_key e := se_name e]> (sig_abs st).
Proof.
  intros Hinv [Hhex Hlow Hn] Hfresh Hroom.
  pose proof (sigtable_add_spec true (se_algo e) (se_hex e) (se_name e) st Hinv) as Hs.
  destruct (av_sigtable_add _ _ _ _ _) as [r st']. destruct Hs as [? Hs].
  split; [done|]. unfold spec_add in Hs. rewrite Hhex, Hlow in Hs. simpl in Hs.
  unfold sig_key in Hfresh. rewrite Hfresh, sig_abs_size in Hs by done.
  rewrite (proj2 (Z.leb_gt _ _)), strscpy_fit in Hs by done. by simplify_eq/=.
Qed.

Lemma sig_restore_entries l st :
  sig_inv st → (∀ e, e ∈ l → sig_entry_wf e ∧ name_line (se_name e)) →
  NoDup (sig_key <$> l) → (∀ e, e ∈ l → sig_abs st !! sig_key e = None) →
  sig_count st + Z.of_nat (length l) ≤ MAX_SIG_ENTRIES →
  sig_abs (foldl (λ st l, (sig_proc_write true true (Z.of_nat (length l)) (Some l) st).2)
             st (sig_add_line <$> l)) =
  list_to_map ((λ e, (sig_key e, se_name e)) <$> l) ∪ sig_abs st.
Proof.
  revert st. induction l as [|e l IH]; intros st Hinv Hwf Hnd Hfresh Hroom.
  { csimpl. by rewrite (left_id_L ∅ (∪)). }
  rewrite !fmap_cons in *. cbn [foldl]. apply NoDup_cons in Hnd as [Hnew Hnd].
  destruct (Hwf e) as [Hwe Hne]; [by left|]. rewrite sig_write_add_line by done.
  destruct (sig_add_stored e st) as [Hinv' Habs]; [done..|by apply Hfresh; left| |].
  { simpl in Hroom. lia. }
  set (st' := (av_sigtable_add _ _ _ _ _).2) in *.
  assert (Hc := sig_abs_size _ Hinv'). rewrite Habs, map_size_insert_None in Hc
    by (apply Hfresh; left).
  rewrite Nat2Z.inj_succ, sig_abs_size in Hc by done.
  rewrite IH; [..|simpl in Hroom; lia]; try done.
  - rewrite Habs. cbn [list_to_map foldr]. rewrite <- insert_union_r, insert_union_l; [done|].
    apply not_elem_of_list_to_map_1. by rewrite <- list_fmap_compose.
  - intros e' ?. apply Hwf. by right.
  - intros e' He'. rewrite Habs, lookup_insert_ne; [by apply Hfresh; right|].
    intros Heq. apply Hnew. rewrite Heq. by apply list_elem_of_fmap_2.
Qed.

(** Saving and restoring is the identity: the lines the table lists,
    written back one by one with "add " in front (what avctl's save and load
    do) into a fresh table, give a table with exactly the same signatures,
    every write being parsed back to the algorithm, digest and name it was
    printed from. *)
Theorem sig_show_restore st :
  sig_inv st → (∀ e, e ∈ hash_all (sig_table st) → name_line (se_name e)) →
  sig_abs (sig_restore (sig_add_line <$> hash_all (sig_table st))) = sig_abs st.
Proof.
  intros Hinv Hn. unfold sig_restore.
  rewrite sig_restore_entries.
  - rewrite sig_abs_init, (right_id_L ∅ (∪)). unfold sig_abs, ht_map.
    rewrite <- list_to_map_fmap, <- list_fmap_compose. done.
  - apply sig_inv_init.
  - intros e He. split; [by apply (si_wf _ Hinv)|by apply Hn].
  - apply (si_ht _ Hinv).
  - intros e _. by rewrite sig_abs_init.
  - simpl. rewrite <- (si_count _ Hinv). apply (si_bound _ Hinv).
Qed.
End ops.

(** ** Witnesses

    A concrete table, built by the module's own operations under a concrete
    hash: the seeded EICAR SHA-256 signature and an MD5 one. *)

Module Examples.
Import ToyHash.
Definition eicar : cstr :=
  cs "275a021bbfb6489e54d471899f7db9d1663fc695ec2fe2a2c4538aabf651fd0f".
Definition md5hex : cstr := cs "44D88612FEA8A8F36DE82E1278ABB02F".
Definition st0 : sigtable := av_sigtable_init.
Definition st1 : sigtable :=
  (av_sigtable_add true AV_ALGO_SHA256 eicar (cs "EICAR-Test-File") st0).2.

Lemma st1_inv : sig_inv st1.
Proof.
  unfold st1. pose proof (sigtable_add_spec true AV_ALGO_SHA256 eicar
    (cs "EICAR-Test-File") st0 sig_inv_init) as Hs.
  destruct (av_sigtable_add _ _ _ _ _) as [r st']. apply Hs.
Qed.

(** Adding the MD5 digest succeeds; adding the seeded digest again, in upper
    case or not, is refused as a duplicate. *)
Lemma av_sigtable_add_witness :
  sig_inv st1 ∧
  (av_sigtable_add true AV_ALGO_MD5 md5hex (cs "EICAR") st1).1 = 0 ∧
  spec_add true AV_ALGO_MD5 md5hex (cs "EICAR") (sig_abs st1) =
    (0, sig_abs (av_sigtable_add true AV_ALGO_MD5 md5hex (cs "EICAR") st1).2) ∧
  (av_sigtable_add true AV_ALGO_SHA256 eicar (cs "again") st1).1 = - EEXIST.
Proof.
  pose proof (av_sigtable_add_refines true AV_ALGO_MD5 md5hex (cs "EICAR") st1 st1_inv) as Hs.
  assert ((av_sigtable_add true AV_ALGO_MD5 md5hex (cs "EICAR") st1).1 = 0) as Hr
    by by vm_compute.
  destruct (av_sigtable_add true AV_ALGO_MD5 md5hex (cs "EICAR") st1) as [r st'].
  cbn [fst snd] in *. subst r.
  split; [apply st1_inv|]. split; [done|]. split; [apply Hs|by vm_compute].
Defined.

Lemma av_sigtable_del_witness :
  spec_del AV_ALGO_SHA256 eicar (sig_abs st1) =
    (0, sig_abs (av_sigtable_del AV_ALGO_SHA256 eicar st1).2).
Proof.
  pose proof (av_sigtable_del_refines AV_ALGO_SHA256 eicar st1 st1_inv
    ltac:(vm_compute; lia)) as Hs.
  assert ((av_sigtable_del AV_ALGO_SHA256 eicar st1).1 = 0) as Hr by by vm_compute.
  destruct (av_sigtable_del AV_ALGO_SHA256 eicar st1) as [r st'].
  cbn [fst snd] in *. subst r.
  apply Hs.
Defined.

Definition d_eicar : av_digest := {| md5 := []; sha1 := []; sha256 := eicar |}.

Lemma av_sigtable_match_witness :
  av_sigtable_match d_eicar AV_SIG_NAME_LEN st1 = Some (cs "EICAR-Test-File") ∧
  spec_match d_eicar (sig_abs st1) = Some (cs "EICAR-Test-File").
Proof.
  assert (av_sigtable_match d_eicar AV_SIG_NAME_LEN st1 = Some (cs "EICAR-Test-File"))
    as Hm by by vm_compute.
  split; [done|]. rewrite <- Hm. symmetry. apply av_sigtable_match_refines; [apply st1_inv|].
  intros [] h [= <-]; (split; [by vm_compute|vm_compute; lia]).
Defined.

Lemma sig_proc_write_witness :
  sig_inv (sig_proc_write true true 20 (Some (cs "add md5 12345 name")) st1).2 ∧
  (sig_proc_write true true 20 (Some (cs "add md5 12345 name")) st1).1 = - EINVAL.
Proof.
  pose proof (sig_proc_write_sound true true 20 (Some (cs "add md5 12345 name")) st1
    st1_inv) as Hs.
  assert ((sig_proc_write true true 20 (Some (cs "add md5 12345 name")) st1).1 = - EINVAL)
    as Hr by by vm_compute.
  destruct (sig_proc_write true true 20 (Some (cs "add md5 12345 name")) st1) as [r st'].
  cbn [fst snd] in *. split; [apply Hs|done].
Defined.

Lemma sig_show_restore_witness :
  sig_abs (sig_restore (sig_add_line <$> hash_all (sig_table st1))) = sig_abs st1.
Proof.
  apply sig_show_restore; [apply st1_inv|].
  assert (hash_all (sig_table st1) =
    [{| se_algo := AV_ALGO_SHA256; se_name := cs "EICAR-Test-File"; se_hex := eicar |}])
    as -> by by vm_compute.
  intros e ->%list_elem_of_singleton. split; [done|]. by repeat constructor.
Defined.
End Examples.
