(* ===== verification/AllowLists.v ===== *)
(** * The operator's allow-lists: av/behavior.c

    Two more tables of av/behavior.c, managed through /proc files:
    - Module [Trust]: the trusted binary hashes (/proc/kernel_av_trusted),
      consulted when an exec is recorded;
    - Module [Protect]: the protected exe paths (/proc/kernel_av_protected),
      consulted before every kill.
    The classes [TrustList] and [ProtectList] state what each promises to its
    clients (Behavior.v, Kill.v), whose theorems use the laws only. *)

From Stdlib Require Import ZArith Lia Ascii String.
From stdpp Require Import prelude list gmap strings.
From S2P Require Import Prelude CString Hashtable.

Local Open Scope Z_scope.

Definition SHA256_HEX_LEN : nat := 64.
Definition TRUST_NAME_LEN : nat := 64.
Definition TRUST_BITS : nat := 8.
Definition PROTECTED_PATH_LEN : nat := PATH_MAX.

(** ** Interfaces *)

(** The digests the module computes: 64 lower-case characters. *)
Definition canonical (h : cstr) : Prop :=
  length h = SHA256_HEX_LEN ∧ tolower <$> h = h.

(** A trust list: [tl_trusts s h] is what clients observe of it; a
    successful add makes exactly that digest trusted, a successful delete
    makes it untrusted again, and a failed call changes nothing. *)
Class TrustList (S : Type) := {
  tl_ok : S → Prop;
  tl_trusts : S → cstr → bool;
  tl_add : bool → cstr → cstr → S → Z * S;
  tl_del : cstr → S → Z * S;
  tl_add_law : ∀ k h n s r s', tl_ok s → tl_add k h n s = (r, s') →
    tl_ok s' ∧
    ∀ h', canonical h' → tl_trusts s' h' =
      (if decide (r = 0) then bool_decide (tolower <$> h = h') || tl_trusts s h'
       else tl_trusts s h');
  tl_del_law : ∀ h s r s', tl_ok s → tl_del h s = (r, s') →
    tl_ok s' ∧
    ∀ h', canonical h' → tl_trusts s' h' =
      (if decide (r = 0) then negb (bool_decide (tolower <$> h = h')) && tl_trusts s h'
       else tl_trusts s h');
}.

(** A protected-path list, the same way. *)
Class ProtectList (S : Type) := {
  pl_ok : S → Prop;
  pl_protects : S → cstr → bool;
  pl_add : bool → cstr → S → Z * S;
  pl_del : cstr → S → Z * S;
  pl_add_law : ∀ k p s r s', pl_ok s → pl_add k p s = (r, s') →
    pl_ok s' ∧
    ∀ p', pl_protects s' p' =
      (if decide (r = 0) then bool_decide (p = p') || pl_protects s p'
       else pl_protects s p');
  pl_del_law : ∀ p s r s', pl_ok s → pl_del p s = (r, s') →
    pl_ok s' ∧
    ∀ p', pl_protects s' p' =
      (if decide (r = 0) then negb (bool_decide (p = p')) && pl_protects s p'
       else pl_protects s p');
}.

(** ** Trusted binary hashes *)

Module Trust.
Section trust.
Context `{KernelHash}.

Record av_trust_entry := { te_hex : cstr; te_name : cstr }.

Definition hex_key (hex : cstr) : Z := full_name_hash hex.
Definition bucket (hex : cstr) : nat := hash_min (hex_key hex) TRUST_BITS.
Definition hex_tolower (hex : cstr) : cstr := tolower <$> hex.

Definition same (hex : cstr) (e : av_trust_entry) : bool :=
  strncasecmp_eq SHA256_HEX_LEN (te_hex e) hex.

(** [Some name]: trusted, with the name to be copied out. *)
Definition hash_is_trusted (t : list (list av_trust_entry)) (sha256_hex : cstr)
    (name_out_len : nat) : option cstr :=
  (λ e, strscpy (te_name e) name_out_len) <$>
  find_first (same sha256_hex) (hash_chain t (bucket sha256_hex)).

Definition av_behavior_trust_add (kmalloc_ok : bool) (sha256_hex name : cstr)
    (t : list (list av_trust_entry)) : Z * list (list av_trust_entry) :=
  if negb (length sha256_hex =? SHA256_HEX_LEN)%nat then (- EINVAL, t)
  else
    let lower_hex := hex_tolower (strscpy sha256_hex (SHA256_HEX_LEN + 1)) in
    if negb kmalloc_ok then (- ENOMEM, t)
    else
      let e := {| te_hex := strscpy lower_hex (SHA256_HEX_LEN + 1);
                  te_name := strscpy name TRUST_NAME_LEN |} in
      match find_first (same lower_hex) (hash_chain t (bucket lower_hex)) with
      | Some _ => (- EEXIST, t)
      | None => (0, hash_add t (bucket lower_hex) e)
      end.

Definition av_behavior_trust_del (sha256_hex : cstr)
    (t : list (list av_trust_entry)) : Z * list (list av_trust_entry) :=
  if negb (length sha256_hex =? SHA256_HEX_LEN)%nat then (- EINVAL, t)
  else
    let lower_hex := hex_tolower (strscpy sha256_hex (SHA256_HEX_LEN + 1)) in
    let b := bucket lower_hex in
    (if existsb (same lower_hex) (hash_chain t b) then 0 else - ENOENT,
     hash_del_all t b (same lower_hex)).

Definition trust_proc_show (t : list (list av_trust_entry)) : cstr :=
  concat ((λ e, te_hex e ++ SPACE :: te_name e ++ [LF]) <$> hash_all t).

Definition trust_proc_write (capable kmalloc_ok : bool) (count : Z)
    (ubuf : option (list ascii)) (t : list (list av_trust_entry))
    : Z * list (list av_trust_entry) :=
  if negb capable then (- EPERM, t)
  else if 192 <=? count then (- EINVAL, t)
  else match ubuf with
  | None => (- EFAULT, t)
  | Some b =>
    match sscanf [ConvS 7; ConvS 64; ConvNotLf 63] (buf_str b) with
    | cmd :: hex :: more =>
      if strcasecmp_eq cmd (cs "add") then
        match more with
        | [] => (- EINVAL, t)
        | name :: _ =>
            let '(ret, t') := av_behavior_trust_add kmalloc_ok hex name t in
            (if ret =? 0 then count else - EINVAL, t')
        end
      else if strcasecmp_eq cmd (cs "del") then
        let '(ret, t') := av_behavior_trust_del hex t in
        (if ret =? 0 then count else - ENOENT, t')
      else (- EINVAL, t)
    | _ => (- EINVAL, t)
    end
  end.

Definition trust_table_init : list (list av_trust_entry) := hash_init (2 ^ TRUST_BITS).
Definition trust_table_destroy (t : list (list av_trust_entry))
    : list (list av_trust_entry) := (λ _, []) <$> t.

(** *** Invariant and laws *)

Record trust_inv (t : list (list av_trust_entry)) : Prop := {
  ti_ht : ht_ok te_hex bucket (2 ^ TRUST_BITS) t;
  ti_len : ∀ e, e ∈ hash_all t → length (te_hex e) = SHA256_HEX_LEN;
  ti_lower : ∀ e, e ∈ hash_all t → hex_tolower (te_hex e) = te_hex e;
}.

Definition trusts (t : list (list av_trust_entry)) (hex : cstr) : bool :=
  bool_decide (is_Some (hash_is_trusted t hex TRUST_NAME_LEN)).

Lemma trust_same_keyb t h e :
  trust_inv t → e ∈ hash_all t → (length h ≤ SHA256_HEX_LEN)%nat →
  hex_tolower h = h → same h e = keyb te_hex h e.
Proof.
  intros Hinv He Hh Hlow. unfold same, keyb.
  apply eq_bool_prop_intro. rewrite bool_decide_spec, Is_true_true.
  rewrite strncasecmp_eq_full; [|rewrite (ti_len _ Hinv e He); done|done].
  fold (hex_tolower (te_hex e)) (hex_tolower h).
  by rewrite (ti_lower _ Hinv e He), Hlow.
Qed.

Lemma trust_find_same t h :
  trust_inv t → (length h ≤ SHA256_HEX_LEN)%nat → hex_tolower h = h →
  find_first (same h) (hash_chain t (bucket h)) = ht_map te_hex t !! h.
Proof.
  intros Hinv Hh Hl. rewrite <- (ht_find _ bucket _ _ _ (ti_ht _ Hinv)).
  apply find_first_ext. intros e He. eapply trust_same_keyb; [done| |done..].
  by eapply hash_chain_elem.
Qed.

Lemma trusts_map t h :
  trust_inv t → canonical h → trusts t h = bool_decide (is_Some (ht_map te_hex t !! h)).
Proof.
  intros Hinv [Hl Hlow]. unfold trusts, hash_is_trusted.
  rewrite trust_find_same by (done || lia). apply bool_decide_ext.
  destruct (ht_map te_hex t !! h); simpl; [|done]. split; by eexists.
Qed.

Lemma trust_inv_init : trust_inv trust_table_init.
Proof.
  split; [apply ht_init_ok|..]; unfold trust_table_init; rewrite hash_all_init;
    by intros e ?%elem_of_nil.
Qed.

Lemma canonical_lower h :
  length h = SHA256_HEX_LEN → canonical (hex_tolower h).
Proof.
  intros Hl. split; [by unfold hex_tolower; rewrite length_fmap|apply fmap_tolower_idem].
Qed.

(** *** The laws, on the table *)

Lemma trust_add_law k h n t r t' :
  trust_inv t → av_behavior_trust_add k h n t = (r, t') →
  trust_inv t' ∧
  ht_map te_hex t' =
    (if decide (r = 0)
     then <[hex_tolower h := {| te_hex := hex_tolower h; te_name := strscpy n TRUST_NAME_LEN |}]>
            (ht_map te_hex t)
     else ht_map te_hex t).
Proof.
  intros Hinv. unfold av_behavior_trust_add.
  destruct (Nat.eqb_spec (length h) SHA256_HEX_LEN) as [Hl|]; simpl; [|by intros [= <- <-]].
  destruct k; simpl; [|by intros [= <- <-]].
  destruct (canonical_lower h Hl) as [Hll Hlow].
  rewrite (strscpy_fit h), (strscpy_fit (hex_tolower h))
    by (unfold SHA256_HEX_LEN in *; lia).
  rewrite trust_find_same by (done || lia).
  destruct (ht_map te_hex t !! hex_tolower h) eqn:Hn; intros [= <- <-]; [done|].
  set (e := {| te_hex := hex_tolower h; te_name := _ |}).
  destruct (ht_add te_hex bucket _ t e (ti_ht _ Hinv) (hash_min_range _ _) Hn) as [Hok Hm].
  assert (Hp := hash_add_perm t (bucket (hex_tolower h)) e
    ltac:(rewrite (ht_len _ _ _ _ (ti_ht _ Hinv)); apply hash_min_range)).
  split; [|exact Hm]. split; [exact Hok|..]; intros x; rewrite Hp, elem_of_cons;
    (intros [->|?]; [done|]); first [by apply (ti_len _ Hinv)|by apply (ti_lower _ Hinv)].
Qed.

Lemma trust_del_law h t r t' :
  trust_inv t → av_behavior_trust_del h t = (r, t') →
  trust_inv t' ∧
  ht_map te_hex t' =
    (if decide (r = 0) then delete (hex_tolower h) (ht_map te_hex t) else ht_map te_hex t).
Proof.
  intros Hinv. unfold av_behavior_trust_del.
  destruct (Nat.eqb_spec (length h) SHA256_HEX_LEN) as [Hl|]; simpl; [|by intros [= <- <-]].
  destruct (canonical_lower h Hl) as [Hll Hlow].
  rewrite (strscpy_fit h) by (unfold SHA256_HEX_LEN in *; lia).
  destruct (ht_del_all te_hex bucket _ t (hex_tolower h) (ti_ht _ Hinv) (hash_min_range _ _))
    as (Hex&Hok&Hm).
  assert (∀ e, e ∈ hash_chain t (bucket (hex_tolower h)) →
    same (hex_tolower h) e = keyb te_hex (hex_tolower h) e) as Hsame.
  { intros e He. eapply trust_same_keyb; [done|by eapply hash_chain_elem|lia|done]. }
  unfold hash_del_all in *.
  rewrite (existsb_ext_elem _ _ _ Hsame), Hex.
  rewrite (filter_ext_elem _ (λ e, negb (keyb te_hex (hex_tolower h) e)))
    by (intros e He; by rewrite Hsame).
  set (t1 := <[_ := _]> t) in *. intros [= <- <-].
  assert (∀ e, e ∈ hash_all t1 → e ∈ hash_all t) as Hsub.
  { intros e. rewrite !(ht_map_elem te_hex bucket (2 ^ TRUST_BITS)) by (done || apply Hinv).
    rewrite Hm, lookup_delete_Some. by intros [_ ?]. }
  split.
  - split; [done|..]; intros e He%Hsub; [by apply (ti_len _ Hinv)|by apply (ti_lower _ Hinv)].
  - rewrite Hm. case_bool_decide as Hs; simpl; [done|].
    apply delete_id. by rewrite eq_None_not_Some.
Qed.

(** A delete finds its digest exactly if the map has it, and else drops nothing. *)
Lemma trust_del_present t h :
  trust_inv t → length h = SHA256_HEX_LEN →
  let b := bucket (hex_tolower h) in
  existsb (same (hex_tolower h)) (hash_chain t b) =
    bool_decide (is_Some (ht_map te_hex t !! hex_tolower h)) ∧
  (¬ is_Some (ht_map te_hex t !! hex_tolower h) → hash_del_all t b (same (hex_tolower h)) = t).
Proof.
  intros Hinv Hl b. destruct (canonical_lower h Hl) as [Hll Hlow].
  assert (∀ e, e ∈ hash_chain t b → same (hex_tolower h) e = keyb te_hex (hex_tolower h) e) as Hsame.
  { intros e He. eapply trust_same_keyb; [done|by eapply hash_chain_elem|lia|done]. }
  destruct (ht_del_all te_hex bucket _ t (hex_tolower h) (ti_ht _ Hinv) (hash_min_range _ _)) as (Hex & _).
  rewrite (existsb_ext_elem _ _ _ Hsame). split; [exact Hex|]. intros Hn.
  unfold hash_del_all. rewrite filter_all.
  { unfold hash_chain. destruct (t !! b) as [c|] eqn:Hb; [by apply list_insert_id|].
    by apply list_insert_ge, lookup_ge_None. }
  intros e He. rewrite Hsame by done.
  rewrite bool_decide_false in Hex by done. apply negb_true_iff.
  apply not_true_iff_false. intros Hk. apply not_true_iff_false in Hex. apply Hex.
  apply existsb_exists. exists e. by rewrite <- list_elem_of_In.
Qed.

#[export] Program Instance trust_list : TrustList (list (list av_trust_entry)) := {|
  tl_ok := trust_inv;
  tl_trusts := trusts;
  tl_add := av_behavior_trust_add;
  tl_del := av_behavior_trust_del;
|}.
Next Obligation.
  intros k h n s r s' Hok Hadd. destruct (trust_add_law _ _ _ _ _ _ Hok Hadd) as [Hok' Hm].
  split; [done|]. intros h' Hc. rewrite !trusts_map by done. rewrite Hm.
  case_decide; [|done]. fold (hex_tolower h). rewrite lookup_insert.
  destruct (decide (hex_tolower h = h')) as [<-|Hne].
  - rewrite (bool_decide_true (hex_tolower h = hex_tolower h)) by done. done.
  - by rewrite (bool_decide_false (hex_tolower h = h')).
Qed.
Next Obligation.
  intros h s r s' Hok Hdel. destruct (trust_del_law _ _ _ _ Hok Hdel) as [Hok' Hm].
  split; [done|]. intros h' Hc. rewrite !trusts_map by done. rewrite Hm.
  case_decide; [|done]. fold (hex_tolower h). rewrite lookup_delete.
  destruct (decide (hex_tolower h = h')) as [<-|Hne].
  - rewrite (bool_decide_true (hex_tolower h = hex_tolower h)) by done.
    by apply bool_decide_false; intros [??].
  - by rewrite (bool_decide_false (hex_tolower h = h')).
Qed.

(** The "add" line is parsed back to its digest and name. *)
Lemma trust_write_add hex name t :
  hex ≠ [] → (length hex ≤ 64)%nat → Forall (λ a, isspace a = false ∧ a ≠ NUL) hex →
  name ≠ [] → (length name ≤ 63)%nat → Forall (λ a, a ≠ LF ∧ a ≠ NUL) name →
  match name with [] => True | a :: _ => isspace a = false end →
  let line := cs "add" ++ SPACE :: hex ++ SPACE :: name ++ [LF] in
  trust_proc_write true true (Z.of_nat (length line)) (Some line) t =
  let '(ret, t') := av_behavior_trust_add true hex name t in
  (if ret =? 0 then Z.of_nat (length line) else - EINVAL, t').
Proof.
  intros Hne Hlen Hf Hnne Hnlen Hnf Hn line.
  assert (buf_str line = line) as Hb.
  { apply take_while_all. unfold line. repeat (rewrite Forall_app || rewrite Forall_cons).
    split_and!; try by repeat constructor.
    - eapply Forall_impl; [exact Hf|]. intros a [_ Ha]. apply negb_true_iff. by apply aeqb_neq.
    - eapply Forall_impl; [exact Hnf|]. intros a [_ Ha]. apply negb_true_iff. by apply aeqb_neq. }
  unfold trust_proc_write. cbn [negb]. rewrite (proj2 (Z.leb_gt _ _)), Hb.
  2: { unfold line. rewrite length_app, length_cons, length_app, length_cons, length_app.
       change (length (cs "add")) with 3%nat. simpl. lia. }
  unfold line. rewrite sscanf_word; [|done|by repeat constructor|vm_compute; lia].
  rewrite skip_spaces_id by (destruct hex; [done|]; by apply Forall_cons in Hf as [[? _] _]).
  rewrite sscanf_word; [|done|eapply Forall_impl; [exact Hf|by intros ? [? _]]|done].
  rewrite skip_spaces_id by (by destruct name).
  rewrite sscanf_line; [|done|eapply Forall_impl; [exact Hnf|by intros ? [? _]]|done].
  done.
Qed.

(** Trusting a digest and untrusting it again, in whatever letter case
    each call spells it, is the identity: after a successful add the digest
    [hash_file_multi] would compute is trusted and no other digest changes
    its status; the delete then succeeds and leaves exactly the list there was
    before. *)
Theorem trust_add_del_roundtrip k h h' n t t1 :
  trust_inv t → av_behavior_trust_add k h n t = (0, t1) →
  tolower <$> h' = tolower <$> h →
  trusts t1 (hex_tolower h) = true ∧
  (∀ g, canonical g → g ≠ hex_tolower h → trusts t1 g = trusts t g) ∧
  ∃ t2, av_behavior_trust_del h' t1 = (0, t2) ∧ trust_inv t2 ∧
        ht_map te_hex t2 = ht_map te_hex t.
Proof.
  intros Hinv Hadd Hh'.
  assert (length h = SHA256_HEX_LEN ∧ ht_map te_hex t !! hex_tolower h = None) as [Hl Hn].
  { unfold av_behavior_trust_add in Hadd.
    destruct (Nat.eqb_spec (length h) SHA256_HEX_LEN) as [Hl|]; [|done]. cbn [negb] in Hadd.
    destruct k; [|done]. cbn [negb] in Hadd. destruct (canonical_lower h Hl) as [Hll Hlow].
    rewrite (strscpy_fit h), (strscpy_fit (hex_tolower h)) in Hadd
      by (unfold SHA256_HEX_LEN in *; lia).
    rewrite trust_find_same in Hadd by (done || lia). split; [done|].
    by destruct (ht_map te_hex t !! _). }
  destruct (trust_add_law _ _ _ _ _ _ Hinv Hadd) as [Hinv1 Hm]. simpl in Hm.
  pose proof (canonical_lower h Hl) as Hc. split_and!.
  - rewrite trusts_map, Hm, lookup_insert_eq by done. by apply bool_decide_true.
  - intros g Hg Hne. rewrite !trusts_map, Hm, lookup_insert_ne by done. done.
  - assert (hex_tolower h' = hex_tolower h) as Heq by done.
    assert (length h' = SHA256_HEX_LEN) as Hl'.
    { rewrite <- (length_fmap tolower h'), Hh', length_fmap. done. }
    destruct (av_behavior_trust_del h' t1) as [r t2] eqn:Hdel.
    destruct (trust_del_law _ _ _ _ Hinv1 Hdel) as [Hinv2 Hm2].
    assert (r = 0) as ->.
    { unfold av_behavior_trust_del in Hdel. rewrite (proj2 (Nat.eqb_eq _ _) Hl') in Hdel.
      cbn [negb] in Hdel. rewrite (strscpy_fit h') in Hdel by (unfold SHA256_HEX_LEN in *; lia).
      rewrite Heq in Hdel.
      destruct (find_first (same (hex_tolower h)) (hash_chain t1 (bucket (hex_tolower h))))
        as [e|] eqn:Hf.
      - apply find_first_Some in Hf as [He Hs].
        rewrite (proj2 (existsb_exists _ _)) in Hdel; [by simplify_eq|].
        exists e. by rewrite <- list_elem_of_In.
      - rewrite trust_find_same, Hm, lookup_insert_eq in Hf; [done|done| |apply Hc].
        by rewrite (proj1 Hc). }
    exists t2. split_and!; [done..|]. rewrite Hm2. simpl. rewrite Hm, Heq.
    by rewrite delete_insert_id.
Qed.
End trust.
End Trust.

(** ** Protected exe paths *)

Module Protect.
Section protect.
Context `{KernelHash}.

Definition path_key (path : cstr) : Z := full_name_hash path.
Definition bucket (path : cstr) : nat := hash_min (path_key path) TRUST_BITS.

(** [struct av_protected_entry] holds the path and nothing else. *)
Record av_protected_entry := { pe_path : cstr }.

Definition same (path : cstr) (e : av_protected_entry) : bool :=
  strcmp_eq (pe_path e) path.

Definition path_is_on_protected_list (t : list (list av_protected_entry))
    (path : cstr) : bool :=
  match find_first (same path) (hash_chain t (bucket path)) with
  | Some _ => true
  | None => false
  end.

(** [path[0] != '/']. *)
Definition absolute (path : cstr) : bool :=
  match path with [] => false | a :: _ => aeqb a SLASH end.

Definition av_behavior_protect_add (kmalloc_ok : bool) (path : cstr)
    (t : list (list av_protected_entry)) : Z * list (list av_protected_entry) :=
  if negb (absolute path) || (PROTECTED_PATH_LEN <=? length path)%nat then (- EINVAL, t)
  else if negb kmalloc_ok then (- ENOMEM, t)
  else
    let e := {| pe_path := strscpy path PROTECTED_PATH_LEN |} in
    match find_first (same (pe_path e)) (hash_chain t (bucket (pe_path e))) with
    | Some _ => (- EEXIST, t)
    | None => (0, hash_add t (bucket (pe_path e)) e)
    end.

Definition av_behavior_protect_del (path : cstr)
    (t : list (list av_protected_entry)) : Z * list (list av_protected_entry) :=
  match hash_del_first t (bucket path) (same path) with
  | Some t' => (0, t')
  | None => (- ENOENT, t)
  end.

Definition protected_proc_show (t : list (list av_protected_entry)) : cstr :=
  concat ((λ e, pe_path e ++ [LF]) <$> hash_all t).

Definition PROTECTED_WRITE_MAXLEN : Z := Z.of_nat PATH_MAX + 16.

Definition is_blank (a : ascii) : bool := aeqb a SPACE || aeqb a TAB.

(** The path operand: what follows the first run of blanks, without its
    mandatory newline and an optional carriage return before it; [None] when
    there is no newline, no path, or a path that does not fit. *)
Definition protected_operand (kbuf : cstr) : option cstr :=
  let rest := drop_while is_blank (drop_while (λ a, negb (is_blank a)) kbuf) in
  match reverse rest with
  | a :: r =>
      if negb (aeqb a LF) then None
      else
        let r := match r with
                 | b :: r' => if aeqb b CR then r' else r
                 | [] => []
                 end in
        if (length r =? 0)%nat || (PATH_MAX <=? length r)%nat then None
        else Some (strscpy (reverse r) PATH_MAX)
  | [] => None
  end.

Definition protected_proc_write (capable kbuf_ok path_ok entry_ok : bool)
    (ppos count : Z) (ubuf : option (list ascii))
    (t : list (list av_protected_entry)) : Z * list (list av_protected_entry) :=
  if negb capable then (- EPERM, t)
  else if negb (ppos =? 0) then (- EINVAL, t)
  else if PROTECTED_WRITE_MAXLEN <=? count then (- EINVAL, t)
  else if negb (kbuf_ok && path_ok) then (- ENOMEM, t)
  else match ubuf with
  | None => (- EFAULT, t)
  | Some b =>
    match sscanf [ConvS 7] (buf_str b) with
    | [] => (- EINVAL, t)
    | cmd :: _ =>
      match protected_operand (buf_str b) with
      | None => (- EINVAL, t)
      | Some path =>
        if strcasecmp_eq cmd (cs "add") then
          let '(ret, t') := av_behavior_protect_add entry_ok path t in
          (if ret =? 0 then count else ret, t')
        else if strcasecmp_eq cmd (cs "del") then
          let '(ret, t') := av_behavior_protect_del path t in
          (if ret =? 0 then count else - ENOENT, t')
        else (- EINVAL, t)
      end
    end
  end.

Definition protected_table_init : list (list av_protected_entry) :=
  hash_init (2 ^ TRUST_BITS).
Definition protected_table_destroy (t : list (list av_protected_entry))
    : list (list av_protected_entry) := (λ _, []) <$> t.

(** *** Invariant and laws *)

Definition protect_inv (t : list (list av_protected_entry)) : Prop :=
  ht_ok pe_path bucket (2 ^ TRUST_BITS) t.

Lemma protect_inv_init : protect_inv protected_table_init.
Proof. apply ht_init_ok. Qed.

Lemma path_same_keyb p e : same p e = keyb pe_path p e.
Proof.
  unfold same, keyb. apply eq_bool_prop_intro.
  rewrite bool_decide_spec, Is_true_true. apply strcmp_eq_spec.
Qed.

Lemma path_find_same t p :
  protect_inv t →
  find_first (same p) (hash_chain t (bucket p)) = ht_map pe_path t !! p.
Proof.
  intros Hinv. rewrite <- (ht_find _ bucket _ _ _ Hinv).
  apply find_first_ext. intros. apply path_same_keyb.
Qed.

Lemma protects_map t p :
  protect_inv t →
  path_is_on_protected_list t p = bool_decide (is_Some (ht_map pe_path t !! p)).
Proof.
  intros Hinv. unfold path_is_on_protected_list. rewrite path_find_same by done.
  by destruct (_ !! _).
Qed.

Lemma protect_add_law k p t r t' :
  protect_inv t → av_behavior_protect_add k p t = (r, t') →
  protect_inv t' ∧
  ht_map pe_path t' =
    (if decide (r = 0) then <[p := {| pe_path := p |}]> (ht_map pe_path t)
     else ht_map pe_path t).
Proof.
  intros Hinv. unfold av_behavior_protect_add.
  destruct (absolute p); cbn [negb orb]; [|by intros [= <- <-]].
  destruct (Nat.leb_spec PROTECTED_PATH_LEN (length p)); [by intros [= <- <-]|].
  destruct k; simpl; [|by intros [= <- <-]].
  rewrite (strscpy_fit p) by done. rewrite path_find_same by done.
  destruct (ht_map pe_path t !! p) eqn:Hn; intros [= <- <-]; [done|].
  by destruct (ht_add pe_path bucket _ t {| pe_path := p |} Hinv (hash_min_range _ _) Hn).
Qed.

Lemma protect_del_law p t r t' :
  protect_inv t → av_behavior_protect_del p t = (r, t') →
  protect_inv t' ∧
  ht_map pe_path t' =
    (if decide (r = 0) then delete p (ht_map pe_path t) else ht_map pe_path t).
Proof.
  intros Hinv. unfold av_behavior_protect_del.
  assert (hash_del_first t (bucket p) (same p) = hash_del_first t (bucket p) (keyb pe_path p))
    as -> by (unfold hash_del_first; f_equal; apply del_first_ext; intros; apply path_same_keyb).
  assert (Hd := ht_del pe_path bucket _ t p Hinv (hash_min_range _ _)).
  destruct (ht_map pe_path t !! p), (hash_del_first _ _ _); try done;
    intros [= <- <-]; [|done]. by destruct Hd as (?&?&_).
Qed.

#[export] Program Instance protect_list : ProtectList (list (list av_protected_entry)) := {|
  pl_ok := protect_inv;
  pl_protects := path_is_on_protected_list;
  pl_add := av_behavior_protect_add;
  pl_del := av_behavior_protect_del;
|}.
Next Obligation.
  intros k p s r s' Hok Hadd. destruct (protect_add_law _ _ _ _ _ Hok Hadd) as [Hok' Hm].
  split; [done|]. intros p'. rewrite !protects_map by done. rewrite Hm.
  case_decide; [|done]. rewrite lookup_insert.
  destruct (decide (p = p')) as [<-|Hne].
  - by rewrite (bool_decide_true (p = p)).
  - by rewrite (bool_decide_false (p = p')).
Qed.
Next Obligation.
  intros p s r s' Hok Hdel. destruct (protect_del_law _ _ _ _ Hok Hdel) as [Hok' Hm].
  split; [done|]. intros p'. rewrite !protects_map by done. rewrite Hm.
  case_decide; [|done]. rewrite lookup_delete.
  destruct (decide (p = p')) as [<-|Hne].
  - rewrite (bool_decide_true (p = p)) by done. done.
  - by rewrite (bool_decide_false (p = p')).
Qed.

Lemma operand_last kbuf :
  last kbuf ≠ Some LF → protected_operand kbuf = None.
Proof.
  unfold protected_operand. intros Hl.
  set (rest := drop_while is_blank _).
  assert (rest `suffix_of` kbuf) as [pre Hpre].
  { etrans; [apply drop_while_suffix|]. apply drop_while_suffix. }
  destruct (reverse rest) as [|a r] eqn:Hr; [done|].
  destruct (aeqb a LF) eqn:Ha; [|done]. apply aeqb_eq in Ha as ->.
  exfalso. apply Hl. rewrite Hpre. rewrite <- (reverse_involutive rest), Hr.
  rewrite reverse_cons, last_app, last_snoc. done.
Qed.

Lemma operand_line w path :
  Forall (λ a, is_blank a = false) w → w ≠ [] →
  absolute path = true → (length path < PATH_MAX)%nat → last path ≠ Some CR →
  protected_operand (w ++ SPACE :: path ++ [LF]) = Some path.
Proof.
  intros Hw Hne Habs Hlen Hcr. unfold protected_operand.
  rewrite (drop_while_app (λ a, negb (is_blank a)) w); [|eapply Forall_impl; [exact Hw|by simpl; intros ? ->]|done].
  destruct path as [|c path]; [done|]. simpl in Habs. apply aeqb_eq in Habs as ->.
  change (drop_while is_blank (SPACE :: (SLASH :: path) ++ [LF])) with ((SLASH :: path) ++ [LF]).
  rewrite reverse_snoc, aeqb_refl. cbn [negb].
  assert (match reverse (SLASH :: path) with
          | b :: r' => if aeqb b CR then r' else reverse (SLASH :: path)
          | [] => [] end = reverse (SLASH :: path)) as ->.
  { destruct (reverse (SLASH :: path)) as [|b r] eqn:Hr; [done|].
    destruct (aeqb b CR) eqn:Hb; [|done]. exfalso. apply Hcr. apply aeqb_eq in Hb as ->.
    by rewrite <- (reverse_involutive (SLASH :: path)), Hr, reverse_cons, last_snoc. }
  rewrite length_reverse, reverse_involutive.
  destruct (Nat.eqb_spec (length (SLASH :: path)) 0) as [H0|_]; [done|].
  rewrite (proj2 (Nat.leb_gt _ _)) by done. cbn [orb]. by rewrite strscpy_fit.
Qed.

(** A write to /proc/kernel_av_protected whose content does not end in a
    newline (what a chunk of a split-up larger write looks like) is refused
    with a negative errno and changes nothing, whatever command and path it
    seems to hold. *)
Theorem protected_write_unterminated capable kbuf_ok path_ok entry_ok ppos count b t :
  last (buf_str b) ≠ Some LF →
  let '(r, t') := protected_proc_write capable kbuf_ok path_ok entry_ok ppos count (Some b) t in
  r < 0 ∧ t' = t.
Proof.
  intros Hl. unfold protected_proc_write. rewrite (operand_last _ Hl).
  repeat case_match; simplify_eq/=; done.
Qed.

(** The "add" line is parsed back to its path, whatever its length. *)
Lemma protected_write_add path count t :
  absolute path = true → (length path < PATH_MAX)%nat → last path ≠ Some CR →
  Forall (λ a, a ≠ NUL) path → count < PROTECTED_WRITE_MAXLEN →
  protected_proc_write true true true true 0 count (Some (cs "add" ++ SPACE :: path ++ [LF])) t =
  let '(ret, t') := av_behavior_protect_add true path t in (if ret =? 0 then count else ret, t').
Proof.
  intros Habs Hlen Hcr Hnul Hcount.
  assert (buf_str (cs "add" ++ SPACE :: path ++ [LF]) = cs "add" ++ SPACE :: path ++ [LF]) as Hb.
  { apply take_while_all. rewrite Forall_app, Forall_cons, Forall_app.
    split_and!; try by repeat constructor.
    eapply Forall_impl; [exact Hnul|]. intros a Ha. apply negb_true_iff. by apply aeqb_neq. }
  unfold protected_proc_write. cbn [negb andb]. rewrite Z.eqb_refl. cbn [negb].
  rewrite (proj2 (Z.leb_gt _ _)), Hb by done.
  rewrite sscanf_word; [|done|by repeat constructor|vm_compute; lia].
  rewrite operand_line; [|by repeat constructor|done..]. done.
Qed.

(** "add", a blank, an absolute path of any length up to PATH_MAX - 1
    and a newline protects exactly that path: nothing is truncated, and the
    newline is not part of what is stored. *)
Theorem protected_write_exact path count t :
  protect_inv t →
  absolute path = true → (length path < PATH_MAX)%nat → last path ≠ Some CR →
  Forall (λ a, a ≠ NUL) path → count < PROTECTED_WRITE_MAXLEN →
  path_is_on_protected_list t path = false →
  let '(r, t') := protected_proc_write true true true true 0 count
                    (Some (cs "add" ++ SPACE :: path ++ [LF])) t in
  r = count ∧ protect_inv t' ∧
  ∀ p, path_is_on_protected_list t' p = bool_decide (path = p) || path_is_on_protected_list t p.
Proof.
  intros Hinv Habs Hlen Hcr Hnul Hcount Hnot. rewrite protected_write_add by done.
  destruct (av_behavior_protect_add true path t) as [r t'] eqn:Hadd.
  assert (r = 0) as ->.
  { unfold av_behavior_protect_add in Hadd. rewrite Habs in Hadd.
    rewrite (proj2 (Nat.leb_gt _ _)) in Hadd by done. cbn [negb orb] in Hadd.
    rewrite protects_map in Hnot by done. apply bool_decide_eq_false in Hnot.
    rewrite strscpy_fit, path_find_same in Hadd by done.
    cbn [pe_path] in Hadd.
    apply eq_None_not_Some in Hnot. rewrite Hnot in Hadd. by simplify_eq. }
  split; [done|]. destruct (@pl_add_law _ protect_list true path t 0 t' Hinv Hadd) as [Hi Hp].
  split; [exact Hi|]. intros p. specialize (Hp p). rewrite decide_True in Hp by done.
  exact Hp.
Qed.
End protect.
End Protect.

(** ** Witnesses *)

Module AllowExamples.
Import ToyHash.
Definition sha : cstr :=
  cs "275A021BBFB6489E54D471899F7DB9D1663FC695EC2FE2A2C4538AABF651FD0F".
Definition tr0 := Trust.trust_table_init.
Definition tr1 := (Trust.av_behavior_trust_add true sha (cs "browser") tr0).2.

Lemma trust_add_del_witness :
  Trust.trusts tr1 (Trust.hex_tolower sha) = true ∧
  ∃ t2, Trust.av_behavior_trust_del (Trust.hex_tolower sha) tr1 = (0, t2).
Proof.
  assert (Trust.av_behavior_trust_add true sha (cs "browser") tr0 = (0, tr1)) as Hadd
    by by vm_compute.
  destruct (Trust.trust_add_del_roundtrip true sha (Trust.hex_tolower sha) (cs "browser")
    tr0 tr1 Trust.trust_inv_init Hadd (fmap_tolower_idem sha)) as (?&_&t2&?&_).
  split; [done|by exists t2].
Defined.

(** The digest is not checked to be hexadecimal, only to be 64 bytes long. *)
Lemma trust_add_accepts_non_hex :
  (Trust.av_behavior_trust_add true (replicate 64 (chr 122)) (cs "zzz") tr0).1 = 0.
Proof. by vm_compute. Qed.

Definition pr0 := Protect.protected_table_init.
Definition sshd : cstr := cs "/usr/sbin/sshd".

Lemma protected_unterminated_witness :
  (Protect.protected_proc_write true true true true 0 18
     (Some (cs "add /usr/sbin/sshd")) pr0).2 = pr0.
Proof.
  pose proof (Protect.protected_write_unterminated true true true true 0 18
    (cs "add /usr/sbin/sshd") pr0 ltac:(by vm_compute)) as Hs.
  destruct (Protect.protected_proc_write _ _ _ _ _ _ _ _). apply Hs.
Defined.

Lemma protected_exact_witness :
  let t := (Protect.protected_proc_write true true true true 0 19
              (Some (cs "add" ++ SPACE :: sshd ++ [LF])) pr0).2 in
  Protect.path_is_on_protected_list t sshd = true ∧
  Protect.path_is_on_protected_list t (cs "/usr/sbin/sshd2") = false.
Proof.
  pose proof (Protect.protected_write_exact sshd 19 pr0 (ht_init_ok _ _ _)
    ltac:(done) ltac:(vm_compute; lia) ltac:(by vm_compute) ltac:(by repeat constructor)
    ltac:(by vm_compute) ltac:(by vm_compute)) as Hs.
  destruct (Protect.protected_proc_write _ _ _ _ _ _ _ _) as [r t].
  destruct Hs as (_&_&Hs). cbn [snd]. rewrite !Hs. by vm_compute.
Defined.
End AllowExamples.
