(* ===== verification/Paths.v ===== *)
(** * Paths: the predicates of av/behavior.c and the resolution of av/main.c

    - Module [Pred]: which paths the behaviour checks ignore, count or treat
      as sensitive, and the shape of an extension-append rename;
    - Module [Resolve]: [normalize_abs_path] and [resolve_absolute_path], the
      lexical resolution of a syscall's path argument against its base
      directory.  [kmalloc]/[kstrdup] outcomes and the result of [d_path] are
      arguments. *)

From Stdlib Require Import ZArith Lia Ascii String.
From stdpp Require Import prelude list strings.
From S2P Require Import Prelude CString.

(** [path[0] == '/']. *)
Definition is_absolute (path : cstr) : bool :=
  match path with [] => false | a :: _ => aeqb a SLASH end.

Module Pred.

Definition excluded_path_prefixes : list cstr := [cs "/sys/"; cs "/proc/"; cs "/dev/"].
Definition excluded_path_cache_substrings : list cstr := [cs "/.cache/"].
Definition excluded_path_suffixes : list cstr := [cs "-journal"; cs "-wal"; cs "-shm"].
Definition sensitive_path_substrings : list cstr :=
  [cs "/etc/passwd"; cs "/etc/shadow"; cs "/.ssh/"].
Definition sensitive_path_prefixes : list cstr := [cs "/boot/"].

Definition path_is_pseudo_fs (path : cstr) : bool :=
  existsb (λ p, strncmp_eq (length p) path p) excluded_path_prefixes.

Definition path_is_rapid_write_noise (path : cstr) : bool :=
  existsb (λ s, match strstr path s with Some _ => true | None => false end)
    excluded_path_cache_substrings
  || existsb (λ s, (length s <=? length path)
                   && strcmp_eq (drop (length path - length s) path) s)
       excluded_path_suffixes.

(** [p[needle_len] == '\0' || p[needle_len] == '/']. *)
Definition ends_component (q : cstr) (needle_len : nat) : bool :=
  match drop needle_len q with [] => true | a :: _ => aeqb a SLASH end.

Fixpoint bounded_loop (fuel : nat) (self_anchored : bool) (p needle : cstr) : bool :=
  match fuel with
  | O => false
  | S fuel' =>
      match strstr p needle with
      | None => false
      | Some q =>
          if self_anchored || ends_component q (length needle) then true
          else bounded_loop fuel' self_anchored (tail q) needle
      end
  end.

Definition self_anchored (needle : cstr) : bool :=
  match last needle with Some a => aeqb a SLASH | None => false end.

(** Each iteration moves at least one byte on, so the length is enough fuel. *)
Definition path_has_bounded_substring (path needle : cstr) : bool :=
  bounded_loop (S (length path)) (self_anchored needle) path needle.

Definition path_is_sensitive (path : cstr) : bool :=
  existsb (λ p, strncmp_eq (length p) path p) sensitive_path_prefixes
  || existsb (path_has_bounded_substring path) sensitive_path_substrings.

Definition path_basename (path : cstr) : cstr :=
  match strrchr path SLASH with Some slash => tail slash | None => path end.

Definition is_extension_append_rename (old_path new_path : cstr) : bool :=
  let old_base := path_basename old_path in
  let new_base := path_basename new_path in
  if length new_base <=? length old_base then false
  else if negb (strncmp_eq (length old_base) old_base new_base) then false
  else match new_base !! length old_base with
       | Some a => aeqb a DOT
       | None => false
       end.

(** ** Lemmas *)

Lemma strstr_Some s n q :
  strstr s n = Some q →
  ∃ l, s = l ++ q ∧ n `prefix_of` q ∧
       ∀ l' r, s = l' ++ n ++ r → length l ≤ length l'.
Proof.
  revert q. induction s as [|a s IH]; intros q; simpl.
  - destruct (is_prefix n []) eqn:Hp; [|done]. intros [= <-].
    exists []. apply is_prefix_spec in Hp. split_and!; [done..|]. simpl. lia.
  - destruct (is_prefix n (a :: s)) eqn:Hp.
    + intros [= <-]. exists []. apply is_prefix_spec in Hp.
      split_and!; [done..|]. simpl. lia.
    + intros (l&->&?&Hmin)%IH. exists (a :: l). split_and!; [done..|].
      intros [|b l'] r Heq; simpl in *.
      * exfalso. apply not_true_iff_false in Hp. apply Hp, is_prefix_spec. by exists r.
      * injection Heq as -> Heq. apply Hmin in Heq. lia.
Qed.

Lemma strstr_None s n : strstr s n = None ↔ ∀ l r, s ≠ l ++ n ++ r.
Proof.
  split.
  - induction s as [|a s IH]; simpl.
    + destruct (is_prefix n []) eqn:Hp; [done|]. intros _ l r Heq.
      apply not_true_iff_false in Hp. apply Hp, is_prefix_spec.
      destruct l; [by exists r|done].
    + destruct (is_prefix n (a :: s)) eqn:Hp; [done|]. intros Hs [|b l] r Heq; simpl in *.
      * apply not_true_iff_false in Hp. apply Hp, is_prefix_spec. by exists r.
      * injection Heq as -> Heq. by eapply IH.
  - intros Hn. destruct (strstr s n) as [q|] eqn:Hq; [|done].
    apply strstr_Some in Hq as (l&->&[r ->]&_). by destruct (Hn l r).
Qed.

Lemma ends_component_spec n r :
  ends_component (n ++ r) (length n) = true ↔ r = [] ∨ ∃ r', r = SLASH :: r'.
Proof.
  unfold ends_component. rewrite drop_app_length.
  destruct r as [|a r]; [split; [by left|done]|]. rewrite aeqb_eq. split.
  - intros ->. right. by eexists.
  - by intros [?|[? [= -> _]]].
Qed.

(** An occurrence of [needle] in [path] the check accepts. *)
Definition occurs_bounded (path needle : cstr) : Prop :=
  ∃ l r, path = l ++ needle ++ r ∧
    (self_anchored needle = true ∨ r = [] ∨ ∃ r', r = SLASH :: r').

Lemma bounded_loop_spec fuel p n :
  length p < fuel → bounded_loop fuel (self_anchored n) p n = true ↔ occurs_bounded p n.
Proof.
  revert p. induction fuel as [|fuel IH]; intros p Hf; [lia|]. simpl.
  destruct (strstr p n) as [q|] eqn:Hq.
  2: { split; [done|]. intros (l&r&->&_). by destruct (proj1 (strstr_None _ n) Hq l r). }
  pose proof Hq as (l&Hp&[r ->]&Hmin)%strstr_Some.
  destruct (self_anchored n || _) eqn:Hacc.
  { split; [intros _|done]. exists l, r. split; [done|].
    apply orb_true_iff in Hacc as [?|?%ends_component_spec]; auto. }
  apply orb_false_iff in Hacc as [Hsa Hec].
  destruct (n ++ r) as [|a q] eqn:Hnr.
  { exfalso. apply not_true_iff_false in Hec. apply Hec. by unfold ends_component; rewrite drop_nil. }
  rewrite IH by (subst p; rewrite length_app in Hf; simpl in *; lia). split.
  - intros (l'&r'&Heq&Hr'). exists (l ++ a :: l'), r'. split; [|done].
    simpl in Heq. subst p q. by rewrite <- (assoc_L (++)).
  - intros (l'&r'&Heq&Hr').
    assert (length l < length l' ∨ length l = length l') as [Hlt|Hle].
    { apply Hmin in Heq as ?. lia. }
    + exists (drop (S (length l)) l'), r'. split; [|done]. simpl.
      assert (drop (S (length l)) p = q) as <-.
      { subst p. rewrite (cons_middle a l q), (assoc_L (++)), drop_app_ge
          by (rewrite length_app; simpl; lia).
        rewrite length_app. simpl. by replace (S (length l) - (length l + 1)) with 0 by lia. }
      rewrite Heq. apply drop_app_le. lia.
    + exfalso. apply not_true_iff_false in Hec. apply Hec. rewrite <- Hnr.
      apply ends_component_spec. subst p. apply app_inj_1 in Heq as [<- Heq]; [|done].
      rewrite <- Hnr in Heq. apply app_inv_head in Heq as <-.
      destruct Hr' as [?|?]; [congruence|done].
Qed.

Lemma path_has_bounded_substring_spec path n :
  path_has_bounded_substring path n = true ↔ occurs_bounded path n.
Proof. apply bounded_loop_spec. lia. Qed.

(** The basename is the part after the last slash. *)
Lemma path_basename_spec p :
  (SLASH ∉ path_basename p) ∧
  ∃ d, p = d ++ path_basename p ∧ (d = [] ∨ ∃ d', d = d' ++ [SLASH]).
Proof.
  unfold path_basename. pose proof (strrchr_spec p SLASH) as Hs.
  destruct (strrchr p SLASH) as [q|].
  - destruct Hs as (d&b&->&->&?). simpl. split; [done|].
    exists (d ++ [SLASH]). split; [by rewrite <- (assoc_L (++))|]. right. by exists d.
  - split; [done|]. exists []. by split; [|left].
Qed.

Lemma strncmp_eq_app (o n : cstr) :
  strncmp_eq (length o) o n = is_prefix o n.
Proof.
  revert n. induction o as [|a o IH]; intros [|b n]; simpl; [done..|]. by rewrite IH.
Qed.

(** The test accepts exactly the paths under /boot/, the paths with a directory
    component .ssh followed by more, and those in which /etc/passwd or
    /etc/shadow occurs as whole components (so neither /etc/passwd.bak nor
    /home/u/boot/x is sensitive). *)
Lemma path_is_sensitive_iff path :
  path_is_sensitive path = true ↔
  (∃ r, path = cs "/boot/" ++ r) ∨
  (∃ l r, path = l ++ cs "/.ssh/" ++ r) ∨
  (∃ l n r, (n = cs "/etc/passwd" ∨ n = cs "/etc/shadow") ∧
     path = l ++ n ++ r ∧ (r = [] ∨ ∃ r', r = SLASH :: r')).
Proof.
  unfold path_is_sensitive, sensitive_path_prefixes, sensitive_path_substrings, existsb.
  rewrite strncmp_eq_prefix, !orb_false_r, !orb_true_iff.
  rewrite !path_has_bounded_substring_spec, is_prefix_spec.
  unfold occurs_bounded.
  assert (self_anchored (cs "/etc/passwd") = false ∧ self_anchored (cs "/etc/shadow") = false ∧
          self_anchored (cs "/.ssh/") = true) as (->&->&->) by by vm_compute.
  split.
  - intros [[r ->]|[(l&r&->&[?|?])|[(l&r&->&[?|?])|(l&r&->&_)]]]; try done.
    + left. by exists r.
    + right; right. eexists l, _, r. split_and!; [by left|done|done].
    + right; right. eexists l, _, r. split_and!; [by right|done|done].
    + right; left. by exists l, r.
  - intros [[r ->]|[(l&r&->)|(l&n&r&[->| ->]&->&?)]].
    + left. by exists r.
    + do 3 right. exists l, r. split; [done|by left].
    + right; left. exists l, r. split; [done|by right].
    + right; right; left. exists l, r. split; [done|by right].
Qed.

(** A rename counts as an extension append exactly when the new basename
    is the old one followed by a dot and anything (nothing included). *)
Theorem is_extension_append_rename_spec old_path new_path :
  is_extension_append_rename old_path new_path = true ↔
  ∃ ext, path_basename new_path = path_basename old_path ++ DOT :: ext.
Proof.
  unfold is_extension_append_rename.
  set (o := path_basename old_path). set (n := path_basename new_path).
  rewrite strncmp_eq_app. split.
  - destruct (Nat.leb_spec (length n) (length o)); [done|].
    destruct (is_prefix o n) eqn:Hp; [|done]. cbn [negb].
    apply is_prefix_spec in Hp as [[|a r] ->].
    + rewrite app_nil_r in *. lia.
    + rewrite list_lookup_middle by done. intros ->%aeqb_eq. by exists r.
  - intros [ext ->]. rewrite (proj2 (Nat.leb_gt _ _)) by (rewrite length_app; simpl; lia).
    rewrite (proj2 (is_prefix_spec _ _)) by by eexists.
    cbn [negb]. by rewrite list_lookup_middle.
Qed.

(** The appended suffix may be a bare dot. *)
Example bare_dot_append :
  is_extension_append_rename (cs "/home/u/a.txt") (cs "/home/u/a.txt.") = true.
Proof. by vm_compute. Qed.

End Pred.

Module Resolve.

(** The capacity of [stack] in [normalize_abs_path]. *)
Definition STACK_SIZE : nat := 128.

Definition is_dot (tok : cstr) : bool := strcmp_eq tok (cs ".").
Definition is_dotdot (tok : cstr) : bool := strcmp_eq tok (cs "..").

(** The [while ((tok = strsep(&saveptr, "/")) != NULL)] loop; [stack] has its
    top first, and [None] is [overflowed].  [strsep] consumes at least one byte
    or ends the loop, so the length of the string is enough fuel. *)
Fixpoint norm_loop (fuel : nat) (saveptr : option cstr) (stack : list cstr)
    : option (list cstr) :=
  match fuel, saveptr with
  | O, _ => None
  | S _, None => Some stack
  | S fuel', Some s =>
      let '(tok, saveptr') := strsep s SLASH in
      if strcmp_eq tok [] || is_dot tok then norm_loop fuel' saveptr' stack
      else if is_dotdot tok then norm_loop fuel' saveptr' (tail stack)
      else if length stack <? STACK_SIZE
      then norm_loop fuel' saveptr' (tok :: stack)
      else None
  end.

Definition norm_write (stack : list cstr) (path_len : nat) : cstr :=
  let path := if decide (stack = []) then strlcat [] (cs "/") path_len else [] in
  foldl (λ path tok, strlcat (strlcat path (cs "/") path_len) tok path_len)
    path (rev stack).

Definition normalize_abs_path (kstrdup_ok : bool) (path : cstr) (path_len : nat)
    : cstr :=
  if negb kstrdup_ok then path
  else match norm_loop (S (S (length path))) (Some path) [] with
       | None => path
       | Some stack => norm_write stack path_len
       end.

(** [dpath] is what [d_path(base, tmp, PATH_MAX)] returns, [None] an error
    pointer. *)
Definition resolve_absolute_path (kmalloc_ok kstrdup_ok : bool)
    (path : cstr) (dpath : option cstr) (out_len : nat) : cstr :=
  match path with
  | [] =>
      if negb kmalloc_ok then []
      else match dpath with
           | None => []
           | Some dirpath => strscpy dirpath out_len
           end
  | _ :: _ =>
      if is_absolute path
      then normalize_abs_path kstrdup_ok (strscpy path out_len) out_len
      else if negb kmalloc_ok then strscpy path out_len
      else match dpath with
           | None => strscpy path out_len
           | Some dirpath =>
               let full := dirpath ++ SLASH :: path in
               if out_len <=? length full then strscpy path out_len
               else normalize_abs_path kstrdup_ok full out_len
           end
  end.

(** ** Specification: lexical resolution of a list of components *)

(** The text between the slashes of a path. *)
Fixpoint tokens (s : cstr) : list cstr :=
  match s with
  | [] => [[]]
  | a :: s' =>
      if aeqb a SLASH then [] :: tokens s'
      else match tokens s' with
           | [] => [[a]]
           | tok :: rest => (a :: tok) :: rest
           end
  end.

(** One component against the ones already resolved (innermost first). *)
Definition lexical_step (st : list cstr) (tok : cstr) : list cstr :=
  if decide (tok = [] ∨ tok = cs ".") then st
  else if decide (tok = cs "..") then tail st else tok :: st.

Definition lexical (toks : list cstr) : list cstr := foldl lexical_step [] toks.

(** The directories a path names, outermost first. *)
Definition components (path : cstr) : list cstr := rev (lexical (tokens path)).

(** No prefix of the path is more than [STACK_SIZE] directories deep. *)
Definition depth_ok (path : cstr) : Prop :=
  ∀ k, length (lexical (take k (tokens path))) ≤ STACK_SIZE.

Fixpoint render_comps (comps : list cstr) : cstr :=
  match comps with
  | [] => []
  | c :: comps' => (SLASH :: c) ++ render_comps comps'
  end.

(** The canonical spelling of a list of components. *)
Definition canonical_path (comps : list cstr) : cstr :=
  match comps with [] => cs "/" | _ => render_comps comps end.

(** A component that canonical paths are made of. *)
Definition plain (c : cstr) : Prop :=
  c ≠ [] ∧ c ≠ cs "." ∧ c ≠ cs ".." ∧ SLASH ∉ c.

(** ** The loop computes the specification *)

Lemma strsep_tokens s :
  let '(tok, rest) := strsep s SLASH in
  (SLASH ∉ tok) ∧
  tokens s = tok :: match rest with None => [] | Some r => tokens r end.
Proof.
  induction s as [|a s IH]; simpl.
  - split; [by apply not_elem_of_nil|done].
  - destruct (aeqb a SLASH) eqn:Ha; [by split; [apply not_elem_of_nil|]|].
    destruct (strsep s SLASH) as [tok rest]. destruct IH as [? ->].
    split; [|done]. apply aeqb_neq in Ha. by apply not_elem_of_cons.
Qed.

Lemma tokens_length s : length (tokens s) ≤ S (length s).
Proof.
  induction s as [|a s IH]; simpl; [done|].
  destruct (aeqb a SLASH); simpl; [lia|]. destruct (tokens s); simpl in *; lia.
Qed.

Lemma tokens_no_slash s : Forall (λ t, SLASH ∉ t) (tokens s).
Proof.
  induction s as [|a s IH]; simpl.
  - constructor; [by apply not_elem_of_nil|done].
  - destruct (aeqb a SLASH) eqn:Ha.
    + constructor; [by apply not_elem_of_nil|done].
    + apply aeqb_neq in Ha. destruct (tokens s) as [|t ts].
      * constructor; [|done]. apply not_elem_of_cons. split; [done|by apply not_elem_of_nil].
      * apply Forall_cons in IH as [? ?]. constructor; [by apply not_elem_of_cons|done].
Qed.

(** The bytes and separators of a list of components. *)
Definition weight (toks : list cstr) : nat := sum_list_with (λ t, S (length t)) toks.

Lemma weight_tokens s : weight (tokens s) = S (length s).
Proof.
  unfold weight. induction s as [|a s IH]; simpl; [done|].
  destruct (aeqb a SLASH); simpl; [by rewrite IH|].
  pose proof (strsep_tokens s) as Hs. destruct (strsep s SLASH) as [tok rest].
  destruct Hs as [_ Hs]. rewrite Hs in *. simpl in *. lia.
Qed.

(** The loop with its depth test made explicit. *)
Fixpoint bounded_fold (toks : list cstr) (st : list cstr) : option (list cstr) :=
  match toks with
  | [] => Some st
  | tok :: toks' =>
      if length (lexical_step st tok) <=? STACK_SIZE
      then bounded_fold toks' (lexical_step st tok) else None
  end.

Lemma strcmp_eq_decide s t : strcmp_eq s t = bool_decide (s = t).
Proof.
  apply eq_true_iff_eq. by rewrite bool_decide_eq_true, strcmp_eq_spec.
Qed.

Lemma lexical_step_tests st tok :
  lexical_step st tok =
  if strcmp_eq tok [] || is_dot tok then st
  else if is_dotdot tok then tail st else tok :: st.
Proof.
  unfold lexical_step, is_dot, is_dotdot. rewrite !strcmp_eq_decide, <- bool_decide_or.
  destruct (decide (tok = [] ∨ _)); [by rewrite bool_decide_true|].
  rewrite bool_decide_false by done.
  destruct (decide (tok = cs "..")); [by rewrite bool_decide_true|].
  by rewrite bool_decide_false.
Qed.

Lemma norm_loop_bounded fuel s st :
  length (tokens s) < fuel → length st ≤ STACK_SIZE →
  norm_loop fuel (Some s) st = bounded_fold (tokens s) st.
Proof.
  revert s st. induction fuel as [|fuel IH]; intros s st Hf Hst; [lia|].
  simpl. pose proof (strsep_tokens s) as Hs. destruct (strsep s SLASH) as [tok rest].
  destruct Hs as [_ Hs]. rewrite Hs in *. simpl in Hf.
  assert (∀ st', length st' ≤ STACK_SIZE →
    norm_loop fuel rest st' = bounded_fold (match rest with None => [] | Some r => tokens r end) st') as Hrest.
  { intros st' ?. destruct rest as [r|]; [apply IH; [lia|done]|]. by destruct fuel; [lia|]. }
  cbn [bounded_fold]. rewrite lexical_step_tests.
  destruct (strcmp_eq tok [] || is_dot tok).
  { rewrite (proj2 (Nat.leb_le _ _)) by done. by apply Hrest. }
  destruct (is_dotdot tok).
  { assert (length (tail st) ≤ STACK_SIZE) by (destruct st; simpl in *; lia).
    rewrite (proj2 (Nat.leb_le _ _)) by done. by apply Hrest. }
  change (length (tok :: st)) with (S (length st)).
  destruct (Nat.ltb_spec (length st) STACK_SIZE).
  - rewrite (proj2 (Nat.leb_le _ _)) by lia. apply Hrest. simpl. lia.
  - by rewrite (proj2 (Nat.leb_gt _ _)) by lia.
Qed.

Lemma bounded_fold_Some toks st :
  length st ≤ STACK_SIZE →
  (∀ k, length (foldl lexical_step st (take k toks)) ≤ STACK_SIZE) →
  bounded_fold toks st = Some (foldl lexical_step st toks).
Proof.
  revert st. induction toks as [|t toks IH]; intros st Hst Hk; simpl; [done|].
  assert (length (lexical_step st t) ≤ STACK_SIZE) as H1 by apply (Hk 1).
  rewrite (proj2 (Nat.leb_le _ _)) by done.
  apply IH; [done|]. intros k. apply (Hk (S k)).
Qed.

Lemma bounded_fold_inv toks st st' :
  length st ≤ STACK_SIZE →
  bounded_fold toks st = Some st' →
  ∀ k, length (foldl lexical_step st (take k toks)) ≤ STACK_SIZE.
Proof.
  revert st. induction toks as [|t toks IH]; simpl; intros st Hst Hb k.
  - by rewrite take_nil.
  - destruct (Nat.leb_spec (length (lexical_step st t)) STACK_SIZE); [|done].
    destruct k; [done|]. simpl. by apply IH.
Qed.

Lemma norm_loop_spec path :
  match norm_loop (S (S (length path))) (Some path) [] with
  | Some st => depth_ok path ∧ st = lexical (tokens path)
  | None => ¬ depth_ok path
  end.
Proof.
  pose proof (tokens_length path).
  rewrite norm_loop_bounded by (simpl; lia).
  destruct (bounded_fold (tokens path) []) as [st|] eqn:Hb.
  - assert (depth_ok path) as Hok by (intros k; eapply bounded_fold_inv; [|done]; simpl; lia).
    split; [done|]. rewrite bounded_fold_Some in Hb; [by simplify_eq|simpl; lia|done].
  - intros Hok. rewrite bounded_fold_Some in Hb; [done|simpl; lia|done].
Qed.

(** ** Canonical paths *)

Lemma lexical_step_nil st : lexical_step st [] = st.
Proof. unfold lexical_step. by rewrite decide_True by auto. Qed.

Lemma lexical_step_plain st tok :
  SLASH ∉ tok → Forall plain st → Forall plain (lexical_step st tok).
Proof.
  intros ? Hst. unfold lexical_step.
  destruct (decide (tok = [] ∨ tok = cs ".")) as [|Hn]; [done|].
  destruct (decide (tok = cs "..")); [by destruct Hst|].
  constructor; [|done]. split_and!; [| |done..]; intros ->; apply Hn; auto.
Qed.

Lemma lexical_plain toks st :
  Forall (λ t, SLASH ∉ t) toks → Forall plain st →
  Forall plain (foldl lexical_step st toks).
Proof.
  intros Ht. revert st. induction Ht as [|t toks ? _ IH]; simpl; [done|].
  intros st ?. by apply IH, lexical_step_plain.
Qed.

Lemma components_plain path : Forall plain (components path).
Proof.
  apply Forall_rev. unfold lexical. apply lexical_plain; [|done]. apply tokens_no_slash.
Qed.

Lemma lexical_step_id st c : plain c → lexical_step st c = c :: st.
Proof.
  intros (?&?&?&_). unfold lexical_step.
  destruct (decide (c = [] ∨ c = cs ".")) as [[?|?]|]; [done..|].
  by destruct (decide (c = cs "..")).
Qed.

Lemma lexical_id comps st :
  Forall plain comps → foldl lexical_step st comps = rev comps ++ st.
Proof.
  intros Hc. revert st. induction Hc as [|c comps ? _ IH]; simpl; intros st; [done|].
  by rewrite lexical_step_id, IH, <- (assoc_L (++)).
Qed.

Lemma tokens_app c s :
  SLASH ∉ c → tokens (c ++ SLASH :: s) = c :: tokens s.
Proof.
  induction c as [|a c IH]; simpl; intros Hc; [done|].
  apply not_elem_of_cons in Hc as [Ha Hc]. rewrite IH by done.
  by rewrite (proj2 (aeqb_neq _ _)) by done.
Qed.

Lemma tokens_single c : SLASH ∉ c → tokens c = [c].
Proof.
  induction c as [|a c IH]; simpl; intros Hc; [done|].
  apply not_elem_of_cons in Hc as [Ha Hc]. rewrite IH by done.
  by rewrite (proj2 (aeqb_neq _ _)) by done.
Qed.

Lemma tokens_render comps :
  Forall plain comps → tokens (render_comps comps) = [] :: comps.
Proof.
  induction 1 as [|c comps (?&?&?&Hc) Hf IH]; [done|]. simpl. rewrite ?aeqb_refl.
  f_equal. destruct comps as [|c' comps].
  - simpl. rewrite app_nil_r. by apply tokens_single.
  - cbn [render_comps app] in *. rewrite ?aeqb_refl in IH. rewrite tokens_app by done.
    f_equal. simpl in IH. by simplify_eq.
Qed.

Lemma lexical_canonical comps :
  Forall plain comps →
  ∃ toks, tokens (canonical_path comps) = [] :: toks ∧
    (toks = comps ∨ toks = [[]] ∧ comps = []).
Proof.
  intros Hc. unfold canonical_path. destruct comps as [|c comps]; [eauto|].
  rewrite tokens_render by done. eauto.
Qed.

Lemma components_canonical comps :
  Forall plain comps → components (canonical_path comps) = comps.
Proof.
  intros Hc. unfold components, lexical.
  destruct (lexical_canonical comps Hc) as (toks&->&[->|[-> ->]]); [|done].
  simpl. rewrite lexical_step_nil, lexical_id by done.
  by rewrite app_nil_r, rev_involutive.
Qed.

Lemma depth_ok_canonical comps :
  Forall plain comps → length comps ≤ STACK_SIZE → depth_ok (canonical_path comps).
Proof.
  intros Hc Hl k. unfold lexical.
  destruct (lexical_canonical comps Hc) as (toks&->&Htoks).
  destruct k as [|k]; simpl; [lia|]. rewrite lexical_step_nil.
  destruct Htoks as [->|[-> ->]].
  - rewrite lexical_id by by apply Forall_take.
    rewrite app_nil_r, length_rev, length_take. lia.
  - destruct k; simpl; [lia|]. rewrite take_nil. simpl. lia.
Qed.

(** Rendering grows no longer than the text it was read from. *)
Lemma weight_lexical toks st :
  weight (foldl lexical_step st toks) ≤ weight st + weight toks.
Proof.
  revert st. induction toks as [|t toks IH]; simpl; intros st; [unfold weight; simpl; lia|].
  etrans; [apply IH|]. unfold lexical_step, weight; simpl.
  destruct (decide _); [lia|]. destruct (decide _); [|simpl; lia].
  destruct st; simpl; lia.
Qed.

Lemma length_render comps : length (render_comps comps) = weight comps.
Proof.
  unfold weight. induction comps as [|c comps IH]; simpl; [done|].
  rewrite length_app. lia.
Qed.

Lemma weight_rev toks : weight (rev toks) = weight toks.
Proof.
  unfold weight. induction toks as [|t toks IH]; simpl; [done|].
  rewrite sum_list_with_app. simpl. lia.
Qed.

Lemma length_canonical path :
  is_absolute path = true → length (canonical_path (components path)) ≤ length path.
Proof.
  intros Ha. destruct path as [|a s]; [done|]. simpl in Ha.
  unfold canonical_path. destruct (components (a :: s)) eqn:Hc; [simpl; lia|].
  rewrite <- Hc, length_render. unfold components. rewrite weight_rev. unfold lexical.
  simpl. rewrite Ha. simpl. etrans; [apply weight_lexical|].
  rewrite lexical_step_nil, weight_tokens. unfold weight. simpl. lia.
Qed.

Lemma render_comps_app c1 c2 : render_comps (c1 ++ c2) = render_comps c1 ++ render_comps c2.
Proof. induction c1 as [|c c1 IH]; simpl; [done|]. by rewrite IH, <- (assoc_L (++)). Qed.

Lemma norm_write_render toks acc n :
  length (acc ++ render_comps toks) < n →
  foldl (λ path tok, strlcat (strlcat path (cs "/") n) tok n) acc toks =
  acc ++ render_comps toks.
Proof.
  revert acc. induction toks as [|t toks IH]; simpl; intros acc Hl; [by rewrite app_nil_r|].
  assert (strlcat (strlcat acc (cs "/") n) t n = acc ++ SLASH :: t) as ->.
  { unfold strlcat. rewrite !length_app in *. simpl in *. rewrite !length_app in *.
    rewrite !take_ge; [by rewrite <- (assoc_L (++))|..];
      rewrite ?length_app, ?length_take, ?length_app; simpl; lia. }
  rewrite IH; [by rewrite <- !(assoc_L (++))|].
  rewrite !length_app in *. simpl in *. rewrite length_app in *. lia.
Qed.

Lemma norm_write_canonical st n :
  length (canonical_path (rev st)) < n → norm_write st n = canonical_path (rev st).
Proof.
  intros Hl. unfold norm_write. destruct (decide (st = [])) as [->|Hne].
  - simpl in *. unfold strlcat. rewrite take_ge; simpl; [done|lia].
  - unfold canonical_path in *. destruct (rev st) as [|c cs0] eqn:Hr.
    { apply (f_equal length) in Hr. rewrite length_rev in Hr. by destruct st. }
    by rewrite norm_write_render.
Qed.

Lemma normalize_abs_path_ok path n :
  is_absolute path = true → length path < n → depth_ok path →
  normalize_abs_path true path n = canonical_path (components path).
Proof.
  intros Ha Hn Hok. unfold normalize_abs_path. cbn [negb].
  pose proof (norm_loop_spec path) as Hs. pose proof (length_canonical path Ha).
  destruct (norm_loop _ _ _) as [st|]; [|done]. destruct Hs as [_ ->].
  apply norm_write_canonical. unfold components in *. lia.
Qed.

Lemma normalize_abs_path_deep path n :
  ¬ depth_ok path → normalize_abs_path true path n = path.
Proof.
  intros Hok. unfold normalize_abs_path. cbn [negb].
  pose proof (norm_loop_spec path) as Hs.
  destruct (norm_loop _ _ _) as [st|]; [by destruct Hs|done].
Qed.

Lemma is_absolute_canonical comps : is_absolute (canonical_path comps) = true.
Proof. by destruct comps. Qed.

Lemma components_length path :
  depth_ok path → length (components path) ≤ STACK_SIZE.
Proof.
  intros Hok. unfold components. rewrite length_rev.
  rewrite <- (firstn_all (tokens path)). apply Hok.
Qed.

(** Depth is decidable: run the loop. *)
#[global] Instance depth_ok_dec path : Decision (depth_ok path).
Proof.
  refine (match norm_loop (S (S (length path))) (Some path) [] as o
    return match o with Some st => depth_ok path ∧ st = lexical (tokens path)
                      | None => ¬ depth_ok path end → Decision (depth_ok path)
    with Some st => λ H, left (proj1 H) | None => λ H, right H end (norm_loop_spec path)).
Defined.

(** Normalisation decides lexical identity: two absolute paths, in
    whatever spelling and buffers that hold them, normalise to the same string
    exactly when they name the same chain of directories (paths too deep for
    the component stack aside), the normal form is absolute and no longer than
    the path, and normalising twice changes nothing. *)
Theorem normalize_abs_path_identity p q n m :
  is_absolute p = true → is_absolute q = true →
  length p < n → length q < m → depth_ok p → depth_ok q →
  (normalize_abs_path true p n = normalize_abs_path true q m ↔
   components p = components q) ∧
  is_absolute (normalize_abs_path true p n) = true ∧
  length (normalize_abs_path true p n) ≤ length p ∧
  normalize_abs_path true (normalize_abs_path true p n) n = normalize_abs_path true p n.
Proof.
  intros Hp Hq Hn Hm Hdp Hdq.
  pose proof (length_canonical p Hp) as Hl.
  pose proof (components_length p Hdp) as Hc.
  rewrite (normalize_abs_path_ok p), (normalize_abs_path_ok q) by done.
  split_and!; [split| |done|].
  - intros Heq%(f_equal components). by rewrite !components_canonical in Heq by apply components_plain.
  - by intros ->.
  - apply is_absolute_canonical.
  - rewrite normalize_abs_path_ok; [|apply is_absolute_canonical|lia|].
    + by rewrite components_canonical by apply components_plain.
    + apply depth_ok_canonical; [apply components_plain|done].
Qed.

(** ** Sensitive paths, by component *)

(** Empty, or the start of a further component. *)
Definition at_boundary (s : cstr) : Prop := s = [] ∨ ∃ s', s = SLASH :: s'.

Lemma at_boundary_render comps : at_boundary (render_comps comps).
Proof. destruct comps as [|c comps]; [by left|]. right. by eexists. Qed.

Lemma boundary_app_inv a b s t :
  SLASH ∉ a → SLASH ∉ b → at_boundary s → at_boundary t →
  a ++ s = b ++ t → a = b ∧ s = t.
Proof.
  revert b. induction a as [|x a IH]; intros [|y b] Ha Hb Hs Ht Heq; simpl in *.
  - done.
  - apply not_elem_of_cons in Hb as [Hy _]. subst s.
    destruct Hs as [|[s' ?]]; simplify_eq.
  - apply not_elem_of_cons in Ha as [Hx _]. subst t.
    destruct Ht as [|[t' ?]]; simplify_eq.
  - apply not_elem_of_cons in Ha as [_ Ha], Hb as [_ Hb]. simplify_eq.
    by destruct (IH b) as [-> ->].
Qed.

(** A slash in a rendered list starts a component. *)
Lemma render_split comps l s :
  Forall plain comps → render_comps comps = l ++ SLASH :: s →
  ∃ c1 c2, comps = c1 ++ c2 ∧ l = render_comps c1 ∧ render_comps c2 = SLASH :: s.
Proof.
  intros Hc. revert l. induction Hc as [|c comps (_&_&_&Hc) Hf IH]; intros l Heq.
  { by destruct l. }
  destruct l as [|a l]; [by exists [], (c :: comps)|]. simpl in Heq. injection Heq as <- Heq.
  apply app_eq_inv in Heq as [(k&->&Hk)|(k&->&Hk)].
  - destruct k as [|b k]; simpl in *; simplify_eq.
    + rewrite app_nil_r in *. destruct (IH []) as (c1&c2&->&Hc1&?); [done|].
      exists (l :: c1), c2. split_and!; [done| |done]. simpl. by rewrite <- Hc1, app_nil_r.
    + exfalso. apply Hc. apply elem_of_app. right. by left.
  - destruct (IH k Hk) as (c1&c2&->&->&?). by exists (c :: c1), c2.
Qed.

Lemma render_head comps a t :
  Forall plain comps → SLASH ∉ a → at_boundary t →
  render_comps comps = SLASH :: a ++ t → ∃ c, comps = a :: c ∧ render_comps c = t.
Proof.
  intros Hc Ha Ht Heq. destruct comps as [|c comps]; [done|]. simpl in Heq.
  injection Heq as Heq. apply Forall_cons in Hc as [(_&_&_&?) _].
  apply boundary_app_inv in Heq as [-> <-]; [eauto|done..|apply at_boundary_render|done].
Qed.

(** Two consecutive component names occur in a rendered path. *)
Lemma render_pair comps l a b t :
  Forall plain comps → SLASH ∉ a → SLASH ∉ b → at_boundary t →
  render_comps comps = l ++ SLASH :: a ++ SLASH :: b ++ t →
  ∃ c1 c2, comps = c1 ++ a :: b :: c2 ∧ render_comps c1 = l.
Proof.
  intros Hc Ha Hb Ht Heq. apply render_split in Heq as (c1&c2&->&->&Heq); [|done].
  apply Forall_app in Hc as [_ Hc2].
  apply render_head in Heq as (c3&->&Heq); [|done|done|right; by eexists].
  apply Forall_cons in Hc2 as [_ Hc3].
  apply render_head in Heq as (c4&->&_); [|done..]. by exists c1, c4.
Qed.

Definition sensitive_comps (comps : list cstr) : Prop :=
  (∃ x r, comps = cs "boot" :: x :: r) ∨
  (∃ l x r, comps = l ++ cs ".ssh" :: x :: r) ∨
  (∃ l n r, comps = l ++ cs "etc" :: n :: r ∧ (n = cs "passwd" ∨ n = cs "shadow")).

(** [path_is_sensitive] on a canonical path looks at whole components. *)
Lemma path_is_sensitive_canonical comps :
  Forall plain comps →
  Pred.path_is_sensitive (canonical_path comps) = true ↔ sensitive_comps comps.
Proof.
  intros Hc.
  assert ((SLASH ∉ cs "boot") ∧ (SLASH ∉ cs ".ssh") ∧ (SLASH ∉ cs "etc") ∧
    (SLASH ∉ cs "passwd") ∧ (SLASH ∉ cs "shadow")) as (?&?&?&?&?)
    by (split_and!; by apply (bool_decide_unpack _)).
  destruct comps as [|c comps].
  { split; [by vm_compute|]. intros [(?&?&?)|[([]&?&?&?)|([]&?&?&?&?)]]; done. }
  unfold canonical_path. set (cc := c :: comps) in *. clearbody cc. clear c comps.
  rewrite Pred.path_is_sensitive_iff. split.
  - intros [(r&Heq)|[(l&r&Heq)|(l&n&r&Hn&Heq&Hr)]].
    + change (render_comps cc = SLASH :: cs "boot" ++ SLASH :: r) in Heq.
      left. apply render_head in Heq as (c&->&Heq); [|done|done|right; by eexists].
      destruct c as [|x c]; [done|]. by eexists _, _.
    + change (render_comps cc = l ++ SLASH :: cs ".ssh" ++ SLASH :: r) in Heq.
      right; left. apply render_split in Heq as (c1&c2&->&->&Heq); [|done].
      apply Forall_app in Hc as [_ Hc2].
      apply render_head in Heq as (c&->&Heq); [|done|done|right; by eexists].
      destruct c as [|x c]; [done|]. by eexists _, _, _.
    + right; right. destruct Hn as [-> | ->].
      * apply (render_pair cc l (cs "etc") (cs "passwd") r) in Heq as (c1&c2&->&_);
          [|done..]. eexists _, _, _. split; [done|by left].
      * apply (render_pair cc l (cs "etc") (cs "shadow") r) in Heq as (c1&c2&->&_);
          [|done..]. eexists _, _, _. split; [done|by right].
  - intros [(x&r&->)|[(l&x&r&->)|(l&n&r&->&[-> | ->])]].
    + left. by eexists (x ++ render_comps r).
    + right; left. eexists (render_comps l), (x ++ render_comps r).
      by rewrite render_comps_app.
    + right; right. eexists (render_comps l), _, (render_comps r).
      split_and!; [by left|by rewrite render_comps_app|apply at_boundary_render].
    + right; right. eexists (render_comps l), _, (render_comps r).
      split_and!; [by right|by rewrite render_comps_app|apply at_boundary_render].
Qed.

(** ** Resolution against the base directory *)

Lemma tokens_slash_app p q : tokens (p ++ SLASH :: q) = tokens p ++ tokens q.
Proof.
  induction p as [|a p IH]; simpl; [done|].
  destruct (aeqb a SLASH); simpl; [by rewrite IH|]. rewrite IH.
  pose proof (strsep_tokens p) as Hp. destruct (strsep p SLASH) as [tok rest].
  destruct Hp as [_ Hp]. by rewrite Hp.
Qed.

(** A relative path starts from the directories of its base. *)
Lemma components_relative dir path :
  components (dir ++ SLASH :: path) =
  rev (foldl lexical_step (rev (components dir)) (tokens path)).
Proof.
  unfold components, lexical. by rewrite tokens_slash_app, foldl_app, rev_involutive.
Qed.

(** The path a syscall argument denotes. *)
Definition denoted (dir path : cstr) : cstr :=
  if is_absolute path then path else dir ++ SLASH :: path.

Lemma is_absolute_denoted dir path :
  is_absolute dir = true → is_absolute (denoted dir path) = true.
Proof. unfold denoted. intros. destruct (is_absolute path) eqn:?; [done|]. by destruct dir. Qed.

Lemma resolve_denoted dir path n :
  path ≠ [] → length (denoted dir path) < n →
  resolve_absolute_path true true path (Some dir) n =
  normalize_abs_path true (denoted dir path) n.
Proof.
  intros Hp Hn. unfold resolve_absolute_path, denoted in *. destruct path as [|a p]; [done|].
  destruct (is_absolute (a :: p)).
  - by rewrite strscpy_fit.
  - cbn [negb]. by rewrite (proj2 (Nat.leb_gt _ _)) by done.
Qed.


(** Every failure of the resolution (no memory for the buffer, no path for
    the base, a joined path that does not fit) hands on the relative path as
    given, truncated to the buffer, and so never an absolute path that could
    be taken for the file's identity; an absolute path never depends on the
    base; and the AT_EMPTY_PATH form yields the base itself or nothing. *)
Theorem resolve_fallback kmalloc_ok kstrdup_ok path dpath n :
  (is_absolute path = false → path ≠ [] →
   kmalloc_ok = false ∨ dpath = None ∨
   (∃ dir, dpath = Some dir ∧ n ≤ length dir + 1 + length path) →
   resolve_absolute_path kmalloc_ok kstrdup_ok path dpath n = strscpy path n ∧
   is_absolute (resolve_absolute_path kmalloc_ok kstrdup_ok path dpath n) = false) ∧
  (is_absolute path = true → ∀ kmalloc_ok' dpath',
   resolve_absolute_path kmalloc_ok kstrdup_ok path dpath n =
   resolve_absolute_path kmalloc_ok' kstrdup_ok path dpath' n) ∧
  (path = [] →
   resolve_absolute_path kmalloc_ok kstrdup_ok path dpath n =
   from_option (λ d, strscpy d n) [] (if kmalloc_ok then dpath else None)).
Proof.
  split_and!.
  - intros Ha Hne Hfail.
    assert (resolve_absolute_path kmalloc_ok kstrdup_ok path dpath n = strscpy path n) as ->.
    { unfold resolve_absolute_path. destruct path as [|a p]; [done|]. rewrite Ha.
      destruct Hfail as [->|[->|(dir&->&Hl)]]; [done|by destruct kmalloc_ok|].
      rewrite (proj2 (Nat.leb_le _ _)) by (rewrite length_app; simpl in *; lia).
      by destruct kmalloc_ok. }
    split; [done|]. destruct path as [|a p]; [done|]. unfold strscpy.
    by destruct (n - 1).
  - intros Ha ??. unfold resolve_absolute_path. destruct path; [done|]. by rewrite Ha.
  - intros ->. simpl. destruct kmalloc_ok; [|done]. by destruct dpath.
Qed.

End Resolve.

(** ** Examples *)

Module PathExamples.

Definition etc_shadow : cstr := cs "../etc/./x/..//shadow".


Lemma normalize_abs_path_witness :
  Resolve.normalize_abs_path true (cs "/cwd/./foo") PATH_MAX =
  Resolve.normalize_abs_path true (cs "//cwd/bar/../foo/") PATH_MAX.
Proof.
  apply (proj1 (Resolve.normalize_abs_path_identity (cs "/cwd/./foo")
    (cs "//cwd/bar/../foo/") PATH_MAX PATH_MAX
    ltac:(reflexivity) ltac:(reflexivity)
    ltac:(by apply Nat.ltb_lt; vm_compute) ltac:(by apply Nat.ltb_lt; vm_compute)
    ltac:(by apply (bool_decide_unpack _); vm_compute)
    ltac:(by apply (bool_decide_unpack _); vm_compute))).
  by vm_compute.
Defined.

Lemma resolve_fallback_witness :
  Pred.path_is_sensitive
    (Resolve.resolve_absolute_path true true (cs "shadow") None PATH_MAX) = false.
Proof.
  rewrite (proj1 (proj1 (Resolve.resolve_fallback true true (cs "shadow") None PATH_MAX)
    ltac:(reflexivity) ltac:(done) ltac:(right; left; reflexivity))).
  by vm_compute.
Defined.

End PathExamples.
