(* ===== verification/Window.v ===== *)
(** * The sliding windows of av/behavior.c

    [sliding_window_note], the ring of recently noted path hashes behind the
    rapid-write and rapid-rename counters, and its reference: an unbounded log
    of the noted hashes, from which the entries of the trailing window are
    counted.  [jiffies_to_msecs] is the kernel's: its value up to
    [clock_horizon] (2^32 ms, where its 32-bit result wraps) is monotone. *)

From Stdlib Require Import ZArith Lia.
From stdpp Require Import prelude list.
From S2P Require Import Prelude.

Local Open Scope Z_scope.

(** ** The kernel's tick-to-millisecond conversion *)

Class KernelClock := {
  jiffies_to_msecs : Z → Z;
  clock_horizon : Z;
  clock_horizon_u64 : clock_horizon ≤ 2 ^ 64;
  jiffies_to_msecs_mono a b :
    0 ≤ a → a ≤ b → b < clock_horizon → jiffies_to_msecs a ≤ jiffies_to_msecs b;
}.

Section window.
Context `{KernelClock}.

(** ** The ring *)

Record ring := {
  hashes : list Z;
  jiffies_arr : list Z;
  next : nat;
  filled : nat;
}.

(** The entry's arrays as [kzalloc] leaves them. *)
Definition ring_zero (cap : nat) : ring :=
  {| hashes := replicate cap 0; jiffies_arr := replicate cap 0; next := 0; filled := 0 |}.

(** [jiffies_to_msecs(now - t) <= window_ms], on unsigned longs. *)
Definition in_window_at (now window_ms t : Z) : bool :=
  jiffies_to_msecs (u64 (now - t)) <=? window_ms.

(** The counting loop over slots [i, i+1, ..., filled - 1]. *)
Fixpoint scan (hash now window_ms : Z) (slots : list (Z * Z)) (in_window : nat)
    (seen : bool) : nat * bool :=
  match slots with
  | [] => (in_window, seen)
  | (h, t) :: slots' =>
      if in_window_at now window_ms t
      then scan hash now window_ms slots' (S in_window)
             (if h =? hash then true else seen)
      else scan hash now window_ms slots' in_window seen
  end.

Definition sliding_window_note (hash now window_ms : Z) (cap : nat) (r : ring)
    : ring * nat :=
  let '(in_window, seen) :=
    scan hash now window_ms (take (filled r) (zip (hashes r) (jiffies_arr r))) 0 false in
  if seen then (r, 0%nat)
  else
    ({| hashes := <[next r := hash]> (hashes r);
        jiffies_arr := <[next r := now]> (jiffies_arr r);
        next := (next r + 1) mod cap;
        filled := if (filled r <? cap)%nat then S (filled r) else filled r |},
     (in_window + 1)%nat).

(** Forgetting the ring: the two cursors go back to 0, the arrays stay. *)
Definition ring_reset (r : ring) : ring :=
  {| hashes := hashes r; jiffies_arr := jiffies_arr r; next := 0; filled := 0 |}.

(** ** The reference: an unbounded log, newest entry first *)

Definition live (now window_ms : Z) (log : list (Z * Z)) : list (Z * Z) :=
  List.filter (λ e, in_window_at now window_ms e.2) log.

Definition log_note (hash now window_ms : Z) (log : list (Z * Z)) : list (Z * Z) * nat :=
  if existsb (λ e, e.1 =? hash) (live now window_ms log) then (log, 0%nat)
  else ((hash, now) :: log, S (length (live now window_ms log))).

(** Both run over a sequence of events, a hash and a time each. *)
Section run.
Context {S : Type} (note : Z → Z → S → S * nat).

Fixpoint run (es : list (Z * Z)) (s : S) : list nat :=
  match es with
  | [] => []
  | (h, t) :: es' => let '(s', n) := note h t s in n :: run es' s'
  end.

Fixpoint run_state (es : list (Z * Z)) (s : S) : S :=
  match es with
  | [] => s
  | (h, t) :: es' => run_state es' (note h t s).1
  end.
End run.

(** The results up to and including the first above the threshold. *)
Fixpoint until_trip (threshold : nat) (rs : list nat) : list nat :=
  match rs with
  | [] => []
  | n :: rs' => if (threshold <? n)%nat then [n] else n :: until_trip threshold rs'
  end.

(** Times that do not decrease, from [t0] on and within the horizon of [t0]. *)
Fixpoint ordered (t0 last : Z) (es : list (Z * Z)) : Prop :=
  match es with
  | [] => True
  | (_, t) :: es' => last ≤ t < t0 + clock_horizon ∧ t < 2 ^ 64 ∧ ordered t0 t es'
  end.

(** ** Scanning *)

Lemma scan_spec hash now w slots n seen :
  scan hash now w slots n seen =
  ((n + length (live now w slots))%nat,
   seen || existsb (λ e, e.1 =? hash) (live now w slots)).
Proof.
  unfold live. revert n seen. induction slots as [|[h t] slots IH]; intros n seen; simpl.
  - by rewrite Nat.add_0_r, orb_false_r.
  - destruct (in_window_at now w t); simpl; rewrite IH; [|done].
    f_equal; [lia|]. by destruct (h =? hash), seen.
Qed.

Lemma live_perm now w l k : l ≡ₚ k → live now w l ≡ₚ live now w k.
Proof.
  unfold live. induction 1 as [|x l k _ IH|x y l|l k m _ IH1 _ IH2]; simpl; [done|..].
  - destruct (in_window_at _ _ _); by rewrite ?IH.
  - repeat destruct (in_window_at _ _ _); try done. apply perm_swap.
  - by etrans.
Qed.

Lemma existsb_perm {A} (p : A → bool) l k : l ≡ₚ k → existsb p l = existsb p k.
Proof.
  induction 1 as [|x l k _ IH|x y l|l k m _ IH1 _ IH2]; simpl; [done|..].
  - by rewrite IH.
  - by destruct (p x), (p y).
  - by rewrite IH1.
Qed.

Lemma elem_live now w l e : e ∈ live now w l ↔ e ∈ l ∧ in_window_at now w e.2 = true.
Proof. unfold live. rewrite !list_elem_of_In. apply filter_In. Qed.

(** ** Time *)

(** A later event is in any window an earlier one is in. *)
Lemma in_window_newer now w t t' :
  0 ≤ t' → t' ≤ t → t ≤ now → now - t' < clock_horizon → now < 2 ^ 64 →
  in_window_at now w t' = true → in_window_at now w t = true.
Proof.
  unfold in_window_at. intros. pose proof clock_horizon_u64.
  rewrite !wrap_small in * by lia. apply Z.leb_le.
  match goal with H : (_ <=? _) = true |- _ => apply Z.leb_le in H end.
  etrans; [|done]. apply jiffies_to_msecs_mono; lia.
Qed.

(** An event only leaves the window as time goes by. *)
Lemma in_window_earlier now now' w t :
  0 ≤ t → t ≤ now' → now' ≤ now → now - t < clock_horizon → now < 2 ^ 64 →
  in_window_at now w t = true → in_window_at now' w t = true.
Proof.
  unfold in_window_at. intros. pose proof clock_horizon_u64.
  rewrite !wrap_small in * by lia. apply Z.leb_le.
  match goal with H : (_ <=? _) = true |- _ => apply Z.leb_le in H end.
  etrans; [|done]. apply jiffies_to_msecs_mono; lia.
Qed.

(** The log's times: newest first, none before [t0], none after [last]. *)
Inductive log_ok (t0 : Z) : Z → list (Z * Z) → Prop :=
  | log_ok_nil last : t0 ≤ last → log_ok t0 last []
  | log_ok_cons last h t log :
      t ≤ last → log_ok t0 t log → log_ok t0 last ((h, t) :: log).

Lemma log_ok_range t0 last log :
  log_ok t0 last log → t0 ≤ last ∧ ∀ e, e ∈ log → t0 ≤ e.2 ≤ last.
Proof.
  induction 1 as [|last h t log ? _ [? IH]]; [split; [done|]; by intros ? ?%elem_of_nil|].
  split; [lia|]. intros e [->|He]%elem_of_cons; simpl; [lia|]. specialize (IH e He). lia.
Qed.

Lemma log_ok_mono t0 last last' log :
  log_ok t0 last log → last ≤ last' → log_ok t0 last' log.
Proof. intros Hl ?. destruct Hl; constructor; (done || lia). Qed.

Lemma live_take now w n t0 last log :
  0 ≤ t0 → log_ok t0 last log → last ≤ now → now < t0 + clock_horizon → now < 2 ^ 64 →
  live now w (take n log) = take n (live now w log).
Proof.
  intros ? Hl. revert n. induction Hl as [last ?|last h t log ? Hl IH]; intros n ? Hh Hn.
  { by destruct n. }
  destruct (log_ok_range _ _ _ Hl) as [? Hr].
  destruct n as [|n]; [done|]. simpl. destruct (in_window_at now w t) eqn:Hw; simpl.
  { rewrite IH; [done|lia..]. }
  assert (∀ k, (∀ e, e ∈ k → e ∈ log) → live now w k = []) as Hnil.
  { intros k Hk. destruct (live now w k) as [|e k'] eqn:He; [done|].
    assert (e ∈ live now w k) as [Hek Hew]%elem_live by (rewrite He; by left).
    specialize (Hr e (Hk e Hek)). apply in_window_newer with (t := t) in Hew; [|lia..].
    congruence. }
  change (live now w (take n log) = take (S n) (live now w log)).
  rewrite (Hnil log), Hnil; [done| |done].
  intros e (i&?&_)%elem_of_take. by eapply list_elem_of_lookup_2.
Qed.

Lemma live_earlier now now' w t0 last log :
  0 ≤ t0 → log_ok t0 last log → last ≤ now' → now' ≤ now → now < t0 + clock_horizon →
  now < 2 ^ 64 → live now w (live now' w log) = live now w log.
Proof.
  intros ? Hl ????. destruct (log_ok_range _ _ _ Hl) as [? Hr]. clear Hl.
  unfold live. induction log as [|e log IH]; simpl; [done|].
  assert (t0 ≤ e.2 ≤ last) by (apply Hr; by left).
  destruct (in_window_at now' w e.2) eqn:Hw1; simpl.
  - destruct (in_window_at now w e.2); rewrite IH; [done| |done|];
      intros; apply Hr; by right.
  - destruct (in_window_at now w e.2) eqn:Hw2.
    + apply in_window_earlier with (now' := now') in Hw2; [congruence|lia..].
    + apply IH. intros; apply Hr; by right.
Qed.

Lemma live_length now w log : (length (live now w log) ≤ length log)%nat.
Proof. unfold live. apply List.filter_length_le. Qed.

(** ** The ring holds the newest entries of the log *)

Definition slots (r : ring) : list (Z * Z) := zip (hashes r) (jiffies_arr r).

Record ring_ok (cap : nat) (r : ring) (log : list (Z * Z)) : Prop := {
  ring_hashes_len : length (hashes r) = cap;
  ring_jiffies_len : length (jiffies_arr r) = cap;
  ring_filled : filled r = (cap `min` length log)%nat;
  ring_next : (next r < cap)%nat;
  ring_order :
    if decide (length log < cap)%nat
    then next r = length log ∧ take (next r) (slots r) = rev log
    else drop (next r) (slots r) ++ take (next r) (slots r) = rev (take cap log);
}.

Lemma slots_length cap r log : ring_ok cap r log → length (slots r) = cap.
Proof.
  intros [Hh Hj _ _ _]. unfold slots. rewrite length_zip_with. lia.
Qed.

Lemma ring_ok_zero cap : (0 < cap)%nat → ring_ok cap (ring_zero cap) [].
Proof.
  intros. split; simpl; rewrite ?length_replicate; try lia.
  by rewrite decide_True by lia.
Qed.

Lemma ring_ok_reset cap r log : ring_ok cap r log → ring_ok cap (ring_reset r) [].
Proof.
  intros [Hh Hj _ Hn _]. split; simpl; try done; try lia.
  by rewrite decide_True by lia.
Qed.

Lemma ring_ok_slots cap r log :
  ring_ok cap r log → take (filled r) (slots r) ≡ₚ take cap log.
Proof.
  intros Hr. pose proof (slots_length _ _ _ Hr) as Hs. destruct Hr as [Hh Hj Hf Hn Ho].
  rewrite Hf. destruct (decide _).
  - destruct Ho as [Hnx Ho]. rewrite Nat.min_r, <- Hnx, Ho by lia.
    rewrite take_ge by lia. apply Permutation_sym, Permutation_rev.
  - rewrite Nat.min_l, take_ge by lia. rewrite <- (take_drop (next r) (slots r)) at 1.
    rewrite Permutation_app_comm, Ho. apply Permutation_sym, Permutation_rev.
Qed.

Definition ring_push (cap : nat) (h t : Z) (r : ring) : ring :=
  {| hashes := <[next r := h]> (hashes r);
     jiffies_arr := <[next r := t]> (jiffies_arr r);
     next := (next r + 1) mod cap;
     filled := if (filled r <? cap)%nat then S (filled r) else filled r |}.

Lemma slots_push cap h t r : slots (ring_push cap h t r) = <[next r := (h, t)]> (slots r).
Proof. unfold slots. simpl. by rewrite insert_zip_with. Qed.

(** Writing at the cursor of a full ring forgets the oldest entry. *)
Lemma rotate_push {A} (a b : list A) x y log cap :
  x :: b ++ a = rev (take cap log) → (cap ≤ length log)%nat →
  (b ++ a) ++ [y] = rev (take cap (y :: log)).
Proof.
  intros Hr Hc. apply (f_equal (@rev A)) in Hr. rewrite rev_involutive in Hr. simpl in Hr.
  assert (length (take cap log) = cap) as Hl by (rewrite length_take; lia).
  rewrite <- Hr, length_app in Hl. simpl in Hl.
  destruct cap as [|cap]; [lia|]. simpl. f_equal.
  assert (take cap log = take cap (take (S cap) log)) as -> by (rewrite take_take; f_equal; lia).
  rewrite <- Hr, take_app_le by lia. rewrite take_ge by lia. by rewrite rev_involutive.
Qed.

Lemma ring_ok_push cap r log h t :
  (0 < cap)%nat → ring_ok cap r log → ring_ok cap (ring_push cap h t r) ((h, t) :: log).
Proof.
  intros Hcap Hr. pose proof (slots_length _ _ _ Hr) as Hs. destruct Hr as [Hh Hj Hf Hn Ho].
  split; simpl; rewrite ?length_insert; [done|done| | |].
  - rewrite Hf. destruct (Nat.ltb_spec (cap `min` length log) cap); lia.
  - apply Nat.mod_upper_bound. lia.
  - rewrite slots_push, insert_take_drop by (by rewrite Hs).
    assert (length (take (next r) (slots r)) = next r) as Ht by (rewrite length_take; lia).
    destruct (decide (length log < cap)%nat) as [Hlt|Hge].
    + destruct Ho as [Hnx Ho]. rewrite Ho in Ht. rewrite Ho.
      assert (drop (S (next r)) (slots r) = [] ∨ S (next r) < cap)%nat as Hd.
      { destruct (decide (S (next r) < cap)%nat); [by right|left]. apply drop_ge. lia. }
      destruct (decide _).
      * rewrite Nat.mod_small by lia. split; [lia|].
        rewrite take_app_ge by lia. rewrite Ht.
        replace (next r + 1 - next r)%nat with 1%nat by lia. done.
      * destruct Hd as [Hd|]; [|lia]. rewrite Hd.
        assert (next r + 1 = cap)%nat as -> by lia. rewrite Nat.Div0.mod_same.
        rewrite take_0, app_nil_r. simpl. rewrite take_ge by (simpl; lia). done.
    + rewrite decide_False by lia.
      assert (∃ x, drop (next r) (slots r) = x :: drop (S (next r)) (slots r)) as [x Hx].
      { destruct (lookup_lt_is_Some_2 (slots r) (next r)) as [x Hx]; [lia|].
        exists x. by apply drop_S. }
      rewrite Hx in Ho. simpl in Ho. apply rotate_push with (y := (h, t)) in Ho; [|lia].
      set (a := take (next r) (slots r)) in *. set (b := drop (S (next r)) (slots r)) in *.
      assert (length b = cap - S (next r))%nat as Hb by (unfold b; rewrite length_drop; lia).
      destruct (decide (S (next r) < cap)%nat).
      * rewrite Nat.mod_small by lia. rewrite <- Ho.
        rewrite drop_app_ge, take_app_ge by lia. rewrite Ht.
        replace (next r + 1 - next r)%nat with 1%nat by lia. simpl.
        by rewrite take_0, drop_0, (assoc_L (++)).
      * destruct b; [|simpl in Hb; lia].
        assert (next r + 1 = cap)%nat as -> by lia. rewrite Nat.Div0.mod_same.
        by rewrite drop_0, take_0, app_nil_r.
Qed.

(** ** One note, against the log *)

Lemma note_ring cap r log h t w :
  ring_ok cap r log →
  sliding_window_note h t w cap r =
  if existsb (λ e, e.1 =? h) (live t w (take cap log)) then (r, 0%nat)
  else (ring_push cap h t r, S (length (live t w (take cap log)))).
Proof.
  intros Hr%ring_ok_slots. unfold sliding_window_note. rewrite scan_spec. cbn [orb].
  change (zip (hashes r) (jiffies_arr r)) with (slots r).
  apply (live_perm t w) in Hr. rewrite (existsb_perm _ _ _ Hr), Hr.
  destruct (existsb _ _); [done|]. unfold ring_push. f_equal. lia.
Qed.

Lemma note_ring_ok cap r log h t w :
  (0 < cap)%nat → ring_ok cap r log →
  ring_ok cap (sliding_window_note h t w cap r).1 log ∨
  ring_ok cap (sliding_window_note h t w cap r).1 ((h, t) :: log).
Proof.
  intros Hcap Hr. rewrite (note_ring cap r log) by done.
  destruct (existsb _ _); [by left|right]. by apply ring_ok_push.
Qed.

(** While the log's live entries fit the ring, the two answer alike. *)
Lemma note_refines cap r log h t w t0 last :
  (0 < cap)%nat → 0 ≤ t0 →
  ring_ok cap r log → log_ok t0 last log → last ≤ t → t < t0 + clock_horizon → t < 2 ^ 64 →
  (length (live last w log) ≤ cap)%nat →
  let '(r', n) := sliding_window_note h t w cap r in
  let '(log', n') := log_note h t w log in
  n = n' ∧ ring_ok cap r' log' ∧ log_ok t0 t log' ∧
  ((n ≤ cap)%nat → (length (live t w log') ≤ cap)%nat).
Proof.
  intros Hcap ? Hr Hl ??? Hlive. rewrite (note_ring cap r log) by done.
  rewrite (live_take t w cap t0 last) by done.
  assert (length (live t w log) ≤ cap)%nat as Hle.
  { rewrite <- (live_earlier t last w t0 last log) by (done || lia).
    etrans; [apply live_length|done]. }
  rewrite (take_ge _ cap) by lia. unfold log_note.
  destruct (existsb _ _) eqn:Hs.
  - split_and!; [done|done|by eapply log_ok_mono|]. intros _. lia.
  - split_and!; [done|by apply ring_ok_push|constructor; [done|by eapply log_ok_mono]|].
    intros Hn. unfold live in *. simpl. destruct (in_window_at t w t); simpl; lia.
Qed.

Lemma ordered_weaken t0 last last' es : last' ≤ last → ordered t0 last es → ordered t0 last' es.
Proof. intros ?. destruct es as [|[h t] es]; simpl; [done|]. intros [[??]?]. split; [lia|done]. Qed.

Lemma run_refines cap w t0 last es r log :
  (0 < cap)%nat → 0 ≤ t0 → ring_ok cap r log → log_ok t0 last log →
  (length (live last w log) ≤ cap)%nat → ordered t0 last es →
  until_trip cap (run (λ h t, sliding_window_note h t w cap) es r) =
  until_trip cap (run (λ h t, log_note h t w) es log).
Proof.
  intros Hcap ?. revert last r log. induction es as [|[h t] es IH]; [done|].
  intros last r log Hr Hl Hlive [[??] [? Ho]]. simpl.
  pose proof (note_refines cap r log h t w t0 last) as Hn. do 8 (specialize (Hn ltac:(done || lia))).
  destruct (sliding_window_note h t w cap r) as [r' n].
  destruct (log_note h t w log) as [log' n']. destruct Hn as (->&?&?&Hfit). simpl.
  destruct (Nat.ltb_spec cap n'); [done|]. f_equal. eapply IH; try done. by apply Hfit.
Qed.

(** ** What the log counts *)

(** Each result is backed by that many distinct hashes in the window. *)
Definition distinct_in_window (n : nat) (now w : Z) (es : list (Z * Z)) : Prop :=
  ∃ hs : list Z, NoDup hs ∧ length hs = n ∧
    ∀ h, h ∈ hs → ∃ t, (h, t) ∈ es ∧ in_window_at now w t = true.

Record log_wf (t0 last w : Z) (es log : list (Z * Z)) : Prop := {
  wf_times : log_ok t0 last log;
  wf_events : ∀ e, e ∈ log → e ∈ es;
  wf_distinct : ∀ now, last ≤ now → now < t0 + clock_horizon → now < 2 ^ 64 →
    NoDup (live now w log).*1;
}.

Lemma live_subset now now' w t0 last log e :
  0 ≤ t0 → log_ok t0 last log → last ≤ now' → now' ≤ now → now < t0 + clock_horizon →
  now < 2 ^ 64 → e ∈ live now w log → e ∈ live now' w log.
Proof.
  intros ? Hl ???? [He Hw]%elem_live. apply elem_live. split; [done|].
  destruct (log_ok_range _ _ _ Hl) as [? Hr]. specialize (Hr e He).
  eapply in_window_earlier; [..|done]; lia.
Qed.

Lemma log_note_wf h t w t0 last es log :
  0 ≤ t0 → log_wf t0 last w es log → last ≤ t → t < t0 + clock_horizon → t < 2 ^ 64 →
  jiffies_to_msecs 0 ≤ w →
  let '(log', n) := log_note h t w log in
  log_wf t0 t w (es ++ [(h, t)]) log' ∧
  ((0 < n)%nat → distinct_in_window n t w (es ++ [(h, t)])).
Proof.
  intros ? [Ht He Hd] ??? Hw0. unfold log_note. destruct (existsb _ _) eqn:Hs.
  { split; [|lia]. split; [by eapply log_ok_mono| |].
    - intros e ?. apply elem_of_app. left. auto.
    - intros. apply Hd; lia. }
  assert (h ∉ (live t w log).*1) as Hnew.
  { intros ([h' t']&?&Hin)%list_elem_of_fmap. simpl in *. subst h'.
    assert (existsb (λ e, e.1 =? h) (live t w log) = true); [|congruence].
    apply existsb_exists. exists (h, t'). rewrite <- list_elem_of_In. split; [done|].
    apply Z.eqb_refl. }
  split.
  - split; [constructor; [done|by eapply log_ok_mono]| |].
    + intros e [->|?]%elem_of_cons; apply elem_of_app; [right; by left|left; auto].
    + intros now ???. unfold live at 1. simpl.
      destruct (in_window_at now w t); [|apply Hd; lia].
      csimpl. apply NoDup_cons. split; [|apply Hd; lia].
      intros ([h' t']&Hh&Hin)%list_elem_of_fmap. simpl in Hh. subst h'. apply Hnew.
      apply list_elem_of_fmap. exists (h, t'). split; [done|].
      by eapply (live_subset now t).
  - intros _. exists (h :: (live t w log).*1). split_and!.
    + apply NoDup_cons. split; [done|]. apply Hd; lia.
    + csimpl. by rewrite length_fmap.
    + intros h' [->|Hh]%elem_of_cons.
      * exists t. split; [apply elem_of_app; right; by left|].
        unfold in_window_at. rewrite Z.sub_diag. by apply Z.leb_le.
      * apply list_elem_of_fmap in Hh as ([h'' t']&->&[??]%elem_live).
        exists t'. split; [apply elem_of_app; left; auto|done].
Qed.

Lemma run_log_backed w t0 last es0 es log k n cap :
  0 ≤ t0 → jiffies_to_msecs 0 ≤ w →
  log_wf t0 last w es0 log → ordered t0 last es →
  until_trip cap (run (λ h t, log_note h t w) es log) !! k = Some n → (0 < n)%nat →
  ∃ h t, es !! k = Some (h, t) ∧ distinct_in_window n t w (es0 ++ take (S k) es).
Proof.
  intros ? Hw0. revert last es0 log k. induction es as [|[h t] es IH]; [done|].
  intros last es0 log k Hwf [[??] [? Ho]] Hk Hpos. simpl in Hk.
  pose proof (log_note_wf h t w t0 last es0 log) as Hn. do 6 (specialize (Hn ltac:(done || lia))).
  destruct (log_note h t w log) as [log' n']. destruct Hn as [Hwf' Hback]. simpl in Hk.
  destruct k as [|k].
  - exists h, t. simpl. rewrite take_0. split; [done|].
    destruct (cap <? n')%nat; simpl in Hk; simplify_eq; by apply Hback.
  - destruct (cap <? n')%nat; simpl in Hk; [done|].
    destruct (IH t (es0 ++ [(h, t)]) log' k Hwf' Ho Hk Hpos) as (h'&t'&?&Hd).
    exists h', t'. split; [done|]. by rewrite <- (assoc_L (++)) in Hd.
Qed.

(** A log all of whose entries stay live holds every hash it was shown. *)
Lemma run_log_burst w t0 last tend cap es log :
  0 ≤ t0 → log_ok t0 last log → ordered t0 last es →
  Forall (λ e, e.2 ≤ tend) es → tend < t0 + clock_horizon → tend < 2 ^ 64 →
  in_window_at tend w t0 = true → (length log ≤ cap)%nat →
  Forall (λ n, (n ≤ cap)%nat) (run (λ h t, log_note h t w) es log) →
  ∃ final, es.*1 ⊆ final.*1 ∧ log ⊆ final ∧ (length final ≤ cap)%nat.
Proof.
  intros ? Hl Ho Hend ?? Hwin. revert last log Hl Ho.
  induction es as [|[h t] es IH]; intros last log Hl Ho Hlen Hall.
  { exists log. split_and!; [|done..]. by intros ? ?%elem_of_nil. }
  simpl in Ho. destruct Ho as ([? ?]&?&Ho). apply Forall_cons in Hend as [Ht Hend].
  simpl in Ht, Hall. destruct (log_ok_range _ _ _ Hl) as [? Hr].
  assert (live t w log = log) as Hlive.
  { apply filter_all. intros e He. specialize (Hr e He).
    apply in_window_newer with (t' := t0); [lia..|].
    eapply in_window_earlier with (now := tend); (done || lia). }
  unfold log_note in Hall at 1. rewrite Hlive in Hall.
  destruct (existsb _ log) eqn:Hs.
  - apply Forall_cons in Hall as [_ Hall].
    destruct (IH Hend t log) as (final&Hes&Hlog&?); [by eapply log_ok_mono|done..|].
    exists final. split_and!; [|done..]. csimpl. intros x [->|?]%elem_of_cons; [|auto].
    apply existsb_exists in Hs as ([h' t']&Hin%list_elem_of_In&Heq).
    apply Z.eqb_eq in Heq. simpl in Heq. subst h'.
    apply list_elem_of_fmap. exists (h, t'). auto.
  - apply Forall_cons in Hall as [? Hall].
    destruct (IH Hend t ((h, t) :: log)) as (final&Hes&Hlog&?);
      [constructor; [done|by eapply log_ok_mono]|done|simpl; lia|done|].
    exists final. split_and!; [| |done].
    + csimpl. intros x [->|?]%elem_of_cons; [|auto].
      apply list_elem_of_fmap. exists (h, t). split; [done|]. apply Hlog. by left.
    + intros x ?. apply Hlog. by right.
Qed.

Lemma until_trip_quiet cap rs :
  Forall (λ n, (n ≤ cap)%nat) rs → until_trip cap rs = rs.
Proof.
  induction 1 as [|n rs Hn _ IH]; simpl; [done|].
  rewrite (proj2 (Nat.ltb_ge _ _)) by done. by rewrite IH.
Qed.

Lemma until_trip_Exists cap rs :
  Exists (λ n, (cap < n)%nat) (until_trip cap rs) → Exists (λ n, (cap < n)%nat) rs.
Proof.
  induction rs as [|n rs IH]; simpl; [done|].
  destruct (Nat.ltb_spec cap n); [by left|]. intros Hx. apply Exists_cons in Hx as [|?]; [lia|].
  right. auto.
Qed.

(** C34: a ring of [cap] slots loses nothing that matters: from an empty ring
    (a new or a reset one), over any sequence of notes in time order, its
    results are those of an unbounded log of the noted hashes up to and
    including the first that exceeds [cap]; and each positive result among
    them, that first trip included, is backed by that many distinct hashes
    noted within the trailing window, so no repetition of a few files trips
    it. *)
Theorem sliding_window_refines cap r w t0 es :
  (0 < cap)%nat → ring_ok cap r [] → 0 ≤ t0 → ordered t0 t0 es → jiffies_to_msecs 0 ≤ w →
  let results := until_trip cap (run (λ h t, sliding_window_note h t w cap) es r) in
  results = until_trip cap (run (λ h t, log_note h t w) es []) ∧
  ∀ k n, results !! k = Some n → (0 < n)%nat →
    ∃ h t, es !! k = Some (h, t) ∧ distinct_in_window n t w (take (S k) es).
Proof.
  intros Hcap Hr ? Ho Hw0. simpl.
  rewrite (run_refines cap w t0 t0 es r []); [|done..|by constructor|simpl; lia|done].
  split; [done|]. intros k n Hk Hn.
  apply (run_log_backed w t0 t0 [] es [] k n cap); try done.
  split; [by constructor|by intros ? ?%elem_of_nil|constructor].
Qed.

(** A burst cannot be hidden: if more than [cap] distinct hashes are noted
    within one window's span, in any order and with any repetitions, some note
    of the sequence returns more than [cap]. *)
Lemma sliding_window_detects cap r w t0 tend es :
  (0 < cap)%nat → ring_ok cap r [] → 0 ≤ t0 → ordered t0 t0 es →
  Forall (λ e, e.2 ≤ tend) es → tend < t0 + clock_horizon → tend < 2 ^ 64 →
  in_window_at tend w t0 = true →
  (cap < length (remove_dups es.*1))%nat →
  Exists (λ n, (cap < n)%nat) (run (λ h t, sliding_window_note h t w cap) es r).
Proof.
  intros Hcap Hr ? Ho Hend ?? Hwin Hmany. apply until_trip_Exists.
  rewrite (run_refines cap w t0 t0 es r []); [|done..|by constructor|simpl; lia|done].
  destruct (decide (Exists (λ n, (cap < n)%nat)
    (run (λ h t, log_note h t w) es []))) as [Hx|Hx].
  - clear -Hx. induction Hx as [n rs Hn|n rs _ IH]; simpl.
    + rewrite (proj2 (Nat.ltb_lt _ _)) by done. by left.
    + destruct (Nat.ltb_spec cap n); [by left|by right].
  - exfalso. assert (Forall (λ n, (n ≤ cap)%nat) (run (λ h t, log_note h t w) es [])) as Hall.
    { apply not_Exists_Forall in Hx; [|intros ?; apply _].
      eapply Forall_impl; [done|]. simpl. lia. }
    destruct (run_log_burst w t0 t0 tend cap es []) as (final&Hsub&_&Hlen);
      [done|by constructor|done..|simpl; lia|done|].
    assert (length (remove_dups es.*1) ≤ length final)%nat; [|lia].
    rewrite <- (length_fmap fst final). apply submseteq_length, NoDup_submseteq.
    + apply NoDup_remove_dups.
    + intros x. rewrite elem_of_remove_dups. apply Hsub.
Qed.

End window.

(** ** Examples: a 1000 Hz clock *)

Module ToyClock.

#[export] Program Instance hz1000 : KernelClock := {|
  jiffies_to_msecs j := u32 j;
  clock_horizon := 2 ^ 32;
|}.
Next Obligation. done. Qed.
Next Obligation. intros a b ???. rewrite !wrap_small by lia. done. Qed.

End ToyClock.

Module WindowExamples.
Import ToyClock.

(** Four notes of three hashes on a ring of two slots, with a 10 ms window. *)
Definition burst : list (Z * Z) := [(7, 100); (8, 101); (7, 102); (9, 103)].

Lemma ordered_burst : ordered 100 100 burst.
Proof. simpl. unfold clock_horizon. simpl. lia. Qed.

Lemma sliding_window_refines_witness :
  ∃ t, burst !! 3%nat = Some (9, t) ∧ distinct_in_window 3 t 10 burst.
Proof.
  destruct (proj2 (sliding_window_refines 2 (ring_zero 2) 10 100 burst ltac:(lia)
    (ring_ok_zero 2 ltac:(lia)) ltac:(lia) ordered_burst ltac:(by apply Z.leb_le; vm_compute))
    3%nat 3%nat ltac:(by vm_compute) ltac:(lia)) as (h & t & Hb & Hd).
  injection Hb as <- <-. exists 103. split; [reflexivity|exact Hd].
Defined.

(** A repeated touch does not refresh the file's slot: three files are written
    at 2000, 2001 and 2001 ms, the first of them also at 0, and the count
    within the last 2000 ms is 2. *)
Example retouch_not_counted :
  run (λ h t, sliding_window_note h t 2000 50) [(1, 0); (1, 2000); (2, 2001); (3, 2001)]
    (ring_zero 50) = [1; 0; 1; 2]%nat.
Proof. by vm_compute. Qed.

End WindowExamples.
