(* ===== verification/Kill.v ===== *)
(** * Killing a process: av/behavior.c, av/main.c

    [av_behavior_target_is_protected], [kill_with_reason] (behaviour checks)
    and [av_kill] (signatures, daemon verdicts, fail-closed policy).  What the
    kernel answers about the target (its pid number, whether a task is still
    attached, its mm, its exe file and that file's path) is a [target]; what a
    call does is the list of its effects, log lines and signals in order. *)

From Stdlib Require Import ZArith Lia Ascii String.
From stdpp Require Import prelude list strings.
From S2P Require Import Prelude CString Hashtable AllowLists.

Local Open Scope Z_scope.

(** What the lookups of [av_behavior_target_is_protected] find. *)
Inductive exe_lookup :=
  | NoTask                           (* pid_task: NULL *)
  | NoMm                             (* get_task_mm: NULL, a kernel thread or an exiting task *)
  | NoExe                            (* get_file_rcu: NULL *)
  | Exe (resolved : option cstr).    (* d_path, None an error pointer *)

Record target := {
  tg_pid_nr : Z;
  tg_exe : exe_lookup;
  tg_path_buf_ok : bool;    (* kmalloc of the d_path buffer *)
  tg_log_buf_ok : bool;     (* kmalloc of [protected_path] *)
  tg_task : bool;           (* pid_task at the time of the kill *)
}.

(** [struct av_file_identity]. *)
Record av_file_identity := { id_dev : Z; id_ino : Z; id_size : Z }.

(** MAJOR and MINOR (linux/kdev_t.h). *)
Definition MAJOR (dev : Z) : Z := Z.shiftr dev 20.
Definition MINOR (dev : Z) : Z := Z.land dev (2 ^ 20 - 1).

(** The pr_alert lines, by their fields. *)
Inductive alert :=
  | SuppressedInit (type path reason : cstr)
  | SuppressedProtected (type path reason : cstr) (pid : Z) (protected_exe : cstr)
  | DetectedKill (type path reason : cstr) (pid : Z)
      (ident : option (Z * Z * Z * Z)).

Inductive effect :=
  | Alert (a : alert)
  | Sigkill (pid : Z).

#[export] Instance alert_eq_dec : EqDecision alert.
Proof. solve_decision. Defined.
#[export] Instance effect_eq_dec : EqDecision effect.
Proof. solve_decision. Defined.

Section kill.
Context {P : Type} `{ProtectList P}.
Implicit Types (pl : P) (tg : target).

(** The second component is what is copied to [path_out]. *)
Definition av_behavior_target_is_protected pl tg (path_out : bool)
    (path_out_len : nat) : bool * option cstr :=
  match tg_exe tg with
  | NoTask | NoMm | NoExe => (false, None)
  | Exe resolved =>
      if negb (tg_path_buf_ok tg) then (false, None)
      else match resolved with
           | None => (false, None)
           | Some resolved =>
               if pl_protects pl resolved
               then (true, if path_out then Some (strscpy resolved path_out_len) else None)
               else (false, None)
           end
  end.

Definition kill_with_reason pl tg (path reason : cstr) : list effect :=
  let type := cs "behavioral" in
  if tg_pid_nr tg =? 1 then [Alert (SuppressedInit type path reason)]
  else
    let '(prot, out) := av_behavior_target_is_protected pl tg (tg_log_buf_ok tg) PATH_MAX in
    if prot
    then [Alert (SuppressedProtected type path reason (tg_pid_nr tg) (default (cs "?") out))]
    else if tg_task tg
    then [Alert (DetectedKill type path reason (tg_pid_nr tg) None);
          Sigkill (tg_pid_nr tg)]
    else [].

Definition av_kill pl tg (path type reason : cstr) (ident : option av_file_identity)
    : list effect :=
  if tg_pid_nr tg =? 1 then [Alert (SuppressedInit type path reason)]
  else
    let '(prot, out) := av_behavior_target_is_protected pl tg (tg_log_buf_ok tg) PATH_MAX in
    if prot
    then [Alert (SuppressedProtected type path reason (tg_pid_nr tg) (default (cs "?") out))]
    else if tg_task tg
    then [Alert (DetectedKill type path reason (tg_pid_nr tg)
                  ((λ i, (MAJOR (id_dev i), MINOR (id_dev i), id_ino i, id_size i)) <$> ident));
          Sigkill (tg_pid_nr tg)]
    else [].

(** ** What a kill request does *)

(** What is found of the target's exe: nothing if there is no task, no mm or no exe file, if the buffer
    for the path cannot be allocated, or if d_path fails. *)
Definition exe_found tg : option cstr :=
  match tg_exe tg with Exe (Some p) => if tg_path_buf_ok tg then Some p else None | _ => None end.

(** The target's exe is found and is on the list.  An exe that is not found is not protected,
    listed or not. *)
Definition exe_protected pl tg : Prop :=
  ∃ p, exe_found tg = Some p ∧ pl_protects pl p = true.

(** The target runs the exe [p]: the lookup finds that path, if it finds any. *)
Definition runs tg (p : cstr) : Prop := ∀ q, exe_found tg = Some q → q = p.

(** What every kill request does, whoever makes it. *)
Record kill_spec pl tg (effs : list effect) : Prop := {
  kill_signal pid : Sigkill pid ∈ effs ↔
    pid = tg_pid_nr tg ∧ tg_pid_nr tg ≠ 1 ∧ ¬ exe_protected pl tg ∧ tg_task tg = true;
  kill_shape : effs = [] ∨ (∃ a, effs = [Alert a]) ∨
    ∃ a, effs = [Alert a; Sigkill (tg_pid_nr tg)];
  kill_silent : effs = [] → tg_pid_nr tg ≠ 1 ∧ ¬ exe_protected pl tg ∧ tg_task tg = false;
}.

Lemma target_is_protected_spec pl tg out len :
  let '(prot, o) := av_behavior_target_is_protected pl tg out len in
  (prot = true ↔ exe_protected pl tg) ∧ (prot = false → o = None).
Proof.
  unfold av_behavior_target_is_protected, exe_protected, exe_found.
  destruct (tg_exe tg) as [| | |[p|]], (tg_path_buf_ok tg); cbn [negb];
    try (split; [split; [done|by intros (?&?&?)]|done]).
  destruct (pl_protects pl p) eqn:Hp; (split; [split|done]); [|done..|].
  - intros _. by exists p.
  - intros (q&[= <-]&?). congruence.
Qed.

Lemma kill_spec_intro pl tg a1 a2 a3 out :
  kill_spec pl tg
    (if tg_pid_nr tg =? 1 then [Alert a1]
     else
       let '(prot, o) := av_behavior_target_is_protected pl tg out PATH_MAX in
       if prot then [Alert (a2 o)]
       else if tg_task tg then [Alert a3; Sigkill (tg_pid_nr tg)] else []).
Proof.
  destruct (Z.eqb_spec (tg_pid_nr tg) 1) as [H1|H1].
  { split; [|by right; left; eexists|done]. intros pid.
    rewrite list_elem_of_singleton. split; [done|]. by intros (_&?&_). }
  pose proof (target_is_protected_spec pl tg out PATH_MAX) as Hp.
  destruct (av_behavior_target_is_protected pl tg out PATH_MAX) as [[] o].
  { destruct Hp as [[Hp _] _]. split; [|by right; left; eexists|done]. intros pid.
    rewrite list_elem_of_singleton. split; [done|]. intros (_&_&[]&_). by apply Hp. }
  assert (¬ exe_protected pl tg) by by rewrite <- (proj1 Hp).
  destruct (tg_task tg) eqn:Ht.
  - split; [|by right; right; eexists|done]. intros pid.
    rewrite !elem_of_cons, elem_of_nil. split; [intros [?|[[= ->]|[]]]; [done|by split_and!]|].
    intros (->&_). auto.
  - split; [|by left|intros _; by split_and!]. intros pid. rewrite elem_of_nil.
    split; [done|]. intros (_&_&_&Hx). congruence.
Qed.

Lemma kill_with_reason_spec pl tg path reason :
  kill_spec pl tg (kill_with_reason pl tg path reason).
Proof. apply kill_spec_intro with (a2 := λ o, SuppressedProtected _ _ _ _ (default _ o)). Qed.

Lemma av_kill_spec pl tg path type reason ident :
  kill_spec pl tg (av_kill pl tg path type reason ident).
Proof. apply kill_spec_intro with (a2 := λ o, SuppressedProtected _ _ _ _ (default _ o)). Qed.

(** ** The protected list over time *)

Inductive protect_op :=
  | OpAdd (kmalloc_ok : bool) (path : cstr)
  | OpDel (path : cstr).

Definition protect_step pl (op : protect_op) : P :=
  match op with
  | OpAdd k p => (pl_add k p pl).2
  | OpDel p => (pl_del p pl).2
  end.

Lemma protect_step_keeps pl op p :
  pl_ok pl → pl_protects pl p = true → op ≠ OpDel p →
  pl_ok (protect_step pl op) ∧ pl_protects (protect_step pl op) p = true.
Proof.
  intros Hok Hp Hop. destruct op as [k q|q]; simpl.
  - destruct (pl_add k q pl) as [r pl'] eqn:He.
    destruct (pl_add_law k q pl r pl' Hok He) as [? Hl]. split; [done|]. simpl.
    rewrite Hl, Hp. destruct (decide _); [|done]. by rewrite orb_true_r.
  - destruct (pl_del q pl) as [r pl'] eqn:He.
    destruct (pl_del_law q pl r pl' Hok He) as [? Hl]. split; [done|]. simpl.
    rewrite Hl, Hp. destruct (decide _); [|done].
    rewrite bool_decide_false by congruence. done.
Qed.

Lemma protect_run_keeps pl ops p :
  pl_ok pl → pl_protects pl p = true → OpDel p ∉ ops →
  pl_protects (foldl protect_step pl ops) p = true.
Proof.
  revert pl. induction ops as [|op ops IH]; simpl; intros pl Hok Hp Hn; [done|].
  apply not_elem_of_cons in Hn as [Hop Hn].
  destruct (protect_step_keeps pl op p) as [? ?]; [done..|by intros ->|]. by apply IH.
Qed.

(** What it comes to for a target that runs [p]. *)
Lemma kill_running pl tg p effs pid :
  kill_spec pl tg effs → runs tg p → pl_protects pl p = true →
  Sigkill pid ∈ effs ↔ pid = tg_pid_nr tg ∧ tg_pid_nr tg ≠ 1 ∧ exe_found tg = None ∧ tg_task tg = true.
Proof.
  intros Hk Hr Hp. rewrite (kill_signal _ _ _ Hk).
  assert (exe_protected pl tg ↔ exe_found tg ≠ None) as ->.
  { split; [intros (q&?&_); congruence|]. destruct (exe_found tg) as [q|] eqn:Hq; [|done].
    intros _. exists q. rewrite Hq. split; [done|]. by rewrite (Hr q Hq). }
  destruct (exe_found tg); intuition congruence.
Qed.

(** C19: a kill request, from a behaviour check or from a verdict, sends
    SIGKILL exactly to its target, exactly when the target is not PID 1, its
    task still exists, and its exe was not found on the protected list; it
    signals nothing it has not logged, and stays silent only when there is no
    task left to kill.  The check fails open: a target whose exe is not found
    (no mm, no exe file, no memory for the path, a d_path error) is killed
    whatever it runs. *)
Theorem kill_rails pl tg path type reason ident :
  kill_spec pl tg (kill_with_reason pl tg path reason) ∧
  kill_spec pl tg (av_kill pl tg path type reason ident) ∧
  (exe_found tg = None → tg_pid_nr tg ≠ 1 → tg_task tg = true →
   Sigkill (tg_pid_nr tg) ∈ kill_with_reason pl tg path reason ∧
   Sigkill (tg_pid_nr tg) ∈ av_kill pl tg path type reason ident).
Proof.
  split_and!; [apply kill_with_reason_spec|apply av_kill_spec|]. intros Hf H1 Ht.
  rewrite (kill_signal _ _ _ (kill_with_reason_spec pl tg path reason)),
    (kill_signal _ _ _ (av_kill_spec pl tg path type reason ident)).
  assert (¬ exe_protected pl tg) by (intros (q&?&_); congruence). done.
Qed.

(** C20: once a path has been added to the protected list (successfully, or
    found there already), whatever is added to or deleted from the list in
    between and until that very path is deleted, a kill request signals a
    process running that exe only if the lookup of its exe fails (no mm, no
    exe file, no memory for the path, a d_path error), and then it does. *)
Theorem protected_exe_spared pl k p pl' r ops tg path type reason ident pid :
  pl_ok pl → pl_add k p pl = (r, pl') → r = 0 ∨ pl_protects pl p = true →
  OpDel p ∉ ops → runs tg p →
  let pl'' := foldl protect_step pl' ops in
  (Sigkill pid ∈ kill_with_reason pl'' tg path reason ↔
   pid = tg_pid_nr tg ∧ tg_pid_nr tg ≠ 1 ∧ exe_found tg = None ∧ tg_task tg = true) ∧
  (Sigkill pid ∈ av_kill pl'' tg path type reason ident ↔
   pid = tg_pid_nr tg ∧ tg_pid_nr tg ≠ 1 ∧ exe_found tg = None ∧ tg_task tg = true).
Proof.
  intros Hok Hadd Hr Hops Hruns pl''.
  destruct (pl_add_law k p pl r pl' Hok Hadd) as [Hok' Hl].
  assert (pl_protects pl'' p = true) as Hp.
  { apply protect_run_keeps; [done| |done]. rewrite Hl. destruct (decide (r = 0)); [by rewrite bool_decide_true|].
    by destruct Hr. }
  split; (eapply kill_running; [|done|done]); [apply kill_with_reason_spec|apply av_kill_spec].
Qed.

End kill.

(** ** Examples *)

Module KillExamples.
Import ToyHash Protect.

Definition sshd : cstr := cs "/usr/sbin/sshd".
Definition bash : cstr := cs "/usr/bin/bash".
Definition tg_sshd : target :=
  {| tg_pid_nr := 812; tg_exe := Exe (Some sshd); tg_path_buf_ok := true;
     tg_log_buf_ok := false; tg_task := true |}.

Definition listed : list (list av_protected_entry) :=
  (av_behavior_protect_add true sshd protected_table_init).2.

(** With [sshd] protected and [bash] added and removed since, [sshd] lives. *)
Lemma protected_exe_witness :
  Sigkill 812 ∉ kill_with_reason (foldl protect_step listed [OpAdd true bash; OpDel bash])
    tg_sshd (cs "/etc/shadow") (cs "write").
Proof.
  assert (av_behavior_protect_add true sshd protected_table_init = (0, listed)) as Hadd
    by by vm_compute.
  assert (OpDel sshd ∉ [OpAdd true bash; OpDel bash]) as Hops.
  { rewrite !not_elem_of_cons. split; [discriminate|]. split; [|by apply not_elem_of_nil].
    intros Heq. apply (f_equal (λ o, match o with OpDel p => length p | _ => 0%nat end)) in Heq.
    vm_compute in Heq. discriminate Heq. }
  assert (runs tg_sshd sshd) as Hruns by by intros q [= <-].
  pose proof (proj1 (@protected_exe_spared _ protect_list protected_table_init true sshd
    listed 0 [OpAdd true bash; OpDel bash] tg_sshd (cs "/etc/shadow") (cs "t") (cs "write")
    None 812 protect_inv_init Hadd (or_introl eq_refl) Hops Hruns)) as [Hk _].
  intros Hin. by destruct (Hk Hin) as (_&_&?&_).
Defined.

(** Without memory for the path of its exe it is not spared. *)
Definition tg_no_memory : target :=
  {| tg_pid_nr := 812; tg_exe := Exe (Some sshd); tg_path_buf_ok := false;
     tg_log_buf_ok := true; tg_task := true |}.

Lemma kill_rails_witness :
  pl_protects listed sshd = true ∧
  Sigkill 812 ∈ kill_with_reason listed tg_no_memory (cs "/etc/shadow") (cs "write").
Proof.
  split; [reflexivity|].
  destruct (kill_rails listed tg_no_memory (cs "/etc/shadow") (cs "t") (cs "write") None) as (_&_&Hopen).
  apply Hopen; [reflexivity|discriminate|reflexivity].
Defined.

(** A process that is not on the list is killed. *)
Example unprotected_killed :
  kill_with_reason (protected_table_init) tg_sshd (cs "/etc/shadow") (cs "write") =
  [Alert (DetectedKill (cs "behavioral") (cs "/etc/shadow") (cs "write") 812 None);
   Sigkill 812].
Proof. by vm_compute. Qed.

End KillExamples.
