(* ===== verification/Behavior.v ===== *)
(** * Behavioural heuristics: av/behavior.c

    The per-process table and the checks made on exec, write-intent opens,
    unlinks and renames.  Each operation runs under [behavior_lock], so it is
    one transition of [behavior]; [now] is [jiffies], [kzalloc_ok] the outcome
    of the allocation, [alive] what [find_vpid]/[pid_task] answer during a
    sweep (the start time of the thread group that now has the pid).  The
    trust and protected lists are used through their interfaces. *)

From Stdlib Require Import ZArith Lia Ascii String.
From stdpp Require Import prelude list gmap strings.
From S2P Require Import Prelude CString Hashtable AllowLists Paths Window Kill.

Local Open Scope Z_scope.

Definition BEHAVIOR_BITS : nat := 10.
Definition MAX_BEHAVIOR_ENTRIES : Z := 8192.
Definition WRITE_OPEN_WINDOW_MS : Z := 2000.
Definition WRITE_OPEN_THRESHOLD : nat := 50.
Definition MAX_TRACKED_PATHS : nat := WRITE_OPEN_THRESHOLD.
Definition GC_INTERVAL_MS : Z := 30000.
Definition RENAME_WINDOW_MS : Z := 2000.
Definition RENAME_THRESHOLD : nat := 20.
Definition MAX_TRACKED_RENAMES : nat := RENAME_THRESHOLD.

(** open(2) flags (asm-generic/fcntl.h). *)
Definition O_WRONLY : Z := 1.
Definition O_RDWR : Z := 2.
Definition O_CREAT : Z := 64.
Definition O_TRUNC : Z := 512.

Record av_behavior_entry := {
  be_pid : Z;
  be_exec_path : cstr;
  be_paths : ring;       (* recent_path_* *)
  be_renames : ring;     (* recent_rename_* *)
  be_trusted : bool;
  be_start_time : Z;
  be_last_touched : Z;
}.

Record behavior := {
  behavior_table : list (list av_behavior_entry);
  behavior_table_count : Z;
  gc_delay : option Z;   (* behavior_gc_work: queued, with this delay in ms *)
}.

(** [time_before(a, b)] (linux/jiffies.h): the sign of a 64-bit difference. *)
Definition time_before (a b : Z) : bool := 2 ^ 63 <=? u64 (a - b).

Section behavior.
Context `{KernelHash, KernelClock}.
Context {T : Type} `{TrustList T} {P : Type} `{ProtectList P}.
Implicit Types (st : behavior) (e : av_behavior_entry) (trust : T) (prot : P).

Definition pid_key (pid : Z) : Z := u32 pid.
Definition bucket (pid : Z) : nat := hash_min (pid_key pid) BEHAVIOR_BITS.
Definition has_pid (pid : Z) e : bool := bool_decide (be_pid e = pid).

Definition set_table st (t : list (list av_behavior_entry)) (n : Z) : behavior :=
  {| behavior_table := t; behavior_table_count := n; gc_delay := gc_delay st |}.

(** [e->last_touched = jiffies]. *)
Definition touch (now : Z) e : av_behavior_entry :=
  {| be_pid := be_pid e; be_exec_path := be_exec_path e; be_paths := be_paths e;
     be_renames := be_renames e; be_trusted := be_trusted e;
     be_start_time := be_start_time e; be_last_touched := now |}.

(** Mutation, through the pointer, of the entry of [pid]. *)
Definition update_entry st (pid : Z) (f : av_behavior_entry → av_behavior_entry) : behavior :=
  set_table st (hash_upd_first (behavior_table st) (bucket pid) (has_pid pid) f)
    (behavior_table_count st).

(** The scan of [evict_lru_entry]. *)
Definition oldest_entry (l : list av_behavior_entry) : option av_behavior_entry :=
  foldl (λ oldest e,
    match oldest with
    | None => Some e
    | Some o => if time_before (be_last_touched e) (be_last_touched o) then Some e else oldest
    end) None l.

Definition evict_lru_entry st : bool * behavior :=
  match oldest_entry (hash_all (behavior_table st)) with
  | None => (false, st)
  | Some oldest =>
      let b := bucket (be_pid oldest) in
      (true,
       set_table st
         (default (behavior_table st)
           (hash_del_first (behavior_table st) b (has_pid (be_pid oldest))))
         (u32 (behavior_table_count st - 1)))
  end.

(** A zeroed entry with its pid and time set. *)
Definition fresh_entry (pid now : Z) : av_behavior_entry :=
  {| be_pid := pid; be_exec_path := []; be_paths := ring_zero MAX_TRACKED_PATHS;
     be_renames := ring_zero MAX_TRACKED_RENAMES; be_trusted := false;
     be_start_time := 0; be_last_touched := now |}.

(** The returned pointer is [Some e], [e] being what it points to; NULL is
    [None]. *)
Definition get_or_create_entry (kzalloc_ok : bool) (pid now : Z) st
    : option av_behavior_entry * behavior :=
  match find_first (has_pid pid) (hash_chain (behavior_table st) (bucket pid)) with
  | Some e => (Some (touch now e), update_entry st pid (touch now))
  | None =>
      let create st :=
        if negb kzalloc_ok then (None, st)
        else
          let e := fresh_entry pid now in
          (Some e, set_table st (hash_add (behavior_table st) (bucket pid) e)
                     (u32 (behavior_table_count st + 1))) in
      if MAX_BEHAVIOR_ENTRIES <=? behavior_table_count st
      then
        let st := {| behavior_table := behavior_table st;
                     behavior_table_count := behavior_table_count st;
                     gc_delay := Some 0 |} in
        let '(evicted, st) := evict_lru_entry st in
        if evicted then create st else (None, st)
      else create st
  end.

(** The new occupant of a recycled pid starts clean. *)
Definition gc_entry (alive : Z → option Z) e : option av_behavior_entry :=
  match alive (be_pid e) with
  | None => None
  | Some cur_start =>
      if negb (be_start_time e =? 0) && negb (be_start_time e =? cur_start)
      then Some {| be_pid := be_pid e; be_exec_path := [];
                   be_paths := ring_reset (be_paths e);
                   be_renames := ring_reset (be_renames e);
                   be_trusted := false; be_start_time := cur_start;
                   be_last_touched := be_last_touched e |}
      else Some e
  end.

Definition gc_removed (alive : Z → option Z) st : Z :=
  Z.of_nat (length (List.filter (λ e, bool_decide (alive (be_pid e) = None))
                      (hash_all (behavior_table st)))).

(** [queue_delayed_work] leaves work that is already queued alone; running the
    work has just taken it off the queue, unless [mod_delayed_work] put it back
    meanwhile. *)
Definition behavior_gc_fn (alive : Z → option Z) st : behavior :=
  {| behavior_table := hash_sweep (gc_entry alive) (behavior_table st);
     behavior_table_count := u32 (behavior_table_count st - gc_removed alive st);
     gc_delay := match gc_delay st with Some d => Some d | None => Some GC_INTERVAL_MS end |}.

(** The workqueue starting the sweep. *)
Definition behavior_gc_start st : behavior :=
  {| behavior_table := behavior_table st;
     behavior_table_count := behavior_table_count st; gc_delay := None |}.

(** What an exec writes into the entry. *)
Definition exec_entry (path : cstr) (trusted : bool) (start_time : Z) e : av_behavior_entry :=
  let same := be_start_time e =? start_time in
  {| be_pid := be_pid e; be_exec_path := strscpy path PATH_MAX;
     be_paths := if same then be_paths e else ring_reset (be_paths e);
     be_renames := if same then be_renames e else ring_reset (be_renames e);
     be_trusted := trusted; be_start_time := start_time;
     be_last_touched := be_last_touched e |}.

Definition av_behavior_record_exec trust (kzalloc_ok : bool) (now pid : Z)
    (path sha256_hex : cstr) (start_time : Z) st : behavior :=
  let trusted := tl_trusts trust sha256_hex in
  match get_or_create_entry kzalloc_ok pid now st with
  | (None, st) => st
  | (Some _, st) => update_entry st pid (exec_entry path trusted start_time)
  end.

Definition note_path (path_hash now : Z) e : av_behavior_entry * nat :=
  let '(r, n) := sliding_window_note path_hash now WRITE_OPEN_WINDOW_MS MAX_TRACKED_PATHS
                   (be_paths e) in
  ({| be_pid := be_pid e; be_exec_path := be_exec_path e; be_paths := r;
      be_renames := be_renames e; be_trusted := be_trusted e;
      be_start_time := be_start_time e; be_last_touched := be_last_touched e |}, n).

Definition note_rename (path_hash now : Z) e : av_behavior_entry * nat :=
  let '(r, n) := sliding_window_note path_hash now RENAME_WINDOW_MS MAX_TRACKED_RENAMES
                   (be_renames e) in
  ({| be_pid := be_pid e; be_exec_path := be_exec_path e; be_paths := be_paths e;
      be_renames := r; be_trusted := be_trusted e;
      be_start_time := be_start_time e; be_last_touched := be_last_touched e |}, n).

Definition write_intent (flags : Z) : bool :=
  negb (Z.land flags (Z.lor (Z.lor O_WRONLY O_RDWR) (Z.lor O_CREAT O_TRUNC)) =? 0).

Definition av_behavior_check_openat prot (kzalloc_ok : bool) (now pid : Z) (path : cstr)
    (flags : Z) (tg : target) st : behavior * list effect :=
  if negb (write_intent flags) then (st, [])
  else if Pred.path_is_pseudo_fs path then (st, [])
  else
    let sensitive := Pred.path_is_sensitive path in
    let '(st, rapid) :=
      match get_or_create_entry kzalloc_ok pid now st with
      | (Some e, st) =>
          if negb (be_trusted e) && negb (Pred.path_is_rapid_write_noise path)
          then
            let in_window := (note_path (full_name_hash path) now e).2 in
            (update_entry st pid (λ e, (note_path (full_name_hash path) now e).1),
             (WRITE_OPEN_THRESHOLD <? in_window)%nat)
          else (st, false)
      | (None, st) => (st, false)
      end in
    (st,
     if sensitive
     then kill_with_reason prot tg path (cs "write-intent open of sensitive path")
     else if rapid
     then kill_with_reason prot tg path
            (cs "rapid file modification (possible ransomware pattern)")
     else []).

Definition av_behavior_check_unlink prot (kzalloc_ok : bool) (now pid : Z) (path : cstr)
    (tg : target) st : behavior * list effect :=
  if Pred.path_is_pseudo_fs path then (st, [])
  else
    let '(e, st) := get_or_create_entry kzalloc_ok pid now st in
    let self_delete :=
      match e with
      | Some e => is_absolute (be_exec_path e) && is_absolute path
                  && strcmp_eq (be_exec_path e) path
      | None => false
      end in
    let sensitive := Pred.path_is_sensitive path in
    (st,
     if self_delete
     then kill_with_reason prot tg path (cs "self-deleting binary (possible dropper/backdoor)")
     else if sensitive
     then kill_with_reason prot tg path (cs "deletion of sensitive path")
     else []).

Definition av_behavior_check_rename prot (kzalloc_ok : bool) (now pid : Z)
    (oldpath newpath : cstr) (tg : target) st : behavior * list effect :=
  let sensitive := Pred.path_is_sensitive oldpath || Pred.path_is_sensitive newpath in
  let '(st, rapid) :=
    if Pred.is_extension_append_rename oldpath newpath
    then
      match get_or_create_entry kzalloc_ok pid now st with
      | (Some e, st) =>
          if negb (be_trusted e) && negb (Pred.path_is_pseudo_fs oldpath)
             && negb (Pred.path_is_pseudo_fs newpath)
             && negb (Pred.path_is_rapid_write_noise oldpath)
             && negb (Pred.path_is_rapid_write_noise newpath)
          then
            let in_window := (note_rename (full_name_hash oldpath) now e).2 in
            (update_entry st pid (λ e, (note_rename (full_name_hash oldpath) now e).1),
             (RENAME_THRESHOLD <? in_window)%nat)
          else (st, false)
      | (None, st) => (st, false)
      end
    else (st, false) in
  (st,
   if sensitive
   then kill_with_reason prot tg newpath (cs "rename involving sensitive path")
   else if rapid
   then kill_with_reason prot tg newpath
          (cs "rapid extension-append renames (possible ransomware encryption pass)")
   else []).

(** ** Start and stop *)

(** What [av_behavior_init] has registered. *)
Inductive resource := TrustProc | ProtectProc | GcWorkqueue.

#[export] Instance resource_eq_dec : EqDecision resource.
Proof. solve_decision. Defined.

Definition behavior_zero : behavior :=
  {| behavior_table := hash_init (2 ^ BEHAVIOR_BITS); behavior_table_count := 0;
     gc_delay := None |}.

(** The outcomes of proc_create (twice) and alloc_workqueue; the list is what
    is registered on return, [*_proc_exit] undoing in the error paths. *)
Definition av_behavior_init (trust_proc_ok protect_proc_ok wq_ok : bool)
    : Z * list resource * behavior :=
  if negb trust_proc_ok then (- ENOMEM, [], behavior_zero)
  else
    let held := [TrustProc] in
    if negb protect_proc_ok
    then (- ENOMEM, List.remove resource_eq_dec TrustProc held, behavior_zero)
    else
      let held := ProtectProc :: held in
      if negb wq_ok
      then (- ENOMEM, List.remove resource_eq_dec TrustProc (List.remove resource_eq_dec ProtectProc held), behavior_zero)
      else (0, GcWorkqueue :: held,
            {| behavior_table := behavior_table behavior_zero;
               behavior_table_count := 0; gc_delay := Some GC_INTERVAL_MS |}).

(** The count is left alone; the module is going away. *)
Definition av_behavior_exit (held : list resource) st : list resource * behavior :=
  (List.remove resource_eq_dec TrustProc (List.remove resource_eq_dec ProtectProc (List.remove resource_eq_dec GcWorkqueue held)),
   {| behavior_table := hash_sweep (λ _, None) (behavior_table st);
      behavior_table_count := behavior_table_count st; gc_delay := None |}).

(** ** Invariant and abstraction *)

(** The entries by pid. *)
Definition entries st : gmap Z av_behavior_entry := ht_map be_pid (behavior_table st).

Definition ring_wf (cap : nat) (r : ring) : Prop := ∃ log, ring_ok cap r log.

Record entry_wf (now : Z) e : Prop := {
  ew_paths : ring_wf MAX_TRACKED_PATHS (be_paths e);
  ew_renames : ring_wf MAX_TRACKED_RENAMES (be_renames e);
  ew_exec : (length (be_exec_path e) < PATH_MAX)%nat;
  ew_touched : 0 ≤ be_last_touched e ≤ now;
}.

Record behavior_inv (now : Z) st : Prop := {
  bi_ok : ht_ok be_pid bucket (2 ^ BEHAVIOR_BITS) (behavior_table st);
  bi_count : behavior_table_count st = Z.of_nat (size (entries st));
  bi_cap : behavior_table_count st ≤ MAX_BEHAVIOR_ENTRIES;
  bi_entry : ∀ pid e, entries st !! pid = Some e → entry_wf now e;
}.

Lemma entry_wf_mono now now' e : now ≤ now' → entry_wf now e → entry_wf now' e.
Proof. intros ? []. split; (done || lia). Qed.

Lemma bucket_lt pid : (bucket pid < 2 ^ BEHAVIOR_BITS)%nat.
Proof. apply hash_min_range. Qed.

Lemma behavior_inv_mono now now' st : now ≤ now' → behavior_inv now st → behavior_inv now' st.
Proof. intros ? []. split; eauto using entry_wf_mono. Qed.

Lemma entries_elem now st pid e :
  behavior_inv now st →
  entries st !! pid = Some e ↔ e ∈ hash_all (behavior_table st) ∧ be_pid e = pid.
Proof. intros Hi. exact (ht_map_Some _ _ _ _ _ _ (bi_ok _ _ Hi)). Qed.

Lemma entries_pid now st pid e :
  behavior_inv now st → entries st !! pid = Some e → be_pid e = pid.
Proof. unfold entries. intros Hi He. by apply (ht_map_Some _ _ _ _ _ _ (bi_ok _ _ Hi)) in He as [_ ?]. Qed.

Lemma update_entry_spec now now' st pid f e :
  behavior_inv now st → now ≤ now' → (∀ x, be_pid (f x) = be_pid x) →
  entry_wf now' (f e) → entries st !! pid = Some e →
  behavior_inv now' (update_entry st pid f) ∧
  entries (update_entry st pid f) = <[pid := f e]> (entries st).
Proof.
  intros Hi Hn Hf Hwf He.
  destruct (ht_upd be_pid bucket (2 ^ BEHAVIOR_BITS) (behavior_table st) pid f e) as [Hok Hm];
    [apply Hi|apply bucket_lt|done|done|].
  assert (entries (update_entry st pid f) = <[pid := f e]> (entries st)) as Hm' by exact Hm.
  split; [|done]. split; [done| | |]; simpl.
  - rewrite Hm', map_size_insert_Some by eauto. apply Hi.
  - apply Hi.
  - rewrite Hm'. intros p x. rewrite lookup_insert. case_decide; intros; simplify_eq; [done|].
    eapply entry_wf_mono; [done|]. by eapply bi_entry.
Qed.

Lemma fresh_entry_wf pid now : 0 ≤ now → entry_wf now (fresh_entry pid now).
Proof.
  intros. split; simpl; [exists []; apply ring_ok_zero; unfold MAX_TRACKED_PATHS, WRITE_OPEN_THRESHOLD; lia
    |exists []; apply ring_ok_zero; unfold MAX_TRACKED_RENAMES, RENAME_THRESHOLD; lia
    |unfold PATH_MAX; lia|lia].
Qed.

Lemma touch_wf now now' e : 0 ≤ now' → entry_wf now e → entry_wf now' (touch now' e).
Proof. intros ? []. split; simpl; (done || lia). Qed.

(** ** Eviction *)

Lemma time_before_lt a b : 0 ≤ a < 2 ^ 63 → 0 ≤ b < 2 ^ 63 → time_before a b = (a <? b).
Proof.
  intros. unfold time_before, wrap. apply eq_bool_prop_intro.
  rewrite !Is_true_true, Z.leb_le, Z.ltb_lt.
  destruct (Z.lt_ge_cases a b).
  - rewrite <- (Z.mod_add (a - b) 1 (2 ^ 64)) by lia. rewrite Z.mod_small by lia. lia.
  - rewrite Z.mod_small by lia. lia.
Qed.

Lemma oldest_entry_spec l :
  (∀ e, e ∈ l → 0 ≤ be_last_touched e < 2 ^ 63) →
  match oldest_entry l with
  | None => l = []
  | Some o => o ∈ l ∧ ∀ e, e ∈ l → be_last_touched o ≤ be_last_touched e
  end.
Proof.
  unfold oldest_entry.
  assert (∀ l acc, (∀ e, e ∈ l → 0 ≤ be_last_touched e < 2 ^ 63) →
    0 ≤ be_last_touched acc < 2 ^ 63 →
    ∃ o, foldl (λ oldest e, match oldest with
      | None => Some e
      | Some o => if time_before (be_last_touched e) (be_last_touched o) then Some e else oldest
      end) (Some acc) l = Some o ∧ (o = acc ∨ o ∈ l) ∧
      be_last_touched o ≤ be_last_touched acc ∧
      ∀ e, e ∈ l → be_last_touched o ≤ be_last_touched e) as Hgen.
  { clear l. induction l as [|x l IH]; intros acc Hl Ha.
    - exists acc. split_and!; [done|by left|done|]. by intros ? ?%elem_of_nil.
    - simpl. setoid_rewrite elem_of_cons in Hl.
      rewrite time_before_lt by auto.
      destruct (Z.ltb_spec (be_last_touched x) (be_last_touched acc)).
      + destruct (IH x) as (o&?&[->|?]&?&?); [auto..| |];
          (exists o || exists x); split_and!; try done; try lia;
          [right; by left| |right; by right|];
          intros e [->|?]%elem_of_cons; auto; lia.
      + destruct (IH acc) as (o&?&[->|?]&?&?); [auto..| |];
          (exists o || exists acc); split_and!; try done; try lia;
          [by left| |right; by right|];
          intros e [->|?]%elem_of_cons; auto; lia. }
  destruct l as [|x l]; intros Hl; [done|]. simpl.
  setoid_rewrite elem_of_cons in Hl.
  destruct (Hgen l x) as (o&->&Ho&?&?); [auto..|].
  split; [apply elem_of_cons; by destruct Ho; [left|right]|].
  intros e [->|?]%elem_of_cons; auto.
Qed.

Lemma inv_times now st pid e :
  behavior_inv now st → entries st !! pid = Some e → 0 ≤ be_last_touched e ≤ now.
Proof. intros Hi He. by eapply ew_touched, bi_entry. Qed.

(** The victim is a least recently touched entry, and the only one to go. *)
Lemma evict_lru_spec now st :
  behavior_inv now st → now < 2 ^ 63 → entries st ≠ ∅ →
  ∃ st' victim v,
    evict_lru_entry st = (true, st') ∧ entries st !! victim = Some v ∧
    (∀ pid e, entries st !! pid = Some e → be_last_touched v ≤ be_last_touched e) ∧
    behavior_inv now st' ∧ entries st' = delete victim (entries st) ∧
    behavior_table_count st' = behavior_table_count st - 1.
Proof.
  intros Hi Hnow Hne. pose proof (bi_ok _ _ Hi) as Hok. unfold evict_lru_entry.
  assert (∀ e, e ∈ hash_all (behavior_table st) → entries st !! be_pid e = Some e) as Hin.
  { intros e ?. by apply (entries_elem now). }
  pose proof (oldest_entry_spec (hash_all (behavior_table st))) as Ho.
  destruct (oldest_entry _) as [o|].
  2: { exfalso. apply Hne. apply map_eq. intros k. rewrite lookup_empty.
       apply (ht_map_None _ _ _ _ _ Hok). rewrite Ho; [by intros ? ?%elem_of_nil|].
       intros e He%Hin. apply (inv_times now) in He; [lia|done]. }
  destruct Ho as [Hoin Homin].
  { intros e He%Hin. apply (inv_times now) in He; [lia|done]. }
  pose proof (ht_del be_pid bucket _ (behavior_table st) (be_pid o) Hok (bucket_lt _)) as Hd.
  specialize (Hin o Hoin) as Hom. unfold entries in Hom. rewrite Hom in Hd.
  change (keyb be_pid (be_pid o)) with (has_pid (be_pid o)) in Hd.
  destruct (hash_del_first _ _ _) as [t'|]; [|done]. destruct Hd as (Hok'&Hm'&_). simpl.
  assert (size (entries st) = S (size (delete (be_pid o) (entries st)))) as Hsz.
  { rewrite map_size_delete_Some by eauto. 
    assert (size (entries st) ≠ 0%nat); [|lia]. by rewrite map_size_ne_0_lookup; eauto. }
  pose proof (bi_count _ _ Hi). pose proof (bi_cap _ _ Hi). unfold MAX_BEHAVIOR_ENTRIES in *.
  assert (u32 (behavior_table_count st - 1) = behavior_table_count st - 1) as Hcnt
    by (apply wrap_small; lia).
  eexists _, (be_pid o), o. split_and!; [done|done| | |exact Hm'|done].
  - intros pid e He. apply Homin. by apply (entries_elem now) in He as [? _].
  - split; simpl; [done| | |].
    + unfold entries. simpl. rewrite Hm', Hcnt.
      change (ht_map be_pid (behavior_table st)) with (entries st). lia.
    + rewrite Hcnt. unfold MAX_BEHAVIOR_ENTRIES. lia.
    + intros pid e. unfold entries. simpl. rewrite Hm'.
      intros [_ He]%lookup_delete_Some. by eapply bi_entry.
Qed.

Lemma create_entry_spec now st pid :
  behavior_inv now st → 0 ≤ now → entries st !! pid = None →
  behavior_table_count st < MAX_BEHAVIOR_ENTRIES →
  let st' := set_table st (hash_add (behavior_table st) (bucket pid) (fresh_entry pid now))
               (u32 (behavior_table_count st + 1)) in
  behavior_inv now st' ∧ entries st' = <[pid := fresh_entry pid now]> (entries st).
Proof.
  intros Hi ? Hn Hlt st'.
  destruct (ht_add be_pid bucket (2 ^ BEHAVIOR_BITS) (behavior_table st) (fresh_entry pid now))
    as [Hok Hm]; [apply Hi|apply bucket_lt|done|]. simpl in Hm.
  assert (entries st' = <[pid := fresh_entry pid now]> (entries st)) as Hm' by exact Hm.
  split; [|done]. pose proof (bi_count _ _ Hi). unfold MAX_BEHAVIOR_ENTRIES in *.
  assert (u32 (behavior_table_count st + 1) = behavior_table_count st + 1) as Hcnt
    by (apply wrap_small; lia).
  split; [exact Hok| | |].
  - rewrite Hm', map_size_insert_None by done. simpl. lia.
  - simpl. unfold MAX_BEHAVIOR_ENTRIES. lia.
  - rewrite Hm'. intros p e. rewrite lookup_insert. case_decide; intros; simplify_eq.
    + by apply fresh_entry_wf.
    + by eapply bi_entry.
Qed.

(** Below the cap nothing goes; at the cap a least recently touched entry does. *)
Inductive room (m : gmap Z av_behavior_entry) : gmap Z av_behavior_entry → Prop :=
  | room_below : Z.of_nat (size m) < MAX_BEHAVIOR_ENTRIES → room m m
  | room_evict victim v :
      Z.of_nat (size m) = MAX_BEHAVIOR_ENTRIES → m !! victim = Some v →
      (∀ pid e, m !! pid = Some e → be_last_touched v ≤ be_last_touched e) →
      room m (delete victim m).

(** What finding or creating an entry does to the map of entries. *)
Inductive get_or_create_spec (kzalloc_ok : bool) (pid now : Z)
    (m : gmap Z av_behavior_entry) : option av_behavior_entry → gmap Z av_behavior_entry → Prop :=
  | goc_found e :
      m !! pid = Some e →
      get_or_create_spec kzalloc_ok pid now m (Some (touch now e)) (<[pid := touch now e]> m)
  | goc_create m0 :
      m !! pid = None → kzalloc_ok = true → room m m0 →
      get_or_create_spec kzalloc_ok pid now m (Some (fresh_entry pid now))
        (<[pid := fresh_entry pid now]> m0)
  | goc_nomem m0 :
      m !! pid = None → kzalloc_ok = false → room m m0 →
      get_or_create_spec kzalloc_ok pid now m None m0.

Lemma get_or_create_ok kzalloc_ok pid now0 now st :
  behavior_inv now0 st → 0 ≤ now0 ≤ now → now < 2 ^ 63 →
  let '(r, st') := get_or_create_entry kzalloc_ok pid now st in
  behavior_inv now st' ∧
  get_or_create_spec kzalloc_ok pid now (entries st) r (entries st').
Proof.
  intros Hi0 Hn Hnow. assert (behavior_inv now st) as Hi
    by (eapply behavior_inv_mono; [|done]; lia).
  unfold get_or_create_entry.
  pose proof (ht_find be_pid bucket _ (behavior_table st) pid (bi_ok _ _ Hi)) as Hf.
  change (keyb be_pid pid) with (has_pid pid) in Hf. rewrite Hf.
  change (ht_map be_pid (behavior_table st)) with (entries st).
  destruct (entries st !! pid) as [e|] eqn:He.
  { destruct (update_entry_spec now now st pid (touch now) e) as [? Hm];
      [done|lia|done|apply (touch_wf now); [lia|by eapply bi_entry]|done|].
    rewrite Hm. split; [done|by constructor]. }
  pose proof (bi_count _ _ Hi) as Hc. pose proof (bi_cap _ _ Hi) as Hcap.
  destruct (Z.leb_spec MAX_BEHAVIOR_ENTRIES (behavior_table_count st)) as [Hfull|Hlt].
  - set (st1 := {| behavior_table := _; behavior_table_count := _; gc_delay := Some 0 |}).
    assert (behavior_inv now st1) as Hi1 by (destruct Hi; by split).
    assert (entries st1 ≠ ∅) as Hne.
    { change (entries st1) with (entries st). intros Hz. rewrite Hz, map_size_empty in Hc.
      unfold MAX_BEHAVIOR_ENTRIES in *. lia. }
    destruct (evict_lru_spec now st1 Hi1 Hnow Hne) as (st2&victim&v&->&Hv&Hmin&Hi2&Hm2&Hc2).
    change (entries st1) with (entries st) in *.
    assert (room (entries st) (entries st2)) as Hroom
      by (rewrite Hm2; econstructor; [lia|done|done]).
    destruct kzalloc_ok; simpl; [|split; [done|by constructor]].
    destruct (create_entry_spec now st2 pid) as [? Hm]; [done|lia| | |].
    + rewrite Hm2. apply lookup_delete_None. auto.
    + rewrite Hc2. simpl. lia.
    + rewrite Hm. split; [done|by constructor].
  - destruct kzalloc_ok; simpl.
    + destruct (create_entry_spec now st pid) as [? Hm]; [done|lia|done|done|].
      rewrite Hm. split; [done|constructor; [done..|]]. constructor. lia.
    + split; [done|]. constructor; [done..|]. constructor. lia.
Qed.

(** ** Operations on an entry *)

Lemma get_or_create_entries kzalloc_ok pid now m r m' :
  get_or_create_spec kzalloc_ok pid now m r m' →
  (∀ e, r = Some e → m' !! pid = Some e) ∧
  (∀ q x, q ≠ pid → m' !! q = Some x → m !! q = Some x).
Proof.
  assert (∀ m0, room m m0 → ∀ q x, m0 !! q = Some x → m !! q = Some x) as Hroom.
  { intros m0 [?|victim v ???] q x; [done|]. by intros [_ ?]%lookup_delete_Some. }
  intros [e He|m0 Hn Hk Hr|m0 Hn Hk Hr]; (split; [intros e' [= <-]|intros q x Hq Hx]).
  - apply lookup_insert_eq.
  - by rewrite lookup_insert_ne in Hx.
  - apply lookup_insert_eq.
  - rewrite lookup_insert_ne in Hx by done. by eapply Hroom.
  - by eapply Hroom.
Qed.

(** Below the cap the other entries all stay. *)
Lemma get_or_create_others kzalloc_ok pid now m r m' q :
  get_or_create_spec kzalloc_ok pid now m r m' → q ≠ pid →
  Z.of_nat (size m) < MAX_BEHAVIOR_ENTRIES → m' !! q = m !! q.
Proof.
  assert (∀ m0, room m m0 → Z.of_nat (size m) < MAX_BEHAVIOR_ENTRIES → m0 = m) as Hroom
    by (intros m0 [?|????]; [done|lia]).
  intros [e He|m0 Hn Hk Hr|m0 Hn Hk Hr] Hq Hlt;
    rewrite ?lookup_insert_ne by done; try done; by rewrite (Hroom m0).
Qed.

Lemma ring_reset_wf cap r : ring_wf cap r → ring_wf cap (ring_reset r).
Proof. intros [log ?]. exists []. by eapply ring_ok_reset. Qed.

Lemma exec_entry_wf now path trusted start e :
  entry_wf now e → entry_wf now (exec_entry path trusted start e).
Proof.
  intros []. split; simpl; [| | |done].
  - destruct (_ =? _); auto using ring_reset_wf.
  - destruct (_ =? _); auto using ring_reset_wf.
  - apply strscpy_length. unfold PATH_MAX. lia.
Qed.

Lemma note_ring_wf cap h t w r :
  (0 < cap)%nat → ring_wf cap r → ring_wf cap (sliding_window_note h t w cap r).1.
Proof.
  intros ? [log Hr]. destruct (note_ring_ok cap r log h t w) as [?|?];
    [done|done|by exists log|by eexists].
Qed.

Lemma note_path_wf now h t e : entry_wf now e → entry_wf now (note_path h t e).1.
Proof.
  intros []. unfold note_path.
  pose proof (note_ring_wf MAX_TRACKED_PATHS h t WRITE_OPEN_WINDOW_MS (be_paths e)) as Hn.
  destruct (sliding_window_note _ _ _ _ _). split; simpl; try done. apply Hn; [|done].
  unfold MAX_TRACKED_PATHS, WRITE_OPEN_THRESHOLD. lia.
Qed.

Lemma note_rename_wf now h t e : entry_wf now e → entry_wf now (note_rename h t e).1.
Proof.
  intros []. unfold note_rename.
  pose proof (note_ring_wf MAX_TRACKED_RENAMES h t RENAME_WINDOW_MS (be_renames e)) as Hn.
  destruct (sliding_window_note _ _ _ _ _). split; simpl; try done. apply Hn; [|done].
  unfold MAX_TRACKED_RENAMES, RENAME_THRESHOLD. lia.
Qed.

Lemma note_path_pid h t e : be_pid (note_path h t e).1 = be_pid e.
Proof. unfold note_path. by destruct (sliding_window_note _ _ _ _ _). Qed.

Lemma note_rename_pid h t e : be_pid (note_rename h t e).1 = be_pid e.
Proof. unfold note_rename. by destruct (sliding_window_note _ _ _ _ _). Qed.

(** The entry of [pid] found or created, then mutated by [f]. *)
Lemma get_then_update kzalloc_ok pid now0 now st f r st' :
  behavior_inv now0 st → 0 ≤ now0 ≤ now → now < 2 ^ 63 →
  (∀ x, be_pid (f x) = be_pid x) → (∀ x, entry_wf now x → entry_wf now (f x)) →
  get_or_create_entry kzalloc_ok pid now st = (Some r, st') →
  behavior_inv now (update_entry st' pid f) ∧
  entries (update_entry st' pid f) = <[pid := f r]> (entries st') ∧
  get_or_create_spec kzalloc_ok pid now (entries st) (Some r) (entries st').
Proof.
  intros Hi Hn Hnow Hf Hwf Hg. pose proof (get_or_create_ok kzalloc_ok pid now0 now st Hi Hn Hnow) as Hs.
  rewrite Hg in Hs. destruct Hs as [Hi' Hs].
  destruct (get_or_create_entries _ _ _ _ _ _ Hs) as [He _]. specialize (He r eq_refl).
  destruct (update_entry_spec now now st' pid f r) as [? Hm];
    [done|lia|done|by eapply Hwf, bi_entry|done|]. by split_and!.
Qed.

(** ** Histories *)

(** One call into the component, with the time it runs at. *)
Inductive bop :=
  | OpExec (trust : T) (kzalloc_ok : bool) (pid : Z) (path sha256_hex : cstr) (start_time : Z)
  | OpOpenat (prot : P) (kzalloc_ok : bool) (pid : Z) (path : cstr) (flags : Z) (tg : target)
  | OpUnlink (prot : P) (kzalloc_ok : bool) (pid : Z) (path : cstr) (tg : target)
  | OpRename (prot : P) (kzalloc_ok : bool) (pid : Z) (oldpath newpath : cstr) (tg : target)
  | OpGc (alive : Z → option Z).

Definition bstep (op : bop) (now : Z) st : behavior * list effect :=
  match op with
  | OpExec trust k pid path sha start =>
      (av_behavior_record_exec trust k now pid path sha start st, [])
  | OpOpenat prot k pid path flags tg => av_behavior_check_openat prot k now pid path flags tg st
  | OpUnlink prot k pid path tg => av_behavior_check_unlink prot k now pid path tg st
  | OpRename prot k pid old new tg => av_behavior_check_rename prot k now pid old new tg st
  | OpGc alive => (behavior_gc_fn alive (behavior_gc_start st), [])
  end.

Fixpoint bsteps (ops : list (bop * Z)) st : behavior * list (list effect) :=
  match ops with
  | [] => (st, [])
  | (op, now) :: ops' =>
      let '(st, effs) := bstep op now st in
      let '(st, effss) := bsteps ops' st in (st, effs :: effss)
  end.

Fixpoint times_ok (last : Z) (ops : list (bop * Z)) : Prop :=
  match ops with
  | [] => True
  | (_, now) :: ops' => last ≤ now ∧ now < 2 ^ 63 ∧ times_ok now ops'
  end.

Lemma record_exec_step trust k now0 now pid path sha start st :
  behavior_inv now0 st → 0 ≤ now0 ≤ now → now < 2 ^ 63 →
  let st' := av_behavior_record_exec trust k now pid path sha start st in
  behavior_inv now st' ∧
  ∃ r m, get_or_create_spec k pid now (entries st) r m ∧
    entries st' = match r with
                  | Some e => <[pid := exec_entry path (tl_trusts trust sha) start e]> m
                  | None => m
                  end.
Proof.
  intros Hi Hn Hnow. unfold av_behavior_record_exec. cbv zeta.
  pose proof (get_or_create_ok k pid now0 now st Hi Hn Hnow) as Hs.
  destruct (get_or_create_entry k pid now st) as [[r|] st'] eqn:Hg.
  - destruct (get_then_update k pid now0 now st
      (exec_entry path (tl_trusts trust sha) start) r st') as (?&Hm&?);
      [done..|apply exec_entry_wf|done|]. split; [done|]. by eexists (Some r), _.
  - destruct Hs as [? ?]. split; [done|]. by eexists None, _.
Qed.

(** A check touches the table only through the entry of its pid. *)
Definition note_step (k : bool) (pid now : Z) st st' : Prop :=
  entries st' = entries st ∨
  ∃ r m f, get_or_create_spec k pid now (entries st) r m ∧
    (∀ x, be_exec_path (f x) = be_exec_path x ∧ be_trusted (f x) = be_trusted x ∧
          be_start_time (f x) = be_start_time x) ∧
    entries st' = match r with Some e => <[pid := f e]> m | None => m end.

Lemma insert_found (m : gmap Z av_behavior_entry) pid e : m !! pid = Some e → m = <[pid := e]> m.
Proof. intros. by rewrite insert_id. Qed.

Lemma note_step_get k now0 now pid st r st' :
  behavior_inv now0 st → 0 ≤ now0 ≤ now → now < 2 ^ 63 →
  get_or_create_entry k pid now st = (r, st') →
  behavior_inv now st' ∧ note_step k pid now st st' ∧ 
  get_or_create_spec k pid now (entries st) r (entries st').
Proof.
  intros Hi Hn Hnow Hg. pose proof (get_or_create_ok k pid now0 now st Hi Hn Hnow) as Hs.
  rewrite Hg in Hs. destruct Hs as [? Hs]. split_and!; [done| |done].
  right. exists r, (entries st'), id. split_and!; [done|done|].
  destruct r as [e|]; [|done]. apply insert_found.
  by apply (get_or_create_entries _ _ _ _ _ _ Hs).
Qed.

Lemma openat_step prot k now0 now pid path flags tg st :
  behavior_inv now0 st → 0 ≤ now0 ≤ now → now < 2 ^ 63 →
  let st' := (av_behavior_check_openat prot k now pid path flags tg st).1 in
  behavior_inv now st' ∧ note_step k pid now st st'.
Proof.
  intros Hi Hn Hnow. unfold av_behavior_check_openat. cbv zeta.
  assert (behavior_inv now st) by (eapply behavior_inv_mono; [|done]; lia).
  destruct (negb (write_intent flags)); [by split; [|left]|].
  destruct (Pred.path_is_pseudo_fs path); [by split; [|left]|].
  destruct (get_or_create_entry k pid now st) as [[r|] st'] eqn:Hg.
  - destruct (negb (be_trusted r) && negb (Pred.path_is_rapid_write_noise path)); simpl.
    + destruct (get_then_update k pid now0 now st
        (λ e, (note_path (full_name_hash path) now e).1) r st') as (?&Hm&?);
        [done..|intros; apply note_path_pid|intros; by apply note_path_wf|done|].
      split; [done|]. right.
      exists (Some r), (entries st'), (λ e, (note_path (full_name_hash path) now e).1).
      split_and!; [done| |exact Hm].
      intros x. unfold note_path. by destruct (sliding_window_note _ _ _ _ _).
    + by destruct (note_step_get k now0 now pid st _ _ Hi Hn Hnow Hg) as (?&?&_).
  - by destruct (note_step_get k now0 now pid st _ _ Hi Hn Hnow Hg) as (?&?&_).
Qed.

Lemma unlink_step prot k now0 now pid path tg st :
  behavior_inv now0 st → 0 ≤ now0 ≤ now → now < 2 ^ 63 →
  let st' := (av_behavior_check_unlink prot k now pid path tg st).1 in
  behavior_inv now st' ∧ note_step k pid now st st'.
Proof.
  intros Hi Hn Hnow. unfold av_behavior_check_unlink. cbv zeta.
  assert (behavior_inv now st) by (eapply behavior_inv_mono; [|done]; lia).
  destruct (Pred.path_is_pseudo_fs path); [by split; [|left]|].
  destruct (get_or_create_entry k pid now st) as [r st'] eqn:Hg.
  by destruct (note_step_get k now0 now pid st _ _ Hi Hn Hnow Hg) as (?&?&_).
Qed.

Lemma rename_step prot k now0 now pid old new tg st :
  behavior_inv now0 st → 0 ≤ now0 ≤ now → now < 2 ^ 63 →
  let st' := (av_behavior_check_rename prot k now pid old new tg st).1 in
  behavior_inv now st' ∧ note_step k pid now st st'.
Proof.
  intros Hi Hn Hnow. unfold av_behavior_check_rename. cbv zeta.
  assert (behavior_inv now st) by (eapply behavior_inv_mono; [|done]; lia).
  destruct (Pred.is_extension_append_rename old new); [|by split; [|left]].
  destruct (get_or_create_entry k pid now st) as [[r|] st'] eqn:Hg.
  - destruct (_ && _); simpl.
    + destruct (get_then_update k pid now0 now st
        (λ e, (note_rename (full_name_hash old) now e).1) r st') as (?&Hm&?);
        [done..|intros; apply note_rename_pid|intros; by apply note_rename_wf|done|].
      split; [done|]. right.
      exists (Some r), (entries st'), (λ e, (note_rename (full_name_hash old) now e).1).
      split_and!; [done| |exact Hm].
      intros x. unfold note_rename. by destruct (sliding_window_note _ _ _ _ _).
    + by destruct (note_step_get k now0 now pid st _ _ Hi Hn Hnow Hg) as (?&?&_).
  - by destruct (note_step_get k now0 now pid st _ _ Hi Hn Hnow Hg) as (?&?&_).
Qed.

(** ** The sweep *)

Lemma gc_entry_pid alive e e' : gc_entry alive e = Some e' → be_pid e' = be_pid e.
Proof.
  unfold gc_entry. destruct (alive (be_pid e)); [|done].
  destruct (_ && _); by intros [= <-].
Qed.

Lemma gc_entry_wf alive now e e' :
  gc_entry alive e = Some e' → entry_wf now e → entry_wf now e'.
Proof.
  unfold gc_entry. destruct (alive (be_pid e)); [|done].
  destruct (_ && _); intros [= <-] []; [|by split].
  split; simpl; auto using ring_reset_wf. unfold PATH_MAX. lia.
Qed.

Lemma gc_removed_count alive l :
  (length (omap (gc_entry alive) l) +
   length (List.filter (λ e, bool_decide (alive (be_pid e) = None)) l))%nat = length l.
Proof.
  induction l as [|e l IH]; csimpl; [done|]. unfold gc_entry at 1.
  destruct (alive (be_pid e)); simpl; [destruct (_ && _); simpl; lia|lia].
Qed.

Lemma count_length now st :
  behavior_inv now st →
  behavior_table_count st = Z.of_nat (length (hash_all (behavior_table st))).
Proof.
  intros Hi. rewrite (bi_count _ _ Hi). unfold entries.
  by rewrite (ht_map_size _ _ _ _ (bi_ok _ _ Hi)).
Qed.

Lemma gc_count alive now st :
  behavior_inv now st →
  behavior_table_count (behavior_gc_fn alive st) =
  Z.of_nat (length (hash_all (behavior_table (behavior_gc_fn alive st)))) ∧
  behavior_table_count (behavior_gc_fn alive st) ≤ behavior_table_count st.
Proof.
  intros Hi. simpl. unfold gc_removed. rewrite hash_sweep_all.
  pose proof (bi_cap _ _ Hi) as Hcap. rewrite (count_length _ _ Hi) in *.
  pose proof (gc_removed_count alive (hash_all (behavior_table st))).
  unfold MAX_BEHAVIOR_ENTRIES in *. rewrite wrap_small by lia. lia.
Qed.

Lemma gc_step alive now0 now st :
  behavior_inv now0 st → now0 ≤ now →
  behavior_inv now (behavior_gc_fn alive st) ∧
  entries (behavior_gc_fn alive st) = omap (gc_entry alive) (entries st).
Proof.
  intros Hi Hn. pose proof (bi_ok _ _ Hi) as Hok.
  destruct (ht_sweep be_pid bucket (2 ^ BEHAVIOR_BITS) (behavior_table st) (gc_entry alive))
    as [Hok' Hm]; [done|apply gc_entry_pid|].
  assert (entries (behavior_gc_fn alive st) = omap (gc_entry alive) (entries st)) as Hm' by exact Hm.
  split; [|done]. split; [exact Hok'| | |].
  - unfold entries. rewrite (ht_map_size _ _ _ _ Hok'). by eapply gc_count.
  - etrans; [by eapply gc_count|apply Hi].
  - rewrite Hm'. intros pid e. rewrite lookup_omap.
    intros (e0&He0&Hg)%bind_Some. eapply gc_entry_wf; [done|].
    eapply entry_wf_mono; [done|]. by eapply bi_entry.
Qed.

Lemma bstep_inv op now0 now st :
  behavior_inv now0 st → 0 ≤ now0 ≤ now → now < 2 ^ 63 →
  behavior_inv now (bstep op now st).1.
Proof.
  intros Hi Hn Hnow. destruct op; simpl.
  - by eapply record_exec_step.
  - by eapply openat_step.
  - by eapply unlink_step.
  - by eapply rename_step.
  - assert (behavior_inv now0 (behavior_gc_start st)) by (destruct Hi; by split).
    eapply gc_step; [done|lia].
Qed.

Lemma behavior_inv_zero : behavior_inv 0 behavior_zero.
Proof.
  assert (entries behavior_zero = ∅) as Hz by apply ht_init_map.
  split; [apply ht_init_ok|by rewrite Hz|simpl; unfold MAX_BEHAVIOR_ENTRIES; lia|].
  intros pid e. by rewrite Hz, lookup_empty.
Qed.

Lemma bsteps_inv ops now0 st :
  behavior_inv now0 st → 0 ≤ now0 → times_ok now0 ops →
  ∃ now, now0 ≤ now ∧ behavior_inv now (bsteps ops st).1.
Proof.
  revert now0 st. induction ops as [|[op now] ops IH]; simpl; intros now0 st Hi H0' Ht.
  { exists now0. by split. }
  destruct Ht as (?&?&Ht). pose proof (bstep_inv op now0 now st Hi ltac:(lia) ltac:(lia)) as Hi'.
  destruct (bstep op now st) as [st1 effs]. destruct (IH now st1) as (now'&?&?); [done|lia|done|].
  destruct (bsteps ops st1). exists now'. split; [lia|done].
Qed.

(** ** Properties *)

(** C18: whatever calls reach the component after initialisation, in whatever
    order and with whatever allocation failures, trust decisions and liveness
    answers, the table stays a duplicate-free map of at most 8192 entries
    whose count is the counter's value, every entry's rings, path buffer and
    touch time well formed. *)
Theorem behavior_history ops :
  times_ok 0 ops →
  ∃ now, behavior_inv now (bsteps ops behavior_zero).1.
Proof.
  intros Ht. destruct (bsteps_inv ops 0 behavior_zero) as (now&_&?);
    [apply behavior_inv_zero|done|done|by exists now].
Qed.

(** A full table never refuses a new process and never evicts an active
    one: looking up an untracked pid, memory permitting, returns a zeroed
    entry bound to that pid, and every entry that was touched later than some
    other entry is still there, unchanged. *)
Theorem lru_keeps_recent now0 now pid st :
  behavior_inv now0 st → 0 ≤ now0 ≤ now → now < 2 ^ 63 → entries st !! pid = None →
  let '(r, st') := get_or_create_entry true pid now st in
  r = Some (fresh_entry pid now) ∧ entries st' !! pid = r ∧
  behavior_inv now st' ∧
  ∀ p e q x, entries st !! p = Some e → entries st !! q = Some x →
    be_last_touched x < be_last_touched e → entries st' !! p = Some e.
Proof.
  intros Hi Hn Hnow Hnone. pose proof (get_or_create_ok true pid now0 now st Hi Hn Hnow) as Hs.
  destruct (get_or_create_entry true pid now st) as [r st']. destruct Hs as [Hi' Hs].
  inversion Hs as [e He|m0 Hm0 _ Hroom|]; [congruence| |done]. subst r.
  split_and!; [done| |done|].
  - apply lookup_insert_eq.
  - intros p e q x Hp Hq Hlt. rewrite lookup_insert_ne by congruence.
    destruct Hroom as [|victim v Hsz Hv Hmin]; [done|].
    rewrite lookup_delete_ne; [done|]. intros ->.
    specialize (Hmin q x Hq). simplify_eq. lia.
Qed.

(** Recording an exec stores the path and the trust verdict; it forgets
    the pid's windows exactly when the task is another one (a different start
    time), so a process cannot clear its own counters by exec'ing, and no
    other process's entry is changed. *)
Theorem record_exec_window trust k now0 now pid path sha start st :
  behavior_inv now0 st → 0 ≤ now0 ≤ now → now < 2 ^ 63 →
  k = true ∨ is_Some (entries st !! pid) →
  let st' := av_behavior_record_exec trust k now pid path sha start st in
  (∃ e', entries st' !! pid = Some e' ∧
    be_exec_path e' = strscpy path PATH_MAX ∧ be_trusted e' = tl_trusts trust sha ∧
    be_start_time e' = start ∧
    match entries st !! pid with
    | Some e =>
        if decide (be_start_time e = start)
        then be_paths e' = be_paths e ∧ be_renames e' = be_renames e
        else filled (be_paths e') = 0%nat ∧ filled (be_renames e') = 0%nat
    | None => filled (be_paths e') = 0%nat ∧ filled (be_renames e') = 0%nat
    end) ∧
  ∀ q x, q ≠ pid → entries st' !! q = Some x → entries st !! q = Some x.
Proof.
  intros Hi Hn Hnow Hk st'.
  destruct (record_exec_step trust k now0 now pid path sha start st) as (_&r&m&Hs&Hm);
    [done..|]. fold st' in Hm. destruct (get_or_create_entries _ _ _ _ _ _ Hs) as [_ Hoth].
  split.
  2: { intros q x Hq. rewrite Hm. destruct r; [|auto]. rewrite lookup_insert_ne by done. auto. }
  inversion Hs as [e He Hr|m0 Hnone _ _ Hr|m0 Hnone Hk' _ Hr]; subst r.
  - exists (exec_entry path (tl_trusts trust sha) start (touch now e)).
    rewrite Hm, lookup_insert_eq, He. split_and!; [done..|]. simpl.
    destruct (Z.eqb_spec (be_start_time e) start); [by rewrite decide_True|by rewrite decide_False].
  - exists (exec_entry path (tl_trusts trust sha) start (fresh_entry pid now)).
    rewrite Hm, lookup_insert_eq, Hnone. split_and!; [done..| |]; simpl; by destruct start.
  - exfalso. rewrite Hnone in Hk. destruct Hk as [?|[??]]; congruence.
Qed.

Lemma openat_sensitive prot k now pid path flags tg st :
  write_intent flags = true → Pred.path_is_pseudo_fs path = false →
  Pred.path_is_sensitive path = true →
  (av_behavior_check_openat prot k now pid path flags tg st).2 =
  kill_with_reason prot tg path (cs "write-intent open of sensitive path").
Proof.
  intros Hw Hp Hs. unfold av_behavior_check_openat. rewrite Hw, Hp, Hs. cbn [negb].
  destruct (get_or_create_entry k pid now st) as [[e|] st']; [|done].
  by destruct (negb (be_trusted e) && _).
Qed.

(** C16: trust, allocation failures, counters and cache-shaped names never
    silence a sensitive path: a write-intent open or an unlink of one (outside
    the pseudo-filesystems) and a rename from or to one (even with a
    pseudo-filesystem path at the other end) always make a kill request. *)
Theorem sensitive_always prot k now pid path path2 flags tg st :
  Pred.path_is_sensitive path = true →
  (write_intent flags = true → Pred.path_is_pseudo_fs path = false →
   (av_behavior_check_openat prot k now pid path flags tg st).2 =
   kill_with_reason prot tg path (cs "write-intent open of sensitive path")) ∧
  (Pred.path_is_pseudo_fs path = false →
   ∃ reason, (av_behavior_check_unlink prot k now pid path tg st).2 =
             kill_with_reason prot tg path reason) ∧
  (av_behavior_check_rename prot k now pid path path2 tg st).2 =
    kill_with_reason prot tg path2 (cs "rename involving sensitive path") ∧
  (av_behavior_check_rename prot k now pid path2 path tg st).2 =
    kill_with_reason prot tg path (cs "rename involving sensitive path").
Proof.
  intros Hs.
  assert (∀ p q, Pred.path_is_sensitive p || Pred.path_is_sensitive q = true →
    (av_behavior_check_rename prot k now pid p q tg st).2 =
    kill_with_reason prot tg q (cs "rename involving sensitive path")) as Hren.
  { intros p q Hpq. unfold av_behavior_check_rename. cbv zeta. rewrite Hpq.
    destruct (Pred.is_extension_append_rename p q); [|done].
    destruct (get_or_create_entry k pid now st) as [[e|] st']; [|done].
    by destruct (negb (be_trusted e) && _ && _ && _ && _). }
  split_and!; [..|apply Hren; by rewrite Hs|apply Hren; by rewrite Hs, orb_true_r].
  - intros Hw Hp. by apply openat_sensitive.
  - intros Hp. unfold av_behavior_check_unlink. rewrite Hp, Hs.
    destruct (get_or_create_entry k pid now st) as [e st']. cbn [snd]. branch; by eexists.
Qed.

(** An unlink makes a kill request exactly when the path is the absolute
    path recorded at the pid's last exec or is sensitive (and not under a
    pseudo-filesystem); a path left relative by a failed resolution never
    counts as the process's own binary. *)
Theorem unlink_verdict prot k now0 now pid path tg st :
  behavior_inv now0 st → 0 ≤ now0 ≤ now → now < 2 ^ 63 →
  let own := ∃ e, entries st !! pid = Some e ∧ is_absolute path = true ∧
               be_exec_path e = path in
  (Pred.path_is_pseudo_fs path = false → own →
   (av_behavior_check_unlink prot k now pid path tg st).2 =
   kill_with_reason prot tg path (cs "self-deleting binary (possible dropper/backdoor)")) ∧
  (Pred.path_is_pseudo_fs path = true ∨ (¬ own ∧ Pred.path_is_sensitive path = false) →
   (av_behavior_check_unlink prot k now pid path tg st).2 = []).
Proof.
  intros Hi Hn Hnow own. unfold av_behavior_check_unlink.
  pose proof (get_or_create_ok k pid now0 now st Hi Hn Hnow) as Hs.
  destruct (get_or_create_entry k pid now st) as [r st'] eqn:Hg. destruct Hs as [_ Hs].
  split.
  - intros -> (e&He&Ha&<-). cbn [snd].
    inversion Hs as [e' He'| |]; [|congruence..]. simplify_eq.
    change (be_exec_path (touch now e)) with (be_exec_path e). rewrite Ha.
    by rewrite (proj2 (strcmp_eq_spec _ _)).
  - intros [->|[Hown Hsens]]; [done|]. destruct (Pred.path_is_pseudo_fs path); [done|].
    rewrite Hsens. cbn [snd].
    destruct r as [e|]; [|done].
    destruct (is_absolute (be_exec_path e) && is_absolute path && strcmp_eq (be_exec_path e) path)
      eqn:Hself; [|done].
    apply andb_true_iff in Hself as [[_ Ha]%andb_true_iff Heq%strcmp_eq_spec].
    exfalso. apply Hown.
    inversion Hs as [e' He'| |]; simplify_eq. by exists e'.
Qed.

(** A sweep drops the entries of pids that are gone, cleans those whose
    pid now belongs to another task (window, path and trust forgotten), and
    leaves every other entry, a never-exec'd one included, as it was. *)
Theorem gc_sweep alive now0 now st :
  behavior_inv now0 st → now0 ≤ now →
  behavior_inv now (behavior_gc_fn alive st) ∧
  ∀ pid, entries (behavior_gc_fn alive st) !! pid =
    match entries st !! pid, alive pid with
    | Some e, Some cur =>
        if decide (be_start_time e = 0 ∨ be_start_time e = cur) then Some e
        else Some {| be_pid := pid; be_exec_path := [];
                     be_paths := ring_reset (be_paths e);
                     be_renames := ring_reset (be_renames e); be_trusted := false;
                     be_start_time := cur; be_last_touched := be_last_touched e |}
    | _, _ => None
    end.
Proof.
  intros Hi Hn. destruct (gc_step alive now0 now st Hi Hn) as [? Hm].
  split; [done|]. intros pid. rewrite Hm, lookup_omap.
  destruct (entries st !! pid) as [e|] eqn:He; simpl; [|done].
  unfold gc_entry. rewrite (entries_pid _ _ _ _ Hi He).
  destruct (alive pid) as [cur|]; [|done].
  destruct (decide _) as [Hd|Hd].
  - by destruct Hd as [-> | ->]; rewrite ?Z.eqb_refl, ?andb_false_r.
  - by rewrite !(proj2 (Z.eqb_neq _ _)) by tauto.
Qed.

(** ** Bursts *)

(** An operation that concerns another process, or a sweep that finds [pid]
    alive and not recycled. *)
Definition bystander (pid start : Z) (op : bop) : Prop :=
  match op with
  | OpExec _ _ q _ _ _ | OpOpenat _ _ q _ _ _ | OpUnlink _ _ q _ _
  | OpRename _ _ q _ _ _ => q ≠ pid
  | OpGc alive => alive pid = Some start
  end.

(** A counted open by [pid]: write intent, on user data. *)
Definition counted_open (pid : Z) (op : bop) : option cstr :=
  match op with
  | OpOpenat _ _ q path flags _ =>
      if bool_decide (q = pid) && write_intent flags && negb (Pred.path_is_pseudo_fs path)
         && negb (Pred.path_is_rapid_write_noise path)
      then Some path else None
  | _ => None
  end.

(** The hashes and times of the counted opens of [pid]. *)
Definition opens (pid : Z) (ops : list (bop * Z)) : list (Z * Z) :=
  omap (λ '(op, now), (λ path, (full_name_hash path, now)) <$> counted_open pid op) ops.

(** Some counted open of [pid] in the history made a kill request. *)
Definition burst_caught (pid : Z) (ops : list (bop * Z)) (effss : list (list effect)) : Prop :=
  ∃ i prot k path flags tg now reason,
    ops !! i = Some (OpOpenat prot k pid path flags tg, now) ∧
    effss !! i = Some (kill_with_reason prot tg path reason).

Lemma room_size m m0 : room m m0 → (size m0 ≤ size m)%nat.
Proof.
  intros [?|victim v ? Hv _]; [done|]. rewrite map_size_delete_Some by eauto. lia.
Qed.

Lemma get_or_create_size k pid now m r m' :
  get_or_create_spec k pid now m r m' → (size m' ≤ S (size m))%nat.
Proof.
  intros [e He|m0 ?? Hr|m0 ?? Hr]; [..|pose proof (room_size _ _ Hr); lia].
  - rewrite map_size_insert_Some by eauto. lia.
  - pose proof (room_size _ _ Hr). rewrite map_size_insert. destruct (m0 !! pid); simpl; lia.
Qed.

(** A step by another process below the cap. *)
Lemma note_step_bystander k pid now st st' p e :
  note_step k pid now st st' → pid ≠ p → Z.of_nat (size (entries st)) < MAX_BEHAVIOR_ENTRIES →
  entries st !! p = Some e →
  entries st' !! p = Some e ∧ (size (entries st') ≤ S (size (entries st)))%nat.
Proof.
  intros [Heq|(r&m&f&Hs&_&Heq)] Hne Hlt He; rewrite Heq; [split; [done|lia]|].
  pose proof (get_or_create_size _ _ _ _ _ _ Hs) as Hsz.
  pose proof (get_or_create_others _ _ _ _ _ _ p Hs ltac:(done) Hlt) as Ho.
  destruct r as [x|]; [|by rewrite Ho].
  rewrite lookup_insert_ne, Ho by done. split; [done|].
  rewrite map_size_insert_Some; [done|].
  eexists. by apply (get_or_create_entries _ _ _ _ _ _ Hs).
Qed.

(** One counted open of a tracked, untrusted process. *)
Lemma openat_counted prot k now0 now pid path flags tg st e :
  behavior_inv now0 st → 0 ≤ now0 ≤ now → now < 2 ^ 63 →
  entries st !! pid = Some e → be_trusted e = false →
  write_intent flags = true → Pred.path_is_pseudo_fs path = false →
  Pred.path_is_rapid_write_noise path = false →
  let '(st', effs) := av_behavior_check_openat prot k now pid path flags tg st in
  let '(r, n) := sliding_window_note (full_name_hash path) now WRITE_OPEN_WINDOW_MS
                   MAX_TRACKED_PATHS (be_paths e) in
  (∃ e', entries st' !! pid = Some e' ∧ be_paths e' = r ∧ be_trusted e' = false ∧
     be_start_time e' = be_start_time e) ∧
  size (entries st') = size (entries st) ∧
  ((WRITE_OPEN_THRESHOLD < n)%nat → ∃ reason, effs = kill_with_reason prot tg path reason).
Proof.
  intros Hi Hn Hnow He Htr Hw Hp Hno. unfold av_behavior_check_openat.
  rewrite Hw, Hp. cbn [negb].
  pose proof (get_or_create_ok k pid now0 now st Hi Hn Hnow) as Hs.
  destruct (get_or_create_entry k pid now st) as [r' st1] eqn:Hg. destruct Hs as [_ Hs].
  inversion Hs as [x Hx Hr Hm| |]; [|congruence..]. simplify_eq.
  replace (be_trusted (touch now e)) with false by done. rewrite Hno. cbn [negb andb].
  destruct (get_then_update k pid now0 now st
    (λ e, (note_path (full_name_hash path) now e).1) (touch now e) st1) as (_&Hm'&_);
    [done..|intros; apply note_path_pid|intros; by apply note_path_wf|done|].
  unfold note_path in *. cbn [be_paths touch] in *.
  change (be_paths (touch now e)) with (be_paths e) in *.
  destruct (sliding_window_note _ _ _ _ (be_paths e)) as [r n]. cbn [fst snd] in *.
  rewrite Hm', <- Hm, insert_insert_eq, lookup_insert_eq.
  split_and!; [by eexists|by rewrite map_size_insert_Some by eauto|].
  intros Hlt. rewrite (proj2 (Nat.ltb_lt _ _)) by done.
  destruct (Pred.path_is_sensitive path); by eexists.
Qed.

(** An open that does not count leaves the windows alone. *)
Lemma openat_uncounted prot k now0 now pid path flags tg st e :
  behavior_inv now0 st → 0 ≤ now0 ≤ now → now < 2 ^ 63 →
  entries st !! pid = Some e →
  counted_open pid (OpOpenat prot k pid path flags tg) = None →
  let st' := (av_behavior_check_openat prot k now pid path flags tg st).1 in
  (∃ e', entries st' !! pid = Some e' ∧ be_paths e' = be_paths e ∧
     be_trusted e' = be_trusted e ∧ be_start_time e' = be_start_time e) ∧
  size (entries st') = size (entries st).
Proof.
  intros Hi Hn Hnow He Hc. unfold av_behavior_check_openat, counted_open in *.
  rewrite bool_decide_true in Hc by done.
  destruct (write_intent flags); cbn [negb andb] in *; [|split; [by exists e|done]].
  destruct (Pred.path_is_pseudo_fs path); cbn [negb andb] in *; [split; [by exists e|done]|].
  destruct (Pred.path_is_rapid_write_noise path); [|done]. cbn [negb].
  pose proof (get_or_create_ok k pid now0 now st Hi Hn Hnow) as Hs.
  destruct (get_or_create_entry k pid now st) as [r' st1]. destruct Hs as [_ Hs].
  inversion Hs as [x Hx Hr Hm| |]; [|congruence..]. simplify_eq.
  rewrite andb_false_r. cbn [fst]. rewrite <- Hm, lookup_insert_eq.
  split; [by exists (touch now e)|by rewrite map_size_insert_Some by eauto].
Qed.

(** What a bystander leaves of the entry. *)
Lemma bystander_step op now0 now pid st e :
  behavior_inv now0 st → 0 ≤ now0 ≤ now → now < 2 ^ 63 →
  entries st !! pid = Some e → Z.of_nat (size (entries st)) < MAX_BEHAVIOR_ENTRIES →
  bystander pid (be_start_time e) op →
  entries (bstep op now st).1 !! pid = Some e ∧
  (size (entries (bstep op now st).1) ≤ S (size (entries st)))%nat.
Proof.
  intros Hi Hn Hnow He Hlt Hby. destruct op as [tr k q path sha start|prot k q path flags tg
    |prot k q path tg|prot k q old new tg|alive]; simpl in *.
  - destruct (record_exec_step tr k now0 now q path sha start st) as (_&r&m&Hs&Hm); [done..|].
    pose proof (get_or_create_size _ _ _ _ _ _ Hs) as Hsz.
    pose proof (get_or_create_others _ _ _ _ _ _ pid Hs ltac:(done) Hlt) as Ho.
    rewrite Hm. destruct r as [x|]; [|by rewrite Ho].
    rewrite lookup_insert_ne, Ho by done. split; [done|].
    rewrite map_size_insert_Some; [done|].
    eexists. by apply (get_or_create_entries _ _ _ _ _ _ Hs).
  - eapply note_step_bystander; [by eapply openat_step|done..].
  - eapply note_step_bystander; [by eapply unlink_step|done..].
  - eapply note_step_bystander; [by eapply rename_step|done..].
  - assert (behavior_inv now0 (behavior_gc_start st)) as Hi' by (destruct Hi; by split).
    destruct (gc_step alive now0 now _ Hi' ltac:(lia)) as [Hgi Hm].
    change (entries (behavior_gc_start st)) with (entries st) in Hm. rewrite Hm. split.
    + rewrite lookup_omap, He. simpl. unfold gc_entry.
      rewrite (entries_pid _ _ _ _ Hi He), Hby, Z.eqb_refl. by rewrite andb_false_r.
    + pose proof (bi_count _ _ Hgi). pose proof (bi_count _ _ Hi').
      pose proof (gc_count alive _ _ Hi') as [_ ?]. rewrite Hm in *.
      change (entries (behavior_gc_start st)) with (entries st) in *. lia.
Qed.

Lemma burst_caught_cons pid op now ops effs effss :
  burst_caught pid ops effss → burst_caught pid ((op, now) :: ops) (effs :: effss).
Proof. intros (i&?&?&?&?&?&?&?&?&?). by eexists (S i), _, _, _, _, _, _, _. Qed.

Lemma burst_run pid ops now0 st e :
  behavior_inv now0 st → 0 ≤ now0 → times_ok now0 ops →
  entries st !! pid = Some e → be_trusted e = false →
  Z.of_nat (size (entries st) + length ops) < MAX_BEHAVIOR_ENTRIES →
  Forall (λ '(op, _), bystander pid (be_start_time e) op ∨
            ∃ prot k path flags tg, op = OpOpenat prot k pid path flags tg) ops →
  Exists (λ n, (WRITE_OPEN_THRESHOLD < n)%nat)
    (run (λ h t, sliding_window_note h t WRITE_OPEN_WINDOW_MS MAX_TRACKED_PATHS)
       (opens pid ops) (be_paths e)) →
  burst_caught pid ops (bsteps ops st).2.
Proof.
  revert now0 st e. induction ops as [|[op now] ops IH];
    intros now0 st e Hi H0' Ht He Htr Hsz Hops Hrun.
  { by apply Exists_nil in Hrun. }
  destruct Ht as (Hle&Hnow&Ht). apply Forall_cons in Hops as [Hop Hops]. simpl in Hsz.
  pose proof (bstep_inv op now0 now st Hi ltac:(lia) Hnow) as Hi'.
  assert (∀ e', entries (bstep op now st).1 !! pid = Some e' → be_trusted e' = false →
    be_start_time e' = be_start_time e →
    (size (entries (bstep op now st).1) ≤ S (size (entries st)))%nat →
    Exists (λ n, (WRITE_OPEN_THRESHOLD < n)%nat)
      (run (λ h t, sliding_window_note h t WRITE_OPEN_WINDOW_MS MAX_TRACKED_PATHS)
         (opens pid ops) (be_paths e')) →
    burst_caught pid ((op, now) :: ops) (bsteps ((op, now) :: ops) st).2) as Hstep.
  { intros e' He' Htr' Hst' Hsz' Hx. simpl. destruct (bstep op now st) as [st1 effs].
    specialize (IH now st1 e' Hi' ltac:(lia) Ht He' Htr').
    destruct (bsteps ops st1) as [st2 effss]. apply burst_caught_cons, IH; simpl in *;
      [lia|by rewrite Hst'|done]. }
  destruct (counted_open pid op) as [path|] eqn:Hc.
  - assert (opens pid ((op, now) :: ops) = (full_name_hash path, now) :: opens pid ops) as Hopens
      by (unfold opens; csimpl; by rewrite Hc).
    rewrite Hopens in Hrun. simpl in Hrun.
    destruct op as [| prot k q path' flags tg| | |]; try done. simpl in Hc.
    destruct (bool_decide (q = pid)) eqn:Hq; [|done]. apply bool_decide_eq_true in Hq as ->.
    destruct (write_intent flags) eqn:Hw; [|done].
    destruct (Pred.path_is_pseudo_fs path') eqn:Hp; [done|].
    destruct (Pred.path_is_rapid_write_noise path') eqn:Hnz; [done|]. simplify_eq/=.
    pose proof (openat_counted prot k now0 now pid path flags tg st e) as Ho.
    do 8 (specialize (Ho ltac:(done || lia))). 
    destruct (av_behavior_check_openat prot k now pid path flags tg st) as [st1 effs] eqn:Hs.
    destruct (sliding_window_note _ _ _ _ (be_paths e)) as [r n] eqn:Hnote.
    destruct Ho as ((e'&He'&<-&Htr'&Hst')&Hsz'&Hkill).
    cbn [fst] in Hstep.
    apply Exists_cons in Hrun as [Hn|Hrun]; [|by eapply Hstep; [..|rewrite Hsz'; lia|]].
    destruct (Hkill Hn) as [reason ->]. destruct (bsteps ops st1) as [st2 effss].
    by exists 0%nat, prot, k, path, flags, tg, now, reason.
  - assert (opens pid ((op, now) :: ops) = opens pid ops) as Hopens
      by (unfold opens; csimpl; by rewrite Hc).
    rewrite Hopens in Hrun. destruct Hop as [Hby|(prot&k&path&flags&tg&->)].
    + destruct (bystander_step op now0 now pid st e) as [He' Hsz']; [done|lia|done|done|lia|done|].
      by eapply Hstep.
    + destruct (openat_uncounted prot k now0 now pid path flags tg st e) as
        [(e'&He'&Hr'&Htr'&Hst') Hsz']; [done|lia|done..|].
      eapply Hstep; [done|congruence|done| |by rewrite Hr'].
      simpl. simpl in Hsz'. lia.
Qed.

(** C17: mass modification is caught under interference.  Let an untrusted
    process have an entry in the table with an empty window, and let it from
    then on only open files: once it has opened more than 50 distinct files
    (by hash) for writing, on user data, within one window's span, at least
    one of those opens has made a kill request, with any number of repeated,
    ignored or read-only opens in between, with any interleaved activity of
    other processes, and with any sweeps that find the process alive under
    the start time it was recorded with, as long as the table does not fill
    up.  A window that is not empty at the start is another matter: a repeated
    touch does not refresh its file's slot, so 50 distinct files within one
    window's span need not be counted then, see
    [WindowExamples.retouch_not_counted]. *)
Theorem burst_detected pid ops now0 st e t0 tend :
  behavior_inv now0 st → 0 ≤ now0 → times_ok now0 ops →
  entries st !! pid = Some e → be_trusted e = false →
  filled (be_paths e) = 0%nat → next (be_paths e) = 0%nat →
  Z.of_nat (size (entries st) + length ops) < MAX_BEHAVIOR_ENTRIES →
  Forall (λ '(op, _), bystander pid (be_start_time e) op ∨
            ∃ prot k path flags tg, op = OpOpenat prot k pid path flags tg) ops →
  0 ≤ t0 → ordered t0 t0 (opens pid ops) → Forall (λ o, o.2 ≤ tend) (opens pid ops) →
  tend < t0 + clock_horizon → tend < 2 ^ 64 →
  in_window_at tend WRITE_OPEN_WINDOW_MS t0 = true →
  (WRITE_OPEN_THRESHOLD < length (remove_dups (opens pid ops).*1))%nat →
  burst_caught pid ops (bsteps ops st).2.
Proof.
  intros Hi H0' Ht He Htr Hf Hnx Hsz Hops Hpos Hord Hend Hh1 Hh2 Hwin Hmany.
  eapply burst_run; [done..|].
  eapply (sliding_window_detects MAX_TRACKED_PATHS); [..|done|done|done|done|done|done|].
  - unfold MAX_TRACKED_PATHS, WRITE_OPEN_THRESHOLD. lia.
  - destruct (ew_paths _ _ (bi_entry _ _ Hi pid e He)) as [log Hr].
    destruct Hr as [Hr1 Hr2 Hr3 Hr4 _]. split; [done|done|by rewrite Hf|done|].
    rewrite decide_True by (simpl; unfold MAX_TRACKED_PATHS, WRITE_OPEN_THRESHOLD; lia).
    by rewrite Hnx.
  - exact Hmany.
Qed.

End behavior.

(** ** Examples *)

Module BehaviorExamples.
Import ToyHash ToyClock.

#[local] Existing Instances Trust.trust_list Protect.protect_list.

Definition trust0 := Trust.trust_table_init.
Definition prot0 := Protect.protected_table_init.
Definition payload : cstr := cs "/home/u/payload".
Definition sha : cstr := replicate 64 (chr 48).
Definition tg77 : target :=
  {| tg_pid_nr := 77; tg_exe := Exe (Some payload); tg_path_buf_ok := true;
     tg_log_buf_ok := true; tg_task := true |}.

Definition op := @bop (list (list Trust.av_trust_entry)) (list (list Protect.av_protected_entry)).

(** The state after process 77 has exec'd its binary. *)
Definition st77 : behavior :=
  av_behavior_record_exec trust0 true 100 77 payload sha 5 behavior_zero.
Definition e77 : av_behavior_entry :=
  exec_entry payload false 5 (fresh_entry 77 100).

Lemma st77_inv : behavior_inv 100 st77.
Proof.
  apply (record_exec_step trust0 true 0 100 77 payload sha 5 behavior_zero);
    [apply behavior_inv_zero|lia|lia].
Qed.

Lemma st77_entry : entries st77 !! 77 = Some e77.
Proof. by vm_compute. Qed.

Lemma behavior_history_witness :
  ∃ now, behavior_inv now
    (bsteps [(OpExec trust0 true 77 payload sha 5 : op, 100);
             (OpUnlink prot0 true 77 payload tg77, 101);
             (OpGc (λ _, None), 102)] behavior_zero).1.
Proof. apply behavior_history. simpl. lia. Defined.

Lemma lru_keeps_recent_witness :
  (get_or_create_entry true 78 101 st77).1 = Some (fresh_entry 78 101).
Proof.
  pose proof (lru_keeps_recent 100 101 78 st77 st77_inv ltac:(lia) ltac:(lia)
    ltac:(by vm_compute)) as Hs.
  destruct (get_or_create_entry true 78 101 st77) as [r st']. exact (proj1 Hs).
Defined.

(** A second exec of the same task keeps its window. *)
Lemma record_exec_window_witness :
  ∃ e', entries (av_behavior_record_exec trust0 false 101 77 (cs "/bin/true") sha 5 st77) !! 77
          = Some e' ∧ be_paths e' = be_paths e77.
Proof.
  destruct (record_exec_window trust0 false 100 101 77 (cs "/bin/true") sha 5 st77 st77_inv
    ltac:(lia) ltac:(lia) ltac:(right; rewrite st77_entry; by eexists)) as [(e'&He&_&_&_&Hm) _].
  exists e'. rewrite st77_entry in Hm. split; [exact He|exact (proj1 Hm)].
Defined.

Lemma sensitive_always_witness :
  (av_behavior_check_openat prot0 true 101 77 (cs "/etc/shadow") 1 tg77 st77).2 =
  kill_with_reason prot0 tg77 (cs "/etc/shadow") (cs "write-intent open of sensitive path").
Proof.
  apply (proj1 (sensitive_always prot0 true 101 77 (cs "/etc/shadow") [] 1 tg77 st77
    ltac:(by vm_compute))); by vm_compute.
Defined.

Lemma unlink_verdict_witness :
  (av_behavior_check_unlink prot0 true 101 77 payload tg77 st77).2 =
  kill_with_reason prot0 tg77 payload (cs "self-deleting binary (possible dropper/backdoor)").
Proof.
  apply (proj1 (unlink_verdict prot0 true 100 101 77 payload tg77 st77 st77_inv
    ltac:(lia) ltac:(lia))); [by vm_compute|].
  exists e77. split; [exact st77_entry|by vm_compute].
Defined.

Lemma gc_sweep_witness :
  entries (behavior_gc_fn (λ _, None) st77) !! 77 = None.
Proof.
  rewrite (proj2 (gc_sweep (λ _, None) 100 101 st77 st77_inv ltac:(lia)) 77).
  by rewrite st77_entry.
Defined.

(** Process 77 writes 51 files, one per tick. *)
Definition spree : list (op * Z) :=
  (λ i : nat, (OpOpenat prot0 true 77 (cs "/home/u/doc" ++ [chr (48 + Z.of_nat i)]) 1 tg77,
               101 + Z.of_nat i)) <$> seq 0 51.

Lemma burst_detected_witness : burst_caught 77 spree (bsteps spree st77).2.
Proof.
  apply (burst_detected 77 spree 100 st77 e77 101 151 st77_inv ltac:(lia)
    ltac:(repeat split; lia) st77_entry eq_refl eq_refl eq_refl).
  - apply Z.ltb_lt. by vm_compute.
  - unfold spree. apply Forall_fmap, Forall_forall. intros i _. right. by eexists _, _, _, _, _.
  - lia.
  - assert (opens 77 spree = (λ i : nat,
      (full_name_hash (cs "/home/u/doc" ++ [chr (48 + Z.of_nat i)]), 101 + Z.of_nat i))
      <$> seq 0 51) as -> by by vm_compute.
    simpl. unfold clock_horizon. simpl. repeat split; lia.
  - assert (Forall (λ i, 101 + Z.of_nat i ≤ 151) (seq 0 51)) as Hseq
      by (apply Forall_forall; intros i [_ ?]%elem_of_seq; lia).
    vm_compute. repeat constructor; discriminate.
  - unfold clock_horizon. simpl. lia.
  - lia.
  - by vm_compute.
  - apply Nat.ltb_lt. by vm_compute.
Defined.

(** The real /etc/shadow under its /proc name is not seen: the pseudo-filesystem
    test looks at the lexical prefix and /proc/self/root is a link to /. *)
Example proc_root_bypass :
  av_behavior_check_openat prot0 true 101 77 (cs "/proc/self/root/etc/shadow") 1 tg77 st77 =
  (st77, []).
Proof. by vm_compute. Qed.

End BehaviorExamples.
