(* ===== verification/Netlink.v ===== *)
(** * The channel to the daemon: av/netlink_chan.c, av/netlink_proto.h

    Registration of the daemon, scan requests that wait for a verdict, and the
    verdict handler, which run concurrently.  Every critical section of the
    source is one atomic [Definition]; [step] interleaves the threads that run
    them: waiters inside [av_netlink_scan_request], handlers inside
    [av_nl_verdict_doit], registrations, socket releases and the three parts
    of [av_netlink_exit].  The requests
    live in an explicit heap, so that a freed request is visible as such. *)

From Stdlib Require Import ZArith Lia Ascii String.
From stdpp Require Import prelude list gmap strings.
From S2P Require Import Prelude CString.

Local Open Scope Z_scope.

Definition AV_VERDICT_CLEAN : Z := 0.
Definition AV_VERDICT_MALICIOUS : Z := 1.
Definition AV_PATH_ATTR_MAXLEN : Z := 4096.
Definition AV_SHA256_ATTR_MAXLEN : Z := 64.
Definition AV_RULE_NAME_MAXLEN : nat := 63.

Inductive av_genl_command := AV_C_UNSPEC | AV_C_REGISTER | AV_C_SCAN_REQUEST | AV_C_VERDICT.

(** ** Shared state *)

(** [struct av_pending_scan]; the list link is the object's place in
    [pending_list], or is invalid after [list_del]. *)
Record av_pending_scan := {
  ps_reqid : Z;
  ps_poisoned : bool;    (* list.next is LIST_POISON1 *)
  ps_done : bool;        (* the completion *)
  ps_verdict : Z;
  ps_rule_name : cstr;
}.

(** A delivered AV_C_SCAN_REQUEST. *)
Record scan_request := {
  rq_portid : Z; rq_reqid : Z; rq_pid : Z; rq_path : cstr; rq_sha256 : cstr;
}.

(** How far the module's unloading is. *)
Inductive stage := Loaded | NoFamily | NoNotifier | Exited.

#[export] Instance stage_eq_dec : EqDecision stage.
Proof. solve_decision. Defined.

Record chan := {
  unload : stage;
  daemon_portid : Z;
  daemon_registered : bool;
  pending_list : list nat;            (* addresses, head first *)
  reqid_counter : Z;
  heap : gmap nat av_pending_scan;    (* the allocated requests *)
  sent : list scan_request;           (* delivered so far *)
  accepted : list (Z * Z * cstr);     (* verdicts taken: reqid, verdict, rule *)
}.

Definition set_daemon (portid : Z) (registered : bool) (c : chan) : chan :=
  {| unload := unload c; daemon_portid := portid; daemon_registered := registered;
     pending_list := pending_list c; reqid_counter := reqid_counter c; heap := heap c;
     sent := sent c; accepted := accepted c |}.

Definition set_pending (l : list nat) (h : gmap nat av_pending_scan) (c : chan) : chan :=
  {| unload := unload c; daemon_portid := daemon_portid c; daemon_registered := daemon_registered c;
     pending_list := l; reqid_counter := reqid_counter c; heap := h;
     sent := sent c; accepted := accepted c |}.

Definition set_unload (u : stage) (c : chan) : chan :=
  {| unload := u; daemon_portid := daemon_portid c; daemon_registered := daemon_registered c;
     pending_list := pending_list c; reqid_counter := reqid_counter c; heap := heap c;
     sent := sent c; accepted := accepted c |}.

(** ** Registration *)

Definition NETLINK_URELEASE : Z := 1.
Definition NETLINK_GENERIC : Z := 16.

Definition av_netlink_notify (event protocol portid : Z) (c : chan) : chan :=
  if negb (event =? NETLINK_URELEASE) || negb (protocol =? NETLINK_GENERIC) then c
  else if daemon_registered c && (portid =? daemon_portid c)
  then set_daemon (daemon_portid c) false c
  else c.

Definition av_nl_register_doit (snd_portid : Z) (c : chan) : chan :=
  set_daemon snd_portid true c.

(** ** The verdict handler *)

(** An AV_C_VERDICT message: its sender and its attributes, as the policy
    admits them. *)
Record verdict_msg := {
  vm_portid : Z;
  vm_reqid : option Z;
  vm_verdict : option Z;
  vm_rule_name : option cstr;
}.

(** Up to the lookup: an error, or the verdict to deliver. *)
Definition verdict_check (m : verdict_msg) (c : chan) : Z + (Z * Z * cstr) :=
  match vm_reqid m, vm_verdict m with
  | Some reqid, Some verdict =>
      if negb (daemon_registered c) || negb (vm_portid m =? daemon_portid c)
      then inl (- EPERM)
      else if negb (verdict =? AV_VERDICT_CLEAN) && negb (verdict =? AV_VERDICT_MALICIOUS)
      then inl (- EINVAL)
      else inr (reqid, verdict,
                match vm_rule_name m with
                | Some r => strscpy r (AV_RULE_NAME_MAXLEN + 1)
                | None => []
                end)
  | _, _ => inl (- EINVAL)
  end.

Definition has_reqid (h : gmap nat av_pending_scan) (reqid : Z) (p : nat) : bool :=
  match h !! p with Some s => ps_reqid s =? reqid | None => false end.

(** The search under [pending_lock]: the request found is unlinked. *)
Definition verdict_lookup (reqid : Z) (c : chan) : option nat * chan :=
  match find_first (has_reqid (heap c) reqid) (pending_list c) with
  | None => (None, c)
  | Some p =>
      (Some p, set_pending (default (pending_list c)
                 (del_first (λ q, bool_decide (q = p)) (pending_list c))) (heap c) c)
  end.

(** [found->verdict = ...; strscpy(found->rule_name, ...)]. *)
Definition verdict_write (p : nat) (verdict : Z) (rule_name : cstr) (c : chan) : chan :=
  set_pending (pending_list c)
    (alter (λ s, {| ps_reqid := ps_reqid s; ps_poisoned := ps_poisoned s; ps_done := ps_done s;
                    ps_verdict := verdict; ps_rule_name := strscpy rule_name (AV_RULE_NAME_MAXLEN + 1) |}) p (heap c)) c.

(** [complete(&p->done)]. *)
Definition complete (p : nat) (c : chan) : chan :=
  set_pending (pending_list c)
    (alter (λ s, {| ps_reqid := ps_reqid s; ps_poisoned := ps_poisoned s; ps_done := true;
                    ps_verdict := ps_verdict s; ps_rule_name := ps_rule_name s |}) p (heap c)) c.

(** ** The scan request *)

Definition scan_alloc (p : nat) (c : chan) : chan :=
  let reqid := u64 (reqid_counter c + 1) in
  {| unload := unload c; daemon_portid := daemon_portid c; daemon_registered := daemon_registered c;
     pending_list := pending_list c; reqid_counter := reqid;
     heap := <[p := {| ps_reqid := reqid; ps_poisoned := false; ps_done := false; ps_verdict := -1;
                       ps_rule_name := [] |}]> (heap c);
     sent := sent c; accepted := accepted c |}.

Definition scan_link (p : nat) (c : chan) : chan :=
  set_pending (p :: pending_list c) (heap c) c.

Definition list_del_init (p : nat) (c : chan) : chan :=
  set_pending (List.filter (λ q, negb (bool_decide (q = p))) (pending_list c)) (heap c) c.

(** The link is left invalid. *)
Definition list_del (p : nat) (c : chan) : chan :=
  set_pending (pending_list (list_del_init p c))
    (alter (λ s, {| ps_reqid := ps_reqid s; ps_poisoned := true; ps_done := ps_done s;
                    ps_verdict := ps_verdict s; ps_rule_name := ps_rule_name s |}) p (heap c)) c.

Definition poisoned (c : chan) (p : nat) : bool :=
  match heap c !! p with Some s => ps_poisoned s | None => false end.

Definition kfree (p : nat) (c : chan) : chan :=
  set_pending (pending_list c) (delete p (heap c)) c.

(** The unicast that succeeds. *)
Definition scan_deliver (r : scan_request) (c : chan) : chan :=
  {| unload := unload c; daemon_portid := daemon_portid c; daemon_registered := daemon_registered c;
     pending_list := pending_list c; reqid_counter := reqid_counter c; heap := heap c;
     sent := r :: sent c; accepted := accepted c |}.

Definition accept (v : Z * Z * cstr) (c : chan) : chan :=
  {| unload := unload c; daemon_portid := daemon_portid c; daemon_registered := daemon_registered c;
     pending_list := pending_list c; reqid_counter := reqid_counter c; heap := heap c;
     sent := sent c; accepted := v :: accepted c |}.

(** ** The message: netlink attribute sizes (linux/netlink.h, net/netlink.h) *)

Definition NLA_ALIGN (n : Z) : Z := Z.land (n + 3) (Z.lnot 3).
Definition NLA_HDRLEN : Z := 4.
Definition nla_total_size (payload : Z) : Z := NLA_ALIGN (NLA_HDRLEN + payload).

(** With the padding attribute of the architectures that need one. *)
Definition nla_total_size_64bit (pad : bool) (payload : Z) : Z :=
  NLA_ALIGN (NLA_HDRLEN + payload) + (if pad then NLA_ALIGN NLA_HDRLEN else 0).

(** The room asked of [genlmsg_new]. *)
Definition payload_size (pad : bool) (path sha256_hex : cstr) : Z :=
  nla_total_size_64bit pad 8 + nla_total_size 4
  + nla_total_size (Z.of_nat (length path) + 1)
  + nla_total_size (Z.of_nat (length sha256_hex) + 1).

(** [nla_put]: the attribute goes into the room left, or -EMSGSIZE. *)
Definition nla_put (room size : Z) : Z + Z :=
  if room <? size then inl (- EMSGSIZE) else inr (room - size).

(** The chain [ret = ret ?: nla_put_*] in an skb with [room] bytes.  The 64-bit
    attribute may ask for its alignment attribute, depending on the position. *)
Definition put_request (pad misaligned : bool) (room : Z) (path sha256_hex : cstr) : Z + Z :=
  match nla_put room (nla_total_size_64bit (pad && misaligned) 8) with
  | inl e => inl e
  | inr room =>
      match nla_put room (nla_total_size 4) with
      | inl e => inl e
      | inr room =>
          match nla_put room (nla_total_size (Z.of_nat (length path) + 1)) with
          | inl e => inl e
          | inr room => nla_put room (nla_total_size (Z.of_nat (length sha256_hex) + 1))
          end
      end
  end.

(** ** Threads *)

(** Where a caller of [av_netlink_scan_request] is; [q] is its local data. *)
Record call := { cl_path : cstr; cl_sha256 : cstr; cl_pid : Z; cl_portid : Z }.

Inductive wpc :=
  | WAlloc (q : call)                    (* registered: before kzalloc *)
  | WLink (q : call) (p : nat)           (* before list_add *)
  | WSend (q : call) (p : nat)           (* building and sending *)
  | WErr (p : nat) (ret : Z)             (* err_remove_pending *)
  | WWait (p : nat)                      (* wait_for_completion_timeout *)
  | WTimeout (p : nat)                   (* timed out, before pending_lock *)
  | WWait2 (p : nat)                     (* the unconditional wait *)
  | WOops (p : nat)                      (* faulted: unlinked an invalid link *)
  | WRet (ret : Z) (out : option (Z * Z * cstr)).  (* returned; reqid, verdict, rule *)

Inductive hpc :=
  | HCheck (m : verdict_msg)
  | HLookup (reqid verdict : Z) (rule : cstr)
  | HFound (p : nat) (verdict : Z) (rule : cstr)
  | HWritten (p : nat)
  | HRet (ret : Z).

Record sys := { ch : chan; waiters : gmap nat wpc; handlers : gmap nat hpc }.

(** The object a thread still uses. *)
Definition wobj (pc : wpc) : option nat :=
  match pc with
  | WLink _ p | WSend _ p | WErr p _ | WWait p | WTimeout p | WWait2 p | WOops p => Some p
  | WAlloc _ | WRet _ _ => None
  end.

Definition hobj (pc : hpc) : option nat :=
  match pc with HFound p _ _ | HWritten p => Some p | _ => None end.

(** The first critical section of a call. *)
Definition scan_begin (path sha : cstr) (pid : Z) (c : chan) : wpc :=
  if negb (daemon_registered c) then WRet (- ENOTCONN) None
  else WAlloc {| cl_path := path; cl_sha256 := sha; cl_pid := pid; cl_portid := daemon_portid c |}.

(** What the sending part can meet: no skb, no header, or the unicast's
    result. *)
Inductive send_outcome := NoSkb | NoHdr | Unicast (ret : Z).

(** Building fails with the chain's own error if an attribute does not fit. *)
Definition scan_send (pad misaligned : bool) (o : send_outcome) (q : call) (p : nat) (c : chan)
    : wpc * chan :=
  match o with
  | NoSkb => (WErr p (- ENOMEM), c)
  | NoHdr => (WErr p (- EMSGSIZE), c)
  | Unicast ret =>
      match put_request pad misaligned (payload_size pad (cl_path q) (cl_sha256 q))
              (cl_path q) (cl_sha256 q) with
      | inl e => (WErr p e, c)
      | inr _ =>
          if negb (ret =? 0) then (WErr p ret, c)
          else (WWait p,
                scan_deliver {| rq_portid := cl_portid q;
                                rq_reqid := default 0 (ps_reqid <$> heap c !! p);
                                rq_pid := cl_pid q; rq_path := cl_path q;
                                rq_sha256 := cl_sha256 q |} c)
      end
  end.

(** [wait_for_completion*] returning because of the completion, which it
    consumes; then the result is copied out and the object freed. *)
Definition scan_finish (rule_out_len : nat) (p : nat) (c : chan) : wpc * chan :=
  match heap c !! p with
  | Some s => (WRet 0 (Some (ps_reqid s, ps_verdict s, strscpy (ps_rule_name s) rule_out_len)),
               kfree p c)
  | None => (WRet 0 None, kfree p c)
  end.

(** The timeout's critical section.  [list_empty] is false of an invalid link too, and following
    it faults. *)
Definition scan_timeout (p : nat) (c : chan) : wpc * chan :=
  let still_pending := bool_decide (p ∈ pending_list c) || poisoned c p in
  if still_pending then
    if poisoned c p then (WOops p, c)
    else (WRet (- ETIMEDOUT) None, kfree p (list_del_init p c))
  else (WWait2 p, c).

Definition scan_error (p : nat) (ret : Z) (c : chan) : wpc * chan :=
  if poisoned c p then (WOops p, c) else (WRet ret None, kfree p (list_del p c)).

Definition is_done (c : chan) (p : nat) : bool :=
  match heap c !! p with Some s => ps_done s | None => false end.

Definition set_waiter (w : nat) (r : wpc * chan) (s : sys) : sys :=
  {| ch := r.2; waiters := <[w := r.1]> (waiters s); handlers := handlers s |}.
Definition set_handler (h : nat) (pc : hpc) (c : chan) (s : sys) : sys :=
  {| ch := c; waiters := waiters s; handlers := <[h := pc]> (handlers s) |}.
Definition set_ch (c : chan) (s : sys) : sys :=
  {| ch := c; waiters := waiters s; handlers := handlers s |}.

(** The loop of [av_netlink_exit], which holds [pending_lock]: every waiter still listed is unlinked
    and woken, its verdict untouched. *)
Definition av_netlink_exit (c : chan) : chan :=
  foldl (λ c p, complete p (list_del p c)) c (pending_list c).

(** Every handler has returned. *)
Definition handlers_returned (s : sys) : Prop :=
  ∀ h pc, handlers s !! h = Some pc → ∃ ret, pc = HRet ret.

(** One step of some thread.  [honest]: the registered daemon only answers
    requests that have been delivered.  The last three are [av_netlink_exit]'s:
    [genl_unregister_family] waits for the handlers of the family that are
    running, and none runs later. *)
Inductive step (honest : bool) (s : sys) : sys → Prop :=
  | step_register portid :
      unload (ch s) = Loaded → step honest s (set_ch (av_nl_register_doit portid (ch s)) s)
  | step_notify event protocol portid :
      unload (ch s) = Loaded ∨ unload (ch s) = NoFamily →
      step honest s (set_ch (av_netlink_notify event protocol portid (ch s)) s)
  | step_call w path sha pid :
      waiters s !! w = None →
      step honest s (set_waiter w (scan_begin path sha pid (ch s), ch s) s)
  | step_nomem w q :
      waiters s !! w = Some (WAlloc q) →
      step honest s (set_waiter w (WRet (- ENOMEM) None, ch s) s)
  | step_alloc w q p :
      waiters s !! w = Some (WAlloc q) → heap (ch s) !! p = None →
      step honest s (set_waiter w (WLink q p, scan_alloc p (ch s)) s)
  | step_link w q p :
      waiters s !! w = Some (WLink q p) →
      step honest s (set_waiter w (WSend q p, scan_link p (ch s)) s)
  | step_send w q p pad misaligned o :
      waiters s !! w = Some (WSend q p) →
      step honest s (set_waiter w (scan_send pad misaligned o q p (ch s)) s)
  | step_error w p ret :
      waiters s !! w = Some (WErr p ret) →
      step honest s (set_waiter w (scan_error p ret (ch s)) s)
  | step_woken w p len :
      waiters s !! w = Some (WWait p) ∨ waiters s !! w = Some (WWait2 p) →
      is_done (ch s) p = true →
      step honest s (set_waiter w (scan_finish len p (ch s)) s)
  | step_expire w p :
      waiters s !! w = Some (WWait p) → is_done (ch s) p = false →
      step honest s (set_waiter w (WTimeout p, ch s) s)
  | step_timeout w p :
      waiters s !! w = Some (WTimeout p) →
      step honest s (set_waiter w (scan_timeout p (ch s)) s)
  | step_recv h m :
      unload (ch s) = Loaded → handlers s !! h = None →
      step honest s (set_handler h (HCheck m) (ch s) s)
  | step_check_err h m e :
      handlers s !! h = Some (HCheck m) → verdict_check m (ch s) = inl e →
      step honest s (set_handler h (HRet e) (ch s) s)
  | step_check_ok h m reqid v rule :
      handlers s !! h = Some (HCheck m) → verdict_check m (ch s) = inr (reqid, v, rule) →
      (honest = true → reqid ∈ rq_reqid <$> sent (ch s)) →
      step honest s (set_handler h (HLookup reqid v rule) (accept (reqid, v, rule) (ch s)) s)
  | step_unknown h reqid v rule :
      handlers s !! h = Some (HLookup reqid v rule) →
      (verdict_lookup reqid (ch s)).1 = None →
      step honest s (set_handler h (HRet 0) (ch s) s)
  | step_found h reqid v rule p :
      handlers s !! h = Some (HLookup reqid v rule) →
      (verdict_lookup reqid (ch s)).1 = Some p →
      step honest s (set_handler h (HFound p v rule) (verdict_lookup reqid (ch s)).2 s)
  | step_write h p v rule :
      handlers s !! h = Some (HFound p v rule) →
      step honest s (set_handler h (HWritten p) (verdict_write p v rule (ch s)) s)
  | step_complete h p :
      handlers s !! h = Some (HWritten p) →
      step honest s (set_handler h (HRet 0) (complete p (ch s)) s)
  | step_unregister_family :
      unload (ch s) = Loaded → handlers_returned s →
      step honest s (set_ch (set_unload NoFamily (ch s)) s)
  | step_unregister_notifier :
      unload (ch s) = NoFamily → step honest s (set_ch (set_unload NoNotifier (ch s)) s)
  | step_exit :
      unload (ch s) = NoNotifier →
      step honest s (set_ch (set_unload Exited (av_netlink_exit (ch s))) s).

Definition init_chan : chan :=
  {| unload := Loaded; daemon_portid := 0; daemon_registered := false; pending_list := []; reqid_counter := 0;
     heap := ∅; sent := []; accepted := [] |}.
Definition init_sys : sys := {| ch := init_chan; waiters := ∅; handlers := ∅ |}.

Inductive reachable (honest : bool) : sys → Prop :=
  | reach_init : reachable honest init_sys
  | reach_step s s' :
      reachable honest s → step honest s s' → reqid_counter (ch s') < 2 ^ 64 - 1 →
      reachable honest s'.

(** ** The life of a request *)

Section life.
Implicit Types (s : sys) (c : chan) (p w h : nat).

Definition owner s p w pc : Prop := waiters s !! w = Some pc ∧ wobj pc = Some p.
Definition holder s p h pc : Prop := handlers s !! h = Some pc ∧ hobj pc = Some p.
Definition sole_owner s p w pc : Prop :=
  owner s p w pc ∧ ∀ w' pc', owner s p w' pc' → w' = w.
Definition no_holder s p : Prop := ∀ h pc, ¬ holder s p h pc.
Definition unsent s (reqid : Z) : Prop := reqid ∉ rq_reqid <$> sent (ch s).
Definition waiting p (pc : wpc) : Prop := pc = WWait p ∨ pc = WTimeout p ∨ pc = WWait2 p.

(** What a handler that has taken [o] is going to deliver, or has written. *)
Definition delivers c (o : av_pending_scan) (pc : hpc) : Prop :=
  match pc with
  | HFound _ v r => (ps_reqid o, v, r) ∈ accepted c
  | HWritten _ => (ps_reqid o, ps_verdict o, ps_rule_name o) ∈ accepted c
  | _ => False
  end.

(** The object is as it was allocated. *)
Definition unanswered (o : av_pending_scan) : Prop := ps_verdict o = -1 ∧ ps_rule_name o = [].

(** An allocated request whose link is valid is in one of five phases. *)
Inductive phase s p (o : av_pending_scan) : Prop :=
  | ph_unlinked w q :
      sole_owner s p w (WLink q p) → p ∉ pending_list (ch s) → no_holder s p →
      ps_done o = false → unanswered o → unsent s (ps_reqid o) → phase s p o
  | ph_sending w pc :
      sole_owner s p w pc → (∃ q, pc = WSend q p) ∨ (∃ ret, pc = WErr p ret) →
      p ∈ pending_list (ch s) → no_holder s p →
      ps_done o = false → unanswered o → unsent s (ps_reqid o) → phase s p o
  | ph_waiting w pc :
      sole_owner s p w pc → pc = WWait p ∨ pc = WTimeout p →
      p ∈ pending_list (ch s) → no_holder s p → ps_done o = false → unanswered o → phase s p o
  | ph_taken w pc h hp :
      sole_owner s p w pc → waiting p pc → p ∉ pending_list (ch s) →
      holder s p h hp → (∀ h' hp', holder s p h' hp' → h' = h) →
      ps_done o = false → delivers (ch s) o hp → phase s p o
  | ph_done w pc :
      sole_owner s p w pc → waiting p pc → p ∉ pending_list (ch s) → no_holder s p →
      ps_done o = true → (ps_reqid o, ps_verdict o, ps_rule_name o) ∈ accepted (ch s) →
      phase s p o.

(** The module's exit has unlinked it: the call goes on, and faults if it has to unlink it again. *)
Definition leaving s p (o : av_pending_scan) : Prop :=
  ∃ w pc, sole_owner s p w pc ∧
    ((∃ q, pc = WSend q p) ∨ (∃ ret, pc = WErr p ret) ∨ pc = WWait p ∨ pc = WTimeout p ∨ pc = WOops p) ∧
    (p ∉ pending_list (ch s)) ∧ no_holder s p ∧ ps_done o = true ∧ unanswered o ∧ unload (ch s) = Exited.

Definition obj_ok s p : Prop :=
  match heap (ch s) !! p with
  | None => (∀ w pc, ¬ owner s p w pc) ∧ no_holder s p ∧ p ∉ pending_list (ch s)
  | Some o => if ps_poisoned o then leaving s p o else phase s p o
  end.

(** The verdicts taken are well formed. *)
Definition verdict_ok (x : Z * Z * cstr) : Prop :=
  let '(_, v, r) := x in
  (v = AV_VERDICT_CLEAN ∨ v = AV_VERDICT_MALICIOUS) ∧ (length r ≤ AV_RULE_NAME_MAXLEN)%nat.

(** What a call returns: a verdict that was taken, or after the exit none. *)
Definition result_ok c (x : Z * Z * cstr) : Prop :=
  let '(r, v, ru) := x in
  (∃ ru' len, (r, v, ru') ∈ accepted c ∧ ru = strscpy ru' len) ∨ (v = -1 ∧ ru = [] ∧ unload c = Exited).

Record inv s : Prop := {
  i_nodup : NoDup (pending_list (ch s));
  i_obj p : obj_ok s p;
  i_reqid p o : heap (ch s) !! p = Some o → ps_reqid o ≤ reqid_counter (ch s);
  i_uniq p p' o o' : heap (ch s) !! p = Some o → heap (ch s) !! p' = Some o' →
    ps_reqid o = ps_reqid o' → p = p';
  i_sent r : r ∈ rq_reqid <$> sent (ch s) → r ≤ reqid_counter (ch s);
  i_counter : 0 ≤ reqid_counter (ch s) < 2 ^ 64 - 1;
  i_accepted x : x ∈ accepted (ch s) → verdict_ok x;
  i_lookup h r v ru : handlers s !! h = Some (HLookup r v ru) →
    (r, v, ru) ∈ accepted (ch s) ∧ r ∈ rq_reqid <$> sent (ch s);
  i_ret w ret r v ru : waiters s !! w = Some (WRet ret (Some (r, v, ru))) →
    result_ok (ch s) (r, v, ru);
  i_ret_none w : waiters s !! w ≠ Some (WRet 0 None);
  i_err w p ret : waiters s !! w = Some (WErr p ret) → ret ≠ 0;
  i_gone : unload (ch s) ≠ Loaded → handlers_returned s;
}.

(** ** Steps leave the objects they do not concern alone *)

Definition chan_view c c' p : Prop :=
  (p ∈ pending_list c ↔ p ∈ pending_list c') ∧ heap c' !! p = heap c !! p ∧
  accepted c ⊆ accepted c' ∧
  (∀ o, heap c !! p = Some o → ps_reqid o ∈ rq_reqid <$> sent c' →
        ps_reqid o ∈ rq_reqid <$> sent c) ∧
  (unload c = Exited → unload c' = Exited).

Definition same_view s s' p : Prop :=
  (∀ w pc, owner s p w pc ↔ owner s' p w pc) ∧
  (∀ h pc, holder s p h pc ↔ holder s' p h pc) ∧ chan_view (ch s) (ch s') p.

Lemma obj_frame s s' p : same_view s s' p → obj_ok s p → obj_ok s' p.
Proof.
  intros (Hw&Hh&Hl&He&Ha&Hs&Hx). unfold obj_ok. rewrite He.
  assert (∀ w pc, sole_owner s p w pc → sole_owner s' p w pc) as Hso.
  { intros w pc [??]. split; [by apply Hw|]. intros ?? ?%Hw. eauto. }
  assert (no_holder s p → no_holder s' p) as Hno by (intros Hn ?? ?%Hh; by eapply Hn).
  destruct (heap (ch s) !! p) as [o|] eqn:Ho.
  2: { intros (Hnw&?&?). split_and!; [intros ?? ?%Hw; by eapply Hnw|auto|by rewrite <- Hl]. }
  specialize (Hs o eq_refl).
  assert (unsent s (ps_reqid o) → unsent s' (ps_reqid o)) as Hun by (unfold unsent; auto).
  destruct (ps_poisoned o).
  { intros (w&pc&?&?&?&?&?&?&?). exists w, pc. split_and!; auto. by rewrite <- Hl. }
  intros [w q|w pc|w pc|w pc h hp|w pc].
  - eapply ph_unlinked; eauto. by rewrite <- Hl.
  - eapply ph_sending; eauto. by apply Hl.
  - eapply ph_waiting; eauto. by apply Hl.
  - eapply (ph_taken _ _ _ w pc h hp); eauto; [by rewrite <- Hl|by apply Hh|intros ?? ?%Hh; eauto|].
    by destruct hp; simpl in *; try apply Ha.
  - eapply ph_done; eauto. by rewrite <- Hl.
Qed.

Lemma view_waiter s p w pc' c' :
  (∀ pc, waiters s !! w = Some pc → wobj pc ≠ Some p) → wobj pc' ≠ Some p →
  chan_view (ch s) c' p → same_view s (set_waiter w (pc', c') s) p.
Proof.
  intros Hold Hnew Hc. split_and!; [|done|done..]. intros w' pc. unfold owner, set_waiter. simpl.
  rewrite lookup_insert. case_decide as Hw; [subst w'|done].
  split; intros [He ?]; [by destruct (Hold pc)|by simplify_eq].
Qed.

Lemma view_handler s p h pc' c' :
  (∀ pc, handlers s !! h = Some pc → hobj pc ≠ Some p) → hobj pc' ≠ Some p →
  chan_view (ch s) c' p → same_view s (set_handler h pc' c' s) p.
Proof.
  intros Hold Hnew Hc. split_and!; [done| |done..]. intros h' pc. unfold holder, set_handler. simpl.
  rewrite lookup_insert. case_decide as Hh; [subst h'|done].
  split; intros [He ?]; [by destruct (Hold pc)|by simplify_eq].
Qed.

Lemma chan_view_refl c p : chan_view c c p.
Proof. by split_and!. Qed.

Lemma sole_owner_set s p w pc pc' c' :
  sole_owner s p w pc → wobj pc' = Some p → sole_owner (set_waiter w (pc', c') s) p w pc'.
Proof.
  intros [Ho Hu] Hpc. unfold set_waiter. split; [by split; simpl; [rewrite lookup_insert_eq|]|].
  intros w' pc'' [Hw Hp]. simpl in Hw. rewrite lookup_insert in Hw. case_decide; [done|].
  by apply (Hu w' pc'').
Qed.

(** The object a waiter uses, with its phase. *)
Lemma owner_phase s w pc p :
  inv s → waiters s !! w = Some pc → wobj pc = Some p →
  ∃ o, heap (ch s) !! p = Some o ∧ if ps_poisoned o then leaving s p o else phase s p o.
Proof.
  intros Hi Hw Hp. pose proof (i_obj s Hi p) as Ho. unfold obj_ok in Ho.
  destruct (heap (ch s) !! p) as [o|]; [by exists o|].
  destruct Ho as [Hn _]. by destruct (Hn w pc).
Qed.

Lemma holder_phase s h pc p :
  inv s → handlers s !! h = Some pc → hobj pc = Some p →
  ∃ o, heap (ch s) !! p = Some o ∧ ps_poisoned o = false ∧ phase s p o.
Proof.
  intros Hi Hw Hp. pose proof (i_obj s Hi p) as Ho. unfold obj_ok in Ho.
  destruct (heap (ch s) !! p) as [o|]; [|by destruct Ho as [_ [Hn _]]; destruct (Hn h pc)].
  exists o. split; [done|]. destruct (ps_poisoned o); [|done].
  destruct Ho as (?&?&_&_&_&Hn&_). by destruct (Hn h pc).
Qed.

Lemma sole_owner_pc s p w pc w' pc' :
  sole_owner s p w pc → owner s p w' pc' → w = w' ∧ pc = pc'.
Proof.
  intros [[Hw _] Hu] Ho. pose proof (Hu _ _ Ho) as ->. destruct Ho as [Hw' _]. by simplify_eq.
Qed.

(** *** The channel operations, seen from one object *)

Lemma view_set_daemon c a b p : chan_view c (set_daemon a b c) p.
Proof. by split_and!. Qed.

Lemma view_notify c a b d p : chan_view c (av_netlink_notify a b d c) p.
Proof.
  unfold av_netlink_notify. repeat case_match; first [apply chan_view_refl|apply view_set_daemon].
Qed.

Lemma view_alloc c p p' : p ≠ p' → chan_view c (scan_alloc p' c) p.
Proof. intros. split_and!; simpl; try done. by rewrite lookup_insert_ne. Qed.

Lemma view_link c p p' : p ≠ p' → chan_view c (scan_link p' c) p.
Proof.
  intros. split_and!; simpl; try done. rewrite elem_of_cons.
  split; [by right|by intros [?|?]].
Qed.

Lemma elem_list_del c p q :
  q ∈ pending_list (list_del_init p c) ↔ q ∈ pending_list c ∧ q ≠ p.
Proof.
  simpl. rewrite !list_elem_of_In, filter_In. split; intros [? Hb]; (split; [done|]).
  - by apply negb_true_iff, bool_decide_eq_false in Hb.
  - by apply negb_true_iff, bool_decide_eq_false.
Qed.

Lemma view_list_del c p p' : p ≠ p' → chan_view c (list_del p' c) p.
Proof.
  intros. split_and!; try done.
  - change (p ∈ pending_list c ↔ p ∈ pending_list (list_del_init p' c)).
    rewrite elem_list_del. split; [done|by intros [? _]].
  - simpl. by rewrite lookup_alter_ne.
Qed.

Lemma view_drop c p p' : p ≠ p' → chan_view c (kfree p' (list_del_init p' c)) p.
Proof.
  intros. split_and!; try done.
  - change (p ∈ pending_list c ↔ p ∈ pending_list (list_del_init p' c)).
    rewrite elem_list_del. split; [done|by intros [? _]].
  - simpl. by rewrite lookup_delete_ne.
Qed.

(** Freeing it makes how it was unlinked immaterial. *)
Lemma drop_eq p c : kfree p (list_del p c) = kfree p (list_del_init p c).
Proof.
  unfold kfree, list_del, set_pending. simpl. f_equal. apply map_eq. intros q.
  destruct (decide (q = p)) as [->|?]; [by rewrite !lookup_delete_eq|].
  by rewrite !lookup_delete_ne, lookup_alter_ne.
Qed.

Lemma view_kfree c p p' : p ≠ p' → chan_view c (kfree p' c) p.
Proof. intros. split_and!; simpl; try done. by rewrite lookup_delete_ne. Qed.

Lemma view_alter c p p' f :
  p ≠ p' → chan_view c (set_pending (pending_list c) (alter f p' (heap c)) c) p.
Proof. intros. split_and!; simpl; try done. by rewrite lookup_alter_ne. Qed.

Lemma view_accept c v p : chan_view c (accept v c) p.
Proof. split_and!; simpl; try done. intros x ?. by right. Qed.

Lemma view_deliver s r p :
  inv s → (∀ o, heap (ch s) !! p = Some o → rq_reqid r ≠ ps_reqid o) →
  chan_view (ch s) (scan_deliver r (ch s)) p.
Proof.
  intros Hi Hr. split_and!; simpl; try done. intros o Ho. csimpl.
  intros [?|?]%elem_of_cons; [by destruct (Hr o)|done].
Qed.

(** The lookup unlinks the request it returns, which has the reqid. *)
Lemma verdict_lookup_spec reqid c :
  match verdict_lookup reqid c with
  | (Some p, c') =>
      p ∈ pending_list c ∧ (∃ o, heap c !! p = Some o ∧ ps_reqid o = reqid) ∧
      (NoDup (pending_list c) → NoDup (pending_list c') ∧
        ∀ q, q ∈ pending_list c' ↔ q ∈ pending_list c ∧ q ≠ p) ∧
      c' = set_pending (pending_list c') (heap c) c
  | (None, c') => c' = c
  end.
Proof.
  unfold verdict_lookup. destruct (find_first _ _) as [p|] eqn:Hf; [|done].
  apply find_first_Some in Hf as [Hin Hh]. split; [done|]. split.
  { unfold has_reqid in Hh. destruct (heap c !! p) as [o|]; [|done].
    exists o. split; [done|]. by apply Z.eqb_eq. }
  split; [|done]. intros Hnd.
  pose proof (del_first_find (λ q, bool_decide (q = p)) (pending_list c)) as Hd.
  destruct (find_first _ _) as [q|] eqn:Hq.
  - apply find_first_Some in Hq as [_ ->%bool_decide_eq_true].
    destruct Hd as (l1&l2&Hl&->). simpl. rewrite Hl in Hnd |- *.
    apply NoDup_app in Hnd as (?&Hd1&[Hn2 ?]%NoDup_cons). split.
    + apply NoDup_app. split_and!; [done| |done]. intros x Hx ?. apply (Hd1 x Hx). by right.
    + intros q. rewrite !elem_of_app, elem_of_cons. split.
      * intros [Hx|Hx]; (split; [auto|intros ->]); [|done]. apply (Hd1 p Hx). by left.
      * intros [[?|[->|?]] ?]; [by left|done|by right].
  - rewrite find_first_None in Hq. specialize (Hq p Hin).
    by rewrite bool_decide_true in Hq.
Qed.

(** An object whose only user lets go of it is freed for good. *)
Lemma obj_gone s p w pc pc' c' :
  sole_owner s p w pc → no_holder s p → wobj pc' = None →
  heap c' !! p = None → p ∉ pending_list c' →
  obj_ok (set_waiter w (pc', c') s) p.
Proof.
  intros [_ Hu] Hn Hpc Hh Hl. unfold obj_ok, set_waiter. simpl. rewrite Hh.
  split_and!; [|exact Hn|done]. intros w' pc'' [Hw Hp]. simpl in Hw.
  rewrite lookup_insert in Hw. case_decide; [congruence|].
  assert (w' = w) by (apply (Hu w' pc''); by split). congruence.
Qed.

(** *** Every step keeps every object in a phase *)

(** A waiter step that concerns object [p] only. *)
Lemma waiter_obj s w pc p pc' c' :
  inv s → waiters s !! w = Some pc → wobj pc = Some p →
  (wobj pc' = Some p ∨ wobj pc' = None) →
  (∀ q, q ≠ p → chan_view (ch s) c' q) →
  obj_ok (set_waiter w (pc', c') s) p →
  ∀ q, obj_ok (set_waiter w (pc', c') s) q.
Proof.
  intros Hi Hw Hp Hp' Hv Hobj q. destruct (decide (q = p)) as [->|Hne]; [done|].
  apply (obj_frame s); [|by apply i_obj]. apply view_waiter; [|destruct Hp'; congruence|auto].
  intros pc0 ?. congruence.
Qed.

(** A waiter step that concerns no object. *)
Lemma waiter_noobj s w pc' c' :
  inv s → (∀ pc, waiters s !! w = Some pc → wobj pc = None) → wobj pc' = None →
  (∀ q, chan_view (ch s) c' q) →
  ∀ q, obj_ok (set_waiter w (pc', c') s) q.
Proof.
  intros Hi Hw Hp' Hv q. apply (obj_frame s); [|by apply i_obj].
  apply view_waiter; [|congruence|auto]. intros pc Hpc. by rewrite (Hw pc Hpc).
Qed.

Lemma handler_noobj s h pc' c' :
  inv s → (∀ pc, handlers s !! h = Some pc → hobj pc = None) → hobj pc' = None →
  (∀ q, chan_view (ch s) c' q) →
  ∀ q, obj_ok (set_handler h pc' c' s) q.
Proof.
  intros Hi Hw Hp' Hv q. apply (obj_frame s); [|by apply i_obj].
  apply view_handler; [|congruence|auto]. intros pc Hpc. by rewrite (Hw pc Hpc).
Qed.

(** Find the phase a thread's object is in from the thread's position. *)
Ltac phase_of Hi Hw :=
  let o := fresh "o" in let Ho := fresh "Ho" in let Hph := fresh "Hph" in
  destruct (owner_phase _ _ _ _ Hi Hw eq_refl) as (o&Ho&Hph);
  let Hpo := fresh "Hpo" in
  destruct (ps_poisoned o) eqn:Hpo;
  [destruct Hph as (?&?&Hso&Hpc&Hnl&Hnh&Hdone&Hans&Hst)
  |inversion Hph as [? ? Hso Hnl Hnh Hdone Hans Hun
                   |? ? Hso Hpc Hl Hnh Hdone Hans Hun
                   |? ? Hso Hpc Hl Hnh Hdone Hans
                   |? ? ? ? Hso Hpc Hnl Hh Hhu Hdone Hdel
                   |? ? Hso Hpc Hnl Hnh Hdone Hacc];
   clear Hph];
  match goal with Hso : sole_owner _ _ _ _ |- _ =>
    destruct (sole_owner_pc _ _ _ _ _ _ Hso (conj Hw eq_refl)) as [-> Hpceq] end;
  simplify_eq;
  try (unfold waiting in *;
       repeat match goal with
       | H : _ ∨ _ |- _ => destruct H
       | H : ∃ _, _ |- _ => destruct H
       end; discriminate).

Lemma alloc_obj s w q p :
  inv s → waiters s !! w = Some (WAlloc q) → heap (ch s) !! p = None →
  ∀ p', obj_ok (set_waiter w (WLink q p, scan_alloc p (ch s)) s) p'.
Proof.
  intros Hi Hw Hp p'. pose proof (i_counter s Hi).
  destruct (decide (p' = p)) as [->|Hne].
  - pose proof (i_obj s Hi p) as Hok. unfold obj_ok in Hok. rewrite Hp in Hok.
    destruct Hok as (Hno&Hnh&Hnl). unfold obj_ok. simpl. rewrite lookup_insert_eq.
    apply (ph_unlinked _ _ _ w q); simpl; try done.
    + split; [split; [apply lookup_insert_eq|done]|]. intros w' pc' [Hw' Hp']. simpl in Hw'.
      rewrite lookup_insert in Hw'. case_decide; [done|]. by destruct (Hno w' pc').
    + unfold unsent. simpl. intros Hs%(i_sent s Hi). rewrite wrap_small in Hs by lia. lia.
  - apply (obj_frame s); [|by apply i_obj]. apply view_waiter.
    + intros pc ?. simplify_eq. done.
    + simpl. congruence.
    + by apply view_alloc.
Qed.

Lemma link_obj s w q p :
  inv s → waiters s !! w = Some (WLink q p) →
  ∀ p', obj_ok (set_waiter w (WSend q p, scan_link p (ch s)) s) p'.
Proof.
  intros Hi Hw. eapply waiter_obj; [done|done|done|by left|by intros; apply view_link|].
  phase_of Hi Hw. unfold obj_ok. simpl. rewrite Ho, Hpo.
  eapply (ph_sending _ _ _ w); [by eapply sole_owner_set|by left; eexists|by left|done..].
Qed.

Lemma send_obj s w q p pad mis o :
  inv s → waiters s !! w = Some (WSend q p) →
  ∀ p', obj_ok (set_waiter w (scan_send pad mis o q p (ch s)) s) p'.
Proof.
  intros Hi Hw.
  assert (∀ ret p', obj_ok (set_waiter w (WErr p ret, ch s) s) p') as Herr.
  { intros ret. eapply waiter_obj; [done|done|done|by left|intros; apply chan_view_refl|].
    phase_of Hi Hw; unfold obj_ok; simpl; rewrite Ho, Hpo.
    - exists w, (WErr p ret). split_and!; try done; [by eapply sole_owner_set|eauto].
    - eapply (ph_sending _ _ _ w); [by eapply sole_owner_set|by right; eexists|done..]. }
  unfold scan_send. destruct o as [| |ret]; [apply Herr..|].
  destruct (put_request _ _ _ _ _); [apply Herr|].
  destruct (negb (ret =? 0)); [apply Herr|].
  eapply waiter_obj; [done|done|done|by left| |].
  - destruct (owner_phase _ _ _ _ Hi Hw eq_refl) as (ob&Ho&_). rewrite Ho. simpl.
    intros p' Hne. eapply (view_deliver s); [done|]. simpl. intros o' Ho' Heq.
    apply Hne. by eapply i_uniq.
  - phase_of Hi Hw; unfold obj_ok; simpl; rewrite Ho, Hpo; simpl.
    + exists w, (WWait p). split_and!; try done; [by eapply sole_owner_set|eauto].
    + eapply (ph_waiting _ _ _ w); [by eapply sole_owner_set|by left|done..].
Qed.

(** A call of which the link is invalid faults and keeps its object. *)
Lemma oops_obj s w pc p o :
  inv s → waiters s !! w = Some pc → wobj pc = Some p → heap (ch s) !! p = Some o →
  ps_poisoned o = true → ∀ p', obj_ok (set_waiter w (WOops p, ch s) s) p'.
Proof.
  intros Hi Hw Hp Ho Hpo. eapply waiter_obj; [done|done|done|by left|intros; apply chan_view_refl|].
  pose proof (i_obj s Hi p) as Hok. unfold obj_ok in *. rewrite Ho, Hpo in Hok. simpl. rewrite Ho, Hpo.
  destruct Hok as (w'&pc'&Hso&_&?&?&?&?&?).
  destruct (sole_owner_pc _ _ _ _ _ _ Hso (conj Hw Hp)) as [-> ->].
  exists w, (WOops p). split_and!; try done; [by eapply sole_owner_set|auto].
Qed.

Lemma error_obj s w p ret :
  inv s → waiters s !! w = Some (WErr p ret) →
  ∀ p', obj_ok (set_waiter w (scan_error p ret (ch s)) s) p'.
Proof.
  intros Hi Hw. unfold scan_error, poisoned. rewrite drop_eq.
  phase_of Hi Hw; rewrite Ho, Hpo; [by eapply oops_obj|].
  eapply waiter_obj; [done|done|done|by right|by intros; apply view_drop|].
  eapply obj_gone; [done|done|done|apply lookup_delete_eq|].
  change (p ∉ pending_list (list_del_init p (ch s))). rewrite elem_list_del. by intros [_ ?].
Qed.

Lemma woken_obj s w p pc len :
  inv s → waiters s !! w = Some pc → pc = WWait p ∨ pc = WWait2 p → is_done (ch s) p = true →
  ∀ p', obj_ok (set_waiter w (scan_finish len p (ch s)) s) p'.
Proof.
  intros Hi Hw Hpc0 Hd.
  assert (wobj pc = Some p) as Hp by by destruct Hpc0 as [-> | ->].
  destruct (owner_phase _ _ _ _ Hi Hw Hp) as (o&Ho&Hph).
  unfold scan_finish. rewrite Ho. unfold is_done in Hd. rewrite Ho in Hd.
  eapply waiter_obj; [done|done|done|by right|by intros; apply view_kfree|].
  assert (∃ w' pc', sole_owner s p w' pc' ∧ no_holder s p ∧ p ∉ pending_list (ch s)) as (w'&pc'&Hso&Hnh&Hnl).
  { destruct (ps_poisoned o); [destruct Hph as (?&?&?&?&?&?&_); eauto|].
    inversion Hph; try congruence. eauto. }
  destruct (sole_owner_pc _ _ _ _ _ _ Hso (conj Hw Hp)) as [-> ->].
  eapply obj_gone; [done|done|done|apply lookup_delete_eq|done].
Qed.

Lemma expire_obj s w p :
  inv s → waiters s !! w = Some (WWait p) → is_done (ch s) p = false →
  ∀ p', obj_ok (set_waiter w (WTimeout p, ch s) s) p'.
Proof.
  intros Hi Hw Hd. eapply waiter_obj; [done|done|done|by left|intros; apply chan_view_refl|].
  phase_of Hi Hw; unfold is_done in Hd; rewrite Ho in Hd; try congruence;
    unfold obj_ok; simpl; rewrite Ho, Hpo.
  - eapply (ph_waiting _ _ _ w); [by eapply sole_owner_set|by right|done..].
  - eapply (ph_taken _ _ _ w); [by eapply sole_owner_set|by right; left|done..].
Qed.

Lemma timeout_obj s w p :
  inv s → waiters s !! w = Some (WTimeout p) →
  ∀ p', obj_ok (set_waiter w (scan_timeout p (ch s)) s) p'.
Proof.
  intros Hi Hw. unfold scan_timeout, poisoned. case_bool_decide as Hin; cbn [orb].
  - phase_of Hi Hw; try congruence. rewrite Ho, Hpo.
    eapply waiter_obj; [done|done|done|by right|by intros; apply view_drop|].
    eapply obj_gone; [done|done|done|apply lookup_delete_eq|].
    change (p ∉ pending_list (list_del_init p (ch s))). rewrite elem_list_del. by intros [_ ?].
  - phase_of Hi Hw; try done; rewrite Ho, Hpo; [by eapply oops_obj|..];
      (eapply waiter_obj; [done|done|done|by left|intros; apply chan_view_refl|]);
      unfold obj_ok; simpl; rewrite Ho, Hpo.
    + eapply (ph_taken _ _ _ w); [by eapply sole_owner_set|by right; right|done..].
    + eapply (ph_done _ _ _ w); [by eapply sole_owner_set|by right; right|done..].
Qed.

Lemma holder_set s p h pc c' :
  hobj pc = Some p → holder (set_handler h pc c' s) p h pc.
Proof. intros. split; [apply lookup_insert_eq|done]. Qed.

Lemma holder_set_inv s p h pc c' h' pc' :
  holder (set_handler h pc c' s) p h' pc' →
  h' = h ∧ pc' = pc ∧ hobj pc = Some p ∨ h' ≠ h ∧ holder s p h' pc'.
Proof.
  intros [Hh Hp]. simpl in Hh. rewrite lookup_insert in Hh. case_decide; [left|by right; split_and!].
  by simplify_eq.
Qed.

Lemma found_obj s h reqid v rule p :
  inv s → handlers s !! h = Some (HLookup reqid v rule) →
  (verdict_lookup reqid (ch s)).1 = Some p →
  ∀ q, obj_ok (set_handler h (HFound p v rule) (verdict_lookup reqid (ch s)).2 s) q.
Proof.
  intros Hi Hh Hl q. pose proof (verdict_lookup_spec reqid (ch s)) as Hs.
  destruct (verdict_lookup reqid (ch s)) as [? c']. simpl in Hl. subst. cbn [snd].
  destruct Hs as (Hin&(o&Ho&Hr)&Hnd&Hc'). destruct (Hnd (i_nodup s Hi)) as [_ Hq].
  destruct (i_lookup s Hi _ _ _ _ Hh) as [Hacc Hsent].
  destruct (decide (q = p)) as [->|Hne].
  - pose proof (i_obj s Hi p) as Hok. unfold obj_ok in *. rewrite Hc'. simpl. rewrite Ho in Hok |- *.
    destruct (ps_poisoned o); [by destruct Hok as (?&?&_&_&?&_)|].
    destruct Hok as [? ? ? ? ? ? ? Hun|? ? ? ? ? ? ? ? Hun|w pc Hso Hpc _ Hnh Hdone|? ? ? ? ? ? ? ? ? ? ?|];
      try congruence; try (by destruct Hun; rewrite Hr).
    eapply (ph_taken _ _ _ w pc h (HFound p v rule)); try done.
    + by destruct Hpc as [-> | ->]; [left|right; left].
    + simpl. rewrite Hq. by intros [_ ?].
    + by apply holder_set.
    + intros h' hp' [[-> _]|[_ Hx]]%holder_set_inv; [done|]. by destruct (Hnh h' hp').
    + simpl. rewrite Hr. exact Hacc.
  - apply (obj_frame s); [|by apply i_obj]. apply view_handler.
    + intros pc ?. simplify_eq. done.
    + simpl. congruence.
    + rewrite Hc'. split_and!; simpl; try done. rewrite Hq. split; [done|by intros [? _]].
Qed.

Lemma write_obj s h p v rule :
  inv s → handlers s !! h = Some (HFound p v rule) →
  ∀ q, obj_ok (set_handler h (HWritten p) (verdict_write p v rule (ch s)) s) q.
Proof.
  intros Hi Hh q. destruct (decide (q = p)) as [->|Hne].
  - destruct (holder_phase _ _ _ _ Hi Hh eq_refl) as (o&Ho&Hpo&Hph).
    unfold obj_ok. simpl. rewrite lookup_alter_eq, Ho. simpl. rewrite Hpo.
    inversion Hph as [? ? ? ? Hnh|? ? ? ? ? Hnh|? ? ? ? ? Hnh
      |w pc h' hp Hso Hpc Hnl [Hh' _] Hhu Hdone Hdel|? ? ? ? ? Hnh];
      try (by destruct (Hnh h (HFound p v rule)); split).
    assert (h = h') as <- by (eapply Hhu; by split). simplify_eq. simpl in Hdel.
    destruct (i_accepted s Hi _ Hdel) as [_ Hlen].
    eapply (ph_taken _ _ _ w pc h (HWritten p)); try done.
    + by apply holder_set.
    + intros h' hp' [[-> _]|[_ Hx]]%holder_set_inv; [done|]. by eapply Hhu.
    + simpl. rewrite strscpy_fit; [done|]. unfold AV_RULE_NAME_MAXLEN in *. lia.
  - apply (obj_frame s); [|by apply i_obj]. apply view_handler.
    + intros pc ?. simplify_eq. simpl. congruence.
    + simpl. congruence.
    + by apply view_alter.
Qed.

Lemma complete_obj s h p :
  inv s → handlers s !! h = Some (HWritten p) →
  ∀ q, obj_ok (set_handler h (HRet 0) (complete p (ch s)) s) q.
Proof.
  intros Hi Hh q. destruct (decide (q = p)) as [->|Hne].
  - destruct (holder_phase _ _ _ _ Hi Hh eq_refl) as (o&Ho&Hpo&Hph).
    unfold obj_ok. simpl. rewrite lookup_alter_eq, Ho. simpl. rewrite Hpo.
    inversion Hph as [? ? ? ? Hnh|? ? ? ? ? Hnh|? ? ? ? ? Hnh
      |w pc h' hp Hso Hpc Hnl [Hh' _] Hhu Hdone Hdel|? ? ? ? ? Hnh];
      try (by destruct (Hnh h (HWritten p)); split).
    assert (h = h') as <- by (eapply Hhu; by split). simplify_eq. simpl in Hdel.
    eapply (ph_done _ _ _ w pc); try done.
    intros h' hp' [(_&_&?)|[Hne Hx]]%holder_set_inv; [done|]. apply Hne. by eapply Hhu.
  - apply (obj_frame s); [|by apply i_obj]. apply view_handler.
    + intros pc ?. simplify_eq. simpl. congruence.
    + simpl. congruence.
    + by apply view_alter.
Qed.

(** *** Every step keeps the rest of the invariant *)

(** The part of the invariant about the channel alone. *)
Record chan_inv c : Prop := {
  ci_nodup : NoDup (pending_list c);
  ci_reqid p o : heap c !! p = Some o → ps_reqid o ≤ reqid_counter c;
  ci_uniq p p' o o' : heap c !! p = Some o → heap c !! p' = Some o' →
    ps_reqid o = ps_reqid o' → p = p';
  ci_sent r : r ∈ rq_reqid <$> sent c → r ≤ reqid_counter c;
  ci_counter : 0 ≤ reqid_counter c < 2 ^ 64 - 1;
  ci_accepted x : x ∈ accepted c → verdict_ok x;
}.

(** What the threads know of the channel. *)
Definition threads_inv s : Prop :=
  (∀ h r v ru, handlers s !! h = Some (HLookup r v ru) →
     (r, v, ru) ∈ accepted (ch s) ∧ r ∈ rq_reqid <$> sent (ch s)) ∧
  (∀ w ret r v ru, waiters s !! w = Some (WRet ret (Some (r, v, ru))) → result_ok (ch s) (r, v, ru)) ∧
  (∀ w, waiters s !! w ≠ Some (WRet 0 None)) ∧
  (∀ w p ret, waiters s !! w = Some (WErr p ret) → ret ≠ 0) ∧
  (unload (ch s) ≠ Loaded → handlers_returned s).

Lemma inv_split s : inv s ↔ chan_inv (ch s) ∧ threads_inv s ∧ ∀ p, obj_ok s p.
Proof.
  split; [intros []; split_and!; try done; by split|].
  intros ([]&(?&?&?&?&?)&?). by split.
Qed.

(** Requests that lose objects or change what is not their number. *)
Lemma chan_inv_sub c l (hp : gmap nat av_pending_scan) :
  chan_inv c → NoDup l →
  (∀ p o, hp !! p = Some o → ∃ o', heap c !! p = Some o' ∧ ps_reqid o' = ps_reqid o) →
  chan_inv (set_pending l hp c).
Proof.
  intros Hc Hl Hh. split; simpl; try apply Hc; [done| |].
  - intros p o (o'&?&<-)%Hh. by eapply ci_reqid.
  - intros p p' o o' (x&?&<-)%Hh (x'&?&<-)%Hh. by eapply ci_uniq.
Qed.

Lemma chan_inv_daemon a b c : chan_inv c → chan_inv (set_daemon a b c).
Proof. intros []. by split. Qed.

Lemma chan_inv_notify a b d c : chan_inv c → chan_inv (av_netlink_notify a b d c).
Proof. intros. unfold av_netlink_notify. repeat case_match; auto using chan_inv_daemon. Qed.

Lemma chan_inv_drop p c : chan_inv c → chan_inv (kfree p (list_del_init p c)).
Proof.
  intros Hc. apply (chan_inv_sub c); [done| |].
  - apply NoDup_ListNoDup, List.NoDup_filter, NoDup_ListNoDup, Hc.
  - intros q o [_ ?]%lookup_delete_Some. eauto.
Qed.

Lemma chan_inv_kfree p c : chan_inv c → chan_inv (kfree p c).
Proof.
  intros Hc. apply (chan_inv_sub c); [done|apply Hc|].
  intros q o [_ ?]%lookup_delete_Some. eauto.
Qed.

Lemma chan_inv_alter p f c :
  (∀ o, ps_reqid (f o) = ps_reqid o) → chan_inv c →
  chan_inv (set_pending (pending_list c) (alter f p (heap c)) c).
Proof.
  intros Hf Hc. apply chan_inv_sub; [done|apply Hc|].
  intros q o [(?&x&?&->)|[? ?]]%lookup_alter_Some; subst; eauto.
Qed.

Lemma chan_inv_alloc p c :
  chan_inv c → heap c !! p = None → reqid_counter (scan_alloc p c) < 2 ^ 64 - 1 →
  chan_inv (scan_alloc p c).
Proof.
  intros Hc Hp Hlt. pose proof (ci_counter c Hc). simpl in Hlt.
  assert (u64 (reqid_counter c + 1) = reqid_counter c + 1) as Hu by (apply wrap_small; lia).
  split; simpl; rewrite ?Hu in *; try apply Hc; try lia.
  - intros q o [[_ <-]|[_ Ho]]%lookup_insert_Some; simpl; [lia|].
    apply (ci_reqid c Hc) in Ho. lia.
  - intros q q' o o' [[<- <-]|[_ Ho]]%lookup_insert_Some
      [[<- <-]|[_ Ho']]%lookup_insert_Some; simpl; [done|..].
    + apply (ci_reqid c Hc) in Ho'. lia.
    + apply (ci_reqid c Hc) in Ho. lia.
    + by eapply ci_uniq.
  - intros r Hr%(ci_sent c Hc). lia.
Qed.

Lemma chan_inv_deliver p r c :
  chan_inv c → (∃ o, heap c !! p = Some o ∧ ps_reqid o = rq_reqid r) →
  chan_inv (scan_deliver r c).
Proof.
  intros Hc (o&Ho&Hr). split; simpl; try apply Hc.
  intros x. csimpl. intros [->|?]%elem_of_cons; [|by apply Hc].
  rewrite <- Hr. by eapply ci_reqid.
Qed.

Lemma chan_inv_accept v c : chan_inv c → verdict_ok v → chan_inv (accept v c).
Proof.
  intros Hc Hv. split; simpl; try apply Hc. by intros x [->|?%Hc]%elem_of_cons.
Qed.

Lemma verdict_check_ok m c reqid v rule :
  verdict_check m c = inr (reqid, v, rule) →
  daemon_registered c = true ∧ vm_portid m = daemon_portid c ∧ verdict_ok (reqid, v, rule).
Proof.
  unfold verdict_check. destruct (vm_reqid m), (vm_verdict m) as [v'|]; try done.
  destruct (daemon_registered c); [|done]. destruct (Z.eqb_spec (vm_portid m) (daemon_portid c)); [|done].
  simpl. destruct (Z.eqb_spec v' AV_VERDICT_CLEAN), (Z.eqb_spec v' AV_VERDICT_MALICIOUS); try done;
    intros [= <- <- <-]; (split_and!; [done|done|auto|]);
    (destruct (vm_rule_name m) as [r|]; [|simpl; lia]);
    pose proof (strscpy_length r 64); unfold AV_RULE_NAME_MAXLEN; lia.
Qed.

Lemma view_accepted c c' p : chan_view c c' p → accepted c ⊆ accepted c'.
Proof. by intros (_&_&?&_). Qed.

(** Thread knowledge survives as the logs grow. *)
Lemma result_grows c c' x :
  accepted c ⊆ accepted c' → (unload c = Exited → unload c' = Exited) → result_ok c x → result_ok c' x.
Proof.
  intros Ha Hu. destruct x as [[r v] ru]. intros [(ru'&len&?&?)|(?&?&?)]; [left|right; auto].
  exists ru', len. auto.
Qed.

Lemma threads_waiter s w pc' c' :
  threads_inv s → accepted (ch s) ⊆ accepted c' →
  (rq_reqid <$> sent (ch s)) ⊆ (rq_reqid <$> sent c') → unload c' = unload (ch s) →
  (∀ ret x, pc' = WRet ret (Some x) → result_ok c' x) →
  pc' ≠ WRet 0 None → (∀ p ret, pc' = WErr p ret → ret ≠ 0) →
  threads_inv (set_waiter w (pc', c') s).
Proof.
  intros (Hl&Hr&Hn&He&Hg) Ha Hs Hu Hpc Hne Herr. unfold set_waiter. split_and!; simpl.
  - intros h r v ru Hh. destruct (Hl _ _ _ _ Hh). auto.
  - intros w' ret r v ru. rewrite lookup_insert. case_decide.
    + intros [= ->]. exact (Hpc _ _ eq_refl).
    + intros Hw. apply (result_grows (ch s) c' (r, v, ru)); [done|congruence|exact (Hr _ _ _ _ _ Hw)].
  - intros w'. rewrite lookup_insert. case_decide; [congruence|apply Hn].
  - intros w' p ret. rewrite lookup_insert. case_decide; [|apply He].
    intros [= ->]. by eapply Herr.
  - rewrite Hu. exact Hg.
Qed.

Lemma threads_handler s h pc' c' :
  threads_inv s → accepted (ch s) ⊆ accepted c' →
  (rq_reqid <$> sent (ch s)) ⊆ (rq_reqid <$> sent c') → unload c' = unload (ch s) →
  (∀ r v ru, pc' = HLookup r v ru → (r, v, ru) ∈ accepted c' ∧ r ∈ rq_reqid <$> sent c') →
  unload (ch s) = Loaded ∨ (∃ pc, handlers s !! h = Some pc ∧ ∀ ret, pc ≠ HRet ret) →
  threads_inv (set_handler h pc' c' s).
Proof.
  intros (Hl&Hr&Hn&He&Hg) Ha Hs Hu Hpc Hlive. unfold set_handler. split_and!; simpl.
  - intros h' r v ru. rewrite lookup_insert. case_decide.
    + intros [= ->]. by apply Hpc.
    + intros Hh. destruct (Hl _ _ _ _ Hh). auto.
  - intros w' ret r v ru Hw. apply (result_grows (ch s) c' (r, v, ru)); [done|congruence|exact (Hr _ _ _ _ _ Hw)].
  - exact Hn.
  - exact He.
  - rewrite Hu. intros Hne. destruct Hlive as [?|(pc&Hh&Hpc')]; [done|].
    destruct (Hg Hne h pc Hh) as [ret ->]. by destruct (Hpc' ret).
Qed.

(** *** The module's exit *)

Lemma unlink_all_spec (l : list nat) c :
  let c' := foldl (λ c p, complete p (list_del p c)) c l in
  unload c' = unload c ∧ accepted c' = accepted c ∧ sent c' = sent c ∧ reqid_counter c' = reqid_counter c ∧
  (∀ q, q ∈ pending_list c' ↔ q ∈ pending_list c ∧ q ∉ l) ∧
  (NoDup (pending_list c) → NoDup (pending_list c')) ∧
  ∀ q, heap c' !! q = if bool_decide (q ∈ l) then
    (λ o, {| ps_reqid := ps_reqid o; ps_poisoned := true; ps_done := true; ps_verdict := ps_verdict o;
             ps_rule_name := ps_rule_name o |}) <$> heap c !! q else heap c !! q.
Proof.
  revert c. induction l as [|p l IH]; intros c; cbn [foldl].
  { split_and!; try done. intros q. split; [intros ?; split; [done|apply not_elem_of_nil]|by intros [? _]]. }
  destruct (IH (complete p (list_del p c))) as (->&->&->&->&Hp&Hnd&Hh). split_and!; try done.
  - intros q. rewrite Hp, not_elem_of_cons.
    change (pending_list (complete p (list_del p c))) with (pending_list (list_del_init p c)).
    rewrite elem_list_del. tauto.
  - intros Hc. apply Hnd. simpl. by apply NoDup_ListNoDup, List.NoDup_filter, NoDup_ListNoDup.
  - intros q. rewrite Hh. simpl. destruct (decide (q = p)) as [->|Hne].
    + rewrite !lookup_alter_eq, (bool_decide_true (p ∈ p :: l)) by by left.
      case_bool_decide; by destruct (heap c !! p).
    + rewrite !lookup_alter_ne by done.
      rewrite (bool_decide_ext (q ∈ p :: l) (q ∈ l)); [done|]. rewrite elem_of_cons. tauto.
Qed.

Lemma exit_obj s :
  inv s → unload (ch s) = NoNotifier →
  ∀ p, obj_ok (set_ch (set_unload Exited (av_netlink_exit (ch s))) s) p.
Proof.
  intros Hi Hu p. destruct (unlink_all_spec (pending_list (ch s)) (ch s)) as (_&Ha&Hs&_&Hp&_&Hh).
  assert (no_holder s p) as Hno.
  { intros h pc [Hx Hpc]. destruct (i_gone s Hi ltac:(by rewrite Hu) h pc Hx) as [ret ->]. done. }
  assert (p ∉ pending_list (av_netlink_exit (ch s))) as Hnl by (unfold av_netlink_exit; rewrite Hp; tauto).
  pose proof (i_obj s Hi p) as Hok. unfold obj_ok in *. simpl.
  change (heap (av_netlink_exit (ch s)) !! p) with
    (heap (foldl (λ c p, complete p (list_del p c)) (ch s) (pending_list (ch s))) !! p). rewrite Hh.
  case_bool_decide as Hin.
  - destruct (heap (ch s) !! p) as [o|] eqn:Ho; [|by destruct Hok as (_&_&?)]. simpl.
    destruct (ps_poisoned o) eqn:Hpo; [by destruct Hok as (?&?&_&_&?&_)|].
    destruct Hok as [|w pc ? [[q ->]|[ret ->]]|w pc ? [->| ->]| |]; try done; eexists w, _; split_and!;
      try done; eauto 6.
  - destruct (heap (ch s) !! p) as [o|] eqn:Ho; [|by destruct Hok as (?&_&_)].
    destruct (ps_poisoned o) eqn:Hpo; [by destruct Hok as (?&?&_&_&_&_&_&_&?); congruence|].
    destruct Hok as [w q ? ? ? ? ? Hun| | |w pc h hp ? ? ? Hx|w pc ? ? ? ? ? Hacc]; try done.
    + eapply ph_unlinked; try done. unfold unsent. simpl. unfold av_netlink_exit. by rewrite Hs.
    + by destruct (Hno _ _ Hx).
    + eapply ph_done; try done. simpl. unfold av_netlink_exit. by rewrite Ha.
Qed.

Lemma scan_send_cases pad mis o q p c :
  (∃ ret, ret ≠ 0 ∧ scan_send pad mis o q p c = (WErr p ret, c)) ∨
  ∃ r, rq_reqid r = default 0 (ps_reqid <$> heap c !! p) ∧
       scan_send pad mis o q p c = (WWait p, scan_deliver r c).
Proof.
  unfold scan_send. destruct o as [| |ret]; [left; eexists; split; [|done]; unfold ENOMEM, EMSGSIZE; lia..|].
  destruct (put_request _ _ _ _ _) as [e|] eqn:He.
  - left. exists e; split; [|done]. unfold put_request, nla_put in He.
    repeat case_match; simplify_eq; unfold EMSGSIZE; lia.
  - destruct (Z.eqb_spec ret 0); simpl; [|left; by eexists].
    right. eexists. split; [|reflexivity]. done.
Qed.

Lemma verdict_lookup_view reqid c p c' :
  verdict_lookup reqid c = (Some p, c') → accepted c' = accepted c ∧ sent c' = sent c.
Proof.
  intros Hv. pose proof (verdict_lookup_spec reqid c) as Hs. rewrite Hv in Hs.
  destruct Hs as (_&_&_&->). done.
Qed.

Lemma exit_inv s :
  inv s → unload (ch s) = NoNotifier →
  let s' := set_ch (set_unload Exited (av_netlink_exit (ch s))) s in
  chan_inv (ch s') ∧ threads_inv s' ∧ ∀ p, obj_ok s' p.
Proof.
  intros Hi Hu s'. pose proof Hi as (Hc&(Hl&Hr&Hn&He&Hg)&_)%inv_split.
  destruct (unlink_all_spec (pending_list (ch s)) (ch s)) as (_&Ha&Hs&Hct&Hp&Hnd&Hh).
  split_and!; [|split_and!; [|..|done|done|]|by apply exit_obj].
  - destruct Hc as [C1 C2 C3 C4 C5 C6]. unfold s', set_ch, av_netlink_exit.
    assert (∀ p o, heap (foldl (λ c p, complete p (list_del p c)) (ch s) (pending_list (ch s))) !! p = Some o →
      ∃ o', heap (ch s) !! p = Some o' ∧ ps_reqid o' = ps_reqid o) as Hback.
    { intros p o. rewrite Hh. case_bool_decide; [|eauto].
      destruct (heap (ch s) !! p) as [o'|]; [|done]. intros [= <-]. by exists o'. }
    split; simpl; rewrite ?Ha, ?Hs, ?Hct; auto.
    + intros p o (o'&?&<-)%Hback. eauto.
    + intros p p' o o' (x&?&<-)%Hback (x'&?&<-)%Hback. eauto.
  - intros h r v ru. simpl. unfold av_netlink_exit. rewrite Ha, Hs. apply Hl.
  - intros w ret r v ru Hw. apply (result_grows (ch s) (ch s') (r, v, ru)); simpl;
      [by unfold av_netlink_exit; rewrite Ha|done|by eapply (i_ret s Hi)].
  - intros _. apply Hg. by rewrite Hu.
Qed.

(** The two unregistrations. *)
Lemma unload_inv u s :
  chan_inv (ch s) ∧ threads_inv s ∧ (∀ p, obj_ok s p) → handlers_returned s → unload (ch s) ≠ Exited →
  let s' := set_ch (set_unload u (ch s)) s in
  chan_inv (ch s') ∧ threads_inv s' ∧ ∀ p, obj_ok s' p.
Proof.
  intros (Hc&(Hl&Hr&Hn&He&Hg)&Ho) Hh Hx s'. split_and!.
  - destruct Hc. by split.
  - split_and!; try done. intros w ret r v ru Hw. apply (result_grows (ch s) (ch s') (r, v, ru)); [done|done|].
    by eapply Hr.
  - intros p. apply (obj_frame s); [|done]. by split_and!.
Qed.

Lemma step_inv s s' :
  inv s → step true s s' → reqid_counter (ch s') < 2 ^ 64 - 1 → inv s'.
Proof.
  intros Hi Hst Hlt. pose proof Hi as (Hc&Ht&Ho)%inv_split. apply inv_split.
  destruct Hst.
  - split_and!; [by apply chan_inv_daemon|done|].
    intros p. apply (obj_frame s); [|done]. split_and!; done.
  - split_and!; [by apply chan_inv_notify| |].
    + unfold threads_inv, set_ch. simpl.
      unfold result_ok.
      assert (accepted (av_netlink_notify event protocol portid (ch s)) = accepted (ch s) ∧
        sent (av_netlink_notify event protocol portid (ch s)) = sent (ch s) ∧
        unload (av_netlink_notify event protocol portid (ch s)) = unload (ch s)) as (->&->&->)
        by (unfold av_netlink_notify; repeat case_match; done). done.
    + intros p. apply (obj_frame s); [|done]. split_and!; try done; by apply view_notify.
  - assert ((∃ q, scan_begin path sha pid (ch s) = WAlloc q) ∨
      scan_begin path sha pid (ch s) = WRet (- ENOTCONN) None) as Hb.
    { unfold scan_begin. destruct (daemon_registered (ch s)); [left; by eexists|by right]. }
    split_and!; [done| |].
    { destruct Hb as [[? ->]| ->]; by apply threads_waiter. }
    apply waiter_noobj; [done|congruence|by destruct Hb as [[? ->]| ->]|intros; apply chan_view_refl].
  - split_and!; [done|by apply threads_waiter|].
    apply waiter_noobj; [done|intros; by simplify_eq|done|intros; apply chan_view_refl].
  - split_and!; [by apply chan_inv_alloc|by apply threads_waiter|by apply alloc_obj].
  - split_and!; [|by apply threads_waiter|by apply link_obj].
    apply (chan_inv_sub (ch s)); [done| |by eauto]. apply NoDup_cons. split; [|apply Hc].
    phase_of Hi H. done.
  - split_and!; [| |by apply send_obj].
    + destruct (scan_send_cases pad misaligned o q p (ch s)) as [(ret&_&->)|(r&Hr&->)]; [done|].
      simpl. apply (chan_inv_deliver p); [done|].
      destruct (owner_phase _ _ _ _ Hi H eq_refl) as (ob&Hob&_). exists ob. by rewrite Hr, Hob.
    + destruct (scan_send_cases pad misaligned o q p (ch s)) as [(ret&Hne&->)|(r&Hr&->)];
        apply threads_waiter; try done; simpl; csimpl; [congruence|].
      intros x ?. by right.
  - assert (ret ≠ 0) by (by apply (i_err s Hi w p)). split_and!; [| |by apply error_obj].
    + unfold scan_error. rewrite drop_eq. destruct (poisoned _ _); [done|by apply chan_inv_drop].
    + unfold scan_error. destruct (poisoned _ _); apply threads_waiter; try done. congruence.
  - assert (∃ pc, waiters s !! w = Some pc ∧ (pc = WWait p ∨ pc = WWait2 p)) as (pc&Hw&Hpc).
    { destruct H; eexists; (split; [done|]); [by left|by right]. }
    assert (wobj pc = Some p) as Hp by by destruct Hpc as [-> | ->].
    destruct (owner_phase _ _ _ _ Hi Hw Hp) as (ob&Hob&Hph).
    split_and!; [| |by eapply woken_obj].
    + unfold scan_finish. destruct (heap (ch s) !! p); by apply chan_inv_kfree.
    + unfold is_done in *. rewrite Hob in *. unfold scan_finish. rewrite Hob. apply threads_waiter; try done.
      intros ret x [= <- <-]. destruct (ps_poisoned ob).
      { destruct Hph as (?&?&_&_&_&_&_&[-> ->]&?). right. split_and!; [done|by apply take_nil|done]. }
      inversion Hph as [| | | |w' pc' Hso _ _ _ Hdone Hacc]; try congruence. left. by eexists _, _.
  - split_and!; [done|by apply threads_waiter|by apply expire_obj].
  - split_and!; [| |by apply timeout_obj]; unfold scan_timeout;
      (destruct (bool_decide _ || _); [destruct (poisoned (ch s) p)|]);
      first [by apply threads_waiter|by apply chan_inv_drop|done].
  - split_and!; [done|apply threads_handler; auto; done|].
    apply handler_noobj; [done|congruence|done|intros; apply chan_view_refl].
  - split_and!; [done|apply threads_handler; eauto; done|].
    apply handler_noobj; [done|intros; by simplify_eq|done|intros; apply chan_view_refl].
  - pose proof (verdict_check_ok _ _ _ _ _ H0) as (_&_&Hv).
    split_and!; [by apply chan_inv_accept| |].
    + apply threads_handler; simpl; eauto; [intros x ?; by right|].
      intros r v' ru [= -> -> ->]. split; [by left|auto].
    + apply handler_noobj; [done|intros; by simplify_eq|done|intros; apply view_accept].
  - split_and!; [done|apply threads_handler; eauto; done|].
    apply handler_noobj; [done|intros; by simplify_eq|done|intros; apply chan_view_refl].
  - pose proof (found_obj s h reqid v rule p Hi H H0) as Hob.
    pose proof (verdict_lookup_spec reqid (ch s)) as Hs.
    destruct (verdict_lookup reqid (ch s)) as [? c']. simpl in *. subst.
    destruct Hs as (Hin&_&Hnd&Hc'). destruct (Hnd (i_nodup s Hi)) as [Hnd' _].
    split_and!; [| |exact Hob].
    + rewrite Hc'. apply (chan_inv_sub (ch s)); [done|done|by eauto].
    + rewrite Hc'. apply threads_handler; eauto; done.
  - split_and!; [by apply chan_inv_alter|apply threads_handler; eauto; done|by apply write_obj].
  - split_and!; [by apply chan_inv_alter|apply threads_handler; eauto; done|by apply complete_obj].
  - apply unload_inv; try done. by rewrite H.
  - apply unload_inv; [done|apply (i_gone s Hi)|]; by rewrite H.
  - by apply exit_inv.
Qed.

Lemma inv_init : inv init_sys.
Proof.
  apply inv_split. split_and!.
  - split; simpl; [by apply NoDup_nil_2| | | |lia|].
    + intros p o. by rewrite lookup_empty.
    + intros p p' o o'. by rewrite lookup_empty.
    + by intros r ?%elem_of_nil.
    + by intros x ?%elem_of_nil.
  - split_and!; simpl; intros; by rewrite ?lookup_empty in *.
  - intros p. unfold obj_ok. simpl. rewrite lookup_empty. split_and!.
    + by intros w pc [? _].
    + by intros h pc [? _].
    + apply not_elem_of_nil.
Qed.

Lemma reachable_inv s : reachable true s → inv s.
Proof. induction 1; [apply inv_init|by eapply step_inv]. Qed.

(** ** Properties *)

(** C11: no request is used after it is freed, leaked or shared, in any
    interleaving of calls, registrations, daemon deaths, time-outs, send
    errors, verdicts and the module's exit, as long as the registered daemon
    only answers requests it was sent ([reachable true]) and the request
    numbers have not run out: every request that a waiter, a handler or the
    pending list refers to is allocated; every allocated request belongs to
    exactly one waiter that has not returned; at most one handler has taken
    it, and then it is off the list.  A waiter faults, over a link that is no
    longer valid, only after [av_netlink_exit] found its request pending. *)
Theorem request_lifetime s :
  reachable true s →
  (∀ w pc p, owner s p w pc → is_Some (heap (ch s) !! p)) ∧
  (∀ h pc p, holder s p h pc → is_Some (heap (ch s) !! p) ∧ (p ∉ pending_list (ch s)) ∧
     ∀ h' pc', holder s p h' pc' → h' = h) ∧
  (∀ p, p ∈ pending_list (ch s) → is_Some (heap (ch s) !! p)) ∧
  (∀ p, is_Some (heap (ch s) !! p) → ∃ w pc, sole_owner s p w pc) ∧
  (∀ w p, waiters s !! w = Some (WOops p) → unload (ch s) = Exited ∧ (p ∉ pending_list (ch s)) ∧
     is_done (ch s) p = true).
Proof.
  intros Hi%reachable_inv. split_and!.
  - intros w pc p [Hw Hp]. destruct (owner_phase _ _ _ _ Hi Hw Hp) as (o&->&_). by eexists.
  - intros h pc p Hh. pose proof Hh as [Hh1 Hp].
    destruct (holder_phase _ _ _ _ Hi Hh1 Hp) as (o&->&_&Hph). split; [by eexists|].
    inversion Hph as [? ? ? ? Hnh|? ? ? ? ? Hnh|? ? ? ? ? Hnh|? ? h0 ? ? ? Hnl ? Hu|? ? ? ? ? Hnh];
      try (by destruct (Hnh h pc)).
    split; [done|]. intros h' pc' Hx. by rewrite (Hu _ _ Hx), (Hu _ _ Hh).
  - intros p Hp. pose proof (i_obj s Hi p) as Ho. unfold obj_ok in Ho.
    destruct (heap (ch s) !! p); [by eexists|]. by destruct Ho as (_&_&?).
  - intros p [o Ho]. pose proof (i_obj s Hi p) as Hok. unfold obj_ok in Hok. rewrite Ho in Hok.
    destruct (ps_poisoned o); [destruct Hok as (?&?&?&_)|destruct Hok]; by eexists _, _.
  - intros w p Hw. phase_of Hi Hw. unfold is_done. by rewrite Ho.
Qed.

(** C12: a call that returns 0 returns a verdict that was taken for the
    number of its own request, clean or malicious and nothing else, with its
    rule name, or, only once the module's exit has woken it, the initial -1
    without a rule; and a verdict is only ever taken from the socket that is
    registered at that moment.  As in C11, the registered daemon only answers
    requests it was sent. *)
Theorem verdict_authentic s w out m c reqid v rule :
  reachable true s →
  (waiters s !! w = Some (WRet 0 out) →
   ∃ r v' ru, out = Some (r, v', ru) ∧
     ((∃ ru' len, (r, v', ru') ∈ accepted (ch s) ∧ ru = strscpy ru' len ∧
         (v' = AV_VERDICT_CLEAN ∨ v' = AV_VERDICT_MALICIOUS)) ∨
      (unload (ch s) = Exited ∧ v' = -1 ∧ ru = []))) ∧
  (verdict_check m c = inr (reqid, v, rule) →
   daemon_registered c = true ∧ vm_portid m = daemon_portid c ∧
   (v = AV_VERDICT_CLEAN ∨ v = AV_VERDICT_MALICIOUS)).
Proof.
  intros Hi%reachable_inv. split.
  - intros Hw. destruct out as [[[r v'] ru]|]; [|by destruct (i_ret_none s Hi w)].
    exists r, v', ru. split; [done|].
    destruct (i_ret s Hi _ _ _ _ _ Hw) as [(ru'&len&Ha&Hru)|(?&?&?)]; [left|by right].
    destruct (i_accepted s Hi _ Ha) as [Hv _]. by exists ru', len.
  - intros Hv%verdict_check_ok. destruct Hv as (?&?&?&_). by split_and!.
Qed.

(** The wait without a time-out cannot hang: a waiter is there only while
    a handler has taken its request, and the handler's own next steps complete
    it; and a waiter whose time-out finds the request still listed returns at
    once. *)
Theorem unconditional_wait_progress s w p :
  reachable true s →
  (waiters s !! w = Some (WWait2 p) →
   is_done (ch s) p = true ∨
   (∃ h, handlers s !! h = Some (HWritten p) ∧ is_done (complete p (ch s)) p = true) ∨
   (∃ h v rule, handlers s !! h = Some (HFound p v rule) ∧
      is_done (complete p (verdict_write p v rule (ch s))) p = true)) ∧
  (waiters s !! w = Some (WTimeout p) → p ∈ pending_list (ch s) →
   (scan_timeout p (ch s)).1 = WRet (- ETIMEDOUT) None).
Proof.
  intros Hi%reachable_inv. split.
  - intros Hw. phase_of Hi Hw.
    + right. destruct Hh as [Hh Hp].
      destruct hp as [| |p' v rule|p'|]; simpl in *; simplify_eq; [right|left].
      * exists h, v, rule. split; [done|]. unfold is_done. simpl.
        by rewrite !lookup_alter_eq, Ho.
      * exists h. split; [done|]. unfold is_done. simpl. by rewrite lookup_alter_eq, Ho.
    + left. unfold is_done. by rewrite Ho.
  - intros Hw Hin. unfold scan_timeout, poisoned. rewrite bool_decide_true by done.
    phase_of Hi Hw; try done. by rewrite Ho, Hpo.
Qed.

(** ** The message always fits *)

Lemma NLA_ALIGN_bounds n : 0 ≤ n → n ≤ NLA_ALIGN n < n + 4.
Proof.
  intros. unfold NLA_ALIGN. rewrite <- Z.ldiff_land. change 3 with (Z.ones 2).
  rewrite Z.ldiff_ones_r, Z.shiftr_div_pow2, Z.shiftl_mul_pow2 by lia.
  change (Z.ones 2) with 3. change (2 ^ 2) with 4.
  pose proof (Z.div_mod (n + 3) 4). pose proof (Z.mod_pos_bound (n + 3) 4). lia.
Qed.

(** The buffer is sized so that a scan request can always be written, for
    a path and digest of any length and on architectures with and without the
    64-bit alignment attribute, and it has no more than that attribute's bytes
    to spare: a long path never turns into -EMSGSIZE. *)
Theorem request_fits pad misaligned path sha256_hex :
  ∃ left, put_request pad misaligned (payload_size pad path sha256_hex) path sha256_hex = inr left ∧
    0 ≤ left ≤ 4.
Proof.
  unfold put_request, payload_size, nla_total_size_64bit, nla_total_size, nla_put, NLA_HDRLEN.
  pose proof (NLA_ALIGN_bounds (4 + (Z.of_nat (length path) + 1))).
  pose proof (NLA_ALIGN_bounds (4 + (Z.of_nat (length sha256_hex) + 1))).
  set (a := NLA_ALIGN (4 + (Z.of_nat (length path) + 1))) in *.
  set (b := NLA_ALIGN (4 + (Z.of_nat (length sha256_hex) + 1))) in *.
  change (NLA_ALIGN (4 + 8)) with 12. change (NLA_ALIGN (4 + 4)) with 8.
  change (NLA_ALIGN 4) with 4.
  destruct pad, misaligned; cbn [andb];
    repeat match goal with
    | |- context [?x <? ?y] => destruct (Z.ltb_spec x y); [lia|]
    end; (eexists; split; [reflexivity|lia]).
Qed.

End life.

(** ** Start and stop *)

Inductive registered := Notifier | Family.

#[export] Instance registered_eq_dec : EqDecision registered.
Proof. solve_decision. Defined.

(** What is registered on return; the arguments are the two calls' results. *)
Definition av_netlink_init (notifier_ret family_ret : Z) : Z * list registered :=
  if negb (notifier_ret =? 0) then (notifier_ret, [])
  else
    let held := [Notifier] in
    if negb (family_ret =? 0) then (family_ret, List.remove registered_eq_dec Notifier held)
    else (0, Family :: held).

(** ** Examples *)

Module NetlinkExamples.

Definition req : call := {| cl_path := cs "/tmp/x"; cl_sha256 := []; cl_pid := 9; cl_portid := 7 |}.
Definition clean1 : verdict_msg :=
  {| vm_portid := 7; vm_reqid := Some 1; vm_verdict := Some 0; vm_rule_name := None |}.

Definition s1 := set_ch (av_nl_register_doit 7 (ch init_sys)) init_sys.
Definition s2 := set_waiter 0 (scan_begin (cs "/tmp/x") [] 9 (ch s1), ch s1) s1.
Definition s3 := set_waiter 0 (WLink req 0, scan_alloc 0 (ch s2)) s2.
Definition s4 := set_waiter 0 (WSend req 0, scan_link 0 (ch s3)) s3.
Definition s5 := set_waiter 0 (scan_send false false (Unicast 0) req 0 (ch s4)) s4.
Definition s6 := set_handler 0 (HCheck clean1) (ch s5) s5.
Definition s7 := set_handler 0 (HLookup 1 0 []) (accept (1, 0, []) (ch s6)) s6.
Definition s8 := set_handler 0 (HFound 0 0 []) (verdict_lookup 1 (ch s7)).2 s7.
Definition s9 := set_waiter 0 (WTimeout 0, ch s8) s8.
Definition s10 := set_waiter 0 (scan_timeout 0 (ch s9)) s9.
Definition s11 := set_handler 0 (HWritten 0) (verdict_write 0 0 [] (ch s10)) s10.
Definition s12 := set_handler 0 (HRet 0) (complete 0 (ch s11)) s11.
Definition s13 := set_waiter 0 (scan_finish 64 0 (ch s12)) s12.

(** The request is sent, its verdict races with the time-out and wins. *)
Lemma reach10 : reachable true s10.
Proof.
  eapply reach_step; [|by apply (step_timeout true s9 0 0)|by vm_compute].
  eapply reach_step; [|by apply (step_expire true s8 0 0)|by vm_compute].
  eapply reach_step; [|by apply (step_found true s7 0 1 0 [] 0)|by vm_compute].
  eapply reach_step; [|by apply (step_check_ok true s6 0 clean1 1 0 []);
    [| |intros _; left]|by vm_compute].
  eapply reach_step; [|by apply (step_recv true s5 0 clean1)|by vm_compute].
  eapply reach_step; [|by apply (step_send true s4 0 req 0 false false (Unicast 0))|by vm_compute].
  eapply reach_step; [|by apply (step_link true s3 0 req 0)|by vm_compute].
  eapply reach_step; [|by apply (step_alloc true s2 0 req 0)|by vm_compute].
  eapply reach_step; [|by apply (step_call true s1 0 (cs "/tmp/x") [] 9)|by vm_compute].
  eapply reach_step; [constructor|by apply (step_register true init_sys 7)|by vm_compute].
Qed.

Lemma reach13 : reachable true s13.
Proof.
  eapply reach_step; [|apply (step_woken true s12 0 0 64); [by right|by vm_compute]|by vm_compute].
  eapply reach_step; [|by apply (step_complete true s11 0 0)|by vm_compute].
  eapply reach_step; [|by apply (step_write true s10 0 0 0 [])|by vm_compute].
  apply reach10.
Qed.

Lemma request_lifetime_witness : is_Some (heap (ch s10) !! 0%nat).
Proof.
  apply (proj1 (request_lifetime s10 reach10) 0%nat (WWait2 0)). split; reflexivity.
Defined.

Lemma verdict_authentic_witness :
  ∃ r v' ru, Some (1, 0, []) = Some (r, v', ru) ∧
    ((∃ ru' len, (r, v', ru') ∈ accepted (ch s13) ∧ ru = strscpy ru' len ∧
        (v' = AV_VERDICT_CLEAN ∨ v' = AV_VERDICT_MALICIOUS)) ∨
     (unload (ch s13) = Exited ∧ v' = -1 ∧ ru = [])).
Proof.
  apply (proj1 (verdict_authentic s13 0 (Some (1, 0, [])) clean1 (ch s5) 1 0 [] reach13)).
  reflexivity.
Defined.

Lemma unconditional_wait_witness :
  is_done (ch s10) 0 = true ∨
   (∃ h, handlers s10 !! h = Some (HWritten 0) ∧ is_done (complete 0 (ch s10)) 0 = true) ∨
   (∃ h v rule, handlers s10 !! h = Some (HFound 0 v rule) ∧
      is_done (complete 0 (verdict_write 0 v rule (ch s10))) 0 = true).
Proof. apply (proj1 (unconditional_wait_progress s10 0 0 reach10)). reflexivity. Defined.

(** Without the assumption that the daemon only answers what it was sent, the
    error path frees a request a handler has already taken: the unicast fails
    while a verdict with the (guessable) request number is being handled. *)
Definition u5 := set_waiter 0 (scan_send false false (Unicast (-111)) req 0 (ch s4)) s4.
Definition u6 := set_handler 0 (HCheck clean1) (ch u5) u5.
Definition u7 := set_handler 0 (HLookup 1 0 []) (accept (1, 0, []) (ch u6)) u6.
Definition u8 := set_handler 0 (HFound 0 0 []) (verdict_lookup 1 (ch u7)).2 u7.
Definition u9 := set_waiter 0 (scan_error 0 (-111) (ch u8)) u8.

Lemma error_path_frees_taken_request :
  reachable false u9 ∧ holder u9 0 0 (HFound 0 0 []) ∧ heap (ch u9) !! 0%nat = None.
Proof.
  split; [|by split; [split|]].
  eapply reach_step; [|by apply (step_error false u8 0 0 (-111))|by vm_compute].
  eapply reach_step; [|by apply (step_found false u7 0 1 0 [] 0)|by vm_compute].
  eapply reach_step; [|by apply (step_check_ok false u6 0 clean1 1 0 [])|by vm_compute].
  eapply reach_step; [|by apply (step_recv false u5 0 clean1)|by vm_compute].
  eapply reach_step; [|by apply (step_send false s4 0 req 0 false false (Unicast (-111)))|by vm_compute].
  eapply reach_step; [|by apply (step_link false s3 0 req 0)|by vm_compute].
  eapply reach_step; [|by apply (step_alloc false s2 0 req 0)|by vm_compute].
  eapply reach_step; [|by apply (step_call false s1 0 (cs "/tmp/x") [] 9)|by vm_compute].
  eapply reach_step; [constructor|by apply (step_register false init_sys 7)|by vm_compute].
Qed.

(** The three steps of the module's exit. *)
Definition exited (s : sys) : sys := set_ch (set_unload Exited (av_netlink_exit (ch s))) s.
Definition left (s : sys) : sys :=
  exited (set_ch (set_unload NoNotifier (set_unload NoFamily (ch s))) s).

Lemma reach_left s :
  reachable true s → unload (ch s) = Loaded → handlers_returned s →
  reqid_counter (ch s) < 2 ^ 64 - 1 → reqid_counter (ch (left s)) < 2 ^ 64 - 1 → reachable true (left s).
Proof.
  intros Hs Hl Hh Hc Hc'.
  eapply reach_step; [|by apply (step_exit true (set_ch (set_unload NoNotifier (set_unload NoFamily (ch s))) s))|done].
  eapply reach_step; [|by apply (step_unregister_notifier true (set_ch (set_unload NoFamily (ch s)) s))|done].
  eapply reach_step; [done|by apply step_unregister_family|done].
Qed.

Lemma reach5 : reachable true s4 ∧ reachable true s5.
Proof.
  assert (reachable true s4) as H4.
  { eapply reach_step; [|by apply (step_link true s3 0 req 0)|by vm_compute].
    eapply reach_step; [|by apply (step_alloc true s2 0 req 0)|by vm_compute].
    eapply reach_step; [|by apply (step_call true s1 0 (cs "/tmp/x") [] 9)|by vm_compute].
    eapply reach_step; [constructor|by apply (step_register true init_sys 7)|by vm_compute]. }
  split; [done|].
  by eapply reach_step; [done|apply (step_send true s4 0 req 0 false false (Unicast 0))|vm_compute].
Qed.

(** A waiter woken by the module's exit returns success with verdict -1. *)
Example exit_wakes_without_verdict :
  let s := set_waiter 0 (scan_finish 64 0 (ch (left s5))) (left s5) in
  reachable true s ∧ waiters s !! 0%nat = Some (WRet 0 (Some (1, -1, []))).
Proof.
  split; [|by vm_compute].
  eapply reach_step; [|apply (step_woken true (left s5) 0 0 64); [by left|by vm_compute]|by vm_compute].
  by apply reach_left; [apply reach5|..].
Qed.

(** A call that the exit finds between [list_add] and the wait unlinks its request a second time if
    the send fails, and faults. *)
Example exit_faults_sender :
  let s := set_waiter 0 (scan_send false false (Unicast (-111)) req 0 (ch (left s4))) (left s4) in
  let s' := set_waiter 0 (scan_error 0 (-111) (ch s)) s in
  reachable true s' ∧ waiters s' !! 0%nat = Some (WOops 0).
Proof.
  split; [|by vm_compute].
  eapply reach_step; [|by apply (step_error true _ 0 0 (-111))|by vm_compute].
  eapply reach_step; [|by apply (step_send true (left s4) 0 req 0 false false (Unicast (-111)))|by vm_compute].
  by apply reach_left; [apply reach5|..].
Qed.

(** And so does one whose time has just run out. *)
Example exit_faults_timed_out :
  let s := set_waiter 0 (WTimeout 0, ch s5) s5 in
  let s' := set_waiter 0 (scan_timeout 0 (ch (left s))) (left s) in
  reachable true s' ∧ waiters s' !! 0%nat = Some (WOops 0).
Proof.
  split; [|by vm_compute].
  eapply reach_step; [|by apply (step_timeout true (left (set_waiter 0 (WTimeout 0, ch s5) s5)) 0 0)|by vm_compute].
  apply reach_left; try done.
  by eapply reach_step; [apply reach5|apply (step_expire true s5 0 0)|vm_compute].
Qed.

End NetlinkExamples.
