(* ===== verification/Hooks.v ===== *)
(** * The syscall hooks: av/main.c

    The kprobe handlers run in atomic context: they admit an event against
    [av_inflight_work], copy the arguments and queue a work item, or drop the
    event, releasing whatever they had taken.  The work functions run later
    and release what the item holds.  [kstate] counts the references and
    allocations so that the pairing can be checked.  The user's memory, the
    caller's descriptors and every allocation outcome are arguments. *)

From Stdlib Require Import ZArith Lia Ascii String.
From stdpp Require Import prelude list gmap strings.
From S2P Require Import Prelude CString Hashtable AllowLists Paths Window Kill Behavior.

Local Open Scope Z_scope.

Definition AV_MAX_INFLIGHT_WORK : Z := 4096.
Definition AV_EXEC_RESERVED_WORK : Z := 512.
Definition AT_FDCWD : Z := -100.
Definition AT_EMPTY_PATH : Z := 4096.

Section hooks.
(** What a [struct path] designates. *)
Context {B : Type}.

(** ** Work items *)

Inductive work :=
  | AvWork (target_pid tgid start_time : Z) (pwd : B) (path : cstr)
  | AvOpenatWork (target_pid pid flags : Z) (base : B) (path : cstr)
  | AvUnlinkWork (target_pid pid : Z) (base : B) (path : cstr)
  | AvRenameWork (target_pid pid : Z) (old_base new_base : B) (oldpath newpath : cstr).

Definition is_exec (w : work) : bool :=
  match w with AvWork _ _ _ _ _ => true | _ => false end.

(** The number of [struct path] references an item holds. *)
Definition path_refs_of (w : work) : Z :=
  match w with AvRenameWork _ _ _ _ _ _ => 2 | _ => 1 end.

Record kstate := {
  av_inflight_work : Z;
  path_refs : Z;      (* path_get minus path_put *)
  pid_refs : Z;       (* get_task_pid minus put_pid *)
  work_allocs : Z;    (* kmalloc'd work structs not yet freed *)
  queue : list work;  (* on av_wq, not yet finished *)
}.

Implicit Types (k : kstate) (w : work).

Definition upd k (di dp dt da : Z) (q : list work) : kstate :=
  {| av_inflight_work := av_inflight_work k + di; path_refs := path_refs k + dp;
     pid_refs := pid_refs k + dt; work_allocs := work_allocs k + da; queue := q |}.

Definition path_get k : kstate := upd k 0 1 0 0 (queue k).
Definition path_put k : kstate := upd k 0 (-1) 0 0 (queue k).
Definition get_task_pid k : kstate := upd k 0 0 1 0 (queue k).
Definition put_pid k : kstate := upd k 0 0 (-1) 0 (queue k).
Definition work_kmalloc k : kstate := upd k 0 0 0 1 (queue k).
Definition work_kfree k : kstate := upd k 0 0 0 (-1) (queue k).
Definition queue_work w k : kstate := upd k 0 0 0 0 (queue k ++ [w]).

(** ** Admission *)

Definition atomic_inc k : kstate := upd k 1 0 0 0 (queue k).
Definition av_work_release k : kstate := upd k (-1) 0 0 0 (queue k).

(** [atomic_inc_return] compared with an unsigned cap. *)
Definition av_work_admit_capped (cap : Z) k : bool * kstate :=
  let k := atomic_inc k in
  if cap <? u32 (av_inflight_work k) then (false, av_work_release k) else (true, k).

Definition av_work_admit : kstate → bool * kstate := av_work_admit_capped AV_MAX_INFLIGHT_WORK.
Definition av_work_admit_nonexec : kstate → bool * kstate :=
  av_work_admit_capped (AV_MAX_INFLIGHT_WORK - AV_EXEC_RESERVED_WORK).

(** ** The handlers *)

(** A user pointer: NULL, or one whose string is readable ([Some]) or faults. *)
Inductive user_ptr := Null | Ptr (content : option cstr).

(** [strncpy_from_user(dst, src, PATH_MAX)]: the length copied, PATH_MAX when
    the string does not fit, or a fault. *)
Definition strncpy_from_user (content : option cstr) : Z :=
  match content with
  | None => - EFAULT
  | Some s => Z.of_nat (length s `min` PATH_MAX)
  end.

(** The calling task. *)
Record task := {
  cur_pid : Z; cur_tgid : Z; cur_start_time : Z;
  cur_cwd : B; cur_fds : Z → option B;
}.

(** Takes a reference on success. *)
Definition resolve_dfd_path (cur : task) (dfd : Z) k : option B * kstate :=
  if dfd =? AT_FDCWD then (Some (cur_cwd cur), path_get k)
  else match cur_fds cur dfd with
       | None => (None, k)
       | Some b => (Some b, path_get k)
       end.

Definition bad_len (path_len : Z) : bool :=
  (path_len <=? 0) || (Z.of_nat PATH_MAX <=? path_len).

Definition handler_pre (regs_ok : bool) (user_filename : user_ptr) (kmalloc_ok : bool)
    (cur : task) k : kstate :=
  if negb regs_ok then k
  else match user_filename with
  | Null => k
  | Ptr content =>
      let '(admitted, k) := av_work_admit k in
      if negb admitted then k
      else if negb kmalloc_ok then av_work_release k
      else
        let k := work_kmalloc k in
        if bad_len (strncpy_from_user content) then av_work_release (work_kfree k)
        else
          let k := path_get (get_task_pid k) in
          queue_work (AvWork (cur_pid cur) (cur_tgid cur) (cur_start_time cur) (cur_cwd cur)
                        (default [] content)) k
  end.

Definition handler_pre_execveat (regs_ok : bool) (dfd : Z) (user_filename : user_ptr)
    (flags : Z) (kmalloc_ok : bool) (cur : task) k : kstate :=
  if negb regs_ok then k
  else match user_filename with
  | Null => k
  | Ptr content =>
      let empty_path := negb (Z.land flags AT_EMPTY_PATH =? 0) in
      match resolve_dfd_path cur dfd k with
      | (None, k) => k
      | (Some base, k) =>
          let '(admitted, k) := av_work_admit k in
          if negb admitted then path_put k
          else if negb kmalloc_ok then av_work_release (path_put k)
          else
            let k := work_kmalloc k in
            let path_len := strncpy_from_user content in
            if (path_len <? 0) || (Z.of_nat PATH_MAX <=? path_len)
               || (path_len =? 0) && negb empty_path
            then av_work_release (work_kfree (path_put k))
            else
              queue_work (AvWork (cur_pid cur) (cur_tgid cur) (cur_start_time cur) base
                            (default [] content)) (get_task_pid k)
      end
  end.

Definition handler_pre_openat (regs_ok : bool) (dfd : Z) (user_filename : user_ptr)
    (flags : Z) (kmalloc_ok : bool) (cur : task) k : kstate :=
  if negb regs_ok then k
  else match user_filename with
  | Null => k
  | Ptr content =>
      if negb (write_intent flags) then k
      else match resolve_dfd_path cur dfd k with
      | (None, k) => k
      | (Some base, k) =>
          let '(admitted, k) := av_work_admit_nonexec k in
          if negb admitted then path_put k
          else if negb kmalloc_ok then av_work_release (path_put k)
          else
            let k := work_kmalloc k in
            if bad_len (strncpy_from_user content)
            then av_work_release (work_kfree (path_put k))
            else
              queue_work (AvOpenatWork (cur_pid cur) (cur_tgid cur) flags base
                            (default [] content)) (get_task_pid k)
      end
  end.

Definition schedule_unlink_work (user_path : user_ptr) (dfd : Z) (kmalloc_ok : bool)
    (cur : task) k : kstate :=
  match user_path with
  | Null => k
  | Ptr content =>
      match resolve_dfd_path cur dfd k with
      | (None, k) => k
      | (Some base, k) =>
          let '(admitted, k) := av_work_admit_nonexec k in
          if negb admitted then path_put k
          else if negb kmalloc_ok then av_work_release (path_put k)
          else
            let k := work_kmalloc k in
            if bad_len (strncpy_from_user content)
            then av_work_release (work_kfree (path_put k))
            else
              queue_work (AvUnlinkWork (cur_pid cur) (cur_tgid cur) base (default [] content))
                (get_task_pid k)
      end
  end.

Definition handler_pre_unlink (regs_ok : bool) (user_path : user_ptr) (kmalloc_ok : bool)
    (cur : task) k : kstate :=
  if negb regs_ok then k else schedule_unlink_work user_path AT_FDCWD kmalloc_ok cur k.

Definition handler_pre_unlinkat (regs_ok : bool) (dfd : Z) (user_path : user_ptr)
    (kmalloc_ok : bool) (cur : task) k : kstate :=
  if negb regs_ok then k else schedule_unlink_work user_path dfd kmalloc_ok cur k.

Definition schedule_rename_work (user_oldpath : user_ptr) (olddfd : Z)
    (user_newpath : user_ptr) (newdfd : Z) (kmalloc_ok : bool) (cur : task) k : kstate :=
  match user_oldpath, user_newpath with
  | Ptr old, Ptr new =>
      match resolve_dfd_path cur olddfd k with
      | (None, k) => k
      | (Some old_base, k) =>
          match resolve_dfd_path cur newdfd k with
          | (None, k) => path_put k
          | (Some new_base, k) =>
              let '(admitted, k) := av_work_admit_nonexec k in
              if negb admitted then path_put (path_put k)
              else if negb kmalloc_ok then av_work_release (path_put (path_put k))
              else
                let k := work_kmalloc k in
                if bad_len (strncpy_from_user old)
                then av_work_release (work_kfree (path_put (path_put k)))
                else if bad_len (strncpy_from_user new)
                then av_work_release (work_kfree (path_put (path_put k)))
                else
                  queue_work (AvRenameWork (cur_pid cur) (cur_tgid cur) old_base new_base
                                (default [] old) (default [] new)) (get_task_pid k)
          end
      end
  | _, _ => k
  end.

Definition handler_pre_rename (regs_ok : bool) (user_oldpath user_newpath : user_ptr)
    (kmalloc_ok : bool) (cur : task) k : kstate :=
  if negb regs_ok then k
  else schedule_rename_work user_oldpath AT_FDCWD user_newpath AT_FDCWD kmalloc_ok cur k.

Definition handler_pre_renameat (regs_ok : bool) (olddfd : Z) (user_oldpath : user_ptr)
    (newdfd : Z) (user_newpath : user_ptr) (kmalloc_ok : bool) (cur : task) k : kstate :=
  if negb regs_ok then k
  else schedule_rename_work user_oldpath olddfd user_newpath newdfd kmalloc_ok cur k.

(** The flags of renameat2 are not looked at. *)
Definition handler_pre_renameat2 (regs_ok : bool) (olddfd : Z) (user_oldpath : user_ptr)
    (newdfd : Z) (user_newpath : user_ptr) (flags : Z) (kmalloc_ok : bool) (cur : task) k : kstate :=
  if negb regs_ok then k
  else schedule_rename_work user_oldpath olddfd user_newpath newdfd kmalloc_ok cur k.

(** ** The work functions *)

(** What every work function releases at its end. *)
Definition finish_work (w : work) k : kstate :=
  let k := match w with AvRenameWork _ _ _ _ _ _ => path_put (path_put k) | _ => path_put k end in
  av_work_release (work_kfree (put_pid k)).

(** Taking the first item off the queue to run it. *)
Definition dequeue k : option (work * kstate) :=
  match queue k with
  | [] => None
  | w :: q => Some (w, upd k 0 0 0 0 q)
  end.

Section work_fns.
Context `{KernelHash, KernelClock}.
Context {T : Type} `{TrustList T} {P : Type} `{ProtectList P}.

(** [d_path] on a [struct path]; [None] is an error pointer.  The booleans are
    the kmalloc of [abs_path], and the allocations inside
    [resolve_absolute_path] and [get_or_create_entry]. *)
Context (d_path : B → option cstr).

Definition av_openat_work_fn (abs_ok tmp_ok dup_ok kzalloc_ok : bool) (prot : P) (now : Z)
    (tg : target) (pid flags : Z) (base : B) (path : cstr) (st : behavior)
    : behavior * list effect :=
  if negb abs_ok then (st, [])
  else
    let abs_path := Resolve.resolve_absolute_path tmp_ok dup_ok path (d_path base) PATH_MAX in
    av_behavior_check_openat prot kzalloc_ok now pid abs_path flags tg st.

Definition av_unlink_work_fn (abs_ok tmp_ok dup_ok kzalloc_ok : bool) (prot : P) (now : Z)
    (tg : target) (pid : Z) (base : B) (path : cstr) (st : behavior)
    : behavior * list effect :=
  if negb abs_ok then (st, [])
  else
    let abs_path := Resolve.resolve_absolute_path tmp_ok dup_ok path (d_path base) PATH_MAX in
    av_behavior_check_unlink prot kzalloc_ok now pid abs_path tg st.

Definition av_rename_work_fn (abs_old_ok abs_new_ok tmp_ok dup_ok kzalloc_ok : bool) (prot : P)
    (now : Z) (tg : target) (pid : Z) (old_base new_base : B) (oldpath newpath : cstr)
    (st : behavior) : behavior * list effect :=
  if negb abs_old_ok then (st, [])
  else if negb abs_new_ok then (st, [])
  else
    let abs_old := Resolve.resolve_absolute_path tmp_ok dup_ok oldpath (d_path old_base) PATH_MAX in
    let abs_new := Resolve.resolve_absolute_path tmp_ok dup_ok newpath (d_path new_base) PATH_MAX in
    av_behavior_check_rename prot kzalloc_ok now pid abs_old abs_new tg st.
End work_fns.

(** ** Every event is paired *)

Inductive hook :=
  | Execve (regs_ok : bool) (u : user_ptr) (kmalloc_ok : bool)
  | Execveat (regs_ok : bool) (dfd : Z) (u : user_ptr) (flags : Z) (kmalloc_ok : bool)
  | Openat (regs_ok : bool) (dfd : Z) (u : user_ptr) (flags : Z) (kmalloc_ok : bool)
  | Unlink (regs_ok : bool) (u : user_ptr) (kmalloc_ok : bool)
  | Unlinkat (regs_ok : bool) (dfd : Z) (u : user_ptr) (kmalloc_ok : bool)
  | Rename (regs_ok : bool) (u v : user_ptr) (kmalloc_ok : bool)
  | Renameat (regs_ok : bool) (d : Z) (u : user_ptr) (e : Z) (v : user_ptr) (kmalloc_ok : bool)
  | Renameat2 (regs_ok : bool) (d : Z) (u : user_ptr) (e : Z) (v : user_ptr) (flags : Z)
      (kmalloc_ok : bool).

Definition run_hook (hk : hook) (cur : task) k : kstate :=
  match hk with
  | Execve r u m => handler_pre r u m cur k
  | Execveat r d u f m => handler_pre_execveat r d u f m cur k
  | Openat r d u f m => handler_pre_openat r d u f m cur k
  | Unlink r u m => handler_pre_unlink r u m cur k
  | Unlinkat r d u m => handler_pre_unlinkat r d u m cur k
  | Rename r u v m => handler_pre_rename r u v m cur k
  | Renameat r d u e v m => handler_pre_renameat r d u e v m cur k
  | Renameat2 r d u e v f m => handler_pre_renameat2 r d u e v f m cur k
  end.

(** Nothing happened, or one item was queued with all it holds, under its
    cap. *)
Inductive balanced k : kstate → Prop :=
  | bal_same : balanced k (upd k 0 0 0 0 (queue k))
  | bal_queued w :
      u32 (av_inflight_work k + 1) ≤
        (if is_exec w then AV_MAX_INFLIGHT_WORK else AV_MAX_INFLIGHT_WORK - AV_EXEC_RESERVED_WORK) →
      balanced k (upd k 1 (path_refs_of w) 1 1 (queue k ++ [w])).

Lemma upd_upd k a b c d q a' b' c' d' q' :
  upd (upd k a b c d q) a' b' c' d' q' = upd k (a + a') (b + b') (c + c') (d + d') q'.
Proof. unfold upd. simpl. f_equal; lia. Qed.

Lemma upd_id k : upd k 0 0 0 0 (queue k) = k.
Proof. destruct k. unfold upd. simpl. f_equal; lia. Qed.

Ltac run_upd :=
  unfold path_get, path_put, get_task_pid, put_pid, work_kmalloc, work_kfree, queue_work,
    av_work_release, atomic_inc;
  repeat (rewrite ?upd_upd; cbn [queue upd]); cbn.

Lemma balanced_same k k' : k' = k → balanced k k'.
Proof. intros ->. rewrite <- (upd_id k) at 2. constructor. Qed.

Lemma admit_cases cap k :
  av_work_admit_capped cap k = (false, upd k 0 0 0 0 (queue k)) ∨
  av_work_admit_capped cap k = (true, atomic_inc k) ∧ u32 (av_inflight_work k + 1) ≤ cap.
Proof.
  unfold av_work_admit_capped. cbn [atomic_inc av_inflight_work upd].
  destruct (Z.ltb_spec cap (u32 (av_inflight_work k + 1))); [left|right; by split].
  by run_upd.
Qed.

Lemma resolve_dfd_cases cur dfd k :
  resolve_dfd_path cur dfd k = (None, k) ∨
  ∃ b, resolve_dfd_path cur dfd k = (Some b, path_get k).
Proof.
  unfold resolve_dfd_path. destruct (dfd =? AT_FDCWD); [by right; eexists|].
  destruct (cur_fds cur dfd); [by right; eexists|by left].
Qed.

(** A drop path: every reference taken is put back. *)
Ltac dropped := run_upd; first [apply bal_same | apply balanced_same; reflexivity].

Lemma schedule_unlink_balanced u dfd m cur k :
  balanced k (schedule_unlink_work u dfd m cur k).
Proof.
  unfold schedule_unlink_work. destruct u as [|content]; [dropped|].
  destruct (resolve_dfd_cases cur dfd k) as [->|[b ->]]; [dropped|].
  unfold av_work_admit_nonexec.
  destruct (admit_cases (AV_MAX_INFLIGHT_WORK - AV_EXEC_RESERVED_WORK) (path_get k)) as [->|[-> Hc]];
    cbn [negb]; [dropped|].
  destruct m; cbn [negb]; [|dropped].
  destruct (bad_len _); [dropped|]. run_upd.
  apply (bal_queued k (AvUnlinkWork _ _ _ _)). simpl in Hc. by rewrite Z.add_0_r in Hc.
Qed.

Lemma schedule_rename_balanced u d v e m cur k :
  balanced k (schedule_rename_work u d v e m cur k).
Proof.
  unfold schedule_rename_work. destruct u as [|old]; [dropped|]. destruct v as [|new]; [dropped|].
  destruct (resolve_dfd_cases cur d k) as [->|[b ->]]; [dropped|].
  destruct (resolve_dfd_cases cur e (path_get k)) as [->|[b' ->]]; [dropped|].
  unfold av_work_admit_nonexec.
  destruct (admit_cases (AV_MAX_INFLIGHT_WORK - AV_EXEC_RESERVED_WORK)
    (path_get (path_get k))) as [->|[-> Hc]]; cbn [negb]; [dropped|].
  destruct m; cbn [negb]; [|dropped].
  destruct (bad_len _); [dropped|]. destruct (bad_len _); [dropped|]. run_upd.
  apply (bal_queued k (AvRenameWork _ _ _ _ _ _)). simpl in Hc. by rewrite !Z.add_0_r in Hc.
Qed.

Lemma run_hook_balanced hk cur k : balanced k (run_hook hk cur k).
Proof.
  destruct hk as [r u m|r d u f m|r d u f m|r u m|r d u m|r u v m|r d u e v m|r d u e v f m];
    simpl; unfold handler_pre, handler_pre_execveat, handler_pre_openat, handler_pre_unlink,
    handler_pre_unlinkat, handler_pre_rename, handler_pre_renameat, handler_pre_renameat2;
    (destruct r; cbn [negb]; [|dropped]);
    try apply schedule_unlink_balanced; try apply schedule_rename_balanced;
    (destruct u as [|content]; [dropped|]).
  - unfold av_work_admit.
    destruct (admit_cases AV_MAX_INFLIGHT_WORK k) as [->|[-> Hc]]; cbn [negb]; [dropped|].
    destruct m; cbn [negb]; [|dropped]. destruct (bad_len _); [dropped|]. run_upd.
    by apply (bal_queued k (AvWork _ _ _ _ _)).
  - destruct (resolve_dfd_cases cur d k) as [->|[b ->]]; [dropped|]. unfold av_work_admit.
    destruct (admit_cases AV_MAX_INFLIGHT_WORK (path_get k)) as [->|[-> Hc]]; cbn [negb]; [dropped|].
    destruct m; cbn [negb]; [|dropped]. destruct (_ || _); [dropped|]. run_upd.
    apply (bal_queued k (AvWork _ _ _ _ _)). simpl in Hc. by rewrite Z.add_0_r in Hc.
  - destruct (write_intent f); cbn [negb]; [|dropped].
    destruct (resolve_dfd_cases cur d k) as [->|[b ->]]; [dropped|]. unfold av_work_admit_nonexec.
    destruct (admit_cases (AV_MAX_INFLIGHT_WORK - AV_EXEC_RESERVED_WORK) (path_get k))
      as [->|[-> Hc]]; cbn [negb]; [dropped|].
    destruct m; cbn [negb]; [|dropped]. destruct (bad_len _); [dropped|]. run_upd.
    apply (bal_queued k (AvOpenatWork _ _ _ _ _)). simpl in Hc. by rewrite Z.add_0_r in Hc.
Qed.

(** ** The system of hooks and workers *)

(** [pending_reject]: handlers on other CPUs between the increment and the
    decrement of a refused admission. *)
Record hooks := { hs_k : kstate; pending_reject : Z }.

Inductive hstep (s : hooks) : hooks → Prop :=
  | hstep_hook hk cur :
      hstep s {| hs_k := run_hook hk cur (hs_k s); pending_reject := pending_reject s |}
  | hstep_finish q1 w q2 :
      queue (hs_k s) = q1 ++ w :: q2 →
      hstep s {| hs_k := finish_work w (upd (hs_k s) 0 0 0 0 (q1 ++ q2));
                 pending_reject := pending_reject s |}
  | hstep_refuse cap :
      cap = AV_MAX_INFLIGHT_WORK ∨ cap = AV_MAX_INFLIGHT_WORK - AV_EXEC_RESERVED_WORK →
      cap < u32 (av_inflight_work (hs_k s) + 1) →
      pending_reject s < 2 ^ 16 →
      hstep s {| hs_k := atomic_inc (hs_k s); pending_reject := pending_reject s + 1 |}
  | hstep_refused :
      0 < pending_reject s →
      hstep s {| hs_k := av_work_release (hs_k s); pending_reject := pending_reject s - 1 |}.

Definition hooks_init : hooks :=
  {| hs_k := {| av_inflight_work := 0; path_refs := 0; pid_refs := 0; work_allocs := 0;
                queue := [] |};
     pending_reject := 0 |}.

Inductive hreachable : hooks → Prop :=
  | hreach_init : hreachable hooks_init
  | hreach_step s s' : hreachable s → hstep s s' → hreachable s'.

Definition path_refs_total (q : list work) : Z := foldr (λ w n, path_refs_of w + n) 0 q.
Definition nonexec_count (q : list work) : Z :=
  Z.of_nat (length (List.filter (λ w, negb (is_exec w)) q)).
Definition exec_count (q : list work) : Z :=
  Z.of_nat (length (List.filter is_exec q)).

Record hooks_inv (s : hooks) : Prop := {
  hi_inflight : av_inflight_work (hs_k s) = Z.of_nat (length (queue (hs_k s))) + pending_reject s;
  hi_paths : path_refs (hs_k s) = path_refs_total (queue (hs_k s));
  hi_pids : pid_refs (hs_k s) = Z.of_nat (length (queue (hs_k s)));
  hi_allocs : work_allocs (hs_k s) = Z.of_nat (length (queue (hs_k s)));
  hi_nonexec : nonexec_count (queue (hs_k s)) ≤ AV_MAX_INFLIGHT_WORK - AV_EXEC_RESERVED_WORK;
  hi_total : Z.of_nat (length (queue (hs_k s))) ≤ AV_MAX_INFLIGHT_WORK;
  hi_reject : 0 ≤ pending_reject s ≤ 2 ^ 16;
}.

Lemma path_refs_app q q' : path_refs_total (q ++ q') = path_refs_total q + path_refs_total q'.
Proof. induction q as [|w q IH]; simpl; [done|]. lia. Qed.

Lemma count_split q : Z.of_nat (length q) = exec_count q + nonexec_count q.
Proof.
  unfold exec_count, nonexec_count. induction q as [|w q IH]; simpl; [done|].
  destruct (is_exec w); simpl; lia.
Qed.

Lemma nonexec_app q q' : nonexec_count (q ++ q') = nonexec_count q + nonexec_count q'.
Proof. unfold nonexec_count. rewrite List.filter_app, length_app. lia. Qed.

Lemma nonexec_le q : 0 ≤ nonexec_count q ≤ Z.of_nat (length q).
Proof. pose proof (count_split q). unfold exec_count, nonexec_count in *. lia. Qed.

Lemma hooks_step_inv s s' : hooks_inv s → hstep s s' → hooks_inv s'.
Proof.
  intros [Hi Hp Ht Ha Hn Hl Hr] Hs.
  unfold AV_MAX_INFLIGHT_WORK, AV_EXEC_RESERVED_WORK in *.
  destruct Hs as [hk cur|q1 w q2 Hq|cap Hcap Hlt Hb|Hpos].
  - destruct (run_hook_balanced hk cur (hs_k s)) as [|w Hc]; [rewrite upd_id; by split|].
    unfold AV_MAX_INFLIGHT_WORK, AV_EXEC_RESERVED_WORK in Hc.
    rewrite wrap_small in Hc by lia.
    pose proof (nonexec_le (queue (hs_k s))).
    assert (nonexec_count [w] = if is_exec w then 0 else 1) as Hw
      by (unfold nonexec_count; simpl; by destruct (is_exec w)).
    split; simpl; rewrite ?length_app, ?path_refs_app, ?nonexec_app, ?Hw; simpl;
      unfold AV_MAX_INFLIGHT_WORK, AV_EXEC_RESERVED_WORK; destruct (is_exec w); lia.
  - rewrite Hq in *. rewrite length_app in *. simpl in *.
    rewrite path_refs_app, nonexec_app in *. simpl in Hp.
    change (w :: q2) with ([w] ++ q2) in Hn. rewrite nonexec_app in Hn.
    pose proof (nonexec_le [w]).
    destruct w; split; simpl in *; rewrite ?length_app, ?path_refs_app, ?nonexec_app;
      unfold AV_MAX_INFLIGHT_WORK, AV_EXEC_RESERVED_WORK; lia.
  - split; simpl; try done; lia.
  - split; simpl; try done; lia.
Qed.

Lemma hreachable_inv s : hreachable s → hooks_inv s.
Proof.
  induction 1 as [|s s' _ IH Hs]; [|by eapply hooks_step_inv].
  split; simpl; unfold nonexec_count; simpl; (done || lia).
Qed.

(** C13: the hooks and workers never leak or double-free: in every reachable
    state the in-flight counter is the number of items not yet finished (plus
    refusals between their increment and decrement on other CPUs), every item
    accounts for its one work allocation, one pid reference and one or two
    path references, and at most 4096 items are in flight, at most 3584 of
    them not execs. *)
Theorem hooks_accounting s :
  hreachable s →
  let k := hs_k s in
  av_inflight_work k = Z.of_nat (length (queue k)) + pending_reject s ∧
  path_refs k = path_refs_total (queue k) ∧
  pid_refs k = Z.of_nat (length (queue k)) ∧ work_allocs k = Z.of_nat (length (queue k)) ∧
  nonexec_count (queue k) ≤ AV_MAX_INFLIGHT_WORK - AV_EXEC_RESERVED_WORK ∧
  Z.of_nat (length (queue k)) ≤ AV_MAX_INFLIGHT_WORK.
Proof. intros []%hreachable_inv. by split_and!. Qed.

(** A storm of opens, unlinks and renames cannot starve exec detection:
    while fewer than 512 exec items (and refusals in progress) are in flight,
    an execve with a readable path is always queued, memory permitting. *)
Theorem exec_always_admitted s cur path :
  hreachable s →
  exec_count (queue (hs_k s)) + pending_reject s < AV_EXEC_RESERVED_WORK →
  path ≠ [] → (length path < PATH_MAX)%nat →
  queue (handler_pre true (Ptr (Some path)) true cur (hs_k s)) =
  queue (hs_k s) ++
    [AvWork (cur_pid cur) (cur_tgid cur) (cur_start_time cur) (cur_cwd cur) path].
Proof.
  intros Hi%hreachable_inv Hlt Hne Hlen. unfold handler_pre, av_work_admit. cbn [negb].
  destruct Hi as [Hin _ _ _ Hn Hl Hr]. pose proof (count_split (queue (hs_k s))) as Hc.
  unfold av_work_admit_capped. cbn [atomic_inc av_inflight_work upd].
  unfold AV_MAX_INFLIGHT_WORK, AV_EXEC_RESERVED_WORK in *.
  rewrite wrap_small by lia. rewrite (proj2 (Z.ltb_ge _ _)) by lia. cbn [negb].
  assert (bad_len (strncpy_from_user (Some path)) = false) as ->; [|by run_upd].
  unfold bad_len, strncpy_from_user. destruct path as [|a p]; [done|].
  apply orb_false_iff. split; [apply Z.leb_gt|apply Z.leb_gt]; simpl in *; lia.
Qed.

(** Naming a directory by descriptor does not hide a file: a write-intent
    openat of any spelling of a sensitive file, relative to the directory its
    descriptor names, is queued with that directory and, once its work
    function runs with memory available, makes a kill request for the
    canonical path. *)
Theorem openat_dfd_caught `{KernelHash, KernelClock} {P : Type} `{ProtectList P}
    (d_path : B → option cstr) k cur dfd base dir path flags (prot : P) now tg kzalloc_ok st :
  u32 (av_inflight_work k + 1) ≤ AV_MAX_INFLIGHT_WORK - AV_EXEC_RESERVED_WORK →
  write_intent flags = true → path ≠ [] → (length path < PATH_MAX)%nat →
  dfd ≠ AT_FDCWD → cur_fds cur dfd = Some base → d_path base = Some dir →
  is_absolute dir = true →
  let full := Resolve.denoted dir path in
  (length full < PATH_MAX)%nat → Resolve.depth_ok full →
  Resolve.sensitive_comps (Resolve.components full) →
  Pred.path_is_pseudo_fs (Resolve.canonical_path (Resolve.components full)) = false →
  queue (handler_pre_openat true dfd (Ptr (Some path)) flags true cur k) =
    queue k ++ [AvOpenatWork (cur_pid cur) (cur_tgid cur) flags base path] ∧
  (av_openat_work_fn d_path true true true kzalloc_ok prot now tg (cur_tgid cur) flags base path
     st).2 =
  kill_with_reason prot tg (Resolve.canonical_path (Resolve.components full))
    (cs "write-intent open of sensitive path").
Proof.
  intros Hadm Hw Hne Hlen Hdfd Hfd Hdir Habs full Hfull Hdepth Hsens Hpseudo. split.
  - unfold handler_pre_openat, resolve_dfd_path, av_work_admit_nonexec, av_work_admit_capped.
    rewrite Hw, Hfd, (proj2 (Z.eqb_neq _ _)) by done. cbn [negb].
    cbn [atomic_inc path_get av_inflight_work upd]. rewrite Z.add_0_r.
    rewrite (proj2 (Z.ltb_ge _ _)) by done. cbn [negb].
    assert (bad_len (strncpy_from_user (Some path)) = false) as ->; [|by run_upd].
    unfold bad_len, strncpy_from_user. destruct path as [|a p]; [done|].
    apply orb_false_iff. split; apply Z.leb_gt; simpl in *; lia.
  - unfold av_openat_work_fn. cbn [negb]. rewrite Hdir.
    rewrite Resolve.resolve_denoted, Resolve.normalize_abs_path_ok
      by auto using Resolve.is_absolute_denoted.
    apply openat_sensitive; [done|done|].
    by apply Resolve.path_is_sensitive_canonical; [apply Resolve.components_plain|].
Qed.

End hooks.

(** ** Examples: a [struct path] is the path's text *)

Module HookExamples.
Import ToyHash ToyClock.

Definition cur0 : @task cstr :=
  {| cur_pid := 77; cur_tgid := 77; cur_start_time := 5; cur_cwd := cs "/home/u";
     cur_fds := λ fd, if fd =? 3 then Some (cs "/etc") else None |}.

Definition hk1 : @hooks cstr :=
  {| hs_k := run_hook (Unlink true (Ptr (Some (cs "a"))) true) cur0 (hs_k hooks_init);
     pending_reject := 0 |}.

Lemma hk1_reachable : hreachable hk1.
Proof. eapply hreach_step; [apply hreach_init|apply hstep_hook]. Qed.

Lemma hooks_accounting_witness : av_inflight_work (hs_k hk1) = 1.
Proof. exact (proj1 (hooks_accounting hk1 hk1_reachable)). Defined.

Lemma exec_always_admitted_witness :
  queue (handler_pre true (Ptr (Some (cs "./payload"))) true cur0 (hs_k hk1)) =
  queue (hs_k hk1) ++ [AvWork 77 77 5 (cs "/home/u") (cs "./payload")].
Proof.
  apply (exec_always_admitted hk1 cur0 (cs "./payload") hk1_reachable).
  - apply Z.ltb_lt. by vm_compute.
  - done.
  - apply Nat.ltb_lt. by vm_compute.
Defined.

#[local] Existing Instances Trust.trust_list Protect.protect_list.

(** openat(fd of /etc, "../etc//shadow", O_WRONLY). *)
Lemma openat_dfd_caught_witness :
  (av_openat_work_fn Some true true true true Protect.protected_table_init 100
     BehaviorExamples.tg77 77 1 (cs "/etc") (cs "../etc//shadow") behavior_zero).2 =
  kill_with_reason Protect.protected_table_init BehaviorExamples.tg77 (cs "/etc/shadow")
    (cs "write-intent open of sensitive path").
Proof.
  apply (proj2 (openat_dfd_caught Some (hs_k hk1) cur0 3 (cs "/etc") (cs "/etc")
    (cs "../etc//shadow") 1 Protect.protected_table_init 100 BehaviorExamples.tg77 true
    behavior_zero ltac:(by apply Z.leb_le; vm_compute) ltac:(by vm_compute) ltac:(done)
    ltac:(by apply Nat.ltb_lt; vm_compute) ltac:(done) ltac:(by vm_compute) eq_refl eq_refl
    ltac:(by apply Nat.ltb_lt; vm_compute) ltac:(by apply (bool_decide_unpack _); vm_compute)
    ltac:(right; right; eexists [], _, []; split; [by vm_compute|by right])
    ltac:(by vm_compute))).
Defined.

End HookExamples.
