(* ===== verification/Exec.v ===== *)
(** * The exec path: av/main.c

    Hashing of the executed file, the verdict (signature table, then the
    daemon, then the fail-open/fail-closed policy), the policy's proc file,
    and its reader.  The VFS, the crypto API and the digests
    it computes are parameters; [av_netlink_scan_request]'s result is an
    argument of the shape [Netlink.WRet] gives it. *)

From Stdlib Require Import ZArith Lia Ascii String.
From stdpp Require Import prelude list gmap strings pretty.
From S2P Require Import Prelude CString Hashtable SigTable AllowLists Paths Window Kill.
From S2P Require Import Behavior Netlink Hooks.

Local Open Scope Z_scope.

Definition READ_CHUNK_SIZE : Z := 4096.
Definition MAX_HASH_FILE_SIZE : Z := 256 * 1024 * 1024.
Definition DAEMON_TIMEOUT_MS : Z := 12000.

(** ** Hexadecimal digests *)

Definition hex_digit (n : Z) : ascii := chr (if n <? 10 then 48 + n else 87 + n).

(** [snprintf("%02x", b)]. *)
Definition hex_byte (b : Z) : cstr := [hex_digit (b / 16); hex_digit (b mod 16)].

Definition bin_to_hex (bin : list Z) : cstr := bin ≫= hex_byte.

(** ** Opening the target *)

(** A file as [hash_file_multi] meets it: the results of successive
    [kernel_read]s are errors or chunks, the empty chunk being end of file. *)
Record file := {
  f_isreg : bool; f_isize : Z; f_ident : av_file_identity;
  f_reads : list (Z + list Z);
}.

Section exec.
Context {B : Type}.

(** The results are negated error numbers or what the call yields. *)
Record vfs := {
  dentry_open : B → Z + file;
  filp_open : cstr → Z + file;
  vfs_path_lookup : B → cstr → Z + B;
}.

Definition open_exec_target (v : vfs) (path : cstr) (pwd : B) : Z + file :=
  match path with
  | [] => dentry_open v pwd
  | a :: _ =>
      if aeqb a SLASH then filp_open v path
      else match vfs_path_lookup v pwd path with
           | inl err => inl err
           | inr resolved => dentry_open v resolved
           end
  end.

(** ** Hashing *)

(** The crypto API: the result of setting up algorithm [i] (0 for md5, 1 for
    sha1, 2 for sha256), of feeding it chunk [j], of finishing it; and the
    digest functions, on the concatenation of what was fed. *)
Record crypto := {
  cr_setup : nat → Z;
  cr_update : nat → nat → Z;
  cr_final : nat → Z;
  cr_hash : nat → list Z → list Z;
}.

(** The first error of [f] over the active algorithms, or 0. *)
Fixpoint first_err (f : nat → Z) (active : nat → bool) (idx : list nat) : Z :=
  match idx with
  | [] => 0
  | i :: idx' =>
      if negb (active i) then first_err f active idx'
      else if negb (f i =? 0) then f i else first_err f active idx'
  end.

(** The read loop; [acc] is what every active context has been fed. *)
Fixpoint read_loop (cr : crypto) (active : nat → bool) (reads : list (Z + list Z))
    (j : nat) (pos : Z) (acc : list Z) : Z + list Z :=
  match reads with
  | [] | inr [] :: _ => inr acc
  | inl n :: _ => inl n
  | inr chunk :: reads' =>
      let pos := pos + Z.of_nat (length chunk) in
      if MAX_HASH_FILE_SIZE <? pos then inl (- EFBIG)
      else
        let ret := first_err (λ i, cr_update cr i j) active [0; 1; 2]%nat in
        if negb (ret =? 0) then inl ret
        else read_loop cr active reads' (S j) pos (acc ++ chunk)
  end.

Definition empty_digest : av_digest := {| md5 := []; sha1 := []; sha256 := [] |}.

(** Which algorithms are computed. *)
Definition active_algos (st : sigtable) (i : nat) : bool :=
  match i with
  | 0%nat => 0 <? av_sigtable_algo_count AV_ALGO_MD5 st
  | 1%nat => 0 <? av_sigtable_algo_count AV_ALGO_SHA1 st
  | _ => true
  end.

Definition set_digest (i : nat) (h : cstr) (d : av_digest) : av_digest :=
  match i with
  | 0%nat => {| md5 := h; sha1 := sha1 d; sha256 := sha256 d |}
  | 1%nat => {| md5 := md5 d; sha1 := h; sha256 := sha256 d |}
  | _ => {| md5 := md5 d; sha1 := sha1 d; sha256 := h |}
  end.

(** The finishing loop, which fills [out] one digest at a time. *)
Fixpoint final_loop (cr : crypto) (active : nat → bool) (data : list Z) (idx : list nat)
    (out : av_digest) : Z * av_digest :=
  match idx with
  | [] => (0, out)
  | i :: idx' =>
      if negb (active i) then final_loop cr active data idx' out
      else
        let ret := cr_final cr i in
        if negb (ret =? 0) then (ret, out)
        else final_loop cr active data idx'
               (set_digest i (bin_to_hex (cr_hash cr i data)) out)
  end.

Definition hash_file_multi (v : vfs) (cr : crypto) (buf_ok : bool) (st : sigtable)
    (path : cstr) (pwd : B) : Z * av_digest * option av_file_identity :=
  let active := active_algos st in
  match open_exec_target v path pwd with
  | inl err => (err, empty_digest, None)
  | inr f =>
      if negb (f_isreg f) then (- EINVAL, empty_digest, None)
      else if MAX_HASH_FILE_SIZE <? f_isize f then (- EFBIG, empty_digest, None)
      else
        let ident := Some (f_ident f) in
        let ret := first_err (cr_setup cr) active [0; 1; 2]%nat in
        if negb (ret =? 0) then (ret, empty_digest, ident)
        else if negb buf_ok then (- ENOMEM, empty_digest, ident)
        else match read_loop cr active (f_reads f) 0 0 [] with
        | inl err => (err, empty_digest, ident)
        | inr data =>
            let '(ret, out) := final_loop cr active data [0; 1; 2]%nat empty_digest in
            (ret, out, ident)
        end
  end.

(** What the kernel documents of these calls: an error is a negative number,
    or at least not 0. *)
Record vfs_ok (v : vfs) : Prop := {
  ok_dentry b e : dentry_open v b = inl e → e < 0;
  ok_filp p e : filp_open v p = inl e → e < 0;
  ok_lookup b p e : vfs_path_lookup v b p = inl e → e ≠ 0;
  ok_dentry_reads b f n : dentry_open v b = inr f → inl n ∈ f_reads f → n < 0;
  ok_filp_reads p f n : filp_open v p = inr f → inl n ∈ f_reads f → n < 0;
}.

(** ** The daemon-unavailable policy *)

Definition daemon_policy_proc_show (fail_closed : bool) : cstr :=
  if fail_closed then cs "fail-closed" ++ [LF] else cs "fail-open" ++ [LF].

(** [sizeof(kbuf)]. *)
Definition POLICY_KBUF : Z := 32.

(** [kbuf] without its newline and an optional CR before it. *)
Definition policy_word (kbuf : cstr) : option cstr :=
  match last kbuf with
  | Some c =>
      if negb (aeqb c LF) then None
      else
        let kbuf := removelast kbuf in
        Some (match last kbuf with
              | Some c' => if aeqb c' CR then removelast kbuf else kbuf
              | None => kbuf
              end)
  | None => None
  end.

(** [ubuf]: the [count] bytes of the user's buffer, [None] if they fault. *)
Definition daemon_policy_proc_write (ppos count : Z) (ubuf : option cstr) (fail_closed : bool)
    : Z * bool :=
  if negb (ppos =? 0) then (- EINVAL, fail_closed)
  else if POLICY_KBUF <=? count then (- EINVAL, fail_closed)
  else match ubuf with
  | None => (- EFAULT, fail_closed)
  | Some bytes =>
      match policy_word (buf_str bytes) with
      | None => (- EINVAL, fail_closed)
      | Some w =>
          if strcasecmp_eq w (cs "fail-open") then (count, false)
          else if strcasecmp_eq w (cs "fail-closed") then (count, true)
          else (- EINVAL, fail_closed)
      end
  end.

(** ** The verdict *)

Section work_fn.
Context `{KernelHash, KernelClock}.
Context {T : Type} `{TrustList T} {P : Type} `{ProtectList P}.
Context (d_path : B → option cstr).

(** The informational lines. *)
Inductive clean_log := NoLog | CleanDaemon | CleanFailOpen (err : Z).

(** [sizeof(reason)]. *)
Definition REASON_LEN : nat := AV_SIG_NAME_LEN + 32.

(** "%d". *)
Definition dec (z : Z) : cstr := cs (pretty z).

(** The part after the hash is known.  [nl] is the result of the scan request
    for this path and digest. *)
Definition exec_verdict (fail_closed : bool) (prot : P) (tg : target) (abs_path : cstr)
    (digest : av_digest) (ident : option av_file_identity) (st : sigtable)
    (nl : cstr → cstr → Z * option (Z * Z * cstr)) : list effect * clean_log :=
  match av_sigtable_match digest AV_SIG_NAME_LEN st with
  | Some sig_name =>
      let reason := strscpy (cs "signature:" ++ sig_name) REASON_LEN in
      (av_kill prot tg abs_path (cs "signature") reason ident, NoLog)
  | None =>
      let '(nl_ret, out) := nl abs_path (sha256 digest) in
      let verdict := match out with Some (_, v, _) => v | None => AV_VERDICT_CLEAN end in
      let rule_name := match out with Some (_, _, r) => r | None => [] end in
      if (nl_ret =? 0) && (verdict =? AV_VERDICT_MALICIOUS)
      then (av_kill prot tg abs_path (cs "daemon")
              (strscpy (cs "daemon:" ++ rule_name) REASON_LEN) ident, NoLog)
      else if nl_ret =? 0 then ([], CleanDaemon)
      else if fail_closed
      then (av_kill prot tg abs_path (cs "fail-closed")
              (strscpy (cs "no-verdict:err=" ++ dec nl_ret) REASON_LEN) ident, NoLog)
      else ([], CleanFailOpen nl_ret)
  end.

(** [av_work_fn] on an [AvWork] item. *)
Definition av_work_fn (abs_ok tmp_ok dup_ok buf_ok kzalloc_ok fail_closed : bool)
    (v : vfs) (cr : crypto) (trust : T) (prot : P) (now : Z) (tg : target)
    (tgid start_time : Z) (pwd : B) (path : cstr) (sigs : sigtable)
    (nl : cstr → cstr → Z * option (Z * Z * cstr)) (st : behavior)
    : behavior * list effect * clean_log :=
  if negb abs_ok then (st, [], NoLog)
  else
    let abs_path := Resolve.resolve_absolute_path tmp_ok dup_ok path (d_path pwd) PATH_MAX in
    let '(ret, digest, ident) := hash_file_multi v cr buf_ok sigs path pwd in
    if negb (ret =? 0) then (st, [], NoLog)
    else
      let st := av_behavior_record_exec trust kzalloc_ok now tgid abs_path (sha256 digest)
                  start_time st in
      let '(effs, log) := exec_verdict fail_closed prot tg abs_path digest ident sigs nl in
      (st, effs, log).

(** ** Facts *)

(** The chunks up to end of file. *)
Fixpoint contents (reads : list (Z + list Z)) : list Z :=
  match reads with
  | inr (b :: chunk) :: reads' => (b :: chunk) ++ contents reads'
  | _ => []
  end.

Lemma read_loop_contents cr active reads j pos acc data :
  read_loop cr active reads j pos acc = inr data → data = acc ++ contents reads.
Proof.
  revert j pos acc. induction reads as [|[n|[|b chunk]] reads IH]; simpl; intros j pos acc.
  - intros [= <-]. by rewrite app_nil_r.
  - done.
  - intros [= <-]. by rewrite app_nil_r.
  - destruct (_ <? _); [done|]. destruct (negb _); [done|]. intros ->%IH.
    by rewrite <- (assoc_L (++)).
Qed.

Lemma read_loop_err cr active reads j pos acc err :
  (∀ n, inl n ∈ reads → n < 0) → read_loop cr active reads j pos acc = inl err → err ≠ 0.
Proof.
  revert j pos acc. induction reads as [|[n|[|b chunk]] reads IH]; cbn [read_loop]; intros j pos acc Hn.
  - done.
  - intros [= <-]. specialize (Hn n (list_elem_of_here _ _)). lia.
  - done.
  - destruct (_ <? _); [by intros [= <-]|].
    destruct (Z.eqb_spec (first_err (λ i, cr_update cr i j) active [0; 1; 2]%nat) 0) as [_|Hz].
    + apply IH. intros n Hin. apply Hn. by right.
    + by intros [= <-].
Qed.

Lemma read_loop_bound cr active reads j pos acc data :
  Z.of_nat (length acc) = pos → 0 ≤ pos ≤ MAX_HASH_FILE_SIZE →
  read_loop cr active reads j pos acc = inr data → Z.of_nat (length data) ≤ MAX_HASH_FILE_SIZE.
Proof.
  revert j pos acc. induction reads as [|[n|[|b chunk]] reads IH]; cbn [read_loop]; intros j pos acc Hl Hp.
  - intros [= <-]. lia.
  - done.
  - intros [= <-]. lia.
  - destruct (Z.ltb_spec MAX_HASH_FILE_SIZE (pos + Z.of_nat (length (b :: chunk)))); [done|].
    destruct (negb _); [done|]. apply IH; [rewrite length_app; lia|lia].
Qed.

(** No entry of an algorithm: no chain holds a match for it. *)
Lemma algo_absent st a hex b :
  sig_inv st → a ≠ AV_ALGO_COUNT → av_sigtable_algo_count a st = 0 →
  find_first (sig_same a hex) (hash_chain (sig_table st) b) = None.
Proof.
  intros Hi Ha Hc. apply find_first_None. intros e He. unfold sig_same.
  destruct (bool_decide (se_algo e = a)) eqn:Hd; [|done].
  apply bool_decide_eq_true in Hd. exfalso.
  assert (av_sigtable_algo_count a st =
    Z.of_nat (length (algo_entries a (hash_all (sig_table st))))) as Hn.
  { unfold av_sigtable_algo_count. destruct (Nat.leb_spec (algo_index AV_ALGO_COUNT) (algo_index a)).
    - destruct a; simpl in *; (done || lia).
    - apply (nth_lookup_Some _ _ 0). by apply si_algos. }
  assert (e ∈ algo_entries a (hash_all (sig_table st))) as Hin.
  { unfold algo_entries. apply list_elem_of_filter. split; [done|]. by eapply hash_chain_elem. }
  destruct (algo_entries a (hash_all (sig_table st))); [by apply elem_of_nil in Hin|].
  simpl in Hn. lia.
Qed.

Lemma algo_count_nonneg st a : sig_inv st → a ≠ AV_ALGO_COUNT → 0 ≤ av_sigtable_algo_count a st.
Proof.
  intros Hi Ha. unfold av_sigtable_algo_count.
  destruct (Nat.leb_spec (algo_index AV_ALGO_COUNT) (algo_index a)); [done|].
  rewrite (nth_lookup_Some _ _ 0 _ (si_algos _ Hi a Ha)). lia.
Qed.

Lemma open_exec_ok v path pwd :
  vfs_ok v →
  match open_exec_target v path pwd with
  | inl e => e ≠ 0
  | inr f => ∀ n, inl n ∈ f_reads f → n < 0
  end.
Proof.
  intros Hv. unfold open_exec_target. destruct path as [|a path].
  - destruct (dentry_open v pwd) eqn:Ho; [apply (ok_dentry v Hv) in Ho; lia|].
    intros n. by apply (ok_dentry_reads v Hv _ _ _ Ho).
  - destruct (aeqb a SLASH).
    + destruct (filp_open v (a :: path)) eqn:Ho; [apply (ok_filp v Hv) in Ho; lia|].
      intros n. by apply (ok_filp_reads v Hv _ _ _ Ho).
    + destruct (vfs_path_lookup v pwd (a :: path)) as [e|r] eqn:Hl;
        [by apply (ok_lookup v Hv) in Hl|].
      destruct (dentry_open v r) eqn:Ho; [apply (ok_dentry v Hv) in Ho; lia|].
      intros n. by apply (ok_dentry_reads v Hv _ _ _ Ho).
Qed.

Definition full_digest (cr : crypto) (data : list Z) : av_digest :=
  {| md5 := bin_to_hex (cr_hash cr 0 data); sha1 := bin_to_hex (cr_hash cr 1 data);
     sha256 := bin_to_hex (cr_hash cr 2 data) |}.

(** The digests of a successful run: every active one is the full one's, and
    the others are empty. *)
Definition digest_of (active : nat → bool) (d : av_digest) : av_digest :=
  {| md5 := if active 0%nat then md5 d else []; sha1 := if active 1%nat then sha1 d else [];
     sha256 := sha256 d |}.

Lemma final_loop_ok cr active data out :
  active 2%nat = true →
  final_loop cr active data [0; 1; 2]%nat empty_digest = (0, out) →
  out = digest_of active (full_digest cr data).
Proof.
  intros Ha2. simpl. rewrite Ha2. unfold digest_of.
  destruct (active 0%nat), (active 1%nat); cbn [negb];
    repeat match goal with
    | |- context [cr_final cr ?i =? 0] =>
        destruct (Z.eqb_spec (cr_final cr i) 0); cbn [negb]; [|congruence]
    end; by intros [= <-].
Qed.

(** A successful run, opened up. *)
Lemma hash_file_multi_ok v cr buf_ok st path pwd digest ident :
  vfs_ok v →
  hash_file_multi v cr buf_ok st path pwd = (0, digest, ident) →
  ∃ f data, open_exec_target v path pwd = inr f ∧ data = contents (f_reads f) ∧
    f_isreg f = true ∧ Z.of_nat (length data) ≤ MAX_HASH_FILE_SIZE ∧
    ident = Some (f_ident f) ∧
    digest = digest_of (active_algos st) (full_digest cr data).
Proof.
  intros Hv. unfold hash_file_multi. pose proof (open_exec_ok v path pwd Hv) as Ho.
  destruct (open_exec_target v path pwd) as [e|f]; [congruence|].
  destruct (f_isreg f) eqn:Hr; cbn [negb]; [|done].
  destruct (MAX_HASH_FILE_SIZE <? f_isize f); [done|].
  destruct (Z.eqb_spec (first_err (cr_setup cr) (active_algos st) [0; 1; 2]%nat) 0);
    cbn [negb]; [|congruence].
  destruct buf_ok; cbn [negb]; [|done].
  destruct (read_loop cr (active_algos st) (f_reads f) 0 0 []) as [e'|data] eqn:Hl.
  { apply read_loop_err in Hl; [congruence|done]. }
  destruct (final_loop _ _ data _ _) as [ret out] eqn:Hf. intros [= -> <- <-].
  exists f, data. split; [done|]. split; [by apply read_loop_contents in Hl|].
  split; [done|]. split; [by apply read_loop_bound in Hl|]. split; [done|].
  by apply final_loop_ok in Hf.
Qed.

(** Leaving out an algorithm without entries changes no lookup. *)
Lemma match_digest_of st full len :
  sig_inv st →
  av_sigtable_match (digest_of (active_algos st) full) len st = av_sigtable_match full len st.
Proof.
  intros Hi. unfold av_sigtable_match. f_equal.
  cbn [match_loop digest_for_algo digest_of md5 sha1 sha256 active_algos].
  pose proof (algo_count_nonneg st AV_ALGO_MD5 Hi ltac:(done)).
  pose proof (algo_count_nonneg st AV_ALGO_SHA1 Hi ltac:(done)).
  destruct (Z.ltb_spec 0 (av_sigtable_algo_count AV_ALGO_MD5 st));
    [|rewrite !(algo_absent st AV_ALGO_MD5) by (done || lia)];
    (destruct (Z.ltb_spec 0 (av_sigtable_algo_count AV_ALGO_SHA1 st));
      [|rewrite !(algo_absent st AV_ALGO_SHA1) by (done || lia)]); done.
Qed.

(** Leaving out MD5 and SHA-1 loses no detection: when hashing succeeds,
    the SHA-256 is that of exactly the file's contents (at most 256 MB of
    them), and the signature lookup on the digests computed is the lookup on
    all three digests. *)
Theorem hash_skip_sound v cr buf_ok st path pwd digest ident len :
  sig_inv st → vfs_ok v →
  hash_file_multi v cr buf_ok st path pwd = (0, digest, ident) →
  ∃ f data, open_exec_target v path pwd = inr f ∧ data = contents (f_reads f) ∧
    Z.of_nat (length data) ≤ MAX_HASH_FILE_SIZE ∧ ident = Some (f_ident f) ∧
    sha256 digest = bin_to_hex (cr_hash cr 2 data) ∧
    av_sigtable_match digest len st = av_sigtable_match (full_digest cr data) len st.
Proof.
  intros Hi Hv (f & data & Ho & Hd & _ & Hb & Hid & ->)%hash_file_multi_ok; [|done].
  exists f, data. do 5 (split; [done|]). by apply match_digest_of.
Qed.
(** Something condemns the file: a signature, the daemon, or the want of a
    verdict under fail-closed. *)
Definition condemned (fail_closed : bool) (full : av_digest) (sigs : sigtable)
    (answer : Z * option (Z * Z * cstr)) : Prop :=
  is_Some (av_sigtable_match full AV_SIG_NAME_LEN sigs) ∨
  (∃ reqid rule, answer = (0, Some (reqid, AV_VERDICT_MALICIOUS, rule))) ∨
  (answer.1 ≠ 0 ∧ fail_closed = true).

(** A kill request is made for the condemned and for them only, always about
    this target. *)
Lemma exec_verdict_spec fail_closed prot tg abs_path digest ident st nl :
  let '(effs, log) := exec_verdict fail_closed prot tg abs_path digest ident st nl in
  (condemned fail_closed digest st (nl abs_path (sha256 digest)) ∧ kill_spec prot tg effs) ∨
  (¬ condemned fail_closed digest st (nl abs_path (sha256 digest)) ∧ effs = []).
Proof.
  unfold exec_verdict, condemned.
  destruct (av_sigtable_match digest AV_SIG_NAME_LEN st) as [name|].
  { left. split; [by left; eexists|apply av_kill_spec]. }
  destruct (nl abs_path (sha256 digest)) as [ret out]. simpl.
  destruct (Z.eqb_spec ret 0) as [->|Hr]; simpl.
  - destruct out as [[[reqid v] rule]|]; simpl.
    + destruct (Z.eqb_spec v AV_VERDICT_MALICIOUS) as [->|Hv].
      * left. split; [right; left; by eexists _, _|apply av_kill_spec].
      * right. split; [|done]. by intros [[? [=]]|[(?&?&[= ])|[]]].
    + right. split; [|done]. by intros [[? [=]]|[(?&?&[=])|[]]].
  - destruct fail_closed.
    + left. split; [by right; right|apply av_kill_spec].
    + right. split; [|done]. by intros [[? [=]]|[(?&?&[=])|[]]].
Qed.

(** C21: an exec whose file can be hashed is always recorded, with the SHA-256
    of exactly what was read, whatever the verdict; and its process is
    signalled exactly if it may be (not PID 1, not protected, still there) and
    the file is condemned: one of its three full digests has a signature, the
    daemon called it malicious, or no verdict came and the policy is
    fail-closed. *)
Theorem exec_detection tmp_ok dup_ok buf_ok kzalloc_ok fail_closed v cr trust prot now tg
    tgid start_time pwd path sigs nl st digest ident :
  sig_inv sigs → vfs_ok v →
  hash_file_multi v cr buf_ok sigs path pwd = (0, digest, ident) →
  let abs_path := Resolve.resolve_absolute_path tmp_ok dup_ok path (d_path pwd) PATH_MAX in
  ∃ f, open_exec_target v path pwd = inr f ∧
    let full := full_digest cr (contents (f_reads f)) in
    let '(st', effs, log) := av_work_fn true tmp_ok dup_ok buf_ok kzalloc_ok fail_closed
      v cr trust prot now tg tgid start_time pwd path sigs nl st in
    st' = av_behavior_record_exec trust kzalloc_ok now tgid abs_path (sha256 full)
            start_time st ∧
    ∀ pid, Sigkill pid ∈ effs ↔
      (pid = tg_pid_nr tg ∧ tg_pid_nr tg ≠ 1 ∧ ¬ exe_protected prot tg ∧ tg_task tg = true) ∧
      condemned fail_closed full sigs (nl abs_path (sha256 full)).
Proof.
  intros Hi Hv Hh abs_path.
  destruct (hash_file_multi_ok _ _ _ _ _ _ _ _ Hv Hh) as (f & data & Ho & -> & _&_&_& Hd).
  exists f. split; [done|]. intros full. unfold av_work_fn. cbn [negb]. rewrite Hh. cbn [negb].
  pose proof (exec_verdict_spec fail_closed prot tg abs_path digest ident sigs nl) as Hs.
  fold abs_path. destruct (exec_verdict _ _ _ _ _ _ _ _) as [effs log]. cbn [Z.eqb negb].
  assert (sha256 digest = sha256 full) as Hsha by by rewrite Hd.
  unfold condemned in *. rewrite Hsha in Hs.
  replace (av_sigtable_match digest AV_SIG_NAME_LEN sigs)
    with (av_sigtable_match full AV_SIG_NAME_LEN sigs) in Hs
    by (rewrite Hd; symmetry; by apply match_digest_of).
  split; [by rewrite Hsha|]. intros pid. destruct Hs as [[Hc Hk]|[Hc ->]].
  - rewrite (kill_signal _ _ _ Hk). tauto.
  - rewrite elem_of_nil. tauto.
Qed.
End work_fn.
End exec.

(** ** The policy file *)

(** The lines the policy file takes: the word, in any case, with its line
    ending, up to the first NUL. *)
Definition policy_line (bytes : cstr) (fail_closed : bool) : Prop :=
  ∃ w, (buf_str bytes = w ++ [LF] ∨ buf_str bytes = w ++ [CR; LF]) ∧
    tolower <$> w = (if fail_closed then cs "fail-closed" else cs "fail-open").

Definition policy_accepts (ppos count : Z) (ubuf : option cstr) (fail_closed : bool) : Prop :=
  ppos = 0 ∧ count < POLICY_KBUF ∧ ∃ bytes, ubuf = Some bytes ∧ policy_line bytes fail_closed.

Lemma policy_word_some kbuf w :
  policy_word kbuf = Some w →
  kbuf = w ++ [LF] ∨ kbuf = w ++ [CR; LF].
Proof.
  unfold policy_word. destruct (last kbuf) as [c|] eqn:Hl; [|done].
  apply last_Some in Hl as [k ->]. destruct (aeqb c LF) eqn:Hc; cbn [negb]; [|done].
  apply aeqb_eq in Hc as ->. rewrite removelast_last.
  destruct (last k) as [c'|] eqn:Hl; [|intros [= <-]; by left].
  apply last_Some in Hl as [k' ->]. destruct (aeqb c' CR) eqn:Hc.
  - apply aeqb_eq in Hc as ->. rewrite removelast_last. intros [= <-]. right.
    by rewrite <- (assoc_L (++)).
  - intros [= <-]. by left.
Qed.

(** The line ending is taken off exactly, for a word that does not end in CR. *)
Lemma policy_word_line kbuf w :
  kbuf = w ++ [LF] ∨ kbuf = w ++ [CR; LF] → last w ≠ Some CR → policy_word kbuf = Some w.
Proof.
  intros Hk Hw. unfold policy_word. destruct Hk as [->| ->].
  - rewrite last_snoc. cbn [negb]. replace (aeqb LF LF) with true by done. cbn [negb].
    rewrite removelast_last. destruct (last w) as [c|] eqn:Hl; [|done].
    destruct (aeqb c CR) eqn:Hc; [|done]. apply aeqb_eq in Hc. congruence.
  - replace (w ++ [CR; LF]) with ((w ++ [CR]) ++ [LF]) by by rewrite <- (assoc_L (++)).
    rewrite last_snoc. replace (aeqb LF LF) with true by done. cbn [negb].
    rewrite removelast_last, last_snoc. replace (aeqb CR CR) with true by done.
    by rewrite removelast_last.
Qed.

Lemma policy_word_no_cr b w :
  tolower <$> w = (if b : bool then cs "fail-closed" else cs "fail-open") → last w ≠ Some CR.
Proof.
  intros Hw Hl. apply last_Some in Hl as [k ->]. rewrite fmap_app in Hw.
  apply (f_equal last) in Hw. csimpl in Hw. rewrite last_snoc in Hw.
  by destruct b; vm_compute in Hw.
Qed.

Lemma policy_lines_exclusive bytes : policy_line bytes true → policy_line bytes false → False.
Proof.
  intros (w & Hk & Hw) (w' & Hk' & Hw').
  pose proof (policy_word_line _ _ Hk (policy_word_no_cr true _ Hw)).
  pose proof (policy_word_line _ _ Hk' (policy_word_no_cr false _ Hw')).
  simplify_eq. rewrite Hw in Hw'. done.
Qed.

(** A decision on the line. *)
Lemma policy_word_decides bytes b :
  policy_line bytes b ↔
  ∃ w, policy_word (buf_str bytes) = Some w ∧
    strcasecmp_eq w (if b then cs "fail-closed" else cs "fail-open") = true.
Proof.
  assert (tolower <$> (if b then cs "fail-closed" else cs "fail-open") =
    if b then cs "fail-closed" else cs "fail-open") as Hlow by by destruct b; vm_compute.
  split.
  - intros (w & Hk & Hw). exists w. split; [|rewrite strcasecmp_eq_spec; by rewrite Hlow].
    apply policy_word_line; [done|]. by eapply policy_word_no_cr.
  - intros (w & Hk%policy_word_some & Hw%strcasecmp_eq_spec). exists w.
    by rewrite Hlow in Hw.
Qed.

(** A write to the policy file sets the policy exactly when it is, at
    offset 0 and within the buffer, one of the two words in any letter case
    with its line ending (LF or CR LF); it then consumes every byte.  Any
    other write returns an error and leaves the policy as it was.  What the
    file shows can be written back. *)
Theorem policy_write_exact ppos count ubuf fail_closed :
  let '(ret, policy) := daemon_policy_proc_write ppos count ubuf fail_closed in
  ((ret = count ∧ policy_accepts ppos count ubuf policy) ∨
   (ret < 0 ∧ policy = fail_closed ∧ ∀ b, ¬ policy_accepts ppos count ubuf b)) ∧
  ∀ b, let shown := daemon_policy_proc_show b in
    daemon_policy_proc_write 0 (Z.of_nat (length shown)) (Some shown) fail_closed =
      (Z.of_nat (length shown), b).
Proof.
  destruct (daemon_policy_proc_write ppos count ubuf fail_closed) as [ret policy] eqn:Hw.
  split; [|by intros []; vm_compute].
  unfold daemon_policy_proc_write in Hw. unfold policy_accepts.
  destruct (Z.eqb_spec ppos 0) as [->|Hp]; cbn [negb] in Hw;
    [|right; simplify_eq; split; [done|]; split; [done|]; by intros b (?&_)].
  destruct (Z.leb_spec POLICY_KBUF count) as [Hc|Hc];
    [right; simplify_eq; split; [done|]; split; [done|]; intros b (_&?&_); lia|].
  destruct ubuf as [bytes|];
    [|right; simplify_eq; split; [done|]; split; [done|]; by intros b (_&_&?&?&_)].
  destruct (policy_word (buf_str bytes)) as [w|] eqn:Hk;
    [|right; simplify_eq; split; [done|]; split; [done|];
      intros b (_&_&?&[= <-]&(?&?&_)%policy_word_decides); congruence].
  destruct (strcasecmp_eq w (cs "fail-open")) eqn:Ho; simplify_eq.
  { left. split; [done|]. split; [done|]. split; [done|]. eexists. split; [done|].
    apply policy_word_decides. by exists w. }
  destruct (strcasecmp_eq w (cs "fail-closed")) eqn:Hcl; simplify_eq.
  { left. split; [done|]. split; [done|]. split; [done|]. eexists. split; [done|].
    apply policy_word_decides. by exists w. }
  right. split; [done|]. split; [done|].
  intros b (_&_&?&[= <-]&(w'&?&Hs)%policy_word_decides). simplify_eq. destruct b; congruence.
Qed.

(** ** Examples *)

Module ExecExamples.
Import ToyHash ToyClock Examples.

#[local] Existing Instances Trust.trust_list Protect.protect_list.

(** One file system object, a regular file holding three bytes read in two
    chunks. *)
Definition sample : file :=
  {| f_isreg := true; f_isize := 3; f_ident := {| id_dev := 2049; id_ino := 7; id_size := 3 |};
     f_reads := [inr [77; 90]; inr [0]; inr []] |}.
Definition huge : file :=
  {| f_isreg := true; f_isize := MAX_HASH_FILE_SIZE + 1; f_ident := f_ident sample;
     f_reads := [] |}.
Definition toy_vfs (f : file) : @vfs cstr :=
  {| dentry_open := λ _, inr f; filp_open := λ _, inr f; vfs_path_lookup := λ _ p, inr p |}.

(** A crypto API whose SHA-256 is the seeded EICAR digest for the sample, and
    zeros for everything else. *)
Definition nibble (a : ascii) : Z := if code a <=? 57 then code a - 48 else code a - 87.
Fixpoint unhex (s : cstr) : list Z :=
  match s with a :: b :: s' => 16 * nibble a + nibble b :: unhex s' | _ => [] end.
Definition toy_crypto : crypto :=
  {| cr_setup := λ _, 0; cr_update := λ _ _, 0; cr_final := λ _, 0;
     cr_hash := λ _ data, if bool_decide (data = [77; 90; 0]) then unhex eicar
                          else replicate 32 0 |}.

Lemma toy_vfs_ok : vfs_ok (toy_vfs sample).
Proof.
  split; [done..| |]; intros ??? [= <-] Hin; cbn [f_reads sample] in Hin;
    repeat (apply elem_of_cons in Hin as [?|Hin]; [done|]); by apply elem_of_nil in Hin.
Qed.

Definition hashed := hash_file_multi (toy_vfs sample) toy_crypto true st1 (cs "/bin/x") [].

Lemma hashed_ret :
  hashed = (0, digest_of (active_algos st1) (full_digest toy_crypto [77; 90; 0]),
            Some (f_ident sample)).
Proof. by vm_compute. Qed.

(** The table has no MD5 entry: MD5 is not computed, and nothing is lost. *)
Lemma hash_skip_sound_witness :
  md5 hashed.1.2 = [] ∧
  av_sigtable_match hashed.1.2 64 st1 =
    av_sigtable_match (full_digest toy_crypto [77; 90; 0]) 64 st1.
Proof.
  split; [by vm_compute|].
  destruct (hash_skip_sound _ _ _ _ _ _ _ _ 64 st1_inv toy_vfs_ok hashed_ret)
    as (f & data & Ho & -> & _ & _ & _ & Hm).
  rewrite hashed_ret. cbn in Ho. injection Ho as <-. exact Hm.
Defined.

Definition trust0 := Trust.trust_table_init.
Definition prot0 := Protect.protected_table_init.
Definition tg9 : target :=
  {| tg_pid_nr := 9; tg_exe := Exe (Some (cs "/bin/x")); tg_path_buf_ok := true;
     tg_log_buf_ok := true; tg_task := true |}.
Definition no_daemon (path sha : cstr) : Z * option (Z * Z * cstr) := (- ENOTCONN, None).

Definition run (fail_closed : bool) (f : file) (nl : cstr → cstr → Z * option (Z * Z * cstr))
    (sigs : sigtable) (st : behavior) : behavior * list effect * clean_log :=
  av_work_fn (λ _, Some (cs "/")) true true true true true fail_closed (toy_vfs f) toy_crypto
    trust0 prot0 1000 tg9 9 5 [] (cs "/bin/x") sigs nl st.

(** The seeded signature kills the sample's process even without a daemon. *)
Lemma exec_detection_witness :
  Sigkill 9 ∈ (run false sample no_daemon st1 behavior_zero).1.2.
Proof.
  destruct (exec_detection (λ _, Some (cs "/")) true true true true false (toy_vfs sample)
    toy_crypto trust0 prot0 1000 tg9 9 5 [] (cs "/bin/x") st1 no_daemon behavior_zero _ _
    st1_inv toy_vfs_ok hashed_ret) as (f & Ho & Hr).
  cbn in Ho. injection Ho as <-. unfold run.
  destruct (av_work_fn _ _ _ _ _ _ _ _ _ _ _ _ _ _ _ _ _ _ _ _) as [[st' effs] log].
  apply (proj2 Hr 9). split; [|left; eexists; by vm_compute].
  split; [done|]. split; [done|]. split; [|done]. intros (p & [= <-] & Hp).
  by vm_compute in Hp.
Defined.

(** What the netlink channel's shutdown answers to a waiter (see
    [NetlinkExamples.exit_wakes_without_verdict]) counts as a clean verdict,
    also under fail-closed. *)
Example shutdown_verdict_is_clean :
  run true sample (λ _ _, (0, Some (1, -1, []))) st0 behavior_zero =
  ((run true sample no_daemon st0 behavior_zero).1.1, [], CleanDaemon).
Proof. by vm_compute. Qed.

(** A file over 256 MB is neither recorded nor killed, whatever the policy:
    a process that was trusted keeps its entry, and with it the exemption,
    after exec'ing something else. *)
Definition trusted9 : behavior :=
  av_behavior_record_exec
    (Trust.av_behavior_trust_add true eicar (cs "sh") trust0).2 true 999 9 (cs "/bin/sh") eicar 5
    behavior_zero.

Example unhashable_exec_keeps_trust :
  run true huge no_daemon st1 trusted9 = (trusted9, [], NoLog) ∧
  be_trusted <$> entries trusted9 !! 9 = Some true.
Proof. split; by vm_compute. Qed.
End ExecExamples.
