(* ===== verification/Life.v ===== *)
(** * Loading and unloading: av/main.c, [av_init] and [av_exit]

    Every call that can fail has its result among the [outcomes]; a run leaves
    the trace of what was acquired and released, in order, and the state of
    the parts.  The labels of the error path are functions that fall through
    to the next one, as in the source.  The taint report comes first, as it
    does in [av_init]. *)

From Stdlib Require Import ZArith Lia Ascii String.
From stdpp Require Import prelude list gmap strings.
From S2P Require Import Prelude CString Hashtable SigTable AllowLists Paths Window Kill.
From S2P Require Import Behavior Netlink.

Local Open Scope Z_scope.

(** ** The taint report *)

Record av_taint_flag := { flag : Z; letter : ascii; tname : cstr }.

Definition taint (f : Z) (l : ascii) (n : cstr) : av_taint_flag :=
  {| flag := f; letter := l; tname := n |}.

(** The flag numbers are linux/panic.h's; [randstruct] is whether the kernel
    defines TAINT_RANDSTRUCT. *)
Definition av_taint_flags_of_interest (randstruct : bool) : list av_taint_flag :=
  [taint 0 "P" (cs "PROPRIETARY_MODULE"); taint 1 "F" (cs "FORCED_MODULE");
   taint 2 "S" (cs "CPU_OUT_OF_SPEC"); taint 3 "R" (cs "FORCED_RMMOD");
   taint 4 "M" (cs "MACHINE_CHECK"); taint 5 "B" (cs "BAD_PAGE");
   taint 6 "U" (cs "USER"); taint 7 "D" (cs "DIE");
   taint 8 "A" (cs "OVERRIDDEN_ACPI_TABLE"); taint 9 "W" (cs "WARN");
   taint 10 "C" (cs "CRAP"); taint 11 "I" (cs "FIRMWARE_WORKAROUND");
   taint 14 "L" (cs "SOFTLOCKUP"); taint 15 "K" (cs "LIVEPATCH");
   taint 16 "X" (cs "AUX")]
  ++ if randstruct then [taint 17 "T" (cs "RANDSTRUCT")] else [].

(** [sizeof(names)]. *)
Definition NAMES_LEN : nat := 512.

(** [scnprintf(names + names_len, sizeof(names) - names_len, ...)], the text
    being [s]: what fits is appended. *)
Definition scnprintf_at (names s : cstr) (size : nat) : cstr :=
  names ++ take (size - length names - 1) s.

Fixpoint taint_loop (test_taint : Z → bool) (fs : list av_taint_flag) (letters names : cstr)
    : cstr * cstr :=
  match fs with
  | [] => (letters, names)
  | f :: fs' =>
      if negb (test_taint (flag f)) then taint_loop test_taint fs' letters names
      else
        let sep := if (0 <? length names)%nat then cs "," else [] in
        taint_loop test_taint fs' (letters ++ [letter f])
          (scnprintf_at names (sep ++ tname f) NAMES_LEN)
  end.

(** The flags and reasons of the log line, if there is one. *)
Definition av_check_preexisting_taint (randstruct : bool) (test_taint : Z → bool)
    : option (cstr * cstr) :=
  let '(letters, names) := taint_loop test_taint (av_taint_flags_of_interest randstruct) [] [] in
  if (length letters =? 0)%nat then None else Some (letters, names).

(** ** Start and stop *)

Inductive kprobe :=
  | kp_execve | kp_execveat | kp_openat | kp_unlink | kp_unlinkat | kp_rename
  | kp_renameat | kp_renameat2.

Inductive part :=
  | SigTablePart | SigProc | PolicyProc | BehaviorPart | Workqueue | NetlinkPart
  | Kprobe (k : kprobe).

Inductive event := Acquire (p : part) | Release (p : part).

#[export] Instance kprobe_eq_dec : EqDecision kprobe.
Proof. solve_decision. Defined.
#[export] Instance part_eq_dec : EqDecision part.
Proof. solve_decision. Defined.

(** The module: what has happened so far, and its parts. *)
Record kmod := {
  trace : list event;
  sigs : sigtable;
  beh_held : list Behavior.resource;
  beh : behavior;
  net_held : list registered;
  net : chan;
  av_wq_max_active : Z;
}.

Definition log_event (ev : event) (m : kmod) : kmod :=
  {| trace := trace m ++ [ev]; sigs := sigs m; beh_held := beh_held m; beh := beh m;
     net_held := net_held m; net := net m; av_wq_max_active := av_wq_max_active m |}.

Definition acquire (p : part) : kmod → kmod := log_event (Acquire p).
Definition release (p : part) : kmod → kmod := log_event (Release p).

Definition with_sigs (s : sigtable) (m : kmod) : kmod :=
  {| trace := trace m; sigs := s; beh_held := beh_held m; beh := beh m;
     net_held := net_held m; net := net m; av_wq_max_active := av_wq_max_active m |}.
Definition with_beh (h : list Behavior.resource) (b : behavior) (m : kmod) : kmod :=
  {| trace := trace m; sigs := sigs m; beh_held := h; beh := b;
     net_held := net_held m; net := net m; av_wq_max_active := av_wq_max_active m |}.
Definition with_net (h : list registered) (c : chan) (m : kmod) : kmod :=
  {| trace := trace m; sigs := sigs m; beh_held := beh_held m; beh := beh m;
     net_held := h; net := c; av_wq_max_active := av_wq_max_active m |}.
Definition with_wq_max (n : Z) (m : kmod) : kmod :=
  {| trace := trace m; sigs := sigs m; beh_held := beh_held m; beh := beh m;
     net_held := net_held m; net := net m; av_wq_max_active := n |}.

(** The results of the calls that can fail; [o_trust_proc], [o_protect_proc]
    and [o_gc_wq] are [av_behavior_init]'s own. *)
Record outcomes := {
  o_sig_proc : bool; o_policy_proc : bool; o_seed_kmalloc : bool;
  o_trust_proc : bool; o_protect_proc : bool; o_gc_wq : bool;
  o_wq : bool; o_notifier : Z; o_family : Z; o_kprobe : kprobe → Z;
}.

Definition AV_WQ_MAX_ACTIVE_DEFAULT : Z := 32.
Definition AV_WQ_MAX_ACTIVE_MIN : Z := 1.

(** [wq_unbound_max]: the kernel's WQ_UNBOUND_MAX_ACTIVE. *)
Definition clamp_wq_max_active (wq_unbound_max n : Z) : Z :=
  if (n <? AV_WQ_MAX_ACTIVE_MIN) || (wq_unbound_max <? n) then AV_WQ_MAX_ACTIVE_DEFAULT else n.

Definition unregister_kprobe (k : kprobe) : kmod → kmod := release (Kprobe k).
Definition destroy_workqueue : kmod → kmod := release Workqueue.

(** The parts' own exits. *)
Definition netlink_exit (m : kmod) : kmod :=
  release NetlinkPart
    (with_net (List.remove registered_eq_dec Notifier
                 (List.remove registered_eq_dec Family (net_held m)))
              (av_netlink_exit (net m)) m).
Definition behavior_exit (m : kmod) : kmod :=
  let '(h, b) := av_behavior_exit (beh_held m) (beh m) in
  release BehaviorPart (with_beh h b m).
Definition sigtable_exit (m : kmod) : kmod :=
  release SigTablePart (with_sigs (av_sigtable_exit (sigs m)) m).

(** The labels. *)
Definition err_sigtable (m : kmod) : kmod := sigtable_exit m.
Definition err_proc (m : kmod) : kmod := err_sigtable (release SigProc m).
Definition err_daemon_policy_proc (m : kmod) : kmod := err_proc (release PolicyProc m).
Definition err_behavior (m : kmod) : kmod := err_daemon_policy_proc (behavior_exit m).
Definition err_wq (m : kmod) : kmod := err_behavior (destroy_workqueue m).
Definition err_netlink (m : kmod) : kmod := err_wq (netlink_exit m).
Definition err_kp_execve (m : kmod) : kmod := err_netlink (unregister_kprobe kp_execve m).
Definition err_kp_execveat (m : kmod) : kmod := err_kp_execve (unregister_kprobe kp_execveat m).
Definition err_kp_openat (m : kmod) : kmod := err_kp_execveat (unregister_kprobe kp_openat m).
Definition err_kp_unlink (m : kmod) : kmod := err_kp_openat (unregister_kprobe kp_unlink m).
Definition err_kp_unlinkat (m : kmod) : kmod := err_kp_unlink (unregister_kprobe kp_unlinkat m).
Definition err_kp_rename (m : kmod) : kmod := err_kp_unlinkat (unregister_kprobe kp_rename m).
Definition err_kp_renameat (m : kmod) : kmod := err_kp_rename (unregister_kprobe kp_renameat m).

Definition EICAR_SHA256 : cstr :=
  cs "275a021bbfb6489e54d471899f7db9d1663fc695ec2fe2a2c4538aabf651fd0f".
Definition EICAR_NAME : cstr := cs "EICAR-Test-File".

Section init.
Context `{KernelHash}.

(** [register_kprobe] and its jump. *)
Definition register_kprobe (o : outcomes) (k : kprobe) (label : kmod → kmod) (m : kmod)
    (next : kmod → Z * kmod) : Z * kmod :=
  let ret := o_kprobe o k in
  if ret <? 0 then (ret, label m) else next (acquire (Kprobe k) m).

Definition register_kprobes (o : outcomes) (m : kmod) : Z * kmod :=
  register_kprobe o kp_execve err_netlink m (λ m,
  register_kprobe o kp_execveat err_kp_execve m (λ m,
  register_kprobe o kp_openat err_kp_execveat m (λ m,
  register_kprobe o kp_unlink err_kp_openat m (λ m,
  register_kprobe o kp_unlinkat err_kp_unlink m (λ m,
  register_kprobe o kp_rename err_kp_unlinkat m (λ m,
  register_kprobe o kp_renameat err_kp_rename m (λ m,
  register_kprobe o kp_renameat2 err_kp_renameat m (λ m, (0, m))))))))).

(** [max_active]: the module parameter; [c]: the channel's (static) state. *)
Definition av_init (o : outcomes) (wq_unbound_max max_active : Z) : Z * kmod :=
  let m := acquire SigTablePart
    {| trace := []; sigs := av_sigtable_init; beh_held := []; beh := behavior_zero;
       net_held := []; net := init_chan; av_wq_max_active := max_active |} in
  if negb (o_sig_proc o) then (- ENOMEM, err_sigtable m)
  else
    let m := acquire SigProc m in
    if negb (o_policy_proc o) then (- ENOMEM, err_proc m)
    else
      let m := acquire PolicyProc m in
      let m := with_sigs
        (av_sigtable_add (o_seed_kmalloc o) AV_ALGO_SHA256 EICAR_SHA256 EICAR_NAME (sigs m)).2 m in
      let '(ret, h, b) := av_behavior_init (o_trust_proc o) (o_protect_proc o) (o_gc_wq o) in
      let m := with_beh h b m in
      if negb (ret =? 0) then (ret, err_daemon_policy_proc m)
      else
        let m := acquire BehaviorPart m in
        let m := with_wq_max (clamp_wq_max_active wq_unbound_max (av_wq_max_active m)) m in
        if negb (o_wq o) then (- ENOMEM, err_behavior m)
        else
          let m := acquire Workqueue m in
          let '(ret, h) := av_netlink_init (o_notifier o) (o_family o) in
          let m := with_net h (net m) m in
          if negb (ret =? 0) then (ret, err_wq m)
          else register_kprobes o (acquire NetlinkPart m).

Definition av_exit (m : kmod) : kmod :=
  let m := unregister_kprobe kp_renameat2 m in
  let m := unregister_kprobe kp_renameat m in
  let m := unregister_kprobe kp_rename m in
  let m := unregister_kprobe kp_unlinkat m in
  let m := unregister_kprobe kp_unlink m in
  let m := unregister_kprobe kp_openat m in
  let m := unregister_kprobe kp_execveat m in
  let m := unregister_kprobe kp_execve m in
  let m := destroy_workqueue m in
  let m := netlink_exit m in
  let m := behavior_exit m in
  let m := release PolicyProc m in
  let m := release SigProc m in
  sigtable_exit m.

(** ** Facts *)

(** The order of acquisition, and that of [av_exit]. *)
Definition all_parts : list part :=
  [SigTablePart; SigProc; PolicyProc; BehaviorPart; Workqueue; NetlinkPart;
   Kprobe kp_execve; Kprobe kp_execveat; Kprobe kp_openat; Kprobe kp_unlink;
   Kprobe kp_unlinkat; Kprobe kp_rename; Kprobe kp_renameat; Kprobe kp_renameat2].

Definition exit_order : list part :=
  [Kprobe kp_renameat2; Kprobe kp_renameat; Kprobe kp_rename; Kprobe kp_unlinkat;
   Kprobe kp_unlink; Kprobe kp_openat; Kprobe kp_execveat; Kprobe kp_execve;
   Workqueue; NetlinkPart; BehaviorPart; PolicyProc; SigProc; SigTablePart].

Definition beh_all : list Behavior.resource := [GcWorkqueue; ProtectProc; TrustProc].
Definition net_all : list registered := [Family; Notifier].

(** A failed load: what was acquired is released, last first, and nothing of
    the parts' own is left registered. *)
Definition unwound (m : kmod) : Prop :=
  (∃ l, l `prefix_of` all_parts ∧ trace m = (Acquire <$> l) ++ (Release <$> reverse l)) ∧
  beh_held m = [] ∧ net_held m = [].

Definition loaded (m : kmod) : Prop :=
  trace m = Acquire <$> all_parts ∧ beh_held m = beh_all ∧ net_held m = net_all.

(** The prefix of length [n], by computation. *)
Lemma unwound_prefix n m :
  trace m = (Acquire <$> take n all_parts) ++ (Release <$> reverse (take n all_parts)) →
  beh_held m = [] → net_held m = [] → unwound m.
Proof. intros Ht Hb Hn. split; [|done]. exists (take n all_parts). split; [apply prefix_take|done]. Qed.

Lemma register_kprobes_spec o m :
  trace m = Acquire <$> take 6 all_parts → beh_held m = beh_all → net_held m = net_all →
  let '(ret, m') := register_kprobes o m in
  if ret =? 0 then loaded m' ∧ sigs m' = sigs m ∧ av_wq_max_active m' = av_wq_max_active m
  else unwound m'.
Proof.
  intros Ht Hb Hn. destruct m as [t s bh b nh c q]. cbn [trace beh_held net_held] in *. subst.
  unfold register_kprobes.
  repeat match goal with
  | |- context [register_kprobe o ?k ?l ?m ?n] =>
      unfold register_kprobe at 1;
      destruct (Z.ltb_spec (o_kprobe o k) 0); cbv beta iota zeta;
      [destruct (Z.eqb_spec (o_kprobe o k) 0); [lia|]|]
  end; cbv beta iota zeta.
  1-8: first [by apply (unwound_prefix 6)|by apply (unwound_prefix 7)
    |by apply (unwound_prefix 8)|by apply (unwound_prefix 9)|by apply (unwound_prefix 10)
    |by apply (unwound_prefix 11)|by apply (unwound_prefix 12)|by apply (unwound_prefix 13)].
  by cbn.
Qed.

Lemma av_init_spec o wq_unbound_max max_active :
  let '(ret, m) := av_init o wq_unbound_max max_active in
  if ret =? 0
  then loaded m ∧
    sigs m = (av_sigtable_add (o_seed_kmalloc o) AV_ALGO_SHA256 EICAR_SHA256 EICAR_NAME
                av_sigtable_init).2 ∧
    av_wq_max_active m = clamp_wq_max_active wq_unbound_max max_active
  else unwound m.
Proof.
  unfold av_init.
  destruct (o_sig_proc o); cbn [negb]; [|by apply (unwound_prefix 1)].
  destruct (o_policy_proc o); cbn [negb]; [|by apply (unwound_prefix 2)].
  unfold av_behavior_init.
  destruct (o_trust_proc o); cbn [negb]; [|by apply (unwound_prefix 3)].
  destruct (o_protect_proc o); cbn [negb]; [|by apply (unwound_prefix 3)].
  destruct (o_gc_wq o); cbn [negb]; [|by apply (unwound_prefix 3)].
  change (0 =? 0) with true; cbn [negb].
  destruct (o_wq o); cbn [negb]; [|by apply (unwound_prefix 4)].
  unfold av_netlink_init.
  destruct (Z.eqb_spec (o_notifier o) 0); cbn [negb].
  2: { cbv beta iota zeta. rewrite (proj2 (Z.eqb_neq (o_notifier o) 0)) by done. cbn [negb].
    rewrite (proj2 (Z.eqb_neq (o_notifier o) 0)) by done. by apply (unwound_prefix 5). }
  destruct (Z.eqb_spec (o_family o) 0); cbn [negb].
  2: { cbv beta iota zeta. rewrite (proj2 (Z.eqb_neq (o_family o) 0)) by done. cbn [negb].
    rewrite (proj2 (Z.eqb_neq (o_family o) 0)) by done. by apply (unwound_prefix 5). }
  change (0 =? 0) with true; cbn [negb].
  match goal with |- context [register_kprobes o ?m] =>
    pose proof (register_kprobes_spec o m eq_refl eq_refl eq_refl) as Hk;
    destruct (register_kprobes o m) as [ret m']
  end.
  destruct (ret =? 0); [|done]. by destruct Hk as (?&->&->).
Qed.

Lemma av_exit_spec m :
  trace (av_exit m) = trace m ++ (Release <$> exit_order) ∧
  (beh_held m = beh_all → beh_held (av_exit m) = []) ∧
  (net_held m = net_all → net_held (av_exit m) = []) ∧
  hash_all (sig_table (sigs (av_exit m))) = [] ∧
  hash_all (behavior_table (beh (av_exit m))) = [] ∧
  pending_list (net (av_exit m)) = pending_list (av_netlink_exit (net m)).
Proof.
  destruct m as [t s bh b nh c q]. cbn [trace beh_held net_held]. split_and!.
  - unfold av_exit, sigtable_exit, behavior_exit, netlink_exit. cbn.
    by rewrite <- !(assoc_L (++)).
  - by intros ->.
  - by intros ->.
  - cbn. unfold hash_all. induction (sig_table s) as [|x l IH]; csimpl; [done|]. exact IH.
  - cbn [beh av_exit]. cbn. rewrite hash_sweep_all.
    induction (hash_all (behavior_table b)) as [|x l IH]; [done|exact IH].
  - done.
Qed.

(** C22: loading is all or nothing: [av_init] either fails, having released
    exactly what it had acquired, in reverse order; or returns 0 with every
    part up (each after those it uses), the worker bound within range (or its
    default) and the EICAR signature in the table unless its allocation
    failed.  [av_exit] of a module in whatever state it has reached since
    releases each part exactly once, the workqueue right after the hooks and
    before anything the workers use, and frees every table. *)
Theorem load_unload o wq_unbound_max max_active :
  let '(ret, m) := av_init o wq_unbound_max max_active in
  if negb (ret =? 0) then unwound m
  else
    loaded m ∧
    (av_wq_max_active m = AV_WQ_MAX_ACTIVE_DEFAULT ∨
     AV_WQ_MAX_ACTIVE_MIN ≤ av_wq_max_active m ≤ wq_unbound_max) ∧
    sig_abs (sigs m) =
      (if o_seed_kmalloc o then {[ (AV_ALGO_SHA256, EICAR_SHA256) := EICAR_NAME ]} else ∅) ∧
    ∀ s b c, let m' := av_exit (with_net net_all c (with_beh beh_all b (with_sigs s m))) in
      trace m' = trace m ++ (Release <$> exit_order) ∧ exit_order ≡ₚ all_parts ∧
      beh_held m' = [] ∧ net_held m' = [] ∧
      hash_all (sig_table (sigs m')) = [] ∧ hash_all (behavior_table (beh m')) = [].
Proof.
  pose proof (av_init_spec o wq_unbound_max max_active) as Hs.
  destruct (av_init o wq_unbound_max max_active) as [ret m].
  destruct (ret =? 0); cbn [negb]; [|done]. destruct Hs as (Hl & Hsig & Hq).
  split; [done|]. split; [|split].
  - rewrite Hq. unfold clamp_wq_max_active.
    destruct (Z.ltb_spec max_active AV_WQ_MAX_ACTIVE_MIN); [by left|].
    destruct (Z.ltb_spec wq_unbound_max max_active); [by left|]. right. cbn [orb]. lia.
  - rewrite Hsig.
    pose proof (sigtable_add_spec (o_seed_kmalloc o) AV_ALGO_SHA256 EICAR_SHA256 EICAR_NAME
      av_sigtable_init sig_inv_init) as Ha.
    destruct (av_sigtable_add _ _ _ _ _) as [r s]. destruct Ha as [_ Ha].
    rewrite sig_abs_init in Ha. unfold spec_add in Ha.
    change (hex_wf AV_ALGO_SHA256 EICAR_SHA256) with true in Ha. cbn [negb] in Ha.
    change (hex_tolower EICAR_SHA256) with EICAR_SHA256 in Ha.
    rewrite lookup_empty, map_size_empty in Ha.
    cbn [snd]. destruct (o_seed_kmalloc o); cbn [negb] in Ha; by injection Ha as _ <-.
  - intros s b c.
    destruct (av_exit_spec (with_net net_all c (with_beh beh_all b (with_sigs s m))))
      as (Ht & Hb & Hn & Hs & Hbt & _).
    split; [exact Ht|]. split; [by apply (bool_decide_unpack _); vm_compute|].
    split; [by apply Hb|]. split; [by apply Hn|]. done.
Qed.
End init.

(** ** The taint report is complete *)

(** The reasons, separated by commas. *)
Fixpoint commas (l : list cstr) : cstr :=
  match l with [] => [] | [n] => n | n :: l' => n ++ cs "," ++ commas l' end.

Definition set_flags (randstruct : bool) (test_taint : Z → bool) : list av_taint_flag :=
  List.filter (λ f, test_taint (flag f)) (av_taint_flags_of_interest randstruct).

Lemma commas_snoc l n : l ≠ [] → commas (l ++ [n]) = commas l ++ cs "," ++ n.
Proof.
  induction l as [|a l IH]; [done|]. intros _. destruct l as [|b l]; [done|].
  change (commas ((a :: b :: l) ++ [n])) with (a ++ cs "," ++ commas ((b :: l) ++ [n])).
  change (commas (a :: b :: l)) with (a ++ cs "," ++ commas (b :: l)).
  rewrite IH by done. by rewrite <- !(assoc_L (++)).
Qed.

Lemma commas_nil l : (∀ n, n ∈ l → n ≠ []) → commas l = [] → l = [].
Proof.
  destruct l as [|a [|b l]]; [done|..]; intros Hn Hc.
  - exfalso. apply (Hn a); [apply list_elem_of_here|done].
  - exfalso. apply (Hn a); [apply list_elem_of_here|]. by apply app_eq_nil in Hc as [? _].
Qed.

(** The room the remaining reasons can take. *)
Definition room (fs : list av_taint_flag) : nat := foldr (λ f n, S (length (tname f)) + n)%nat 0%nat fs.

Lemma taint_loop_spec test fs done_ :
  (∀ n, n ∈ tname <$> done_ ++ fs → n ≠ []) →
  (length (commas (tname <$> done_)) + room fs < NAMES_LEN)%nat →
  let all := done_ ++ List.filter (λ f, test (flag f)) fs in
  taint_loop test fs (letter <$> done_) (commas (tname <$> done_)) =
    (letter <$> all, commas (tname <$> all)).
Proof.
  revert done_. induction fs as [|f fs IH]; intros done_ Hn Hr.
  { simpl. by rewrite app_nil_r. }
  cbn [taint_loop List.filter room foldr] in *. fold (room fs) in Hr.
  destruct (test (flag f)); cbn [negb].
  2: { apply IH; [|lia]. intros n Hin. apply Hn. revert Hin. rewrite !fmap_app, !elem_of_app.
       csimpl. intros [?|?]; [by left|right; by right]. }
  assert (scnprintf_at (commas (tname <$> done_))
            ((if (0 <? length (commas (tname <$> done_)))%nat then cs "," else []) ++ tname f)
            NAMES_LEN = commas (tname <$> done_ ++ [f])) as ->.
  { unfold scnprintf_at. rewrite take_ge.
    2: { rewrite length_app. destruct (0 <? _)%nat; simpl; lia. }
    rewrite fmap_app. change (tname <$> [f]) with [tname f].
    destruct (Nat.ltb_spec 0 (length (commas (tname <$> done_)))) as [Hl|Hl].
    - rewrite commas_snoc; [done|]. intros He. rewrite He in Hl. simpl in Hl. lia.
    - assert (commas (tname <$> done_) = []) as Hc by (destruct (commas _); [done|simpl in Hl; lia]).
      rewrite Hc. apply commas_nil in Hc as ->; [done|].
      intros n Hin. apply Hn. rewrite fmap_app, elem_of_app. by left. }
  replace ((letter <$> done_) ++ [letter f]) with (letter <$> done_ ++ [f]) by by rewrite fmap_app.
  rewrite (IH (done_ ++ [f])).
  - by rewrite <- !(assoc_L (++)).
  - intros n Hin. apply Hn. by rewrite <- (assoc_L (++)) in Hin.
  - rewrite fmap_app. change (tname <$> [f]) with [tname f].
    destruct (decide (tname <$> done_ = [])) as [->|Hne].
    + cbn [app commas]. lia.
    + rewrite commas_snoc, !length_app by done. simpl. lia.
Qed.

(** The report names every flag of interest that is set, in the table's
    order, one letter and one reason each: the 512 bytes of reasons can never
    be cut short, and a kernel without any of them is not reported. *)
Theorem taint_report randstruct test_taint :
  av_check_preexisting_taint randstruct test_taint =
    (let fs := set_flags randstruct test_taint in
     if (length fs =? 0)%nat then None
     else Some (letter <$> fs, commas (tname <$> fs))).
Proof.
  unfold av_check_preexisting_taint.
  change (taint_loop test_taint (av_taint_flags_of_interest randstruct) [] [])
    with (taint_loop test_taint (av_taint_flags_of_interest randstruct)
            (letter <$> []) (commas (tname <$> []))).
  rewrite taint_loop_spec.
  - cbn [app]. unfold set_flags. by rewrite length_fmap.
  - assert (Forall (λ n, n ≠ []) (tname <$> [] ++ av_taint_flags_of_interest randstruct)) as Hf
      by (apply (bool_decide_unpack _); by destruct randstruct; vm_compute).
    by rewrite Forall_forall in Hf.
  - apply Nat.ltb_lt. by destruct randstruct; vm_compute.
Qed.

(** ** Examples *)

Module LifeExamples.
Import ToyHash.

(** The second kprobe fails to register. *)
Definition o_execveat : outcomes :=
  {| o_sig_proc := true; o_policy_proc := true; o_seed_kmalloc := true; o_trust_proc := true;
     o_protect_proc := true; o_gc_wq := true; o_wq := true; o_notifier := 0; o_family := 0;
     o_kprobe := λ k, if bool_decide (k = kp_execveat) then - EINVAL else 0 |}.

(** On the error path the netlink channel is shut down while the workqueue,
    which the execve hook has been feeding, is still there: the reverse of
    [av_exit], and not what [av_netlink_exit]'s comment says. *)
Example error_path_netlink_first :
  (av_init o_execveat 512 32).1 = - EINVAL ∧
  drop 7 (trace (av_init o_execveat 512 32).2) =
    Release <$> [Kprobe kp_execve; NetlinkPart; Workqueue; BehaviorPart; PolicyProc; SigProc;
                 SigTablePart].
Proof. split; by vm_compute. Qed.

Example taint_two :
  av_check_preexisting_taint true (λ f, (f =? 1) || (f =? 9)) =
    Some (cs "FW", cs "FORCED_MODULE,WARN").
Proof. by vm_compute. Qed.
End LifeExamples.
