(* ===== verification/Sha256.v ===== *)
(** * SHA-256: userspace/avd/sha256.c

    The daemon's own SHA-256, with its 32-bit arithmetic, its block buffer and
    its padding through [sha256_update]; and FIPS 180-4, stated on the bits of
    words and on a whole message, which it is proved to compute for any way
    the message is cut into pieces. *)

From Stdlib Require Import ZArith Lia Ascii String Znumtheory.
From stdpp Require Import prelude list.
From S2P Require Import Prelude CString.

Local Open Scope Z_scope.

(** ** The code *)

(** Row by row. *)
Definition k : list Z := Eval cbv in mjoin [
  [0x428a2f98; 0x71374491; 0xb5c0fbcf; 0xe9b5dba5; 0x3956c25b; 0x59f111f1];
  [0x923f82a4; 0xab1c5ed5; 0xd807aa98; 0x12835b01; 0x243185be; 0x550c7dc3];
  [0x72be5d74; 0x80deb1fe; 0x9bdc06a7; 0xc19bf174; 0xe49b69c1; 0xefbe4786];
  [0x0fc19dc6; 0x240ca1cc; 0x2de92c6f; 0x4a7484aa; 0x5cb0a9dc; 0x76f988da];
  [0x983e5152; 0xa831c66d; 0xb00327c8; 0xbf597fc7; 0xc6e00bf3; 0xd5a79147];
  [0x06ca6351; 0x14292967; 0x27b70a85; 0x2e1b2138; 0x4d2c6dfc; 0x53380d13];
  [0x650a7354; 0x766a0abb; 0x81c2c92e; 0x92722c85; 0xa2bfe8a1; 0xa81a664b];
  [0xc24b8b70; 0xc76c51a3; 0xd192e819; 0xd6990624; 0xf40e3585; 0x106aa070];
  [0x19a4c116; 0x1e376c08; 0x2748774c; 0x34b0bcb5; 0x391c0cb3; 0x4ed8aa4a];
  [0x5b9cca4f; 0x682e6ff3; 0x748f82ee; 0x78a5636f; 0x84c87814; 0x8cc70208];
  [0x90befffa; 0xa4506ceb; 0xbef9a3f7; 0xc67178f2]].

Definition SHA256_DIGEST_SIZE : nat := 32.

Record sha256_ctx := {
  state : list Z;      (* 8 words *)
  bitlen : Z;          (* uint64_t *)
  buffer : list Z;     (* 64 bytes *)
  buflen : nat;
}.


Definition ROTR (x n : Z) : Z := Z.lor (Z.shiftr x n) (u32 (Z.shiftl x (32 - n))).

Definition block_word (block : list Z) (i : nat) : Z :=
  Z.lor (Z.lor (Z.lor (u32 (Z.shiftl (at_ block (i * 4)) 24))
                      (u32 (Z.shiftl (at_ block (i * 4 + 1)) 16)))
               (u32 (Z.shiftl (at_ block (i * 4 + 2)) 8)))
        (at_ block (i * 4 + 3)).

(** [w]: the entries assigned so far, [w[i]] being the next. *)
Definition schedule_step (w : list Z) (i : nat) : list Z :=
  let s0 := Z.lxor (Z.lxor (ROTR (at_ w (i - 15)) 7) (ROTR (at_ w (i - 15)) 18))
                   (Z.shiftr (at_ w (i - 15)) 3) in
  let s1 := Z.lxor (Z.lxor (ROTR (at_ w (i - 2)) 17) (ROTR (at_ w (i - 2)) 19))
                   (Z.shiftr (at_ w (i - 2)) 10) in
  w ++ [u32 (at_ w (i - 16) + s0 + at_ w (i - 7) + s1)].

Record vars := V { va : Z; vb : Z; vc : Z; vd : Z; ve : Z; vf : Z; vg : Z; vh : Z }.

Definition round (w : list Z) (v : vars) (i : nat) : vars :=
  let s1 := Z.lxor (Z.lxor (ROTR (ve v) 6) (ROTR (ve v) 11)) (ROTR (ve v) 25) in
  let ch := Z.lxor (Z.land (ve v) (vf v)) (Z.land (u32 (Z.lnot (ve v))) (vg v)) in
  let temp1 := u32 (vh v + s1 + ch + at_ k i + at_ w i) in
  let s0 := Z.lxor (Z.lxor (ROTR (va v) 2) (ROTR (va v) 13)) (ROTR (va v) 22) in
  let maj := Z.lxor (Z.lxor (Z.land (va v) (vb v)) (Z.land (va v) (vc v))) (Z.land (vb v) (vc v)) in
  let temp2 := u32 (s0 + maj) in
  V (u32 (temp1 + temp2)) (va v) (vb v) (vc v) (u32 (vd v + temp1)) (ve v) (vf v) (vg v).

Definition vars_of (st : list Z) : vars :=
  V (at_ st 0) (at_ st 1) (at_ st 2) (at_ st 3) (at_ st 4) (at_ st 5) (at_ st 6) (at_ st 7).

Definition vars_list (v : vars) : list Z := [va v; vb v; vc v; vd v; ve v; vf v; vg v; vh v].

Definition set_state (st : list Z) (ctx : sha256_ctx) : sha256_ctx :=
  {| state := st; bitlen := bitlen ctx; buffer := buffer ctx; buflen := buflen ctx |}.

Definition sha256_transform (ctx : sha256_ctx) (block : list Z) : sha256_ctx :=
  let w := block_word block <$> seq 0 16 in
  let w := foldl schedule_step w (seq 16 48) in
  let v := foldl (round w) (vars_of (state ctx)) (seq 0 64) in
  set_state (zip_with (λ s x, u32 (s + x)) (state ctx) (vars_list v)) ctx.

(** [buf]: what the buffer happens to hold. *)
Definition sha256_init (buf : list Z) : sha256_ctx :=
  {| state := [0x6a09e667; 0xbb67ae85; 0x3c6ef372; 0xa54ff53a;
               0x510e527f; 0x9b05688c; 0x1f83d9ab; 0x5be0cd19];
     bitlen := 0; buffer := buf; buflen := 0 |}.

(** [memcpy(buf + off, data, length data)], within the buffer. *)
Definition memcpy (buf : list Z) (off : nat) (data : list Z) : list Z :=
  take off buf ++ data ++ drop (off + length data) buf.

(** The loop; [rest] is [data + i], [len - i] bytes. *)
Fixpoint update_loop (fuel : nat) (ctx : sha256_ctx) (rest : list Z) : option sha256_ctx :=
  if (length rest =? 0)%nat then Some ctx
  else match fuel with
  | O => None
  | S fuel =>
      let n := Nat.min (64 - buflen ctx) (length rest) in
      let ctx := {| state := state ctx;
                    bitlen := u64 (bitlen ctx + Z.of_nat n * 8);
                    buffer := memcpy (buffer ctx) (buflen ctx) (take n rest);
                    buflen := buflen ctx + n |} in
      let ctx :=
        if (buflen ctx =? 64)%nat
        then let ctx := sha256_transform ctx (buffer ctx) in
             {| state := state ctx; bitlen := bitlen ctx; buffer := buffer ctx; buflen := 0 |}
        else ctx in
      update_loop fuel ctx (drop n rest)
  end.

Definition sha256_update (ctx : sha256_ctx) (data : list Z) : option sha256_ctx :=
  update_loop (length data) ctx data.

(** [while (ctx->buflen != 56) sha256_update(ctx, &zero, 1);] *)
Fixpoint zero_loop (fuel : nat) (ctx : sha256_ctx) : option sha256_ctx :=
  if (buflen ctx =? 56)%nat then Some ctx
  else match fuel with
  | O => None
  | S fuel => sha256_update ctx [0x00] ≫= zero_loop fuel
  end.

(** [lenbytes]. *)
Definition len_bytes (n : Z) : list Z :=
  (λ i, u8 (Z.shiftr n (56 - 8 * Z.of_nat i))) <$> seq 0 8.

Definition word_bytes (s : Z) : list Z :=
  [u8 (Z.shiftr s 24); u8 (Z.shiftr s 16); u8 (Z.shiftr s 8); u8 s].

Definition sha256_final (ctx : sha256_ctx) : option (list Z) :=
  let bits := bitlen ctx in
  sha256_update ctx [0x80] ≫= λ ctx,
  zero_loop 64 ctx ≫= λ ctx,
  let buf := memcpy (buffer ctx) 56 (len_bytes bits) in
  let ctx := sha256_transform ctx buf in
  Some (mjoin (word_bytes <$> state ctx)).

Definition hexchars : cstr := cs "0123456789abcdef".

Definition hex_out (digest : list Z) : cstr :=
  mjoin ((λ x, [nth (Z.to_nat (Z.shiftr x 4)) hexchars NUL;
                nth (Z.to_nat (Z.land x 0xf)) hexchars NUL]) <$> digest).

(** The reading loop: [fread] returns the chunks in turn, then 0. *)
Fixpoint read_all (ctx : sha256_ctx) (reads : list (list Z)) : option sha256_ctx :=
  match reads with
  | [] | [] :: _ => Some ctx
  | buf :: reads => sha256_update ctx buf ≫= λ ctx, read_all ctx reads
  end.

(** [junk]: the buffer as it lies on the stack; the booleans are the outcomes
    of dup, fdopen and fseek, and ferror after the loop. *)
Definition sha256_fd (junk : list Z) (dup_ok fdopen_ok seek_ok : bool) (reads : list (list Z))
    (ferror : bool) : option (Z * option cstr) :=
  if negb dup_ok then Some (-1, None)
  else if negb fdopen_ok then Some (-1, None)
  else if negb seek_ok then Some (-1, None)
  else
    read_all (sha256_init junk) reads ≫= λ ctx,
    if ferror then Some (-1, None)
    else sha256_final ctx ≫= λ digest, Some (0, Some (hex_out digest)).

Example sha256_abc :
  sha256_fd (replicate 64 0) true true true [[97; 98; 99]] false =
  Some (0, Some (cs "ba7816bf8f01cfea414140de5dae2223b00361a396177a9cb410ff61f20015ad")).
Proof. by vm_compute. Qed.

(** ** FIPS 180-4 *)

Module Fips.

(** The word of the bits [p 0], [p 1], ... *)
Fixpoint bits (n : nat) (p : Z → bool) : Z :=
  match n with
  | O => 0
  | S n => Z.lor (bits n p) (Z.shiftl (Z.b2z (p (Z.of_nat n))) (Z.of_nat n))
  end.
Definition word : (Z → bool) → Z := bits 32.

Definition rotr (n x : Z) : Z := word (λ i, Z.testbit x ((i + n) mod 32)).
Definition shr (n x : Z) : Z := word (λ i, Z.testbit x (i + n)).
Definition xor3 (x y z : Z) : Z :=
  word (λ i, xorb (xorb (Z.testbit x i) (Z.testbit y i)) (Z.testbit z i)).

(** Choice, and majority. *)
Definition Ch (x y z : Z) : Z :=
  word (λ i, if Z.testbit x i then Z.testbit y i else Z.testbit z i).
Definition Maj (x y z : Z) : Z :=
  word (λ i, Z.testbit x i && Z.testbit y i || Z.testbit x i && Z.testbit z i
             || Z.testbit y i && Z.testbit z i).

Definition Sigma0 (x : Z) : Z := xor3 (rotr 2 x) (rotr 13 x) (rotr 22 x).
Definition Sigma1 (x : Z) : Z := xor3 (rotr 6 x) (rotr 11 x) (rotr 25 x).
Definition sigma0 (x : Z) : Z := xor3 (rotr 7 x) (rotr 18 x) (shr 3 x).
Definition sigma1 (x : Z) : Z := xor3 (rotr 17 x) (rotr 19 x) (shr 10 x).

(** The constants are fractional parts of roots of the first primes: [r] is
    the first 32 bits of the fractional part of the [n]th root of [p]. *)
Definition frac_root (n p r : Z) : Prop :=
  ∃ q, 0 ≤ q ∧ q ^ n ≤ p < (q + 1) ^ n ∧ 0 ≤ r < 2 ^ 32 ∧
    (2 ^ 32 * q + r) ^ n ≤ p * 2 ^ (32 * n) < (2 ^ 32 * q + r + 1) ^ n.

(** The primes below 312, of which there are 64. *)
Definition prime (n : nat) : bool :=
  (2 <=? n)%nat && forallb (λ d, negb (n mod d =? 0)%nat) (seq 2 (n - 2)).
Definition primes : list Z := Z.of_nat <$> List.filter prime (seq 0 312).

(** Constants as the standard defines them. *)
Record constants (K : list Z) (H0 : list Z) : Prop := {
  K_length : length K = 64%nat;
  K_root t p r : primes !! t = Some p → K !! t = Some r → frac_root 3 p r;
  H0_length : length H0 = 8%nat;
  H0_root t p r : primes !! t = Some p → H0 !! t = Some r → frac_root 2 p r;
}.

Section hash.
Context (K H0 : list Z).

(** The message schedule of a block of 16 words, and its recurrence. *)
Definition schedule (M W : list Z) : Prop :=
  length W = 64%nat ∧ take 16 W = M ∧
  ∀ t, (16 ≤ t < 64)%nat →
    at_ W t = (sigma1 (at_ W (t - 2)) + at_ W (t - 7) + sigma0 (at_ W (t - 15))
               + at_ W (t - 16)) mod 2 ^ 32.

(** One step on (a, b, c, d, e, f, g, h). *)
Definition step (W : list Z) (v : vars) (t : nat) : vars :=
  match v with
  | V a b c d e f g h =>
      let T1 := h + Sigma1 e + Ch e f g + at_ K t + at_ W t in
      let T2 := Sigma0 a + Maj a b c in
      V ((T1 + T2) mod 2 ^ 32) a b c ((d + T1) mod 2 ^ 32) e f g
  end.

Definition add_state (H : list Z) (v : vars) : list Z :=
  zip_with (λ x y, (x + y) mod 2 ^ 32) H (vars_list v).

(** Big-endian numbers. *)
Definition be (bytes : list Z) : Z := foldl (λ n x, n * 2 ^ 8 + x) 0 bytes.

Definition block_words (block : list Z) : list Z :=
  (λ i, be (take 4 (drop (i * 4) block))) <$> seq 0 16.

(** [H'] follows [H] by one block. *)
Definition compress (block H H' : list Z) : Prop :=
  ∃ W, schedule (block_words block) W ∧
    H' = add_state H (foldl (step W) (vars_of H) (seq 0 64)).

(** A message, its padding (least number of zeros) and length, cut into blocks
    of 64 bytes. *)
Definition padded (m p : list Z) : Prop :=
  ∃ z len, p = m ++ [0x80] ++ replicate z 0 ++ len ∧
    length len = 8%nat ∧ Forall (λ x, 0 ≤ x < 256) len ∧
    be len = (8 * Z.of_nat (length m)) mod 2 ^ 64 ∧
    (z < 64)%nat ∧ (length p mod 64 = 0)%nat.

Inductive blocks : list Z → list Z → list Z → Prop :=
  | blocks_nil H : blocks [] H H
  | blocks_cons block rest H H' H'' :
      length block = 64%nat → compress block H H' → blocks rest H' H'' →
      blocks (block ++ rest) H H''.

(** The digest of a message. *)
Definition digest (m out : list Z) : Prop :=
  ∃ p H, padded m p ∧ blocks p H0 H ∧
    out = mjoin ((λ x, [x / 2 ^ 24; x / 2 ^ 16 mod 2 ^ 8; x / 2 ^ 8 mod 2 ^ 8; x mod 2 ^ 8]) <$> H).
End hash.
End Fips.

(** ** Words and bits *)

Definition is_word (x : Z) : Prop := 0 ≤ x < 2 ^ 32.

Lemma u32_word x : is_word (u32 x).
Proof. by apply wrap_range. Qed.

Lemma word_high x i : is_word x → 32 ≤ i → Z.testbit x i = false.
Proof.
  intros [H0 H1] Hi. destruct (decide (x = 0)) as [->|]; [apply Z.testbit_0_l|].
  apply Z.bits_above_log2; [done|]. apply Z.log2_lt_pow2; [lia|].
  eapply Z.lt_le_trans; [exact H1|]. apply Z.pow_le_mono_r; lia.
Qed.

Lemma testbit_u32 x i : 0 ≤ i → Z.testbit (u32 x) i = (i <? 32) && Z.testbit x i.
Proof.
  intros Hi. unfold wrap. destruct (Z.ltb_spec i 32).
  - by rewrite Z.mod_pow2_bits_low by lia.
  - by rewrite Z.mod_pow2_bits_high by lia.
Qed.

Lemma bits_testbit n p i :
  0 ≤ i → Z.testbit (Fips.bits n p) i = (i <? Z.of_nat n) && p i.
Proof.
  intros Hi. induction n as [|n IH]; cbn [Fips.bits].
  { rewrite Z.testbit_0_l. destruct (Z.ltb_spec i (Z.of_nat 0)); [lia|done]. }
  rewrite Z.lor_spec, IH, Z.shiftl_spec by lia.
  destruct (Z.ltb_spec i (Z.of_nat n)), (Z.ltb_spec i (Z.of_nat (S n))); try lia; cbn [andb].
  - rewrite Z.testbit_neg_r by lia. apply orb_false_r.
  - assert (i = Z.of_nat n) as -> by lia. rewrite Z.sub_diag. by destruct (p (Z.of_nat n)).
  - destruct (p (Z.of_nat n)); simpl; [|apply Z.testbit_0_l].
    apply Z.bits_above_log2; [done|]. simpl. lia.
Qed.

Lemma word_word p : is_word (Fips.word p).
Proof.
  assert (Fips.word p = u32 (Fips.word p)) as ->; [|apply u32_word].
  apply Z.bits_inj'. intros i Hi. rewrite testbit_u32 by done. unfold Fips.word.
  rewrite bits_testbit by done. change (Z.of_nat 32) with 32. by destruct (i <? 32).
Qed.

(** Two words with the same 32 bits. *)
Lemma word_ext x p :
  is_word x → (∀ i, 0 ≤ i < 32 → Z.testbit x i = p i) → x = Fips.word p.
Proof.
  intros Hx Hp. apply Z.bits_inj'. intros i Hi. unfold Fips.word.
  rewrite bits_testbit by done. change (Z.of_nat 32) with 32.
  destruct (Z.ltb_spec i 32); [by apply Hp|by apply word_high].
Qed.

Lemma is_word_bits x : 0 ≤ x → (∀ i, 32 ≤ i → Z.testbit x i = false) → is_word x.
Proof.
  intros H0 Hi. assert (x = u32 x) as ->; [|apply u32_word].
  apply Z.bits_inj'. intros i Hp. rewrite testbit_u32 by done.
  destruct (Z.ltb_spec i 32); [done|by apply Hi].
Qed.

Lemma lxor_word x y : is_word x → is_word y → is_word (Z.lxor x y).
Proof.
  intros Hx Hy. apply is_word_bits.
  - apply Z.lxor_nonneg. unfold is_word in *. lia.
  - intros i Hi. by rewrite Z.lxor_spec, !word_high.
Qed.

Lemma land_word x y : is_word x → is_word y → is_word (Z.land x y).
Proof.
  intros Hx Hy. apply is_word_bits.
  - apply Z.land_nonneg. unfold is_word in *. lia.
  - intros i Hi. by rewrite Z.land_spec, !word_high.
Qed.

Lemma shiftr_word x n : 0 ≤ n → is_word x → is_word (Z.shiftr x n).
Proof.
  intros Hn Hx. apply is_word_bits.
  - apply Z.shiftr_nonneg. unfold is_word in *. lia.
  - intros i Hi. rewrite Z.shiftr_spec by lia. apply word_high; [done|lia].
Qed.

Lemma ROTR_word x n : 0 ≤ n → is_word x → is_word (ROTR x n).
Proof.
  intros Hn Hx. unfold ROTR. apply is_word_bits.
  - apply Z.lor_nonneg. split; [apply (shiftr_word _ _ Hn Hx)|apply u32_word].
  - intros i Hi. rewrite Z.lor_spec, Z.shiftr_spec, testbit_u32 by lia.
    rewrite (proj2 (Z.ltb_ge i 32)) by lia. rewrite word_high by (done || lia). done.
Qed.

Lemma rotr_word n x : is_word (Fips.rotr n x).
Proof. apply word_word. Qed.
Lemma shr_word n x : is_word (Fips.shr n x).
Proof. apply word_word. Qed.

Create HintDb words.
#[local] Hint Resolve u32_word lxor_word land_word shiftr_word ROTR_word word_word rotr_word shr_word : words.
#[local] Hint Extern 1 (_ ≤ _) => lia : words.
Ltac words := solve [eauto 10 with words].

(** The macro is a rotation. *)
Lemma ROTR_rotr x n : 0 < n < 32 → is_word x → ROTR x n = Fips.rotr n x.
Proof.
  intros Hn Hx. apply word_ext; [apply ROTR_word; [lia|done]|]. intros i Hi.
  unfold ROTR. rewrite Z.lor_spec, Z.shiftr_spec, testbit_u32, Z.shiftl_spec by lia.
  rewrite (proj2 (Z.ltb_lt i 32)) by lia. cbn [andb].
  destruct (decide (i + n < 32)).
  - rewrite (Z.mod_small (i + n)) by lia. rewrite (Z.testbit_neg_r x (i - _)) by lia.
    apply orb_false_r.
  - rewrite (word_high x (i + n)) by (done || lia). cbn [orb]. f_equal.
    rewrite <- (Z.mod_add (i + n) (-1)) by done. rewrite Z.mod_small by lia. lia.
Qed.

Lemma shiftr_shr x n : 0 ≤ n → is_word x → Z.shiftr x n = Fips.shr n x.
Proof.
  intros Hn Hx. apply word_ext; [by apply shiftr_word|]. intros i Hi.
  by rewrite Z.shiftr_spec by lia.
Qed.

Lemma lxor_xor3 x y z :
  is_word x → is_word y → is_word z → Z.lxor (Z.lxor x y) z = Fips.xor3 x y z.
Proof.
  intros. apply word_ext; [words|]. intros i Hi. by rewrite !Z.lxor_spec.
Qed.

Lemma ch_Ch x y z :
  is_word x → is_word y → is_word z →
  Z.lxor (Z.land x y) (Z.land (u32 (Z.lnot x)) z) = Fips.Ch x y z.
Proof.
  intros. apply word_ext; [words|]. intros i Hi.
  rewrite Z.lxor_spec, !Z.land_spec, testbit_u32, Z.lnot_spec by lia.
  rewrite (proj2 (Z.ltb_lt i 32)) by lia.
  by destruct (Z.testbit x i), (Z.testbit y i), (Z.testbit z i).
Qed.

Lemma maj_Maj x y z :
  is_word x → is_word y → is_word z →
  Z.lxor (Z.lxor (Z.land x y) (Z.land x z)) (Z.land y z) = Fips.Maj x y z.
Proof.
  intros. apply word_ext; [words|]. intros i Hi.
  rewrite !Z.lxor_spec, !Z.land_spec.
  by destruct (Z.testbit x i), (Z.testbit y i), (Z.testbit z i).
Qed.

(** Putting a byte below. *)
Lemma lor_low x y n : 0 ≤ n → 0 ≤ y < 2 ^ n → Z.lor (Z.shiftl x n) y = x * 2 ^ n + y.
Proof.
  intros Hn Hy. assert (Z.land (Z.shiftl x n) y = 0) as Hl.
  { apply Z.bits_inj'. intros i Hi. rewrite Z.land_spec, Z.testbit_0_l, Z.shiftl_spec by done.
    destruct (decide (i < n)); [by rewrite Z.testbit_neg_r by lia|].
    rewrite <- (Z.mod_small y (2 ^ n)), Z.mod_pow2_bits_high by lia. apply andb_false_r. }
  rewrite <- Z.lxor_lor, <- Z.add_nocarry_lxor, Z.shiftl_mul_pow2 by done. done.
Qed.

(** ** The transform is the compression function *)

Definition is_byte (x : Z) : Prop := 0 ≤ x < 256.

Lemma at_word l i : Forall is_word l → is_word (at_ l i).
Proof.
  intros Hl. unfold at_. destruct (nth_in_or_default i l 0) as [Hin| ->].
  - rewrite Forall_forall in Hl. apply Hl. by apply list_elem_of_In.
  - done.
Qed.

Lemma be_four b0 b1 b2 b3 :
  is_byte b0 → is_byte b1 → is_byte b2 → is_byte b3 →
  Z.lor (Z.lor (Z.lor (u32 (Z.shiftl b0 24)) (u32 (Z.shiftl b1 16))) (u32 (Z.shiftl b2 8))) b3 =
  Fips.be [b0; b1; b2; b3].
Proof.
  unfold is_byte. intros H0 H1 H2 H3.
  rewrite (wrap_small 32 (Z.shiftl b0 24)), (wrap_small 32 (Z.shiftl b1 16)),
    (wrap_small 32 (Z.shiftl b2 8)) by (rewrite Z.shiftl_mul_pow2 by lia; lia).
  change 24 with (8 + 16). rewrite <- (Z.shiftl_shiftl b0 8 16) by lia.
  rewrite <- Z.shiftl_lor. change 16 with (8 + 8).
  rewrite <- (Z.shiftl_shiftl _ 8 8) by lia. rewrite <- Z.shiftl_lor.
  rewrite !lor_low by lia. unfold Fips.be. simpl. lia.
Qed.


Lemma take_four (l : list Z) (j : nat) :
  (j + 4 ≤ length l)%nat →
  take 4 (drop j l) = [at_ l j; at_ l (j + 1); at_ l (j + 2); at_ l (j + 3)].
Proof.
  intros Hj. rewrite <- (take_drop j l) at 2 3 4 5. unfold at_.
  rewrite !app_nth2 by (rewrite length_take; lia). rewrite !length_take, !Nat.min_l by lia.
  replace (j - j)%nat with 0%nat by lia. replace (j + 1 - j)%nat with 1%nat by lia.
  replace (j + 2 - j)%nat with 2%nat by lia. replace (j + 3 - j)%nat with 3%nat by lia.
  assert (4 ≤ length (drop j l))%nat as Hd by (rewrite length_drop; lia).
  by destruct (drop j l) as [|? [|? [|? [|? ?]]]]; simpl in Hd; try lia.
Qed.

Lemma at_byte l i : Forall is_byte l → is_byte (at_ l i).
Proof.
  intros Hl. unfold at_. destruct (nth_in_or_default i l 0) as [Hin| ->]; [|done].
  rewrite Forall_forall in Hl. apply Hl. by apply list_elem_of_In.
Qed.

Lemma block_words_code block :
  length block = 64%nat → Forall is_byte block →
  block_word block <$> seq 0 16 = Fips.block_words block.
Proof.
  intros Hl Hb. unfold Fips.block_words. apply list_fmap_ext. intros i t Ht.
  apply lookup_seq in Ht as [-> Hi]. unfold block_word. cbn [Nat.add].
  rewrite take_four by lia. apply be_four; by apply at_byte.
Qed.

Lemma be_word b0 b1 b2 b3 :
  is_byte b0 → is_byte b1 → is_byte b2 → is_byte b3 → is_word (Fips.be [b0; b1; b2; b3]).
Proof. unfold is_byte, is_word, Fips.be. simpl. lia. Qed.

Lemma block_words_ok block :
  length block = 64%nat → Forall is_byte block →
  length (Fips.block_words block) = 16%nat ∧ Forall is_word (Fips.block_words block).
Proof.
  intros Hl Hb. split; [done|]. apply Forall_forall. intros x.
  unfold Fips.block_words. intros (i & -> & Hi%elem_of_seq)%list_elem_of_fmap.
  rewrite take_four by lia. apply be_word; by apply at_byte.
Qed.

(** The message schedule, [n] entries into the second loop. *)
Lemma schedule_loop M n :
  length M = 16%nat → Forall is_word M →
  let W := foldl schedule_step M (seq 16 n) in
  length W = (16 + n)%nat ∧ take 16 W = M ∧ Forall is_word W ∧
  ∀ t, (16 ≤ t < 16 + n)%nat →
    at_ W t = (Fips.sigma1 (at_ W (t - 2)) + at_ W (t - 7) + Fips.sigma0 (at_ W (t - 15))
               + at_ W (t - 16)) mod 2 ^ 32.
Proof.
  intros HM Hw. induction n as [|n IH]; [split_and!; [done|by apply take_ge; lia|done|lia]|].
  rewrite seq_S, foldl_app. set (W := foldl schedule_step M (seq 16 n)) in *.
  destruct IH as (Hl & Ht & HW & Hr). cbn [foldl]. unfold schedule_step.
  set (x := u32 _).
  split_and!.
  - rewrite length_app. simpl. lia.
  - by rewrite take_app_le by lia.
  - apply Forall_app. split; [done|]. constructor; [apply u32_word|done].
  - intros t Hs. destruct (decide (t < 16 + n)%nat) as [Hlt|Hge].
    + clearbody x W. rewrite 5!(at_app_l W) by lia. apply Hr. lia.
    + assert (t = length W) as -> by lia. clearbody W.
      rewrite at_snoc, 4!(at_app_l W) by lia.
      unfold x, wrap. rewrite Hl. pose proof (λ i, at_word W i HW) as Ha.
      rewrite !ROTR_rotr, !shiftr_shr by (done || lia).
      rewrite !lxor_xor3 by words. unfold Fips.sigma0, Fips.sigma1. f_equal. lia.
Qed.

Definition vars_ok (v : vars) : Prop :=
  is_word (va v) ∧ is_word (vb v) ∧ is_word (vc v) ∧ is_word (vd v) ∧
  is_word (ve v) ∧ is_word (vf v) ∧ is_word (vg v) ∧ is_word (vh v).

Lemma round_step W v t : vars_ok v → round W v t = Fips.step k W v t ∧ vars_ok (round W v t).
Proof.
  destruct v as [xa xb xc xd xe xf xg xh]. intros (Ha&Hb&Hc&Hd&He&Hf&Hg&Hh).
  cbn [va vb vc vd ve vf vg vh] in *.
  split; [|unfold vars_ok, round; cbn [va vb vc vd ve vf vg vh]; split_and!; words].
  unfold round, Fips.step. cbn [va vb vc vd ve vf vg vh].
  rewrite !ROTR_rotr by (done || lia). rewrite (ch_Ch xe xf xg), (maj_Maj xa xb xc) by done.
  rewrite !lxor_xor3 by words. unfold Fips.Sigma0, Fips.Sigma1, wrap.
  f_equal; rewrite ?Zplus_mod_idemp_l, ?Zplus_mod_idemp_r; try done.
Qed.

Lemma rounds_steps W v ts :
  vars_ok v →
  foldl (round W) v ts = foldl (Fips.step k W) v ts ∧ vars_ok (foldl (round W) v ts).
Proof.
  revert v. induction ts as [|t ts IH]; intros v Hv; [done|]. cbn [foldl].
  destruct (round_step W v t Hv) as [He Ho]. rewrite <- He. by apply IH.
Qed.

(** The states the transform runs between. *)
Definition state_ok (st : list Z) : Prop := length st = 8%nat ∧ Forall is_word st.

Lemma vars_of_ok st : state_ok st → vars_ok (vars_of st).
Proof. intros [_ Hw]. unfold vars_of, vars_ok. cbn. split_and!; by apply at_word. Qed.

Lemma transform_compress ctx block :
  state_ok (state ctx) → length block = 64%nat → Forall is_byte block →
  Fips.compress k block (state ctx) (state (sha256_transform ctx block)) ∧
  state_ok (state (sha256_transform ctx block)) ∧
  sha256_transform ctx block = set_state (state (sha256_transform ctx block)) ctx.
Proof.
  intros Hst Hl Hb. unfold sha256_transform. rewrite block_words_code by done.
  destruct (block_words_ok block Hl Hb) as [HM Hw].
  destruct (schedule_loop _ 48 HM Hw) as (HW & Ht & _ & Hr).
  set (W := foldl schedule_step _ (seq 16 48)) in *.
  destruct (rounds_steps W (vars_of (state ctx)) (seq 0 64) (vars_of_ok _ Hst)) as [He _].
  rewrite He. split; [|split; [|done]].
  - exists W. split; [|done]. split; [done|]. split; [done|]. exact Hr.
  - cbn [state set_state]. destruct Hst as [Hn Hws]. split.
    + rewrite length_zip_with. by rewrite Hn.
    + apply (Forall_zip_with_fst _ is_word); [done|]. apply Forall_forall.
      intros. apply u32_word.
Qed.

(** ** Absorbing a message *)

Definition H0 : list Z := state (sha256_init []).

Lemma blocks_snoc p block H H' H'' :
  Fips.blocks k p H H' → length block = 64%nat → Fips.compress k block H' H'' →
  Fips.blocks k (p ++ block) H H''.
Proof.
  intros Hp Hl Hc. induction Hp as [H|b rest H H1 H2 Hb Hcb Hr IH].
  - rewrite <- (app_nil_r ([] ++ block)). apply (Fips.blocks_cons k block [] H H'' H''); [done|done|constructor].
  - rewrite <- (assoc_L (++)). apply Fips.blocks_cons with H1; auto.
Qed.

(** The context after the bytes [m], in pieces or not: full blocks [p] are in
    the state, the rest in the buffer. *)
Record absorbed (ctx : sha256_ctx) (m : list Z) : Prop := {
  ab_split : ∃ p, m = p ++ take (buflen ctx) (buffer ctx) ∧ (length p mod 64 = 0)%nat ∧
    Fips.blocks k p H0 (state ctx);
  ab_state : state_ok (state ctx);
  ab_buflen : (buflen ctx < 64)%nat;
  ab_buffer : length (buffer ctx) = 64%nat;
  ab_bytes : Forall is_byte (take (buflen ctx) (buffer ctx));
  ab_bitlen : bitlen ctx = (8 * Z.of_nat (length m)) mod 2 ^ 64;
}.

Lemma absorbed_init buf : length buf = 64%nat → absorbed (sha256_init buf) [].
Proof.
  intros Hb. split; cbn [state buffer buflen bitlen sha256_init]; try done; [| |lia].
  2: { split; [done|]. by apply (bool_decide_unpack _). }
  exists []. split_and!; [done|done|constructor].
Qed.

Lemma length_memcpy buf off data :
  (off + length data ≤ length buf)%nat → length (memcpy buf off data) = length buf.
Proof.
  intros Ho. unfold memcpy. rewrite !length_app, length_take, length_drop. lia.
Qed.

Lemma take_memcpy buf off data n :
  (off ≤ length buf)%nat → n = (off + length data)%nat →
  take n (memcpy buf off data) = take off buf ++ data.
Proof.
  intros Ho ->. unfold memcpy. rewrite (assoc_L (++)), take_app_le, take_ge;
    rewrite ?length_app, ?length_take; lia || done.
Qed.

(** One turn of the loop. *)
Lemma absorb_piece ctx m piece bl :
  absorbed ctx m → Forall is_byte piece → (buflen ctx + length piece ≤ 64)%nat →
  bl = u64 (bitlen ctx + Z.of_nat (length piece) * 8) →
  let ctx1 := {| state := state ctx; bitlen := bl;
                 buffer := memcpy (buffer ctx) (buflen ctx) piece;
                 buflen := buflen ctx + length piece |} in
  absorbed
    (if (buflen ctx1 =? 64)%nat
     then let ctx := sha256_transform ctx1 (buffer ctx1) in
          {| state := state ctx; bitlen := bitlen ctx; buffer := buffer ctx; buflen := 0 |}
     else ctx1) (m ++ piece).
Proof.
  intros [(p & -> & Hp & Hbl) Hst Hlt Hlen Hby Hbit] Hpb Hroom -> ctx1.
  assert (length (buffer ctx1) = 64%nat) as Hlen1
    by (unfold ctx1; cbn [buffer]; rewrite length_memcpy; lia).
  assert (take (buflen ctx1) (buffer ctx1) = take (buflen ctx) (buffer ctx) ++ piece) as Ht
    by (unfold ctx1; cbn [buffer buflen]; by rewrite take_memcpy by lia).
  assert (Forall is_byte (take (buflen ctx1) (buffer ctx1))) as Hby1
    by (rewrite Ht; apply Forall_app; by split).
  assert (bitlen ctx1 = (8 * Z.of_nat (length ((p ++ take (buflen ctx) (buffer ctx)) ++ piece)))
    mod 2 ^ 64) as Hbit1.
  { unfold ctx1, wrap. cbn [bitlen]. rewrite Hbit, Zplus_mod_idemp_l.
    rewrite (length_app _ piece), Nat2Z.inj_add. f_equal. lia. }
  assert (state ctx1 = state ctx) as Hs1 by done.
  destruct (Nat.eqb_spec (buflen ctx1) 64) as [Hfull|Hpart].
  - rewrite take_ge in Ht, Hby1 by lia.
    destruct (transform_compress ctx1 (buffer ctx1)) as (Hc & Hst' & He); [done..|].
    rewrite He. split; cbn [state buffer buflen bitlen set_state]; [|done|lia|done|constructor|done].
    exists (p ++ buffer ctx1). cbn [take]. rewrite app_nil_r.
    split; [by rewrite Ht, <- (assoc_L (++))|].
    split; [rewrite length_app, Hlen1; rewrite Nat.Div0.add_mod, Hp; done|].
    by apply blocks_snoc with (state ctx1).
  - split; [|done|unfold ctx1 in *; cbn [buflen] in *; lia|done|done|done].
    exists p. split; [by rewrite Ht, <- (assoc_L (++))|]. done.
Qed.

Lemma update_absorbs fuel ctx m data :
  absorbed ctx m → Forall is_byte data → (length data ≤ fuel)%nat →
  ∃ ctx', update_loop fuel ctx data = Some ctx' ∧ absorbed ctx' (m ++ data).
Proof.
  revert ctx m data. induction fuel as [|fuel IH]; intros ctx m data Ha Hd Hf.
  - destruct data; [|simpl in Hf; lia]. exists ctx. by rewrite app_nil_r.
  - cbn [update_loop]. destruct (Nat.eqb_spec (length data) 0) as [Hz|Hz].
    { destruct data; [|done]. exists ctx. by rewrite app_nil_r. }
    pose proof (ab_buflen _ _ Ha) as Hlt.
    set (n := Nat.min (64 - buflen ctx) (length data)).
    assert (length (take n data) = n) as Hn by (rewrite length_take; lia).
    pose proof (absorb_piece ctx m (take n data) _ Ha (Forall_take _ _ _ Hd) ltac:(lia) eq_refl)
      as Hp.
    rewrite Hn in Hp. destruct (IH _ _ (drop n data) Hp) as (ctx' & He & Ha').
    + by apply Forall_drop.
    + rewrite length_drop. lia.
    + exists ctx'. split; [exact He|]. by rewrite <- (assoc_L (++)), take_drop in Ha'.
Qed.

Lemma update_spec ctx m data :
  absorbed ctx m → Forall is_byte data →
  ∃ ctx', sha256_update ctx data = Some ctx' ∧ absorbed ctx' (m ++ data).
Proof. intros Ha Hd. by apply update_absorbs. Qed.

Lemma ab_mod ctx m : absorbed ctx m → buflen ctx = (length m mod 64)%nat.
Proof.
  intros [(p & -> & Hp & _) _ Hlt Hl _ _]. rewrite length_app, length_take, Hl.
  rewrite <- Nat.Div0.add_mod_idemp_l, Hp, Nat.min_l by lia. cbn [Nat.add].
  by rewrite Nat.mod_small.
Qed.

Lemma zeros_left (x : nat) :
  (x < 64)%nat → x ≠ 56%nat →
  ((120 - x) mod 64 = S ((120 - (x + length [0%Z]) mod 64) mod 64))%nat.
Proof.
  intros Hx. assert (Forall (λ x, x ≠ 56%nat →
    ((120 - x) mod 64 = S ((120 - (x + length [0%Z]) mod 64) mod 64))%nat) (seq 0 64)) as Hf
    by (apply (bool_decide_unpack _); by vm_compute).
  rewrite Forall_forall in Hf. apply Hf. apply elem_of_seq. lia.
Qed.

(** The padding loop stops after the least number of zeros. *)
Lemma zero_loop_spec fuel ctx m :
  absorbed ctx m → ((120 - buflen ctx) mod 64 ≤ fuel)%nat →
  ∃ ctx' z, zero_loop fuel ctx = Some ctx' ∧ absorbed ctx' (m ++ replicate z 0) ∧
    buflen ctx' = 56%nat ∧ (z = (120 - buflen ctx) mod 64)%nat.
Proof.
  revert ctx m. induction fuel as [|fuel IH]; intros ctx m Ha Hf;
    pose proof (ab_buflen _ _ Ha) as Hlt; cbn [zero_loop];
    (destruct (Nat.eqb_spec (buflen ctx) 56) as [H56|H56];
      [exists ctx, 0%nat; rewrite app_nil_r; split_and!; [done..|by rewrite H56]|]).
  - exfalso. apply Nat.le_0_r in Hf. apply H56.
    pose proof (Nat.div_mod_eq (120 - buflen ctx) 64) as Hd. rewrite Hf in Hd.
    assert ((120 - buflen ctx) / 64 < 2)%nat by (apply Nat.Div0.div_lt_upper_bound; lia). lia.
  - destruct (update_spec ctx m [0] Ha) as (ctx1 & He & Ha1); [by repeat constructor|].
    rewrite He. cbn [mbind option_bind].
    assert ((120 - buflen ctx) mod 64 = S ((120 - buflen ctx1) mod 64))%nat as Hs.
    { rewrite (ab_mod _ _ Ha1), length_app, <- Nat.Div0.add_mod_idemp_l, <- (ab_mod _ _ Ha).
      by apply zeros_left. }
    destruct (IH ctx1 _ Ha1) as (ctx' & z & Hz & Ha' & H5 & ->); [lia|].
    exists ctx', (S ((120 - buflen ctx1) mod 64)). split; [done|].
    split; [by rewrite <- (assoc_L (++)) in Ha'|]. split; [done|lia].
Qed.

(** ** The digest *)

Lemma be_snoc l x : Fips.be (l ++ [x]) = Fips.be l * 2 ^ 8 + x.
Proof. unfold Fips.be. by rewrite foldl_app. Qed.

(** The most significant [m] of the [w] bytes of [n]. *)
Lemma be_shifts n w (m : nat) :
  0 ≤ n < 2 ^ (8 * w) → Z.of_nat m ≤ w →
  Fips.be ((λ i, u8 (Z.shiftr n (8 * (w - 1) - 8 * Z.of_nat i))) <$> seq 0 m) =
  Z.shiftr n (8 * (w - Z.of_nat m)).
Proof.
  intros Hn. induction m as [|m IH]; intros Hm.
  - cbn. symmetry. rewrite Z.sub_0_r.
    destruct (decide (n = 0)) as [->|]; [apply Z.shiftr_0_l|].
    apply Z.shiftr_eq_0; [lia|]. apply Z.log2_lt_pow2; lia.
  - rewrite seq_S, fmap_app, list_fmap_singleton, be_snoc, IH by lia. cbn [Nat.add].
    replace (8 * (w - Z.of_nat m)) with (8 * (w - Z.of_nat (S m)) + 8) by lia.
    replace (8 * (w - 1) - 8 * Z.of_nat m) with (8 * (w - Z.of_nat (S m))) by lia.
    rewrite <- Z.shiftr_shiftr by lia. set (x := Z.shiftr n _). unfold wrap.
    rewrite (Z.shiftr_div_pow2 x 8) by lia. pose proof (Z.div_mod x (2 ^ 8)). lia.
Qed.

Lemma len_bytes_be n : 0 ≤ n < 2 ^ 64 → Fips.be (len_bytes n) = n.
Proof.
  intros Hn. etrans; [apply (be_shifts n 8 8 Hn); done|]. apply Z.shiftr_0_r.
Qed.

Lemma word_bytes_div x :
  is_word x →
  word_bytes x = [x / 2 ^ 24; x / 2 ^ 16 mod 2 ^ 8; x / 2 ^ 8 mod 2 ^ 8; x mod 2 ^ 8].
Proof.
  intros [H0 H1]. unfold word_bytes, wrap. rewrite !Z.shiftr_div_pow2 by lia.
  rewrite (Z.mod_small (x / 2 ^ 24)); [done|]. split; [by apply Z.div_pos|].
  by apply Z.div_lt_upper_bound.
Qed.

Lemma final_spec ctx m :
  absorbed ctx m → ∃ out, sha256_final ctx = Some out ∧ Fips.digest k H0 m out ∧
    length out = SHA256_DIGEST_SIZE ∧ Forall is_byte out.
Proof.
  intros Ha. unfold sha256_final.
  destruct (update_spec ctx m [0x80] Ha) as (ctx1 & -> & Ha1); [by repeat constructor|].
  cbn [mbind option_bind].
  destruct (zero_loop_spec 64 ctx1 _ Ha1) as (ctx2 & z & -> & Ha2 & H56 & Hz).
  { pose proof (Nat.mod_upper_bound (120 - buflen ctx1) 64). lia. }
  cbn [mbind option_bind]. set (buf := memcpy _ _ _).
  destruct Ha2 as [(p & Hm & Hp & Hb) Hst _ Hlen Hby _].
  rewrite H56 in Hm, Hby.
  assert (buf = take 56 (buffer ctx2) ++ len_bytes (bitlen ctx)) as Hbuf.
  { unfold buf. rewrite <- (take_ge (memcpy _ _ _) 64) by (rewrite length_memcpy; simpl; lia).
    by rewrite take_memcpy by (simpl; lia). }
  assert (length buf = 64%nat) as Hl64
    by (rewrite Hbuf, length_app, length_take, Hlen; done).
  assert (Forall is_byte (len_bytes (bitlen ctx))) as Hlb.
  { apply Forall_forall. intros x (i & -> & _)%list_elem_of_fmap. by apply wrap_range. }
  destruct (transform_compress ctx2 buf Hst Hl64) as (Hc & Hst' & _).
  { rewrite Hbuf. apply Forall_app. by split. }
  eexists. split; [done|]. set (H := state (sha256_transform ctx2 buf)) in *.
  assert (word_bytes <$> H =
    (λ x, [x / 2 ^ 24; x / 2 ^ 16 mod 2 ^ 8; x / 2 ^ 8 mod 2 ^ 8; x mod 2 ^ 8]) <$> H) as Hwb.
  { apply list_fmap_ext. intros i x Hx. apply word_bytes_div.
    destruct Hst' as [_ Hw]. by apply (Forall_lookup_1 _ _ _ _ Hw Hx). }
  split; [|split].
  - exists (p ++ buf), H. split; [|split].
    + exists z, (len_bytes (bitlen ctx)). split.
      { rewrite Hbuf, (assoc_L (++)), <- Hm. by rewrite <- !(assoc_L (++)). }
      split; [done|]. split; [done|]. split.
      { rewrite len_bytes_be, (ab_bitlen _ _ Ha); [done|].
        rewrite (ab_bitlen _ _ Ha). by apply Z.mod_pos_bound. }
      split; [rewrite Hz; by apply Nat.mod_upper_bound|].
      rewrite length_app, Hl64, <- Nat.Div0.add_mod_idemp_l, Hp. done.
    + by apply blocks_snoc with (state ctx2).
    + by rewrite Hwb.
  - destruct Hst' as [Hl8 _]. destruct H as [|?[|?[|?[|?[|?[|?[|?[|? [|]]]]]]]]]; done.
  - apply Forall_forall. intros x (l & Hx & Hl)%list_elem_of_join.
    apply list_elem_of_fmap in Hl as (s & -> & _). revert Hx. unfold word_bytes.
    rewrite !elem_of_cons, elem_of_nil. intros [->|[->|[->|[->|[]]]]]; by apply wrap_range.
Qed.

(** The constants are FIPS 180-4's. *)
Definition root_check (n : Z) (pr : Z * Z) : bool :=
  let '(p, r) := pr in
  existsb (λ q, (q ^ n <=? p) && (p <? (q + 1) ^ n) && (0 <=? r) && (r <? 2 ^ 32)
    && ((2 ^ 32 * q + r) ^ n <=? p * 2 ^ (32 * n))
    && (p * 2 ^ (32 * n) <? (2 ^ 32 * q + r + 1) ^ n)) (Z.of_nat <$> seq 0 20).

Lemma root_check_sound n l t p r :
  forallb (root_check n) (zip Fips.primes l) = true →
  Fips.primes !! t = Some p → l !! t = Some r → Fips.frac_root n p r.
Proof.
  intros Hf Hp Hr. rewrite forallb_forall in Hf.
  specialize (Hf (p, r)). cbn [root_check] in Hf.
  apply existsb_exists in Hf as (q & Hq & Hc).
  - exists q. apply list_elem_of_In, list_elem_of_fmap in Hq as (? & -> & _).
    to_prop. lia.
  - apply list_elem_of_In, (list_elem_of_lookup_2 _ t).
    apply lookup_zip_with_Some. by exists p, r.
Qed.

Lemma sha256_constants : Fips.constants k H0.
Proof.
  split; [done| |done|]; intros t p r; apply root_check_sound; by vm_compute.
Qed.

(** C23: [sha256_init], any sequence of [sha256_update]s and [sha256_final]
    compute the SHA-256 of FIPS 180-4 of the bytes fed, however they are cut
    into pieces and whatever the buffer held before; no loop fails to
    terminate. *)
Theorem sha256_fips junk (pieces : list (list Z)) :
  length junk = 64%nat → Forall is_byte (mjoin pieces) →
  ∃ ctx out,
    foldl (λ c piece, c ≫= λ ctx, sha256_update ctx piece) (Some (sha256_init junk)) pieces
      = Some ctx ∧
    sha256_final ctx = Some out ∧
    Fips.constants k H0 ∧ Fips.digest k H0 (mjoin pieces) out ∧ length out = SHA256_DIGEST_SIZE.
Proof.
  intros Hj Hb.
  assert (∀ ps ctx m, absorbed ctx m → Forall is_byte (mjoin ps) →
    ∃ ctx', foldl (λ c piece, c ≫= λ ctx, sha256_update ctx piece) (Some ctx) ps = Some ctx' ∧
      absorbed ctx' (m ++ mjoin ps)) as Hfold.
  { clear. induction ps as [|x ps IH]; intros ctx m Ha Hb.
    - exists ctx. by rewrite app_nil_r.
    - apply Forall_app in Hb as [Hx Hps].
      destruct (update_spec ctx m x Ha Hx) as (ctx1 & He & Ha1). cbn [foldl mbind option_bind].
      rewrite He. destruct (IH ctx1 _ Ha1 Hps) as (ctx' & Hf & Ha'). exists ctx'.
      split; [done|]. by rewrite <- (assoc_L (++)) in Ha'. }
  destruct (Hfold pieces _ _ (absorbed_init junk Hj) Hb) as (ctx & He & Ha).
  destruct (final_spec ctx _ Ha) as (out & Hf & Hd & Hl & _).
  exists ctx, out. split; [done|]. split; [done|]. split; [apply sha256_constants|done].
Qed.

(** ** A file *)

(** What the successive reads yield. *)
Fixpoint read_bytes (reads : list (list Z)) : list Z :=
  match reads with
  | [] | [] :: _ => []
  | buf :: reads => buf ++ read_bytes reads
  end.

Lemma read_all_spec reads ctx m :
  absorbed ctx m → Forall is_byte (read_bytes reads) →
  ∃ ctx', read_all ctx reads = Some ctx' ∧ absorbed ctx' (m ++ read_bytes reads).
Proof.
  revert ctx m. induction reads as [|[|x buf] reads IH]; intros ctx m Ha Hb; cbn [read_all].
  - exists ctx. by rewrite app_nil_r.
  - exists ctx. by rewrite app_nil_r.
  - cbn [read_bytes] in Hb. apply Forall_app in Hb as [Hx Hr].
    destruct (update_spec ctx m (x :: buf) Ha Hx) as (ctx1 & -> & Ha1). cbn [mbind option_bind].
    destruct (IH ctx1 _ Ha1 Hr) as (ctx' & -> & Ha'). exists ctx'. split; [done|].
    by rewrite <- (assoc_L (++)) in Ha'.
Qed.

(** The digits of a byte. *)
Definition hex_value (s : cstr) : option Z :=
  match s with
  | [x; y] =>
      let digit z := if (48 <=? code z) && (code z <=? 57) then Some (code z - 48)
                     else if (97 <=? code z) && (code z <=? 102) then Some (code z - 87)
                     else None in
      digit x ≫= λ p, digit y ≫= λ q, Some (16 * p + q)
  | _ => None
  end.

(** Reading a string of digit pairs back. *)
Fixpoint unhex (s : cstr) : option (list Z) :=
  match s with
  | [] => Some []
  | x :: y :: s => hex_value [x; y] ≫= λ v, unhex s ≫= λ l, Some (v :: l)
  | _ => None
  end.

Lemma hex_byte_value x :
  is_byte x →
  hex_value [nth (Z.to_nat (Z.shiftr x 4)) hexchars NUL; nth (Z.to_nat (Z.land x 0xf)) hexchars NUL]
  = Some x.
Proof.
  intros Hx. assert (Forall (λ n,
    hex_value [nth (Z.to_nat (Z.shiftr (Z.of_nat n) 4)) hexchars NUL;
               nth (Z.to_nat (Z.land (Z.of_nat n) 0xf)) hexchars NUL] = Some (Z.of_nat n))
    (seq 0 256)) as Hf by (apply (bool_decide_unpack _); by vm_compute).
  rewrite Forall_forall in Hf. unfold is_byte in Hx. specialize (Hf (Z.to_nat x)).
  rewrite Z2Nat.id in Hf by lia. apply Hf, elem_of_seq. lia.
Qed.

Lemma unhex_hex_out l :
  Forall is_byte l → unhex (hex_out l) = Some l ∧ length (hex_out l) = (2 * length l)%nat.
Proof.
  induction 1 as [|x l Hx Hl [IH IHn]]; [done|].
  change (hex_out (x :: l)) with ([nth (Z.to_nat (Z.shiftr x 4)) hexchars NUL;
    nth (Z.to_nat (Z.land x 0xf)) hexchars NUL] ++ hex_out l). split.
  - cbn [app unhex]. rewrite hex_byte_value by done. cbn [mbind option_bind]. by rewrite IH.
  - rewrite length_app, IHn. simpl. lia.
Qed.

(** [sha256_fd] of a file that can be opened, rewound and read gives the
    64 lower-case hexadecimal digits (and no others) of the SHA-256 of exactly
    the file's bytes, and returns 0; on any input or output error it returns
    -1 and writes no digest. *)
Theorem sha256_fd_spec junk dup_ok fdopen_ok seek_ok reads ferror :
  length junk = 64%nat → Forall is_byte (read_bytes reads) →
  ∃ ret out, sha256_fd junk dup_ok fdopen_ok seek_ok reads ferror = Some (ret, out) ∧
    if dup_ok && fdopen_ok && seek_ok && negb ferror
    then ret = 0 ∧ ∃ hex bytes, out = Some hex ∧ length hex = 64%nat ∧ unhex hex = Some bytes ∧
      Fips.digest k H0 (read_bytes reads) bytes
    else ret = -1 ∧ out = None.
Proof.
  intros Hj Hb. unfold sha256_fd.
  destruct dup_ok, fdopen_ok, seek_ok; cbn [negb andb]; try by eexists _, _.
  destruct (read_all_spec reads _ _ (absorbed_init junk Hj) Hb) as (ctx & -> & Ha).
  cbn [mbind option_bind]. destruct ferror; cbn [negb]; [by eexists _, _|].
  destruct (final_spec ctx _ Ha) as (out & -> & Hd & Hl & Hby). cbn [mbind option_bind].
  eexists _, _. split; [done|]. split; [done|]. exists (hex_out out), out.
  destruct (unhex_hex_out out Hby) as [Hu Hn]. split; [done|]. split; [by rewrite Hn, Hl|]. done.
Qed.

(** ** Examples *)

Module ShaExamples.

Lemma sha256_fips_witness :
  ∃ ctx out, foldl (λ c piece, c ≫= λ ctx, sha256_update ctx piece)
      (Some (sha256_init (replicate 64 7))) [[97]; []; [98; 99]] = Some ctx ∧
    sha256_final ctx = Some out ∧ Fips.digest k H0 [97; 98; 99] out.
Proof.
  destruct (sha256_fips (replicate 64 7) [[97]; []; [98; 99]]) as (ctx & out & He & Hf & _ & Hd & _).
  - done.
  - by apply (bool_decide_unpack _); vm_compute.
  - exists ctx, out. split; [exact He|]. split; [exact Hf|exact Hd].
Defined.

Lemma sha256_fd_spec_witness :
  ∃ hex bytes, sha256_fd (replicate 64 7) true true true [[97; 98; 99]; []] false
      = Some (0, Some hex) ∧ unhex hex = Some bytes ∧ Fips.digest k H0 [97; 98; 99] bytes.
Proof.
  destruct (sha256_fd_spec (replicate 64 7) true true true [[97; 98; 99]; []] false)
    as (ret & out & He & Hr).
  - done.
  - by apply (bool_decide_unpack _); vm_compute.
  - cbn [andb negb] in Hr. destruct Hr as (-> & hex & bytes & -> & _ & Hu & Hd).
    exists hex, bytes. split; [exact He|]. split; [exact Hu|exact Hd].
Defined.

(** FIPS 180-4's two-block message. *)
Example sha256_two_blocks :
  sha256_fd (replicate 64 0) true true true
    [code <$> cs "abcdbcdecdefdefgefghfghighijhijk"; code <$> cs "ijkljklmklmnlmnomnopnopq"] false =
  Some (0, Some (cs "248d6a61d20638b8e5c026930c3e6039a33ce45964ff2167f6ecedd419db06c1")).
Proof. by vm_compute. Qed.
End ShaExamples.
