(* ===== verification/Tlsh.v ===== *)
(** * TLSH: userspace/avd/tlsh_core.c and tlsh_shim.c

    The daemon's fuzzy hash: the streaming bucket counter, the quartile finder
    and the digest it packs, the hexadecimal codec, the distance, and the
    wrapper over a file descriptor.  Arrays are lists, [unsigned char] and
    [unsigned int] are [Z]s reduced where the C stores them, array indices are
    [nat]. *)

From Stdlib Require Import ZArith Lia Ascii String FinFun.
From stdpp Require Import prelude list sorting.
From S2P Require Import Prelude CString TlshTable.

Local Open Scope Z_scope.

Definition BUCKET_COUNT : nat := 256.
Definition EFF_BUCKETS : nat := 128.
Definition SLIDING_WND_SIZE : nat := 5.
Definition MIN_DATA_LENGTH : Z := 50.
Definition TLSH_CODE_SIZE : nat := 32.
Definition TLSH_DIGEST_HEXLEN : nat := 70.

Definition v_table : list Z := [
  1; 87; 49; 12; 176; 178; 102; 166; 121; 193; 6; 84; 249; 230; 44; 163;
  14; 197; 213; 181; 161; 85; 218; 80; 64; 239; 24; 226; 236; 142; 38; 200;
  110; 177; 104; 103; 141; 253; 255; 50; 77; 101; 81; 18; 45; 96; 31; 222;
  25; 107; 190; 70; 86; 237; 240; 34; 72; 242; 20; 214; 244; 227; 149; 235;
  97; 234; 57; 22; 60; 250; 82; 175; 208; 5; 127; 199; 111; 62; 135; 248;
  174; 169; 211; 58; 66; 154; 106; 195; 245; 171; 17; 187; 182; 179; 0; 243;
  132; 56; 148; 75; 128; 133; 158; 100; 130; 126; 91; 13; 153; 246; 216; 219;
  119; 68; 223; 78; 83; 88; 201; 99; 122; 11; 92; 32; 136; 114; 52; 10;
  138; 30; 48; 183; 156; 35; 61; 26; 143; 74; 251; 94; 129; 162; 63; 152;
  170; 7; 115; 167; 241; 206; 3; 150; 55; 59; 151; 220; 90; 53; 23; 131;
  125; 173; 15; 238; 79; 95; 89; 16; 105; 137; 225; 224; 217; 160; 37; 123;
  118; 73; 2; 157; 46; 116; 9; 145; 134; 228; 207; 212; 202; 215; 69; 229;
  27; 188; 67; 124; 168; 252; 42; 4; 29; 108; 21; 247; 19; 205; 39; 203;
  233; 40; 186; 147; 198; 192; 155; 33; 164; 191; 98; 204; 165; 180; 117; 76;
  140; 36; 210; 172; 41; 54; 159; 8; 185; 232; 113; 196; 231; 47; 146; 120;
  51; 65; 28; 144; 254; 221; 93; 189; 194; 139; 112; 43; 71; 109; 184; 209].

Definition tab (l : list Z) (x : Z) : Z := at_ l (Z.to_nat x).

Definition fast_b_mapping (ms i j k : Z) : Z :=
  tab v_table (Z.lxor (tab v_table (Z.lxor (tab v_table (Z.lxor ms i)) j)) k).

Definition topval : list Z := [
  1; 2; 3; 5; 7; 11; 17; 25; 38; 57; 86; 129; 194; 291; 437; 656;
  854; 1110; 1443; 1876; 2439; 3171; 3475; 3823; 4205; 4626; 5088; 5597;
  6157; 6772; 7450; 8195; 9014; 9916; 10907; 11998; 13198; 14518; 15970;
  17567; 19323; 21256; 23382; 25720; 28292; 31121; 34233; 37656; 41422;
  45564; 50121; 55133; 60646; 66711; 73382; 80721; 88793; 97672; 107439;
  118183; 130002; 143002; 157302; 173032; 190335; 209369; 230306; 253337;
  278670; 306538; 337191; 370911; 408002; 448802; 493682; 543050; 597356;
  657091; 722800; 795081; 874589; 962048; 1058252; 1164078; 1280486;
  1408534; 1549388; 1704327; 1874759; 2062236; 2268459; 2495305; 2744836;
  3019320; 3321252; 3653374; 4018711; 4420582; 4862641; 5348905; 5883796;
  6472176; 7119394; 7831333; 8614467; 9475909; 10423501; 11465851;
  12612437; 13873681; 15261050; 16787154; 18465870; 20312458; 22343706;
  24578077; 27035886; 29739474; 32713425; 35984770; 39583245; 43541573;
  47895730; 52685306; 57953837; 63749221; 70124148; 77136564; 84850228;
  93335252; 102668779; 112935659; 124229227; 136652151; 150317384;
  165349128; 181884040; 200072456; 220079703; 242087671; 266296456;
  292926096; 322218735; 354440623; 389884688; 428873168; 471760495;
  518936559; 570830240; 627913311; 690704607; 759775136; 835752671;
  919327967; 1011260767; 1112386880; 1223623232; 1345985727; 1480584256;
  1628642751; 1791507135; 1970657856; 2167723648; 2384496256; 2622945920;
  2885240448; 3173764736; 3491141248; 3840255616; 4224281216].

(** The [for (;;)]; [None] only if the fuel runs out. *)
Fixpoint capture_loop (fuel : nat) (len bottom top idx : Z) : option Z :=
  match fuel with
  | O => None
  | S fuel =>
      if idx =? 0 then Some idx
      else if (len <=? tab topval idx) && (tab topval (idx - 1) <? len) then Some idx
      else
        let '(bottom, top) :=
          if len <? tab topval idx then (bottom, idx - 1) else (idx + 1, top) in
        capture_loop fuel len bottom top ((bottom + top) / 2)
  end.

Definition CAPTURE_FUEL : nat := 172.

Definition l_capturing (len : Z) : option Z :=
  if tab topval 169 <? len then Some 169 else capture_loop CAPTURE_FUEL len 0 170 85.

Definition mod_diff (x y r : Z) : Z :=
  let '(dl, dr) := if x <? y then (y - x, x + r - y) else (x - y, y + r - x) in
  if dr <? dl then dr else dl.

Fixpoint h_distance (x y : list Z) (len : nat) : Z :=
  match len with
  | O => 0
  | S n => h_distance x y n + tab (nth (Z.to_nat (at_ x n)) bit_pairs_diff_table []) (at_ y n)
  end.

Definition swap_byte (x : Z) : Z :=
  u8 (Z.lor (Z.shiftr (Z.land x 0xF0) 4) (Z.shiftl (Z.land x 0x0F) 4)).

(** ** Streaming *)

Record tlsh_ctx := {
  a_bucket : option (list Z);   (* 256 counters, once allocated *)
  slide_window : list Z;        (* 5 bytes *)
  data_len : Z;
  ctx_checksum : Z;
  alloc_failed : bool;
}.

Definition tlsh_init : tlsh_ctx :=
  {| a_bucket := None; slide_window := replicate SLIDING_WND_SIZE 0; data_len := 0;
     ctx_checksum := 0; alloc_failed := false |}.

(** [a_bucket[r]++]. *)
Definition hit (r : Z) (b : list Z) : list Z :=
  alter (λ n, u32 (n + 1)) (Z.to_nat r) b.

(** One byte [c] at window index [j]. *)
Definition update_byte (st : list Z * list Z * Z * Z * nat) (c : Z)
    : list Z * list Z * Z * Z * nat :=
  let '(b, sw, checksum, fed_len, j) := st in
  let sw := <[j := c]> sw in
  let '(b, checksum) :=
    if 4 <=? fed_len then
      let j1 := ((j + SLIDING_WND_SIZE - 1) mod SLIDING_WND_SIZE)%nat in
      let j2 := ((j + SLIDING_WND_SIZE - 2) mod SLIDING_WND_SIZE)%nat in
      let j3 := ((j + SLIDING_WND_SIZE - 3) mod SLIDING_WND_SIZE)%nat in
      let j4 := ((j + SLIDING_WND_SIZE - 4) mod SLIDING_WND_SIZE)%nat in
      let checksum := fast_b_mapping 1 (at_ sw j) (at_ sw j1) checksum in
      let b := hit (fast_b_mapping 49 (at_ sw j) (at_ sw j1) (at_ sw j2)) b in
      let b := hit (fast_b_mapping 12 (at_ sw j) (at_ sw j1) (at_ sw j3)) b in
      let b := hit (fast_b_mapping 178 (at_ sw j) (at_ sw j2) (at_ sw j3)) b in
      let b := hit (fast_b_mapping 166 (at_ sw j) (at_ sw j2) (at_ sw j4)) b in
      let b := hit (fast_b_mapping 84 (at_ sw j) (at_ sw j1) (at_ sw j4)) b in
      let b := hit (fast_b_mapping 230 (at_ sw j) (at_ sw j3) (at_ sw j4)) b in
      (b, checksum)
    else (b, checksum) in
  (b, sw, checksum, u32 (fed_len + 1), ((j + 1) mod SLIDING_WND_SIZE)%nat).

Definition tlsh_update (calloc_ok : bool) (ctx : tlsh_ctx) (data : list Z) : tlsh_ctx :=
  if alloc_failed ctx then ctx
  else
    let bucket := match a_bucket ctx with
                  | Some b => Some b
                  | None => if calloc_ok then Some (replicate BUCKET_COUNT 0) else None
                  end in
    match bucket with
    | None => {| a_bucket := None; slide_window := slide_window ctx; data_len := data_len ctx;
                 ctx_checksum := ctx_checksum ctx; alloc_failed := true |}
    | Some b =>
        let j := (Z.to_nat (data_len ctx) mod SLIDING_WND_SIZE)%nat in
        let '(b, sw, checksum, _, _) :=
          foldl update_byte (b, slide_window ctx, ctx_checksum ctx, data_len ctx, j) data in
        {| a_bucket := Some b; slide_window := sw;
           data_len := u32 (data_len ctx + u32 (Z.of_nat (length data)));
           ctx_checksum := checksum; alloc_failed := alloc_failed ctx |}
    end.

(** ** Quartiles *)

(** [t = buf[i]; buf[i] = buf[j]; buf[j] = t]. *)
Definition swap (i j : nat) (buf : list Z) : list Z :=
  let t := at_ buf i in <[j := t]> (<[i := at_ buf j]> buf).

(** The loop of [partition] over [is]. *)
Fixpoint partition_loop (is_ : list nat) (val : Z) (buf : list Z) (ret : nat) : list Z * nat :=
  match is_ with
  | [] => (buf, ret)
  | i :: is_ =>
      if at_ buf i <? val then partition_loop is_ val (swap ret i buf) (S ret)
      else partition_loop is_ val buf ret
  end.

Definition partition (buf : list Z) (left right : nat) : list Z * nat :=
  if (left =? right)%nat then (buf, left)
  else if (left + 1 =? right)%nat
  then ((if at_ buf right <? at_ buf left then swap left right buf else buf), left)
  else
    let pivot := ((left + right) / 2)%nat in
    let val := at_ buf pivot in
    let buf := <[right := val]> (<[pivot := at_ buf right]> buf) in
    let '(buf, ret) := partition_loop (seq left (right - left)) val buf left in
    (<[ret := val]> (<[right := at_ buf ret]> buf), ret).

Definition p1 : nat := (EFF_BUCKETS / 4 - 1)%nat.
Definition p2 : nat := (EFF_BUCKETS / 2 - 1)%nat.
Definition p3 : nat := (EFF_BUCKETS - EFF_BUCKETS / 4 - 1)%nat.
Definition end_ : nat := (EFF_BUCKETS - 1)%nat.

(** The first loop; [scl] and [scr] are the short cuts in order. *)
Fixpoint select_mid (fuel : nat) (buf : list Z) (l r : nat) (scl scr : list nat)
    : option (list Z * list nat * list nat) :=
  match fuel with
  | O => None
  | S fuel =>
      let '(buf, ret) := partition buf l r in
      if (p2 <? ret)%nat then select_mid fuel buf l (ret - 1) scl (scr ++ [ret])
      else if (ret <? p2)%nat then select_mid fuel buf (ret + 1) r (scl ++ [ret]) scr
      else Some (buf, scl, scr)
  end.

(** The inner loop of the other two. *)
Fixpoint select_pos (fuel : nat) (p : nat) (buf : list Z) (l r : nat) : option (list Z) :=
  match fuel with
  | O => None
  | S fuel =>
      let '(buf, ret) := partition buf l r in
      if (p <? ret)%nat then select_pos fuel p buf l (ret - 1)
      else if (ret <? p)%nat then select_pos fuel p buf (ret + 1) r
      else Some buf
  end.

Definition FUEL : nat := 129.

(** The array and the quartile. *)
Fixpoint left_loop (sc : list nat) (buf : list Z) (l : nat) : option (list Z * Z) :=
  match sc with
  | [] => None   (* the loop would end without writing *q1 *)
  | r :: sc =>
      if (p1 <? r)%nat then
        select_pos FUEL p1 buf l r ≫= λ buf, Some (buf, at_ buf p1)
      else if (r <? p1)%nat then left_loop sc buf r
      else Some (buf, at_ buf p1)
  end.

Fixpoint right_loop (sc : list nat) (buf : list Z) (r : nat) : option (list Z * Z) :=
  match sc with
  | [] => None
  | l :: sc =>
      if (l <? p3)%nat then
        select_pos FUEL p3 buf l r ≫= λ buf, Some (buf, at_ buf p3)
      else if (p3 <? l)%nat then right_loop sc buf l
      else Some (buf, at_ buf p3)
  end.

(** q1, q2, q3. *)
Definition find_quartile (bucket : list Z) : option (Z * Z * Z) :=
  let bucket_copy := take EFF_BUCKETS bucket in
  select_mid FUEL bucket_copy 0 end_ [] [] ≫= λ '(buf, scl, scr),
  let q2 := at_ buf p2 in
  left_loop (scl ++ [p2 - 1])%nat buf 0 ≫= λ '(buf, q1),
  right_loop (scr ++ [p2 + 1])%nat buf end_ ≫= λ '(buf, q3),
  Some (q1, q2, q3).

(** ** The digest *)

Record tlsh_digest := {
  checksum : Z; Lvalue : Z; Q1ratio : Z; Q2ratio : Z; tmp_code : list Z;
}.

Definition nonzero_count (b : list Z) : Z :=
  foldl (λ n i, foldl (λ n j, if 0 <? at_ b (4 * i + j) then n + 1 else n) n (seq 0 4))
    0 (seq 0 TLSH_CODE_SIZE).

Definition code_byte (b : list Z) (q1 q2 q3 : Z) (i : nat) : Z :=
  foldl (λ h j,
    let k := at_ b (4 * i + j) in
    if q3 <? k then u8 (h + u8 (Z.shiftl 3 (Z.of_nat j * 2)))
    else if q2 <? k then u8 (h + u8 (Z.shiftl 2 (Z.of_nat j * 2)))
    else if q1 <? k then u8 (h + u8 (Z.shiftl 1 (Z.of_nat j * 2)))
    else h) 0 (seq 0 4).

Definition tlsh_free (ctx : tlsh_ctx) : tlsh_ctx :=
  {| a_bucket := None; slide_window := slide_window ctx; data_len := data_len ctx;
     ctx_checksum := ctx_checksum ctx; alloc_failed := alloc_failed ctx |}.

(** The return value, the digest and the context afterwards; [None] only if a
    loop runs out of fuel. *)
Definition tlsh_final (ctx : tlsh_ctx) : option (Z * option tlsh_digest * tlsh_ctx) :=
  match a_bucket ctx with
  | Some b =>
      if alloc_failed ctx || (data_len ctx <? MIN_DATA_LENGTH) then Some (-1, None, tlsh_free ctx)
      else
        find_quartile b ≫= λ '(q1, q2, q3),
        if q3 =? 0 then Some (-1, None, tlsh_free ctx)
        else if nonzero_count b <=? 4 * Z.of_nat TLSH_CODE_SIZE / 2
        then Some (-1, None, tlsh_free ctx)
        else
          l_capturing (data_len ctx) ≫= λ lv,
          Some (0, Some {| checksum := ctx_checksum ctx; Lvalue := u8 lv;
                           Q1ratio := u8 (u64 (q1 * 100) / q3 mod 16);
                           Q2ratio := u8 (u64 (q2 * 100) / q3 mod 16);
                           tmp_code := code_byte b q1 q2 q3 <$> seq 0 TLSH_CODE_SIZE |},
                tlsh_free ctx)
  | None => Some (-1, None, tlsh_free ctx)
  end.

(** ** The codec *)

Definition hex_upper : cstr := cs "0123456789ABCDEF".
Definition RAW_LEN : nat := (3 + TLSH_CODE_SIZE)%nat.

Definition raw_of (d : tlsh_digest) : list Z :=
  [swap_byte (checksum d); swap_byte (Lvalue d);
   swap_byte (u8 (Z.lor (Q1ratio d) (Z.shiftl (Q2ratio d) 4)))]
  ++ ((λ i, at_ (tmp_code d) (TLSH_CODE_SIZE - 1 - i)) <$> seq 0 TLSH_CODE_SIZE).

Definition tlsh_to_hex (d : tlsh_digest) : cstr :=
  mjoin ((λ x, [nth (Z.to_nat (Z.shiftr x 4)) hex_upper NUL;
                nth (Z.to_nat (Z.land x 0x0F)) hex_upper NUL]) <$> raw_of d).

Definition hex_nibble (a : ascii) : option Z :=
  let c := code a in
  if (48 <=? c) && (c <=? 57) then Some (u8 (c - 48))
  else if (65 <=? c) && (c <=? 70) then Some (u8 (c - 65 + 10))
  else if (97 <=? c) && (c <=? 102) then Some (u8 (c - 97 + 10))
  else None.

(** The decoding loop over a string of the right length. *)
Fixpoint decode_loop (str : cstr) : option (list Z) :=
  match str with
  | x :: y :: str =>
      hex_nibble x ≫= λ hi, hex_nibble y ≫= λ lo,
      decode_loop str ≫= λ raw, Some (u8 (Z.lor (Z.shiftl hi 4) lo) :: raw)
  | _ => Some []
  end.

Definition tlsh_from_hex (str : cstr) : option tlsh_digest :=
  if negb (length str =? TLSH_DIGEST_HEXLEN)%nat then None
  else
    decode_loop str ≫= λ raw,
    let qb := swap_byte (at_ raw 2) in
    Some {| checksum := swap_byte (at_ raw 0); Lvalue := swap_byte (at_ raw 1);
            Q1ratio := u8 (Z.land qb 0x0F); Q2ratio := u8 (Z.land (Z.shiftr qb 4) 0x0F);
            tmp_code := (λ i, at_ raw (3 + (TLSH_CODE_SIZE - 1 - i))) <$> seq 0 TLSH_CODE_SIZE |}.

(** ** Distance *)

Definition RANGE_LVALUE : Z := 256.
Definition RANGE_QRATIO : Z := 16.
Definition LENGTH_MULT : Z := 12.
Definition QRATIO_MULT : Z := 12.

Definition tlsh_total_diff (a b : tlsh_digest) : Z :=
  let ldiff := mod_diff (Lvalue a) (Lvalue b) RANGE_LVALUE in
  let diff := if ldiff =? 0 then 0 else if ldiff =? 1 then 1 else ldiff * LENGTH_MULT in
  let q1diff := mod_diff (Q1ratio a) (Q1ratio b) RANGE_QRATIO in
  let diff := diff + (if q1diff <=? 1 then q1diff else (q1diff - 1) * QRATIO_MULT) in
  let q2diff := mod_diff (Q2ratio a) (Q2ratio b) RANGE_QRATIO in
  let diff := diff + (if q2diff <=? 1 then q2diff else (q2diff - 1) * QRATIO_MULT) in
  let diff := if negb (checksum a =? checksum b) then diff + 1 else diff in
  diff + h_distance (tmp_code a) (tmp_code b) TLSH_CODE_SIZE.

(** ** The wrapper *)

Definition av_tlsh_hash_maxlen : nat := TLSH_DIGEST_HEXLEN.

(** What a [read] does. *)
Inductive read_result := Eintr | ReadError | Data (bytes : list Z).

(** [sizeof(buf)]. *)
Definition TLSH_BUF : Z := 65536.

(** What [read] is asked for. *)
Definition want (total max_len : Z) : Z := Z.min TLSH_BUF (max_len - total).

(** The loop over the reads in turn, end of file after them; each step has
    [calloc]'s outcome.  [None] is the error return. *)
Fixpoint hash_loop (reads : list (read_result * bool)) (max_len total : Z) (ctx : tlsh_ctx)
    (any_data : bool) : option (tlsh_ctx * bool) :=
  match reads with
  | [] => Some (ctx, any_data)
  | (res, calloc_ok) :: reads =>
      if negb (total <? max_len) then Some (ctx, any_data)
      else match res with
      | Data [] => Some (ctx, any_data)
      | Eintr => hash_loop reads max_len total ctx any_data
      | ReadError => None
      | Data bytes =>
          hash_loop reads max_len (total + Z.of_nat (length bytes))
            (tlsh_update calloc_ok ctx bytes) true
      end
  end.

(** The return value and what is written to [out]; the outer [None] only if a
    loop runs out of fuel. *)
Definition av_tlsh_hash_fd (lseek_ok : bool) (reads : list (read_result * bool))
    (outlen max_len : Z) : option (Z * option cstr) :=
  if negb lseek_ok then Some (-1, None)
  else match hash_loop reads max_len 0 tlsh_init false with
  | None => Some (-1, None)
  | Some (ctx, any_data) =>
      if negb any_data then Some (-2, None)
      else
        tlsh_final ctx ≫= λ '(ret, digest, _),
        match digest with
        | Some d =>
            if outlen <=? Z.of_nat TLSH_DIGEST_HEXLEN then Some (-3, None)
            else Some (0, Some (tlsh_to_hex d))
        | None => Some (-2, None)
        end
  end.

Definition av_tlsh_diff (hash_a hash_b : cstr) : Z :=
  match tlsh_from_hex hash_a, tlsh_from_hex hash_b with
  | Some a, Some b => tlsh_total_diff a b
  | _, _ => -1
  end.

(** ** Streaming: a reference on the whole input *)

(** The six buckets hit by the byte at position [p >= 4]. *)
Definition hits_at (s : list Z) (p : nat) : list Z :=
  let c i := at_ s (p - i) in
  [fast_b_mapping 49 (c 0%nat) (c 1%nat) (c 2%nat); fast_b_mapping 12 (c 0%nat) (c 1%nat) (c 3%nat);
   fast_b_mapping 178 (c 0%nat) (c 2%nat) (c 3%nat); fast_b_mapping 166 (c 0%nat) (c 2%nat) (c 4%nat);
   fast_b_mapping 84 (c 0%nat) (c 1%nat) (c 4%nat); fast_b_mapping 230 (c 0%nat) (c 3%nat) (c 4%nat)].

Definition positions (s : list Z) : list nat := seq 4 (length s - 4).
Definition all_hits (s : list Z) : list Z := positions s ≫= hits_at s.

Definition count (r : Z) (l : list Z) : Z := Z.of_nat (length (List.filter (Z.eqb r) l)).

Definition ref_checksum (s : list Z) : Z :=
  foldl (λ ck p, fast_b_mapping 1 (at_ s p) (at_ s (p - 1)) ck) 0 (positions s).

Lemma mapping_range ms i j k : 0 ≤ fast_b_mapping ms i j k < 256.
Proof.
  unfold fast_b_mapping. set (n := Z.lxor _ k). unfold tab, at_.
  assert (Forall (λ x, 0 ≤ x < 256) v_table) as Hf by (by apply (bool_decide_unpack _); vm_compute).
  destruct (nth_in_or_default (Z.to_nat n) v_table 0) as [Hin| ->]; [|lia].
  rewrite Forall_forall in Hf. by apply Hf, list_elem_of_In.
Qed.

Definition buckets_ok (b : list Z) (l : list Z) : Prop :=
  length b = BUCKET_COUNT ∧ ∀ r, 0 ≤ r < 256 → tab b r = u32 (count r l).

Lemma hit_ok b l r :
  buckets_ok b l → 0 ≤ r < 256 → buckets_ok (hit r b) (l ++ [r]).
Proof.
  intros [Hl Hb] Hr. unfold hit. split; [by rewrite length_alter|]. intros r' Hr'.
  assert (count r' (l ++ [r]) = count r' l + (if r' =? r then 1 else 0)) as ->.
  { unfold count. rewrite List.filter_app, length_app. cbn [List.filter].
    destruct (r' =? r); cbn [length]; lia. }
  specialize (Hb r' Hr'). unfold tab, at_ in *. rewrite nth_lookup in *.
  destruct (Z.eqb_spec r' r) as [->|Hne].
  - rewrite list_lookup_alter_eq. unfold BUCKET_COUNT in Hl.
    destruct (lookup_lt_is_Some_2 b (Z.to_nat r)) as [x Hx]; [lia|].
    rewrite Hx in *. cbn [fmap option_fmap option_map default from_option id] in *. rewrite Hb.
    unfold wrap. by rewrite Zplus_mod_idemp_l.
  - rewrite list_lookup_alter_ne by lia. by rewrite Z.add_0_r.
Qed.

(** The state of the loop after the bytes [s]. *)
Definition streamed (st : list Z * list Z * Z * Z * nat) (s : list Z) : Prop :=
  let '(b, sw, ck, fed, j) := st in
  buckets_ok b (all_hits s) ∧ ck = ref_checksum s ∧ fed = Z.of_nat (length s) ∧
  j = (length s mod 5)%nat ∧ length sw = 5%nat ∧
  ∀ i, (i < length s)%nat → (length s ≤ i + 5)%nat → at_ sw (i mod 5) = at_ s i.

Lemma positions_snoc s c :
  (4 ≤ length s)%nat → positions (s ++ [c]) = positions s ++ [length s].
Proof.
  intros Hs. unfold positions. rewrite length_app. cbn [length].
  replace (length s + 1 - 4)%nat with (S (length s - 4)) by lia. rewrite seq_S. do 2 f_equal. lia.
Qed.

Lemma positions_short s : (length s ≤ 4)%nat → positions s = [].
Proof. intros. unfold positions. by replace (length s - 4)%nat with 0%nat by lia. Qed.

Lemma hits_at_app s c p : (p < length s)%nat → hits_at (s ++ [c]) p = hits_at s p.
Proof. intros Hp. unfold hits_at. by rewrite !at_app_l by lia. Qed.

Lemma all_hits_snoc s c :
  all_hits (s ++ [c]) =
  all_hits s ++ (if (4 <=? length s)%nat then hits_at (s ++ [c]) (length s) else []).
Proof.
  unfold all_hits. destruct (Nat.leb_spec 4 (length s)).
  - rewrite positions_snoc, bind_app, bind_singleton by done. f_equal.
    apply Forall_bind_ext, Forall_forall. intros p Hp. apply hits_at_app.
    unfold positions in Hp. apply elem_of_seq in Hp. lia.
  - rewrite !positions_short by (rewrite ?length_app; simpl; lia). done.
Qed.

Lemma foldl_ext_elem {A B} (f g : A → B → A) l a :
  (∀ a x, x ∈ l → f a x = g a x) → foldl f a l = foldl g a l.
Proof.
  revert a. induction l as [|x l IH]; intros a Hfg; [done|]. cbn [foldl].
  rewrite Hfg by by left. apply IH. intros. apply Hfg. by right.
Qed.

Lemma ref_checksum_snoc s c :
  ref_checksum (s ++ [c]) =
  if (4 <=? length s)%nat
  then fast_b_mapping 1 (at_ (s ++ [c]) (length s)) (at_ (s ++ [c]) (length s - 1)) (ref_checksum s)
  else ref_checksum s.
Proof.
  unfold ref_checksum. destruct (Nat.leb_spec 4 (length s)).
  - rewrite positions_snoc, foldl_app by done. cbn [foldl]. f_equal.
    apply foldl_ext_elem. intros ck p Hp. unfold positions in Hp. apply elem_of_seq in Hp.
    by rewrite !at_app_l by lia.
  - by rewrite !positions_short by (rewrite ?length_app; simpl; lia).
Qed.

(** Window indices are positions modulo 5. *)
Lemma window_index n k :
  (k ≤ n)%nat → (0 < k < 5)%nat →
  ((n mod 5 + SLIDING_WND_SIZE - k) mod SLIDING_WND_SIZE = (n - k) mod 5)%nat.
Proof.
  intros Hk H5. unfold SLIDING_WND_SIZE.
  replace (n mod 5 + 5 - k)%nat with (n mod 5 + (5 - k))%nat by lia.
  rewrite Nat.Div0.add_mod_idemp_l. replace (n + (5 - k))%nat with ((n - k) + 1 * 5)%nat by lia.
  by rewrite Nat.Div0.mod_add.
Qed.

Lemma mod5_diff i n : (i < n)%nat → (n < i + 5)%nat → (i mod 5 ≠ n mod 5)%nat.
Proof.
  intros Hi Hn He. pose proof (Nat.div_mod_eq i 5). pose proof (Nat.div_mod_eq n 5). lia.
Qed.

Lemma streamed_byte st s c :
  streamed st s → Z.of_nat (length s) + 1 < 2 ^ 32 →
  streamed (update_byte st c) (s ++ [c]).
Proof.
  destruct st as [[[[b sw] ck] fed] j]. intros (Hb & -> & -> & -> & Hsw & Hw) Hlen.
  assert (∀ i, (i < length (s ++ [c]))%nat → (length (s ++ [c]) ≤ i + 5)%nat →
    at_ (<[(length s mod 5)%nat := c]> sw) (i mod 5) = at_ (s ++ [c]) i) as Hw'.
  { intros i. rewrite length_app. cbn [length]. intros Hi H5.
    rewrite at_insert by (rewrite Hsw; by apply Nat.mod_upper_bound).
    destruct (decide (i = length s)) as [->|Hne].
    - by rewrite Nat.eqb_refl, at_snoc.
    - rewrite (proj2 (Nat.eqb_neq _ _)) by (apply mod5_diff; lia).
      rewrite at_app_l by lia. apply Hw; lia. }
  unfold update_byte. set (sw' := <[_ := c]> sw) in *.
  assert (u32 (Z.of_nat (length s) + 1) = Z.of_nat (length (s ++ [c]))) as Hfed.
  { rewrite length_app, wrap_small by lia. simpl. lia. }
  assert (((length s mod 5 + 1) mod SLIDING_WND_SIZE)%nat = (length (s ++ [c]) mod 5)%nat) as Hj.
  { unfold SLIDING_WND_SIZE. by rewrite length_app, Nat.Div0.add_mod_idemp_l. }
  assert (length sw' = 5%nat) as Hsw' by (unfold sw'; by rewrite length_insert).
  destruct (Z.leb_spec 4 (Z.of_nat (length s))) as [H4|H4].
  - assert (∀ k, (k < 5)%nat → at_ sw' ((length s - k) mod 5) = at_ (s ++ [c]) (length s - k)) as Hk.
    { intros k Hk. apply Hw'; rewrite length_app; simpl; lia. }
    rewrite !window_index by lia.
    pose proof (Hk 0%nat ltac:(lia)) as Hk0. rewrite Nat.sub_0_r in Hk0.
    rewrite Hk0, !Hk by lia.
    split_and!; [|by rewrite ref_checksum_snoc, (proj2 (Nat.leb_le _ _)) by lia|done..].
    rewrite all_hits_snoc, (proj2 (Nat.leb_le _ _)) by lia. unfold hits_at.
    rewrite Nat.sub_0_r.
    change (?x :: ?y :: ?z :: ?t :: ?u :: [?v])
      with (((((([x] ++ [y]) ++ [z]) ++ [t]) ++ [u]) ++ [v])).
    rewrite !(assoc_L (++)). repeat (apply hit_ok; [|apply mapping_range]). done.
  - split_and!; [| |done..].
    + rewrite all_hits_snoc, (proj2 (Nat.leb_gt _ _)) by lia. by rewrite app_nil_r.
    + by rewrite ref_checksum_snoc, (proj2 (Nat.leb_gt _ _)) by lia.
Qed.

Lemma streamed_bytes st s data :
  streamed st s → Z.of_nat (length (s ++ data)) < 2 ^ 32 →
  streamed (foldl update_byte st data) (s ++ data).
Proof.
  revert st s. induction data as [|c data IH]; intros st s Hs Hlen; [by rewrite app_nil_r|].
  cbn [foldl]. replace (s ++ c :: data) with ((s ++ [c]) ++ data) by by rewrite <- (assoc_L (++)).
  rewrite length_app in Hlen. cbn [length] in Hlen. apply IH.
  - apply streamed_byte; [done|lia].
  - rewrite !length_app. simpl. lia.
Qed.

Lemma streamed_init b :
  b = replicate BUCKET_COUNT 0 →
  streamed (b, replicate SLIDING_WND_SIZE 0, 0, 0, 0%nat) [].
Proof.
  intros ->. split_and!; try done; [split; [done|]|intros i Hi; simpl in Hi; lia].
  intros r Hr. unfold tab, at_. rewrite nth_lookup, lookup_replicate_2; [done|].
  unfold BUCKET_COUNT. lia.
Qed.

(** The context after the stream [s]. *)
Record hashed (ctx : tlsh_ctx) (s : list Z) : Prop := {
  hd_alloc : alloc_failed ctx = false;
  hd_len : data_len ctx = Z.of_nat (length s);
  hd_state : ∃ b, a_bucket ctx = Some b ∧
    streamed (b, slide_window ctx, ctx_checksum ctx, data_len ctx,
              (Z.to_nat (data_len ctx) mod SLIDING_WND_SIZE)%nat) s;
}.

Lemma update_hashed ctx s data calloc_ok :
  hashed ctx s ∨ (ctx = tlsh_init ∧ s = [] ∧ calloc_ok = true) →
  Z.of_nat (length (s ++ data)) < 2 ^ 32 →
  hashed (tlsh_update calloc_ok ctx data) (s ++ data).
Proof.
  intros Hc Hlen. assert (∃ b, match a_bucket ctx with
    | Some b => Some b
    | None => if calloc_ok then Some (replicate BUCKET_COUNT 0) else None
    end = Some b ∧ alloc_failed ctx = false ∧ data_len ctx = Z.of_nat (length s) ∧
    streamed (b, slide_window ctx, ctx_checksum ctx, data_len ctx,
              (Z.to_nat (data_len ctx) mod SLIDING_WND_SIZE)%nat) s) as (b & Hb & Hf & Hn & Hs).
  { destruct Hc as [[Hf Hn (b & Hb & Hs)]|(-> & -> & ->)].
    - exists b. by rewrite Hb.
    - exists (replicate BUCKET_COUNT 0). split_and!; [done..|]. by apply streamed_init. }
  unfold tlsh_update. rewrite Hf, Hb.
  pose proof (streamed_bytes _ _ data Hs Hlen) as Hs'.
  destruct (foldl update_byte _ data) as [[[[b' sw'] ck'] fed'] j'].
  destruct Hs' as (Hb' & Hck & -> & Hj & Hsw & Hw). rewrite length_app in Hlen.
  assert (u32 (data_len ctx + u32 (Z.of_nat (length data))) = Z.of_nat (length (s ++ data))) as Hl.
  { rewrite length_app, Hn, (wrap_small 32 (Z.of_nat (length data))), wrap_small by lia. lia. }
  split; cbn [alloc_failed data_len a_bucket slide_window ctx_checksum]; [done|done|].
  exists b'. split; [done|]. rewrite Hl. split_and!; try done.
  by rewrite Nat2Z.id.
Qed.

Definition feed (ctx : tlsh_ctx) (pieces : list (list Z * bool)) : tlsh_ctx :=
  foldl (λ ctx '(data, calloc_ok), tlsh_update calloc_ok ctx data) ctx pieces.

Lemma feed_hashed ctx s pieces :
  hashed ctx s → Z.of_nat (length (s ++ mjoin pieces.*1)) < 2 ^ 32 →
  hashed (feed ctx pieces) (s ++ mjoin pieces.*1).
Proof.
  revert ctx s. induction pieces as [|[data ok] pieces IH]; intros ctx s Hh Hlen; csimpl in *.
  { by rewrite app_nil_r. }
  rewrite (assoc_L (++)) in Hlen |- *. apply IH; [|done].
  apply update_hashed; [by left|]. rewrite length_app in Hlen. lia.
Qed.

Lemma feed_failed ctx pieces : alloc_failed ctx = true → feed ctx pieces = ctx.
Proof.
  intros Hf. induction pieces as [|[data ok] pieces IH]; [done|]. cbn.
  unfold tlsh_update at 2. rewrite Hf. exact IH.
Qed.

(** [tlsh_update] computes a function of the whole input, however it is
    cut into pieces: below 4 GB, each bucket counts (modulo 2^32) how often
    the six mappings of the five-byte windows hit it, and the checksum and
    the length are those of the input.  If the first call cannot allocate, no
    later call brings a digest back: [tlsh_final] fails. *)
Theorem tlsh_stream data calloc_ok pieces :
  let s := data ++ mjoin pieces.*1 in
  let ctx := feed tlsh_init ((data, calloc_ok) :: pieces) in
  Z.of_nat (length s) < 2 ^ 32 →
  if calloc_ok
  then ∃ b, a_bucket ctx = Some b ∧ length b = BUCKET_COUNT ∧
    (∀ r, 0 ≤ r < 256 → tab b r = u32 (count r (all_hits s))) ∧
    ctx_checksum ctx = ref_checksum s ∧ data_len ctx = Z.of_nat (length s) ∧
    alloc_failed ctx = false
  else tlsh_final ctx = Some (-1, None, tlsh_free ctx).
Proof.
  intros s ctx Hlen. destruct calloc_ok.
  - assert (hashed ctx s) as [Hf Hn (b & Hb & (Hl & Hr) & Hck & _)].
    { unfold ctx, s. cbn [feed foldl]. apply feed_hashed; [|done].
      apply (update_hashed tlsh_init [] data true); [by right|].
      unfold s in Hlen. rewrite length_app in Hlen. cbn [app]. lia. }
    by exists b.
  - assert (ctx = tlsh_update false tlsh_init data) as ->; [|done].
    unfold ctx. cbn [feed foldl]. by apply feed_failed.
Qed.

(** ** The length bucket *)

Lemma topval_mono i j :
  0 ≤ i → i < j → j < 170 → tab topval i < tab topval j.
Proof.
  assert (Forall (λ i, tab topval (Z.of_nat i) < tab topval (Z.of_nat (S i))) (seq 0 169)) as Hf
    by (apply (bool_decide_unpack _); by vm_compute).
  rewrite Forall_forall in Hf. intros Hi Hij. replace j with (i + 1 + Z.of_nat (Z.to_nat (j - i - 1))) by lia.
  induction (Z.to_nat (j - i - 1)) as [|n IH]; intros Hj.
  - specialize (Hf (Z.to_nat i)). rewrite elem_of_seq in Hf.
    replace (i + 1 + Z.of_nat 0) with (Z.of_nat (S (Z.to_nat i))) by lia.
    replace i with (Z.of_nat (Z.to_nat i)) at 1 by lia. apply Hf. lia.
  - etrans; [apply IH; lia|].
    specialize (Hf (Z.to_nat (i + 1 + Z.of_nat n))). rewrite elem_of_seq in Hf.
    replace (i + 1 + Z.of_nat (S n)) with (Z.of_nat (S (Z.to_nat (i + 1 + Z.of_nat n)))) by lia.
    replace (i + 1 + Z.of_nat n) with (Z.of_nat (Z.to_nat (i + 1 + Z.of_nat n))) at 1 by lia.
    apply Hf. lia.
Qed.

(** The bucket of a length: between its break points, the last one open. *)
Definition in_bucket (len idx : Z) : Prop :=
  0 ≤ idx ≤ 169 ∧ (0 < idx → tab topval (idx - 1) < len) ∧ (idx < 169 → len ≤ tab topval idx).

Lemma capture_loop_spec fuel len bottom top idx :
  len ≤ tab topval 169 → idx = (bottom + top) / 2 →
  (1 ≤ bottom ∨ bottom = 0 ∧ top ∈ [170; 84; 41; 19; 8; 3; 0]) →
  bottom ≤ top ≤ 170 → (0 < bottom → tab topval (bottom - 1) < len) →
  (top < 170 → len ≤ tab topval top) → top - bottom < Z.of_nat fuel →
  ∃ r, capture_loop fuel len bottom top idx = Some r ∧ in_bucket len r.
Proof.
  intros Hlen -> Hb Hbt Hlo Hhi Hf. revert bottom top Hb Hbt Hlo Hhi Hf.
  induction fuel as [|fuel IH]; intros bottom top Hb Hbt Hlo Hhi Hf; [lia|].
  cbn [capture_loop]. set (idx := (bottom + top) / 2).
  assert (bottom ≤ idx ≤ top) as Hidx.
  { unfold idx. split; [apply Z.div_le_lower_bound|apply Z.div_le_upper_bound]; lia. }
  assert (bottom ≤ 169) as Hb169.
  { destruct (decide (bottom = 170)) as [->|]; [|lia]. specialize (Hlo ltac:(lia)).
    change (170 - 1) with 169 in Hlo. lia. }
  assert (idx ≤ 169) as Hidx169.
  { apply Z.lt_succ_r. unfold idx. apply Z.div_lt_upper_bound; lia. }
  destruct (Z.eqb_spec idx 0) as [Hz|Hz].
  { exists idx. split; [done|]. split; [lia|]. split; [lia|]. intros _.
    assert (top = 0) as -> by (destruct Hb as [|[-> Ht]]; [lia|];
      rewrite !elem_of_cons, elem_of_nil in Ht;
      destruct Ht as [->|[->|[->|[->|[->|[->|[->|[]]]]]]]]; done).
    rewrite Hz. apply Hhi. lia. }
  destruct (Z.leb_spec len (tab topval idx)) as [Hle|Hgt]; cbn [andb].
  - destruct (Z.ltb_spec (tab topval (idx - 1)) len) as [Hlt|Hge].
    { exists idx. split; [done|]. split; [lia|]. by split. }
    pose proof (topval_mono (idx - 1) idx ltac:(lia) ltac:(lia) ltac:(lia)).
    rewrite (proj2 (Z.ltb_lt _ _)) by lia. apply IH.
    + destruct Hb as [|[-> Ht]]; [by left|]. right. split; [done|]. unfold idx.
      rewrite !elem_of_cons, elem_of_nil in Ht |- *. unfold idx in Hz.
      destruct Ht as [->|[->|[->|[->|[->|[->|[->|[]]]]]]]]; cbn in Hz |- *; auto 10; lia.
    + split; [|lia]. destruct (decide (bottom = idx)) as [He|]; [|lia].
      rewrite He in Hlo. specialize (Hlo ltac:(lia)). lia.
    + done.
    + intros _. lia.
    + lia.
  - rewrite (proj2 (Z.ltb_ge _ _)) by lia. apply IH.
    + left. lia.
    + split; [|lia]. destruct (decide (idx = top)) as [He|]; [|lia].
      specialize (Hhi ltac:(lia)). rewrite He in Hgt. lia.
    + intros _. by replace (idx + 1 - 1) with idx by lia.
    + done.
    + lia.
Qed.

(** The loop ends, in bounds of the table. *)
Lemma l_capturing_spec len : ∃ r, l_capturing len = Some r ∧ in_bucket len r.
Proof.
  unfold l_capturing. destruct (Z.ltb_spec (tab topval 169) len) as [Hgt|Hle].
  - exists 169. split; [done|]. split; [lia|]. split; [|lia]. intros _.
    pose proof (topval_mono (169 - 1) 169 ltac:(lia) ltac:(lia) ltac:(lia)). lia.
  - apply capture_loop_spec; try (done || lia).
    right. split; [done|]. by left.
Qed.

Lemma in_bucket_unique len i j : in_bucket len i → in_bucket len j → i = j.
Proof.
  intros (Hi & Hi1 & Hi2) (Hj & Hj1 & Hj2). destruct (Z.lt_total i j) as [Hl|[|Hl]]; [|done|].
  - pose proof (Hj1 ltac:(lia)). pose proof (Hi2 ltac:(lia)).
    destruct (decide (i = j - 1)) as [->|]; [lia|].
    pose proof (topval_mono i (j - 1) ltac:(lia) ltac:(lia) ltac:(lia)). lia.
  - pose proof (Hi1 ltac:(lia)). pose proof (Hj2 ltac:(lia)).
    destruct (decide (j = i - 1)) as [->|]; [lia|].
    pose proof (topval_mono j (i - 1) ltac:(lia) ltac:(lia) ltac:(lia)). lia.
Qed.

(** ** Quartiles are order statistics *)

Section quartiles.
Implicit Types (buf : list Z) (l r i j : nat).

(** [buf'] is [buf] with the positions [l..r] permuted. *)
Record permuted l r buf buf' : Prop := {
  pm_perm : Permutation buf' buf;
  pm_out i : (i < l)%nat ∨ (r < i)%nat → at_ buf' i = at_ buf i;
  pm_in i : (l ≤ i ≤ r)%nat → ∃ j, (l ≤ j ≤ r)%nat ∧ at_ buf' i = at_ buf j;
}.

Lemma permuted_length l r buf buf' : permuted l r buf buf' → length buf' = length buf.
Proof. intros Hp. apply Permutation_length, Hp. Qed.

Lemma permuted_refl l r buf : permuted l r buf buf.
Proof. split; [done|done|]. intros i Hi. by exists i. Qed.

Lemma permuted_trans l r buf buf' buf'' :
  permuted l r buf buf' → permuted l r buf' buf'' → permuted l r buf buf''.
Proof.
  intros [Hp1 Ho1 Hi1] [Hp2 Ho2 Hi2]. split.
  - by rewrite Hp2.
  - intros i Hi. by rewrite Ho2, Ho1.
  - intros i Hi. destruct (Hi2 i Hi) as (j & Hj & ->). destruct (Hi1 j Hj) as (j' & Hj' & ->).
    by exists j'.
Qed.

Lemma permuted_mono l r l' r' buf buf' :
  (l' ≤ l)%nat → (r ≤ r')%nat → permuted l r buf buf' → permuted l' r' buf buf'.
Proof.
  intros Hl Hr [Hp Ho Hi]. split; [done|intros i Hx; apply Ho; lia|].
  intros i Hx. destruct (decide (l ≤ i ≤ r)%nat) as [Hin|].
  - destruct (Hi i Hin) as (j & ? & ->). exists j. split; [lia|done].
  - exists i. split; [done|]. apply Ho. lia.
Qed.

Lemma at_swap i j buf k :
  (i < length buf)%nat → (j < length buf)%nat →
  at_ (swap i j buf) k = at_ buf (if (k =? j)%nat then i else if (k =? i)%nat then j else k).
Proof.
  intros Hi Hj. unfold swap. rewrite at_insert by (by rewrite length_insert).
  destruct (k =? j)%nat; [done|]. rewrite at_insert by done. by destruct (k =? i)%nat.
Qed.

Lemma length_swap i j buf : length (swap i j buf) = length buf.
Proof. unfold swap. by rewrite !length_insert. Qed.

Lemma swap_perm i j buf :
  (i < length buf)%nat → (j < length buf)%nat → Permutation (swap i j buf) buf.
Proof.
  intros Hi Hj. symmetry. apply (Permutation_nth buf (swap i j buf) 0).
  split; [apply length_swap|].
  set (f k := if (k =? j)%nat then i else if (k =? i)%nat then j else k).
  exists f. split; [|split].
  - intros k Hk. unfold f. destruct (k =? j)%nat; [done|]. by destruct (k =? i)%nat.
  - intros x y Hx Hy. unfold f.
    destruct (Nat.eqb_spec x j), (Nat.eqb_spec x i), (Nat.eqb_spec y j), (Nat.eqb_spec y i); lia.
  - intros k Hk. by apply at_swap.
Qed.

Lemma swap_permuted l r i j buf :
  (r < length buf)%nat → (l ≤ i ≤ r)%nat → (l ≤ j ≤ r)%nat → permuted l r buf (swap i j buf).
Proof.
  intros Hr Hi Hj. split; [apply swap_perm; lia|..]; intros k Hk; rewrite at_swap by lia.
  - destruct (Nat.eqb_spec k j), (Nat.eqb_spec k i); lia || done.
  - destruct (Nat.eqb_spec k j); [by exists i|]. destruct (Nat.eqb_spec k i); [by exists j|].
    by exists k.
Qed.

(** The loop keeps the smaller ones before [ret]. *)
Lemma partition_loop_spec n i val buf l r ret :
  (i + n = r)%nat → (r < length buf)%nat → (l ≤ ret ≤ i)%nat → at_ buf r = val →
  (∀ k, (l ≤ k < ret)%nat → at_ buf k < val) → (∀ k, (ret ≤ k < i)%nat → val ≤ at_ buf k) →
  let '(buf', ret') := partition_loop (seq i n) val buf ret in
  permuted l r buf buf' ∧ at_ buf' r = val ∧ (ret ≤ ret' ≤ r)%nat ∧
  (∀ k, (l ≤ k < ret')%nat → at_ buf' k < val) ∧ (∀ k, (ret' ≤ k < r)%nat → val ≤ at_ buf' k).
Proof.
  revert i buf ret. induction n as [|n IH]; intros i buf ret Hi Hr Hret Hv Hlt Hge;
    cbn [seq partition_loop].
  { assert (i = r) as -> by lia. split; [apply permuted_refl|]. split_and!; (done || lia). }
  destruct (Z.ltb_spec (at_ buf i) val) as [Hs|Hs].
  - specialize (IH (S i) (swap ret i buf) (S ret)). rewrite length_swap in IH.
    destruct (partition_loop (seq (S i) n) val (swap ret i buf) (S ret)) as [buf' ret'].
    destruct IH as (Hp & Hv' & Hb & Hlt' & Hge'); try lia.
    + rewrite at_swap by lia. rewrite (proj2 (Nat.eqb_neq r i)), (proj2 (Nat.eqb_neq r ret)) by lia.
      done.
    + intros k Hk. rewrite at_swap by lia.
      destruct (Nat.eqb_spec k i) as [->|]; [assert (i = ret) by lia; by subst|].
      destruct (Nat.eqb_spec k ret); [done|]. apply Hlt. lia.
    + intros k Hk. rewrite at_swap by lia.
      destruct (Nat.eqb_spec k i); [apply Hge; lia|].
      rewrite (proj2 (Nat.eqb_neq k ret)) by lia. apply Hge. lia.
    + split; [|split; [done|]; split; [lia|done]].
      eapply permuted_trans; [|exact Hp]. apply swap_permuted; lia.
  - specialize (IH (S i) buf ret). destruct (partition_loop (seq (S i) n) val buf ret) as [buf' ret'].
    apply IH; try (done || lia). intros k Hk. destruct (decide (k = i)) as [->|]; [done|].
    apply Hge. lia.
Qed.

Lemma partition_spec buf l r :
  (l ≤ r < length buf)%nat →
  let '(buf', ret) := partition buf l r in
  permuted l r buf buf' ∧ (l ≤ ret ≤ r)%nat ∧
  (∀ k, (l ≤ k ≤ ret)%nat → at_ buf' k ≤ at_ buf' ret) ∧
  (∀ k, (ret ≤ k ≤ r)%nat → at_ buf' ret ≤ at_ buf' k).
Proof.
  intros Hlr. unfold partition. destruct (Nat.eqb_spec l r) as [->|Hne].
  { split; [apply permuted_refl|]. split; [lia|].
    split; intros k Hk; (assert (k = r) as -> by lia); done. }
  destruct (Nat.eqb_spec (l + 1) r) as [Hr|Hr].
  { destruct (Z.ltb_spec (at_ buf r) (at_ buf l)) as [Hs|Hs].
    - split; [apply swap_permuted; lia|]. split; [lia|].
      assert (at_ (swap l r buf) l = at_ buf r) as Hl.
      { rewrite at_swap by lia. by rewrite (proj2 (Nat.eqb_neq l r)), Nat.eqb_refl by lia. }
      assert (at_ (swap l r buf) r = at_ buf l) as Hr'.
      { rewrite at_swap by lia. by rewrite Nat.eqb_refl. }
      split; intros k Hk.
      + assert (k = l) as -> by lia. done.
      + destruct (decide (k = l)) as [->|]; [done|]. assert (k = r) as -> by lia. lia.
    - split; [apply permuted_refl|]. split; [lia|]. split; intros k Hk.
      + assert (k = l) as -> by lia. done.
      + destruct (decide (k = l)) as [->|]; [done|]. by assert (k = r) as -> by lia. }
  set (pivot := ((l + r) / 2)%nat).
  assert (l ≤ pivot ≤ r)%nat as Hpv.
  { unfold pivot. split; [apply Nat.div_le_lower_bound|apply Nat.Div0.div_le_upper_bound]; lia. }
  change (<[r := at_ buf pivot]> (<[pivot := at_ buf r]> buf)) with (swap pivot r buf).
  set (val := at_ buf pivot). cbv zeta.
  assert (at_ (swap pivot r buf) r = val) as Hv by (rewrite at_swap by lia; by rewrite Nat.eqb_refl).
  pose proof (partition_loop_spec (r - l) l val (swap pivot r buf) l r l) as Hs.
  rewrite length_swap in Hs.
  destruct (partition_loop (seq l (r - l)) val (swap pivot r buf) l) as [buf' ret].
  destruct Hs as (Hp & Hv' & Hret & Hlt & Hge); [lia..|done|intros; lia|intros; lia|].
  assert (length buf' = length buf) as Hlen
    by (rewrite (permuted_length _ _ _ _ Hp); apply length_swap).
  replace (<[ret := val]> (<[r := at_ buf' ret]> buf')) with (swap r ret buf')
    by (unfold swap; by rewrite Hv').
  split; [|split; [lia|]].
  { eapply permuted_trans; [|eapply permuted_trans; [exact Hp|]]; apply swap_permuted; lia. }
  assert (at_ (swap r ret buf') ret = val) as Hat
    by (rewrite at_swap by lia; by rewrite Nat.eqb_refl).
  rewrite Hat. split; intros k Hk; rewrite at_swap by lia.
  - destruct (Nat.eqb_spec k ret); [lia|]. destruct (Nat.eqb_spec k r); [lia|].
    apply Z.lt_le_incl, Hlt. lia.
  - destruct (Nat.eqb_spec k ret); [lia|]. destruct (Nat.eqb_spec k r); [apply Hge; lia|].
    apply Hge. lia.
Qed.

(** Nothing before [l] exceeds what is from [l] on; nothing up to [r] exceeds
    what is after it. *)
Definition bound_l buf l : Prop :=
  ∀ i j, (i < l ≤ j)%nat → (j < length buf)%nat → at_ buf i ≤ at_ buf j.
Definition bound_r buf r : Prop :=
  ∀ i j, (i ≤ r < j)%nat → (j < length buf)%nat → at_ buf i ≤ at_ buf j.

(** The element at [i] is where sorting would put it. *)
Definition fixed buf i : Prop :=
  (i < length buf)%nat ∧ (∀ k, (k ≤ i)%nat → at_ buf k ≤ at_ buf i) ∧
  (∀ k, (i ≤ k < length buf)%nat → at_ buf i ≤ at_ buf k).

Record segment buf l r : Prop := {
  sg_range : (l ≤ r < length buf)%nat;
  sg_l : bound_l buf l;
  sg_r : bound_r buf r;
}.

Lemma fixed_bounds buf i :
  fixed buf i → bound_l buf i ∧ bound_r buf i ∧ bound_l buf (S i) ∧
    ∀ r, i = S r → bound_r buf r.
Proof.
  intros (Hi & Hl & Hr). split_and!.
  - intros x y Hxy Hy. transitivity (at_ buf i); [apply Hl; lia|apply Hr; lia].
  - intros x y Hxy Hy. transitivity (at_ buf i); [apply Hl; lia|apply Hr; lia].
  - intros x y Hxy Hy. transitivity (at_ buf i); [apply Hl; lia|apply Hr; lia].
  - intros r -> x y Hxy Hy. transitivity (at_ buf (S r)); [apply Hl; lia|apply Hr; lia].
Qed.

Lemma permuted_segment l r buf buf' :
  segment buf l r → permuted l r buf buf' → segment buf' l r.
Proof.
  intros [Hr Hsl Hsr] Hp. pose proof (permuted_length _ _ _ _ Hp) as Hlen.
  destruct Hp as [_ Ho Hi]. split; [lia|..]; intros x y Hxy Hy.
  - rewrite (Ho x) by lia. destruct (decide (y ≤ r)%nat).
    + destruct (Hi y) as (y' & ? & ->); [lia|]. apply Hsl; lia.
    + rewrite (Ho y) by lia. apply Hsl; lia.
  - rewrite (Ho y) by lia. destruct (decide (l ≤ x)%nat).
    + destruct (Hi x) as (x' & ? & ->); [lia|]. apply Hsr; lia.
    + rewrite (Ho x) by lia. apply Hsr; lia.
Qed.

Lemma permuted_fixed l r buf buf' i :
  permuted l r buf buf' → (i < l)%nat ∨ (r < i)%nat → (r < length buf)%nat →
  fixed buf i → fixed buf' i.
Proof.
  intros Hp Hi Hr (Hlt & Hl & Hg). pose proof (permuted_length _ _ _ _ Hp) as Hlen.
  destruct Hp as [_ Ho Hin]. split; [lia|]. rewrite (Ho i Hi). split; intros k Hk.
  - destruct (decide (l ≤ k ≤ r)%nat) as [Hkr|].
    + destruct (Hin k Hkr) as (j & ? & ->). apply Hl. lia.
    + rewrite Ho by lia. by apply Hl.
  - destruct (decide (l ≤ k ≤ r)%nat) as [Hkr|].
    + destruct (Hin k Hkr) as (j & ? & ->). apply Hg. lia.
    + rewrite Ho by lia. apply Hg. lia.
Qed.

(** A partition settles one position and leaves two segments. *)
Lemma partition_segment buf l r :
  segment buf l r →
  let '(buf', ret) := partition buf l r in
  permuted l r buf buf' ∧ (l ≤ ret ≤ r)%nat ∧ fixed buf' ret ∧
  ((l < ret)%nat → segment buf' l (ret - 1)) ∧ ((ret < r)%nat → segment buf' (ret + 1) r).
Proof.
  intros Hs. pose proof (partition_spec buf l r (sg_range _ _ _ Hs)) as Hp.
  destruct (partition buf l r) as [buf' ret]. destruct Hp as (Hp & Hret & Hle & Hge).
  destruct (permuted_segment _ _ _ _ Hs Hp) as [Hr Hsl Hsr].
  assert (fixed buf' ret) as Hf.
  { split; [lia|]. split; intros k Hk.
    - destruct (decide (l ≤ k)%nat); [apply Hle; lia|].
      destruct (decide (l = ret)); apply Hsl; lia.
    - destruct (decide (k ≤ r)%nat); [apply Hge; lia|]. apply Hsr; lia. }
  split; [done|]. split; [done|]. split; [done|].
  destruct (fixed_bounds _ _ Hf) as (_ & _ & HbS & Hb). split; intros Hlt.
  - split; [lia|done|]. apply Hb. lia.
  - split; [lia| |done]. by rewrite Nat.add_1_r.
Qed.

Lemma select_pos_spec fuel p buf l r :
  segment buf l r → (l ≤ p ≤ r)%nat → (r - l < fuel)%nat →
  ∃ buf', select_pos fuel p buf l r = Some buf' ∧ permuted l r buf buf' ∧ fixed buf' p.
Proof.
  revert buf l r. induction fuel as [|fuel IH]; intros buf l r Hs Hp Hf; [lia|].
  cbn [select_pos]. pose proof (partition_segment buf l r Hs) as Hps.
  destruct (partition buf l r) as [buf1 ret]. destruct Hps as (Hpm & Hret & Hfix & Hsl & Hsr).
  destruct (Nat.ltb_spec p ret) as [Hlt|Hge]; [|destruct (Nat.ltb_spec ret p) as [Hlt|Hge']].
  - destruct (IH buf1 l (ret - 1)%nat) as (buf' & He & Hp' & Hf'); [apply Hsl; lia|lia|lia|].
    exists buf'. split; [done|]. split; [|done]. eapply permuted_trans; [exact Hpm|].
    eapply permuted_mono; [| |exact Hp']; lia.
  - destruct (IH buf1 (ret + 1)%nat r) as (buf' & He & Hp' & Hf'); [apply Hsr; lia|lia|lia|].
    exists buf'. split; [done|]. split; [|done]. eapply permuted_trans; [exact Hpm|].
    eapply permuted_mono; [| |exact Hp']; lia.
  - exists buf1. assert (p = ret) as -> by lia. done.
Qed.

(** The first loop: the middle is settled, and so is every short cut. *)
Lemma select_mid_spec fuel buf l r scl scr :
  segment buf l r → (l ≤ p2 ≤ r)%nat → (r - l < fuel)%nat →
  (∀ x, x ∈ scl → fixed buf x ∧ (x < l)%nat) → (∀ x, x ∈ scr → fixed buf x ∧ (r < x)%nat) →
  ∃ buf' scl' scr', select_mid fuel buf l r scl scr = Some (buf', scl', scr') ∧
    permuted l r buf buf' ∧ fixed buf' p2 ∧
    (∀ x, x ∈ scl' → fixed buf' x ∧ (x < p2)%nat) ∧ (∀ x, x ∈ scr' → fixed buf' x ∧ (p2 < x)%nat).
Proof.
  revert buf l r scl scr. induction fuel as [|fuel IH]; intros buf l r scl scr Hs Hp Hf Hl Hr; [lia|].
  cbn [select_mid]. pose proof (partition_segment buf l r Hs) as Hps.
  pose proof (sg_range _ _ _ Hs) as Hlen.
  destruct (partition buf l r) as [buf1 ret]. destruct Hps as (Hpm & Hret & Hfix & Hsl & Hsr).
  assert (∀ x, x ∈ scl → fixed buf1 x ∧ (x < l)%nat) as Hl1.
  { intros x [Hx ?]%Hl. split; [|done]. eapply permuted_fixed; [done| |lia|done]. by left. }
  assert (∀ x, x ∈ scr → fixed buf1 x ∧ (r < x)%nat) as Hr1.
  { intros x [Hx ?]%Hr. split; [|done]. eapply permuted_fixed; [done| |lia|done]. by right. }
  destruct (Nat.ltb_spec p2 ret) as [Hlt|Hge]; [|destruct (Nat.ltb_spec ret p2) as [Hlt|Hge']].
  - destruct (IH buf1 l (ret - 1)%nat scl (scr ++ [ret])) as (buf' & scl' & scr' & He & Hp' & Hrest);
      [apply Hsl; lia|lia|lia|done| |].
    + intros x [Hx|Hx]%elem_of_app; [apply Hr1 in Hx as [??]; split; [done|lia]|].
      apply list_elem_of_singleton in Hx as ->. split; [done|lia].
    + exists buf', scl', scr'. split; [done|]. split; [|done]. eapply permuted_trans; [exact Hpm|].
      eapply permuted_mono; [| |exact Hp']; lia.
  - destruct (IH buf1 (ret + 1)%nat r (scl ++ [ret]) scr) as (buf' & scl' & scr' & He & Hp' & Hrest);
      [apply Hsr; lia|lia|lia| |done|].
    + intros x [Hx|Hx]%elem_of_app; [apply Hl1 in Hx as [??]; split; [done|lia]|].
      apply list_elem_of_singleton in Hx as ->. split; [done|lia].
    + exists buf', scl', scr'. split; [done|]. split; [|done]. eapply permuted_trans; [exact Hpm|].
      eapply permuted_mono; [| |exact Hp']; lia.
  - assert (ret = p2) as -> by lia. exists buf1, scl, scr. split_and!; [done..| |].
    + intros x [??]%Hl1. split; [done|lia].
    + intros x [??]%Hr1. split; [done|lia].
Qed.

(** The second and third: the short cuts bound the segment left to search. *)
Lemma positions_eq :
  p1 = 31%nat ∧ p2 = 63%nat ∧ p3 = 95%nat ∧ end_ = 127%nat ∧ EFF_BUCKETS = 128%nat ∧
  FUEL = 129%nat.
Proof. done. Qed.

Lemma left_loop_spec sc buf l :
  length buf = EFF_BUCKETS → bound_l buf l → (l ≤ p1)%nat →
  (∀ x, x ∈ sc → bound_r buf x ∧ ((x < p1)%nat → bound_l buf x) ∧ (x < p2)%nat) → (∃ x, x ∈ sc ∧ (p1 < x)%nat) →
  (∀ x, x ∈ sc → x = p1 → fixed buf x) →
  ∃ buf' q1, left_loop sc buf l = Some (buf', q1) ∧ permuted 0 (p2 - 1) buf buf' ∧
    fixed buf' p1 ∧ q1 = at_ buf' p1.
Proof.
  intros Hlen. revert l. induction sc as [|x sc IH]; intros l Hl Hp Hsc Hlast Hfx.
  { destruct Hlast as (x & Hx & _). by apply elem_of_nil in Hx. }
  cbn [left_loop]. destruct (Hsc x) as (Hxr & Hxl & Hx2); [by left|].
  destruct positions_eq as (E1 & E2 & E3 & E4 & E5 & E6).
  destruct (Nat.ltb_spec p1 x) as [Hlt|Hge]; [|destruct (Nat.ltb_spec x p1) as [Hlt|Hge']].
  - destruct (select_pos_spec FUEL p1 buf l x) as (buf' & -> & Hpm & Hf);
      [split; [lia|done|done]|lia|lia|].
    exists buf', (at_ buf' p1). split; [done|]. split; [|done].
    eapply permuted_mono; [| |exact Hpm]; lia.
  - apply IH; [auto|lia|intros y Hy; apply Hsc; by right| |intros y Hy; apply Hfx; by right].
    destruct Hlast as (y & [->|Hy]%elem_of_cons & Hy31); [lia|by exists y].
  - assert (x = p1) as -> by lia. exists buf, (at_ buf p1). split; [done|].
    split; [apply permuted_refl|]. split; [|done]. apply Hfx; [by left|done].
Qed.

Lemma right_loop_spec sc buf r :
  length buf = EFF_BUCKETS → bound_r buf r → (p3 ≤ r < EFF_BUCKETS)%nat →
  (∀ x, x ∈ sc → bound_l buf x ∧ ((p3 < x)%nat → bound_r buf x) ∧
    (p2 < x < EFF_BUCKETS)%nat) →
  (∃ x, x ∈ sc ∧ (x < p3)%nat) → (∀ x, x ∈ sc → x = p3 → fixed buf x) →
  ∃ buf' q3, right_loop sc buf r = Some (buf', q3) ∧ permuted (p2 + 1) end_ buf buf' ∧
    fixed buf' p3 ∧ q3 = at_ buf' p3.
Proof.
  intros Hlen. revert r. induction sc as [|x sc IH]; intros r Hr Hp Hsc Hlast Hfx.
  { destruct Hlast as (x & Hx & _). by apply elem_of_nil in Hx. }
  cbn [right_loop]. destruct (Hsc x) as (Hxl & Hxr & Hx2); [by left|].
  destruct positions_eq as (E1 & E2 & E3 & E4 & E5 & E6).
  destruct (Nat.ltb_spec x p3) as [Hlt|Hge]; [|destruct (Nat.ltb_spec p3 x) as [Hlt|Hge']].
  - destruct (select_pos_spec FUEL p3 buf x r) as (buf' & -> & Hpm & Hf);
      [split; [lia|done|done]|lia|lia|].
    exists buf', (at_ buf' p3). split; [done|]. split; [|done].
    eapply permuted_mono; [| |exact Hpm]; lia.
  - apply IH; [auto|lia|intros y Hy; apply Hsc; by right| |intros y Hy; apply Hfx; by right].
    destruct Hlast as (y & [->|Hy]%elem_of_cons & Hy31); [lia|by exists y].
  - assert (x = p3) as -> by lia. exists buf, (at_ buf p3). split; [done|].
    split; [apply permuted_refl|]. split; [|done]. apply Hfx; [by left|done].
Qed.

(** A settled position holds what the sorted array has there. *)
Lemma at_take buf n x : x ∈ take n buf → ∃ k, (k < n)%nat ∧ (k < length buf)%nat ∧ x = at_ buf k.
Proof.
  intros (k & Hk)%list_elem_of_lookup_1. apply lookup_take_Some in Hk as [Hk ?].
  exists k. pose proof (lookup_lt_Some _ _ _ Hk). split_and!; [done..|].
  rewrite at_lookup in Hk by done. by injection Hk.
Qed.

Lemma at_drop buf n x : x ∈ drop n buf → ∃ k, (n ≤ k < length buf)%nat ∧ x = at_ buf k.
Proof.
  intros (k & Hk)%list_elem_of_lookup_1. rewrite lookup_drop in Hk.
  exists (n + k)%nat. pose proof (lookup_lt_Some _ _ _ Hk). split; [lia|].
  rewrite at_lookup in Hk by lia. by injection Hk.
Qed.

Lemma fixed_sorted buf i : fixed buf i → merge_sort Z.le buf !! i = Some (at_ buf i).
Proof.
  intros (Hi & Hl & Hr).
  assert (take i buf ++ at_ buf i :: drop (S i) buf = buf) as Hsplit
    by (by apply take_drop_middle, at_lookup).
  set (s := merge_sort Z.le (take i buf) ++ at_ buf i :: merge_sort Z.le (drop (S i) buf)).
  assert (merge_sort Z.le buf = s) as ->.
  { apply (StronglySorted_unique Z.le); [apply (StronglySorted_merge_sort Z.le)| |].
    - apply StronglySorted_app_2; [|apply (StronglySorted_merge_sort Z.le)|].
      + intros x y Hx Hy. rewrite (merge_sort_Permutation Z.le) in Hx.
        apply at_take in Hx as (k & Hk & _ & ->).
        apply elem_of_cons in Hy as [->|Hy]; [apply Hl; lia|].
        rewrite (merge_sort_Permutation Z.le) in Hy. apply at_drop in Hy as (k' & Hk' & ->).
        transitivity (at_ buf i); [apply Hl; lia|apply Hr; lia].
      + apply StronglySorted_cons. split; [|apply (StronglySorted_merge_sort Z.le)].
        apply Forall_forall. intros y Hy. rewrite (merge_sort_Permutation Z.le) in Hy.
        apply at_drop in Hy as (k' & Hk' & ->). apply Hr. lia.
    - rewrite (merge_sort_Permutation Z.le buf). rewrite <- Hsplit at 1. unfold s.
      by rewrite !(merge_sort_Permutation Z.le). }
  unfold s. assert (length (merge_sort Z.le (take i buf)) = i) as Hn.
  { rewrite (Permutation_length (merge_sort_Permutation Z.le _)), length_take. lia. }
  rewrite lookup_app_r, Hn, Nat.sub_diag by lia. done.
Qed.

(** The [i]th smallest of the buckets the digest uses. *)
Definition order_stat (bucket : list Z) (i : nat) : Z :=
  at_ (merge_sort Z.le (take EFF_BUCKETS bucket)) i.

Lemma fixed_order_stat bucket buf i :
  Permutation buf (take EFF_BUCKETS bucket) → fixed buf i → at_ buf i = order_stat bucket i.
Proof.
  intros Hp Hf. unfold order_stat. apply fixed_sorted in Hf.
  assert (merge_sort Z.le buf = merge_sort Z.le (take EFF_BUCKETS bucket)) as <-.
  { apply (StronglySorted_unique Z.le); [apply (StronglySorted_merge_sort Z.le)..|].
    by rewrite !(merge_sort_Permutation Z.le). }
  unfold at_ at 2. rewrite nth_lookup, Hf. done.
Qed.

Lemma find_quartile_spec bucket :
  (EFF_BUCKETS ≤ length bucket)%nat →
  find_quartile bucket =
    Some (order_stat bucket p1, order_stat bucket p2, order_stat bucket p3).
Proof.
  intros Hb. unfold find_quartile. set (b0 := take EFF_BUCKETS bucket).
  assert (length b0 = EFF_BUCKETS) as Hl0 by (unfold b0; rewrite length_take; lia).
  destruct positions_eq as (E1 & E2 & E3 & E4 & E5 & E6).
  destruct (select_mid_spec FUEL b0 0 end_ [] []) as (b1 & scl & scr & -> & Hp1 & Hf2 & Hscl & Hscr).
  { split; [lia|intros x y ?; lia|intros x y ?; lia]. }
  { lia. } { lia. } { by intros x ?%elem_of_nil. } { by intros x ?%elem_of_nil. }
  cbn [mbind option_bind]. pose proof (permuted_length _ _ _ _ Hp1) as Hl1.
  destruct (fixed_bounds _ _ Hf2) as (H2l & H2r & H2S & H2p).
  destruct (left_loop_spec (scl ++ [p2 - 1])%nat b1 0) as (b2 & q1 & -> & Hp2 & Hf1 & ->).
  { lia. } { intros x y ?; lia. } { lia. }
  { intros x [Hx|Hx]%elem_of_app.
    - destruct (Hscl x Hx) as [Hfx ?]. by destruct (fixed_bounds _ _ Hfx) as (?&?&_).
    - apply list_elem_of_singleton in Hx as ->. split; [apply H2p; lia|]. lia. }
  { exists (p2 - 1)%nat. split; [|lia]. apply elem_of_app. right. by apply list_elem_of_singleton. }
  { intros x [Hx|Hx]%elem_of_app; [by intros _; apply Hscl|].
    apply list_elem_of_singleton in Hx as ->. lia. }
  cbn [mbind option_bind]. pose proof (permuted_length _ _ _ _ Hp2) as Hl2.
  assert (∀ x, (p2 ≤ x)%nat → fixed b1 x → fixed b2 x) as Hkeep.
  { intros x Hx Hfx. eapply permuted_fixed; [exact Hp2| |lia|done]. right. lia. }
  destruct (fixed_bounds _ _ (Hkeep p2 (le_n _) Hf2)) as (_ & _ & H2S' & _).
  destruct (right_loop_spec (scr ++ [p2 + 1])%nat b2 end_) as (b3 & q3 & -> & Hp3 & Hf3 & ->).
  { lia. } { intros x y ?; lia. } { lia. }
  { intros x [Hx|Hx]%elem_of_app.
    - destruct (Hscr x Hx) as [Hfx ?]. apply Hkeep in Hfx; [|lia].
      destruct (fixed_bounds _ _ Hfx) as (?&?&_). destruct Hfx as [? _]. split_and!; try done. lia.
    - apply list_elem_of_singleton in Hx as ->. rewrite Nat.add_1_r. split; [done|]. lia. }
  { exists (p2 + 1)%nat. split; [|lia]. apply elem_of_app. right. by apply list_elem_of_singleton. }
  { intros x [Hx|Hx]%elem_of_app.
    - intros _. destruct (Hscr x Hx). apply Hkeep; [lia|done].
    - apply list_elem_of_singleton in Hx as ->. lia. }
  cbn [mbind option_bind]. f_equal. f_equal; [f_equal|].
  - apply fixed_order_stat; [|done]. rewrite (pm_perm _ _ _ _ Hp2). apply Hp1.
  - apply fixed_order_stat; [|done]. apply Hp1.
  - apply fixed_order_stat; [|done]. rewrite (pm_perm _ _ _ _ Hp3), (pm_perm _ _ _ _ Hp2).
    apply Hp1.
Qed.

End quartiles.

(** ** The digest, from sorted buckets *)

(** The quartile of a count. *)
Definition quart (q1 q2 q3 n : Z) : Z :=
  if q3 <? n then 3 else if q2 <? n then 2 else if q1 <? n then 1 else 0.

(** Four counts to a byte, the first in the low bits. *)
Definition pack_code (b : list Z) (q1 q2 q3 : Z) : list Z :=
  (λ i, let q j := quart q1 q2 q3 (at_ b (4 * i + j)) in
        q 0%nat + 4 * q 1%nat + 16 * q 2%nat + 64 * q 3%nat) <$> seq 0 TLSH_CODE_SIZE.

Lemma code_byte_pack b q1 q2 q3 i :
  code_byte b q1 q2 q3 i =
  quart q1 q2 q3 (at_ b (4 * i + 0)) + 4 * quart q1 q2 q3 (at_ b (4 * i + 1)) +
  16 * quart q1 q2 q3 (at_ b (4 * i + 2)) + 64 * quart q1 q2 q3 (at_ b (4 * i + 3)).
Proof.
  unfold code_byte. cbn [seq foldl].
  assert (∀ h j, (if q3 <? at_ b (4 * i + j) then u8 (h + u8 (Z.shiftl 3 (Z.of_nat j * 2)))
    else if q2 <? at_ b (4 * i + j) then u8 (h + u8 (Z.shiftl 2 (Z.of_nat j * 2)))
    else if q1 <? at_ b (4 * i + j) then u8 (h + u8 (Z.shiftl 1 (Z.of_nat j * 2))) else h) =
    (let q := quart q1 q2 q3 (at_ b (4 * i + j)) in
     if q =? 0 then h else u8 (h + u8 (Z.shiftl q (Z.of_nat j * 2))))) as Hs.
  { intros h j. unfold quart. by repeat destruct (_ <? _). }
  rewrite !Hs. cbv zeta.
  assert (∀ n, quart q1 q2 q3 n = 0 ∨ quart q1 q2 q3 n = 1 ∨ quart q1 q2 q3 n = 2
    ∨ quart q1 q2 q3 n = 3) as Hq by (intros n; unfold quart; repeat destruct (_ <? _); auto).
  destruct (Hq (at_ b (4 * i + 0))) as [-> |[-> |[-> | ->]]],
    (Hq (at_ b (4 * i + 1))) as [-> |[-> |[-> | ->]]],
    (Hq (at_ b (4 * i + 2))) as [-> |[-> |[-> | ->]]],
    (Hq (at_ b (4 * i + 3))) as [-> |[-> |[-> | ->]]]; vm_compute; reflexivity.
Qed.

Definition nonzero (b : list Z) : Z :=
  Z.of_nat (length (List.filter (λ k, 0 <? at_ b k) (seq 0 EFF_BUCKETS))).

Lemma nonzero_count_spec b : nonzero_count b = nonzero b.
Proof.
  unfold nonzero_count, nonzero.
  set (cnt n := Z.of_nat (length (List.filter (λ k, 0 <? at_ b k) (seq 0 n)))).
  assert (∀ n, cnt (S n) = if 0 <? at_ b n then cnt n + 1 else cnt n) as HS.
  { intros n. unfold cnt. rewrite seq_S, List.filter_app, length_app. cbn [List.filter Nat.add].
    destruct (0 <? at_ b n); cbn [length]; lia. }
  change EFF_BUCKETS with (4 * TLSH_CODE_SIZE)%nat. fold (cnt (4 * TLSH_CODE_SIZE)%nat).
  induction TLSH_CODE_SIZE as [|n IH]; [done|].
  rewrite (seq_S n 0), foldl_app. cbn [foldl]. rewrite IH. cbn [seq foldl Nat.add].
  replace (4 * S n)%nat with (S (S (S (S (4 * n + 0))))) by lia. rewrite !HS.
  rewrite Nat.add_0_r.
  replace (S (S (S (4 * n)))) with (4 * n + 3)%nat by lia.
  replace (S (S (4 * n))) with (4 * n + 2)%nat by lia.
  replace (S (4 * n)) with (4 * n + 1)%nat by lia. done.
Qed.

(** The input is too short, or too uniform, for a digest. *)
Definition no_digest (ctx : tlsh_ctx) (b : list Z) : bool :=
  (data_len ctx <? MIN_DATA_LENGTH) || (order_stat b p3 =? 0) || (nonzero b <=? 64).

Lemma order_stat_range b i :
  Forall (λ x, 0 ≤ x < 2 ^ 32) b → 0 ≤ order_stat b i < 2 ^ 32.
Proof.
  intros Hb. unfold order_stat, at_.
  destruct (nth_in_or_default i (merge_sort Z.le (take EFF_BUCKETS b)) 0) as [Hin| ->]; [|lia].
  apply list_elem_of_In in Hin. revert Hin. generalize (nth i (merge_sort Z.le (take EFF_BUCKETS b)) 0).
  intros x Hin. rewrite (merge_sort_Permutation Z.le) in Hin.
  apply elem_of_take in Hin as (k & Hk & _). by apply (Forall_lookup_1 _ _ _ _ Hb Hk).
Qed.

(** The digest of the buckets, the checksum and the length of an input. *)
Definition digest_of_buckets (b : list Z) (ck len : Z) : option tlsh_digest :=
  let q1 := order_stat b 31 in let q2 := order_stat b 63 in let q3 := order_stat b 95 in
  if (len <? MIN_DATA_LENGTH) || (q3 =? 0) || (nonzero b <=? 64) then None
  else Some {| checksum := ck; Lvalue := default 0 (l_capturing len);
               Q1ratio := q1 * 100 / q3 mod 16; Q2ratio := q2 * 100 / q3 mod 16;
               tmp_code := pack_code b q1 q2 q3 |}.

Lemma tlsh_final_digest ctx b :
  a_bucket ctx = Some b → length b = BUCKET_COUNT → Forall (λ x, 0 ≤ x < 2 ^ 32) b →
  alloc_failed ctx = false →
  tlsh_final ctx =
    Some (match digest_of_buckets b (ctx_checksum ctx) (data_len ctx) with
          | Some d => (0, Some d) | None => (-1, None) end, tlsh_free ctx).
Proof.
  intros Hb Hlen Hr Hf. unfold tlsh_final, digest_of_buckets. rewrite Hb, Hf. cbv zeta.
  destruct (data_len ctx <? MIN_DATA_LENGTH); cbn [orb]; [done|].
  rewrite find_quartile_spec by (rewrite Hlen; unfold BUCKET_COUNT, EFF_BUCKETS; lia).
  cbn [mbind option_bind]. rewrite nonzero_count_spec.
  change p3 with 95%nat. change p2 with 63%nat. change p1 with 31%nat.
  destruct (Z.eqb_spec (order_stat b 95) 0) as [|H3]; cbn [orb]; [done|].
  change (4 * Z.of_nat TLSH_CODE_SIZE / 2) with 64.
  destruct (nonzero b <=? 64); [done|].
  destruct (l_capturing_spec (data_len ctx)) as (lv & -> & Hlv). cbn [mbind option_bind default].
  assert (u8 lv = lv) as -> by (apply wrap_small; destruct Hlv as [? _]; lia).
  assert (∀ q, 0 ≤ q < 2 ^ 32 → u8 (u64 (q * 100) / order_stat b 95 mod 16) =
    q * 100 / order_stat b 95 mod 16) as Hq.
  { intros q Hq. rewrite (wrap_small 64) by lia. apply wrap_small.
    destruct (Z.mod_pos_bound (q * 100 / order_stat b 95) 16 eq_refl) as [? Hm]. split; [done|].
    eapply Z.lt_trans; [exact Hm|done]. }
  rewrite !Hq by by apply order_stat_range.
  do 5 f_equal. unfold pack_code. apply list_fmap_ext. intros i x _. apply code_byte_pack.
Qed.

(** C24: the quickselect of [find_quartile], with its short cuts, finds the
    quartiles: [tlsh_final] terminates, releases the buckets, and either
    fails, exactly on an input under 50 bytes, with a zero upper quartile or
    with at most half of the 128 buckets in use, or returns the digest of the
    sorted buckets: each count's quartile packed in two bits, the length
    bucket and the two quartile ratios. *)
Theorem tlsh_final_spec ctx b :
  a_bucket ctx = Some b → length b = BUCKET_COUNT → Forall (λ x, 0 ≤ x < 2 ^ 32) b →
  alloc_failed ctx = false →
  let q1 := order_stat b 31 in let q2 := order_stat b 63 in let q3 := order_stat b 95 in
  tlsh_final ctx = Some (-1, None, tlsh_free ctx) ∧ no_digest ctx b = true ∨
  no_digest ctx b = false ∧
  ∃ lv, in_bucket (data_len ctx) lv ∧
    tlsh_final ctx = Some (0, Some {| checksum := ctx_checksum ctx; Lvalue := lv;
      Q1ratio := q1 * 100 / q3 mod 16; Q2ratio := q2 * 100 / q3 mod 16;
      tmp_code := pack_code b q1 q2 q3 |}, tlsh_free ctx).
Proof.
  intros Hb Hlen Hr Hf q1 q2 q3. rewrite (tlsh_final_digest ctx b) by done.
  unfold digest_of_buckets, no_digest. change p3 with 95%nat. cbv zeta.
  destruct (_ || _); [by left|]. right. split; [done|].
  destruct (l_capturing_spec (data_len ctx)) as (lv & Hlv & Hin). rewrite Hlv. by exists lv.
Qed.

(** ** The codec *)

Definition byte_ok (x : Z) : Prop := 0 ≤ x < 256.

Record digest_wf (d : tlsh_digest) : Prop := {
  wf_checksum : byte_ok (checksum d);
  wf_lvalue : byte_ok (Lvalue d);
  wf_q1 : 0 ≤ Q1ratio d < 16;
  wf_q2 : 0 ≤ Q2ratio d < 16;
  wf_code : length (tmp_code d) = TLSH_CODE_SIZE ∧ Forall byte_ok (tmp_code d);
}.

(** Every byte, by computation. *)
Lemma all_bytes (P : Z → Prop) `{∀ x, Decision (P x)} :
  forallb (λ n, bool_decide (P (Z.of_nat n))) (seq 0 256) = true → ∀ x, byte_ok x → P x.
Proof.
  intros Hf x Hx. rewrite forallb_forall in Hf. unfold byte_ok in Hx.
  specialize (Hf (Z.to_nat x)). rewrite Z2Nat.id in Hf by lia.
  apply bool_decide_eq_true in Hf; [done|]. apply in_seq. lia.
Qed.

Lemma swap_byte_involutive x : byte_ok x → swap_byte (swap_byte x) = x ∧ byte_ok (swap_byte x).
Proof.
  revert x. apply (all_bytes (λ x, swap_byte (swap_byte x) = x ∧ (0 ≤ swap_byte x < 256))).
  by vm_compute.
Qed.

Definition hex_pair (x : Z) : cstr :=
  [nth (Z.to_nat (Z.shiftr x 4)) hex_upper NUL; nth (Z.to_nat (Z.land x 0x0F)) hex_upper NUL].

Definition nibbles (s : cstr) : option Z :=
  match s with
  | [x; y] => hex_nibble x ≫= λ hi, hex_nibble y ≫= λ lo, Some (u8 (Z.lor (Z.shiftl hi 4) lo))
  | _ => None
  end.

Lemma nibbles_pair x : byte_ok x → nibbles (hex_pair x) = Some x.
Proof. revert x. apply (all_bytes (λ x, nibbles (hex_pair x) = Some x)). by vm_compute. Qed.

Lemma decode_encode raw :
  Forall byte_ok raw →
  decode_loop (mjoin (hex_pair <$> raw)) = Some raw ∧
  length (mjoin (hex_pair <$> raw)) = (2 * length raw)%nat.
Proof.
  induction 1 as [|x raw Hx Hr [IH IHn]]; [done|].
  change (mjoin (hex_pair <$> (x :: raw))) with (hex_pair x ++ mjoin (hex_pair <$> raw)). split.
  - apply nibbles_pair in Hx. unfold hex_pair, nibbles in Hx. cbn [app hex_pair decode_loop].
    revert Hx.
    destruct (hex_nibble (nth (Z.to_nat (Z.shiftr x 4)) _ _)) as [hi|]; cbn [mbind option_bind]; [|done].
    destruct (hex_nibble _) as [lo|]; cbn [mbind option_bind]; [|done]. intros Hx.
    rewrite IH. cbn [mbind option_bind]. by injection Hx as ->.
  - rewrite length_app, IHn. simpl. lia.
Qed.

Lemma q_byte q1 q2 :
  0 ≤ q1 < 16 → 0 ≤ q2 < 16 →
  let x := u8 (Z.lor q1 (Z.shiftl q2 4)) in
  byte_ok x ∧ u8 (Z.land x 0x0F) = q1 ∧ u8 (Z.land (Z.shiftr x 4) 0x0F) = q2.
Proof.
  intros H1 H2.
  pose proof (all_bytes (λ y,
    (0 ≤ u8 (Z.lor (y mod 16) (Z.shiftl (y / 16) 4)) < 256) ∧
    u8 (Z.land (u8 (Z.lor (y mod 16) (Z.shiftl (y / 16) 4))) 0x0F) = y mod 16 ∧
    u8 (Z.land (Z.shiftr (u8 (Z.lor (y mod 16) (Z.shiftl (y / 16) 4))) 4) 0x0F) = y / 16)
    ltac:(by vm_compute) (q1 + q2 * 16)) as Hf.
  cbv beta in Hf.
  rewrite Z.mod_add, Z.div_add, (Z.mod_small q1), (Z.div_small q1) in Hf by lia.
  apply Hf. unfold byte_ok. lia.
Qed.

Lemma raw_of_ok d : digest_wf d → Forall byte_ok (raw_of d) ∧ length (raw_of d) = RAW_LEN.
Proof.
  intros [Hc Hl H1 H2 [Hn Hb]]. split; [|done]. unfold raw_of.
  apply Forall_app. split.
  - constructor; [by apply swap_byte_involutive|].
    constructor; [by apply swap_byte_involutive|].
    constructor; [|constructor]. apply swap_byte_involutive. by apply q_byte.
  - apply Forall_forall. intros x (i & -> & _)%list_elem_of_fmap. unfold at_.
    destruct (nth_in_or_default (TLSH_CODE_SIZE - 1 - i) (tmp_code d) 0) as [Hin| ->]; [|done].
    rewrite Forall_forall in Hb. by apply Hb, list_elem_of_In.
Qed.

Lemma code_reversed (code : list Z) :
  length code = TLSH_CODE_SIZE →
  (λ i, at_ ([0; 0; 0] ++ ((λ i, at_ code (TLSH_CODE_SIZE - 1 - i)) <$> seq 0 TLSH_CODE_SIZE))
          (3 + (TLSH_CODE_SIZE - 1 - i))) <$> seq 0 TLSH_CODE_SIZE = code.
Proof.
  intros Hl. do 32 (destruct code as [|? code]; [discriminate Hl|]).
  destruct code; [reflexivity|discriminate Hl].
Qed.

Lemma to_from_hex d :
  digest_wf d → length (tlsh_to_hex d) = TLSH_DIGEST_HEXLEN ∧ tlsh_from_hex (tlsh_to_hex d) = Some d.
Proof.
  intros Hd. destruct (raw_of_ok d Hd) as [Hb Hn]. destruct (decode_encode _ Hb) as [Hdec Hlen].
  change (tlsh_to_hex d) with (mjoin (hex_pair <$> raw_of d)).
  assert (length (mjoin (hex_pair <$> raw_of d)) = TLSH_DIGEST_HEXLEN) as Hl by by rewrite Hlen, Hn.
  split; [done|]. unfold tlsh_from_hex. rewrite Hl, Nat.eqb_refl. cbn [negb]. rewrite Hdec.
  cbn [mbind option_bind]. destruct Hd as [Hc Hlv H1 H2 [Hcode _]].
  destruct (q_byte _ _ H1 H2) as (Hq & Hq1 & Hq2).
  destruct d as [ck lv q1 q2 code]. cbn [checksum Lvalue Q1ratio Q2ratio tmp_code] in *.
  unfold raw_of. cbn [checksum Lvalue Q1ratio Q2ratio tmp_code].
  set (tail := (λ i, at_ code _) <$> _).
  change (at_ (_ ++ tail) 0) with (swap_byte ck). change (at_ (_ ++ tail) 1) with (swap_byte lv).
  change (at_ (_ ++ tail) 2) with (swap_byte (u8 (Z.lor q1 (Z.shiftl q2 4)))).
  rewrite (proj1 (swap_byte_involutive _ Hc)), (proj1 (swap_byte_involutive _ Hlv)),
    (proj1 (swap_byte_involutive _ Hq)), Hq1, Hq2. do 2 f_equal.
  exact (code_reversed code Hcode).
Qed.

(** ** The distance, bucket by bucket *)

(** The distance of two quartiles: 3 apart counts 6. *)
Definition quart_dist (x y : Z) : Z :=
  let n := Z.abs (x - y) in if n =? 3 then 6 else n.

Definition byte_dist (x y : Z) : Z :=
  quart_dist (x mod 4) (y mod 4) + quart_dist (x / 4 mod 4) (y / 4 mod 4) +
  quart_dist (x / 16 mod 4) (y / 16 mod 4) + quart_dist (x / 64 mod 4) (y / 64 mod 4).

(** All 65536 entries of the table. *)
Definition row_check (x : Z) (row : list Z) : bool :=
  (length row =? 256)%nat &&
  forallb (λ p, p.2 =? byte_dist x p.1) (zip (Z.of_nat <$> seq 0 256) row).

Lemma diff_table_check :
  (length bit_pairs_diff_table =? 256)%nat &&
  forallb (λ p, row_check p.1 p.2) (zip (Z.of_nat <$> seq 0 256) bit_pairs_diff_table) = true.
Proof. by vm_compute. Qed.

(** An element of a numbered list, from a check of all of them. *)
Lemma numbered_check {A} (f : Z → A → bool) (l : list A) d x :
  length l = 256%nat → forallb (λ p, f p.1 p.2) (zip (Z.of_nat <$> seq 0 256) l) = true →
  byte_ok x → f x (nth (Z.to_nat x) l d) = true.
Proof.
  intros Hl Hf Hx. unfold byte_ok in Hx. rewrite forallb_forall in Hf.
  apply (Hf (x, _)). apply list_elem_of_In, (list_elem_of_lookup_2 _ (Z.to_nat x)).
  apply lookup_zip_with_Some. exists x, (nth (Z.to_nat x) l d). split; [done|]. split.
  - rewrite list_lookup_fmap, lookup_seq_lt by lia. simpl. f_equal. lia.
  - rewrite nth_lookup. destruct (lookup_lt_is_Some_2 l (Z.to_nat x)) as [a Ha]; [lia|].
    by rewrite Ha.
Qed.

Lemma diff_table_spec x y :
  byte_ok x → byte_ok y →
  tab (nth (Z.to_nat x) bit_pairs_diff_table []) y = byte_dist x y.
Proof.
  intros Hx Hy. destruct (andb_prop _ _ diff_table_check) as [Hl Hf].
  apply Nat.eqb_eq in Hl. pose proof (numbered_check row_check _ [] x Hl Hf Hx) as Hr.
  apply andb_prop in Hr as [Hrl Hrf]. apply Nat.eqb_eq in Hrl.
  apply Z.eqb_eq, (numbered_check (λ y v, v =? byte_dist x y) _ 0 y Hrl Hrf Hy).
Qed.

(** Distance on a circle of [r] points, and its scaling. *)
Definition circle (x y r : Z) : Z := Z.min (Z.abs (x - y)) (r - Z.abs (x - y)).

Lemma mod_diff_circle x y r : mod_diff x y r = circle x y r.
Proof.
  unfold mod_diff, circle. destruct (Z.ltb_spec x y);
    match goal with |- (if ?a <? ?b then _ else _) = _ => destruct (Z.ltb_spec a b) end; lia.
Qed.

Definition body_dist (x y : list Z) : Z := foldr (λ p n, byte_dist p.1 p.2 + n) 0 (zip x y).

Lemma h_distance_body x y n :
  Forall byte_ok x → Forall byte_ok y → (n ≤ length x)%nat → (n ≤ length y)%nat →
  h_distance x y n = body_dist (take n x) (take n y).
Proof.
  intros Hx Hy. induction n as [|n IH]; intros Hnx Hny; [done|]. cbn [h_distance].
  rewrite IH by lia. rewrite (take_S_r x n (at_ x n)), (take_S_r y n (at_ y n)) by (apply at_lookup; lia).
  unfold body_dist. rewrite zip_with_app by (rewrite !length_take; lia).
  rewrite foldr_app. cbn [zip_with foldr fst snd]. rewrite diff_table_spec.
  - generalize (byte_dist (at_ x n) (at_ y n)) as m. generalize (zip (take n x) (take n y)) as l.
    intros l m. induction l as [|p l IHl]; cbn [foldr]; lia.
  - apply (Forall_lookup_1 _ _ n _ Hx). apply at_lookup. lia.
  - apply (Forall_lookup_1 _ _ n _ Hy). apply at_lookup. lia.
Qed.

Lemma quart_dist_range x y : 0 ≤ x < 4 → 0 ≤ y < 4 → 0 ≤ quart_dist x y ≤ 6.
Proof. intros. unfold quart_dist. destruct (Z.eqb_spec (Z.abs (x - y)) 3); lia. Qed.

Lemma quart_dist_zero x y : quart_dist x y = 0 → x = y.
Proof. unfold quart_dist. destruct (Z.eqb_spec (Z.abs (x - y)) 3); lia. Qed.

Lemma byte_dist_range x y : 0 ≤ byte_dist x y ≤ 24.
Proof.
  unfold byte_dist. assert (∀ z, 0 ≤ z mod 4 < 4) as Hm by (intros; by apply Z.mod_pos_bound).
  pose proof (quart_dist_range _ _ (Hm x) (Hm y)).
  pose proof (quart_dist_range _ _ (Hm (x / 4)) (Hm (y / 4))).
  pose proof (quart_dist_range _ _ (Hm (x / 16)) (Hm (y / 16))).
  pose proof (quart_dist_range _ _ (Hm (x / 64)) (Hm (y / 64))). lia.
Qed.

(** A byte from its four quartiles. *)
Lemma byte_quarts x :
  byte_ok x → x = x mod 4 + 4 * (x / 4 mod 4) + 16 * (x / 16 mod 4) + 64 * (x / 64 mod 4).
Proof.
  revert x. apply (all_bytes (λ x,
    x = x mod 4 + 4 * (x / 4 mod 4) + 16 * (x / 16 mod 4) + 64 * (x / 64 mod 4))).
  by vm_compute.
Qed.

Lemma byte_dist_zero x y : byte_ok x → byte_ok y → byte_dist x y = 0 ↔ x = y.
Proof.
  intros Hx Hy. split.
  - unfold byte_dist. intros Hd.
    assert (∀ z, 0 ≤ z mod 4 < 4) as Hm by (intros; by apply Z.mod_pos_bound).
    pose proof (quart_dist_range _ _ (Hm x) (Hm y)).
    pose proof (quart_dist_range _ _ (Hm (x / 4)) (Hm (y / 4))).
    pose proof (quart_dist_range _ _ (Hm (x / 16)) (Hm (y / 16))).
    pose proof (quart_dist_range _ _ (Hm (x / 64)) (Hm (y / 64))).
    rewrite (byte_quarts x Hx), (byte_quarts y Hy).
    rewrite (quart_dist_zero (x mod 4) (y mod 4)), (quart_dist_zero (x / 4 mod 4) (y / 4 mod 4)),
      (quart_dist_zero (x / 16 mod 4) (y / 16 mod 4)), (quart_dist_zero (x / 64 mod 4) (y / 64 mod 4))
      by lia. done.
  - intros ->. unfold byte_dist, quart_dist. by rewrite !Z.sub_diag.
Qed.

Lemma quart_dist_sym x y : quart_dist x y = quart_dist y x.
Proof. unfold quart_dist. by replace (Z.abs (y - x)) with (Z.abs (x - y)) by lia. Qed.

Lemma byte_dist_sym x y : byte_dist x y = byte_dist y x.
Proof.
  unfold byte_dist. by rewrite (quart_dist_sym (x mod 4)), (quart_dist_sym (x / 4 mod 4)),
    (quart_dist_sym (x / 16 mod 4)), (quart_dist_sym (x / 64 mod 4)).
Qed.

Lemma body_dist_props x y :
  length x = length y → Forall byte_ok x → Forall byte_ok y →
  0 ≤ body_dist x y ≤ 24 * Z.of_nat (length x) ∧ body_dist x y = body_dist y x ∧
  (body_dist x y = 0 ↔ x = y).
Proof.
  revert y. induction x as [|a x IH]; intros [|b y] Hl Hx Hy; try done.
  inversion Hx; subst. inversion Hy; subst. destruct (IH y) as (Hr & Hs & Hz); [by injection Hl|done..|].
  change (body_dist (a :: x) (b :: y)) with (byte_dist a b + body_dist x y).
  change (body_dist (b :: y) (a :: x)) with (byte_dist b a + body_dist y x).
  pose proof (byte_dist_range a b). rewrite (byte_dist_sym b a), <- Hs.
  split; [cbn [length]; lia|]. split; [done|]. split.
  - intros Hd. f_equal; [apply byte_dist_zero; (done || lia)|]. apply Hz. lia.
  - intros [= -> ->]. assert (byte_dist b b = 0) as -> by by apply byte_dist_zero.
    by apply Hz.
Qed.

(** The scaled distances of the header fields. *)
Definition length_score (n : Z) : Z := if n <=? 1 then n else 12 * n.
Definition ratio_score (n : Z) : Z := if n <=? 1 then n else 12 * (n - 1).

Definition distance (a b : tlsh_digest) : Z :=
  length_score (circle (Lvalue a) (Lvalue b) 256) +
  ratio_score (circle (Q1ratio a) (Q1ratio b) 16) +
  ratio_score (circle (Q2ratio a) (Q2ratio b) 16) +
  (if checksum a =? checksum b then 0 else 1) +
  body_dist (tmp_code a) (tmp_code b).

Lemma circle_range x y r : 0 ≤ x < r → 0 ≤ y < r → 0 ≤ circle x y r ≤ r / 2.
Proof. unfold circle. intros. pose proof (Z.div_mod r 2). pose proof (Z.mod_pos_bound r 2). lia. Qed.

Lemma circle_zero x y r : 0 ≤ x < r → 0 ≤ y < r → circle x y r = 0 ↔ x = y.
Proof. unfold circle. intros. lia. Qed.

Lemma circle_sym x y r : circle x y r = circle y x r.
Proof. unfold circle. lia. Qed.

Lemma total_diff_distance a b :
  digest_wf a → digest_wf b → tlsh_total_diff a b = distance a b.
Proof.
  intros [Hc1 Hl1 Hq1 Hr1 [Hn1 Hb1]] [Hc2 Hl2 Hq2 Hr2 [Hn2 Hb2]].
  unfold tlsh_total_diff, distance. rewrite !mod_diff_circle.
  rewrite h_distance_body by (done || lia). rewrite !take_ge by lia.
  unfold length_score, ratio_score, RANGE_LVALUE, RANGE_QRATIO, LENGTH_MULT, QRATIO_MULT.
  pose proof (circle_range (Lvalue a) (Lvalue b) 256 Hl1 Hl2) as HL.
  destruct (checksum a =? checksum b); cbn [negb];
    (destruct (Z.leb_spec (circle (Lvalue a) (Lvalue b) 256) 1);
     [destruct (Z.eqb_spec (circle (Lvalue a) (Lvalue b) 256) 0);
      [|rewrite (proj2 (Z.eqb_eq (circle (Lvalue a) (Lvalue b) 256) 1)) by lia]
     |rewrite (proj2 (Z.eqb_neq (circle (Lvalue a) (Lvalue b) 256) 0)) by lia;
      rewrite (proj2 (Z.eqb_neq (circle (Lvalue a) (Lvalue b) 256) 1)) by lia]);
    destruct (circle (Q1ratio a) (Q1ratio b) 16 <=? 1), (circle (Q2ratio a) (Q2ratio b) 16 <=? 1);
    lia.
Qed.

Lemma score_props n m : 0 ≤ n ≤ m →
  0 ≤ length_score n ≤ 12 * m ∧ (length_score n = 0 ↔ n = 0) ∧
  0 ≤ ratio_score n ≤ 12 * m ∧ (ratio_score n = 0 ↔ n = 0).
Proof.
  intros. unfold length_score, ratio_score. destruct (Z.leb_spec n 1); lia.
Qed.

Lemma distance_props a b :
  digest_wf a → digest_wf b →
  0 ≤ distance a b ≤ 2600 ∧ distance a b = distance b a ∧ (distance a b = 0 ↔ a = b).
Proof.
  intros [Hc1 Hl1 Hq1 Hr1 [Hn1 Hb1]] [Hc2 Hl2 Hq2 Hr2 [Hn2 Hb2]].
  destruct (body_dist_props (tmp_code a) (tmp_code b)) as (Hbr & Hbs & Hbz); [congruence|done..|].
  rewrite Hn1 in Hbr. change (Z.of_nat TLSH_CODE_SIZE) with 32 in Hbr.
  destruct (score_props _ _ (circle_range _ _ 256 Hl1 Hl2)) as (HL & HLz & _).
  destruct (score_props _ _ (circle_range _ _ 16 Hq1 Hq2)) as (_ & _ & HQ & HQz).
  destruct (score_props _ _ (circle_range _ _ 16 Hr1 Hr2)) as (_ & _ & HR & HRz).
  change (256 / 2) with 128 in *. change (16 / 2) with 8 in *.
  rewrite circle_zero in HLz, HQz, HRz by done.
  split; [|split].
  - unfold distance. destruct (checksum a =? checksum b); lia.
  - unfold distance. rewrite Hbs, (Z.eqb_sym (checksum a)), (circle_sym (Lvalue a)),
      (circle_sym (Q1ratio a)), (circle_sym (Q2ratio a)). done.
  - split; [|intros <-; unfold distance; rewrite (proj2 HLz eq_refl), (proj2 HQz eq_refl),
      (proj2 HRz eq_refl), Z.eqb_refl, (proj2 Hbz eq_refl); done].
    unfold distance. intros Hd. destruct (Z.eqb_spec (checksum a) (checksum b)) as [Hck|]; [|lia].
    destruct a as [c1 l1 q1 r1 k1], b as [c2 l2 q2 r2 k2].
    cbn [checksum Lvalue Q1ratio Q2ratio tmp_code] in *.
    f_equal; [done|apply HLz; lia|apply HQz; lia|apply HRz; lia|apply Hbz; lia].
Qed.

(** C35: comparing two digests by their hexadecimal forms is a distance: the
    forms have 70 characters and read back to the very digests, so
    [av_tlsh_diff] is the sum over the 128 buckets of the quartile distances
    (what every entry of the vendored table says) and of the length, ratio
    and checksum scores; it is symmetric, never negative, at most 2600, and 0
    exactly on equal digests.  A string that is no digest gives -1. *)
Theorem tlsh_distance a b :
  digest_wf a → digest_wf b →
  let n := av_tlsh_diff (tlsh_to_hex a) (tlsh_to_hex b) in
  length (tlsh_to_hex a) = TLSH_DIGEST_HEXLEN ∧ tlsh_from_hex (tlsh_to_hex a) = Some a ∧
  n = distance a b ∧ av_tlsh_diff (tlsh_to_hex b) (tlsh_to_hex a) = n ∧ 0 ≤ n ≤ 2600 ∧
  (n = 0 ↔ a = b) ∧
  ∀ s, tlsh_from_hex s = None → av_tlsh_diff s (tlsh_to_hex b) = -1 ∧
    av_tlsh_diff (tlsh_to_hex a) s = -1.
Proof.
  intros Ha Hb. destruct (to_from_hex a Ha) as [Hla Hfa]. destruct (to_from_hex b Hb) as [_ Hfb].
  destruct (distance_props a b Ha Hb) as (Hr & Hs & Hz).
  unfold av_tlsh_diff. rewrite Hfa, Hfb, !total_diff_distance by done.
  split; [done|]. split; [done|]. split; [done|]. split; [done|]. split; [done|]. split; [done|].
  intros s Hn. by rewrite Hn.
Qed.

Lemma tlsh_diff_self d : digest_wf d → av_tlsh_diff (tlsh_to_hex d) (tlsh_to_hex d) = 0.
Proof.
  intros Hd. destruct (to_from_hex d Hd) as [_ Hf]. unfold av_tlsh_diff.
  rewrite Hf, total_diff_distance by done. by apply (distance_props d d Hd Hd).
Qed.

(** ** Hashing a file *)

(** The bytes the loop hashes. *)
Fixpoint bytes_read (reads : list (read_result * bool)) (max_len total : Z) : list (list Z * bool) :=
  match reads with
  | [] => []
  | (res, calloc_ok) :: reads =>
      if negb (total <? max_len) then []
      else match res with
      | Data [] => []
      | Eintr => bytes_read reads max_len total
      | ReadError => []
      | Data bytes => (bytes, calloc_ok) :: bytes_read reads max_len (total + Z.of_nat (length bytes))
      end
  end.

Lemma hash_loop_feed reads max_len total ctx any r :
  hash_loop reads max_len total ctx any = Some r →
  r = (feed ctx (bytes_read reads max_len total),
       any || negb (length (bytes_read reads max_len total) =? 0)%nat).
Proof.
  revert total ctx any. induction reads as [|[res ok] reads IH]; intros total ctx any; cbn [hash_loop bytes_read].
  - intros [= <-]. by rewrite orb_false_r.
  - destruct (total <? max_len); cbn [negb]; [|intros [= <-]; by rewrite orb_false_r].
    destruct res as [| |[|x bytes]]; [apply IH|done|intros [= <-]; by rewrite orb_false_r|].
    intros ->%IH. cbn [feed foldl length Nat.eqb negb]. by rewrite orb_true_r, orb_true_l.
Qed.

(** A [read] failed before the end of the file or the bound. *)
Fixpoint read_error (reads : list (read_result * bool)) (max_len total : Z) : bool :=
  match reads with
  | [] => false
  | (res, _) :: reads =>
      (total <? max_len) &&
      match res with
      | Data [] => false
      | Eintr => read_error reads max_len total
      | ReadError => true
      | Data bytes => read_error reads max_len (total + Z.of_nat (length bytes))
      end
  end.

(** No [read] gives more than it was asked for. *)
Fixpoint as_asked (reads : list (read_result * bool)) (max_len total : Z) : Prop :=
  match reads with
  | [] => True
  | (Data bytes, _) :: reads =>
      Z.of_nat (length bytes) ≤ want total max_len ∧
      as_asked reads max_len (total + Z.of_nat (length bytes))
  | (_, _) :: reads => as_asked reads max_len total
  end.

Lemma hash_loop_error reads max_len total ctx any :
  hash_loop reads max_len total ctx any = None ↔ read_error reads max_len total = true.
Proof.
  revert total ctx any. induction reads as [|[res ok] reads IH]; intros total ctx any; cbn [hash_loop read_error].
  - done.
  - destruct (total <? max_len); cbn [negb andb]; [|done]. destruct res as [| |[|x bytes]]; try done; apply IH.
Qed.

Lemma bytes_read_bound reads max_len total :
  total ≤ max_len → as_asked reads max_len total →
  total + Z.of_nat (length (mjoin (bytes_read reads max_len total).*1)) ≤ max_len.
Proof.
  revert total. induction reads as [|[res ok] reads IH]; intros total Ht Ha;
    cbn [bytes_read]; [simpl; lia|].
  destruct (total <? max_len); cbn [negb]; [|simpl; lia].
  destruct res as [| |[|x bytes]]; cbn [as_asked] in Ha; [by apply IH|simpl; lia|simpl; lia|].
  destruct Ha as [Hle Ha]. unfold want in Hle. specialize (IH (total + Z.of_nat (length (x :: bytes)))).
  csimpl. rewrite length_app. cbn [length] in *. etrans; [|apply IH; [lia|done]]. lia.
Qed.

(** The digest of a whole file. *)
Definition bucket_of (s : list Z) : list Z :=
  (λ r, u32 (count (Z.of_nat r) (all_hits s))) <$> seq 0 BUCKET_COUNT.
Definition digest_of (s : list Z) : option tlsh_digest :=
  digest_of_buckets (bucket_of s) (ref_checksum s) (Z.of_nat (length s)).

Lemma buckets_unique b s : buckets_ok b (all_hits s) → b = bucket_of s.
Proof.
  intros [Hl Hb]. apply list_eq. intros i. unfold bucket_of.
  destruct (decide (i < BUCKET_COUNT)%nat) as [Hi|Hi].
  - specialize (Hb (Z.of_nat i)). unfold BUCKET_COUNT in *. unfold tab, at_ in Hb.
    rewrite Nat2Z.id, nth_lookup in Hb. rewrite list_lookup_fmap, lookup_seq_lt by done.
    destruct (lookup_lt_is_Some_2 b i) as [x Hx]; [lia|]. rewrite Hx in *. simpl in *.
    f_equal. apply Hb. lia.
  - rewrite !lookup_ge_None_2; [done| |lia]. rewrite length_fmap, length_seq. lia.
Qed.

Lemma bucket_of_range s : Forall (λ x, 0 ≤ x < 2 ^ 32) (bucket_of s).
Proof.
  apply Forall_forall. intros x Hx. unfold bucket_of in Hx.
  apply list_elem_of_fmap in Hx as (r & -> & _). apply wrap_range. lia.
Qed.

Lemma hashed_final ctx s :
  hashed ctx s →
  tlsh_final ctx = Some (match digest_of s with Some d => (0, Some d) | None => (-1, None) end,
                         tlsh_free ctx).
Proof.
  intros [Hf Hn (b & Hb & Hs)]. destruct Hs as (Hbk & Hck & _).
  apply buckets_unique in Hbk. rewrite (tlsh_final_digest ctx b), Hn, Hck; [by subst b|done| |by subst b; apply bucket_of_range|done].
  subst b. unfold bucket_of. by rewrite length_fmap, length_seq.
Qed.

Lemma ref_checksum_range s : 0 ≤ ref_checksum s < 256.
Proof.
  unfold ref_checksum. destruct (positions s) as [|p ps _] using rev_ind; [simpl; lia|].
  rewrite foldl_snoc. apply mapping_range.
Qed.

Lemma quart_range q1 q2 q3 n : 0 ≤ quart q1 q2 q3 n < 4.
Proof. unfold quart. repeat case_match; lia. Qed.

Lemma digest_of_wf s d : digest_of s = Some d → digest_wf d.
Proof.
  unfold digest_of, digest_of_buckets. cbv zeta. destruct (_ || _); [done|]. intros [= <-].
  destruct (l_capturing_spec (Z.of_nat (length s))) as (lv & -> & Hlv). destruct Hlv as [Hlv _].
  split; cbn [checksum Lvalue Q1ratio Q2ratio tmp_code default from_option id].
  - apply ref_checksum_range.
  - unfold byte_ok. lia.
  - by apply Z.mod_pos_bound.
  - by apply Z.mod_pos_bound.
  - split; [unfold pack_code; by rewrite length_fmap, length_seq|].
    apply Forall_forall. intros x Hx. unfold pack_code in Hx.
    apply list_elem_of_fmap in Hx as (i & -> & _). unfold byte_ok.
    pose proof (λ j, quart_range (order_stat (bucket_of s) 31) (order_stat (bucket_of s) 63)
      (order_stat (bucket_of s) 95) (at_ (bucket_of s) (4 * i + j))) as Hq.
    pose proof (Hq 0%nat). pose proof (Hq 1%nat). pose proof (Hq 2%nat). pose proof (Hq 3%nat). lia.
Qed.

(** What the wrapper answers for a file of the bytes [s]. *)
Definition hash_answer (s : list Z) (outlen : Z) : Z * option cstr :=
  match digest_of s with
  | None => (-2, None)
  | Some d => if outlen <=? 70 then (-3, None) else (0, Some (tlsh_to_hex d))
  end.

Lemma hash_answer_ok s outlen h (failed : bool) :
  Some (if failed then (-1, None) else hash_answer s outlen) = Some (0, Some h) →
  ∃ d, digest_of s = Some d ∧ h = tlsh_to_hex d.
Proof.
  destruct failed; [done|]. unfold hash_answer. destruct (digest_of s) as [d|]; [|done]. destruct (outlen <=? 70); [done|].
  intros [= <-]. by exists d.
Qed.

Lemma hash_fd_content reads outlen max_len :
  let pieces := bytes_read reads max_len 0 in
  let s := mjoin pieces.*1 in
  Z.of_nat (length s) < 2 ^ 32 → (∀ piece, head pieces = Some piece → piece.2 = true) →
  av_tlsh_hash_fd true reads outlen max_len =
    Some (if read_error reads max_len 0 then (-1, None) else hash_answer s outlen).
Proof.
  intros pieces s Hlen Hcalloc. unfold av_tlsh_hash_fd. cbn [negb].
  destruct (hash_loop reads max_len 0 tlsh_init false) as [r|] eqn:Hl.
  2: { apply hash_loop_error in Hl. by rewrite Hl. }
  destruct (read_error reads max_len 0) eqn:He.
  { apply (hash_loop_error _ _ _ tlsh_init false) in He. congruence. }
  rewrite (hash_loop_feed _ _ _ _ _ _ Hl). cbn [orb].
  subst s pieces. destruct (bytes_read reads max_len 0) as [|[data ok] ps]; [done|].
  set (s := mjoin ((data, ok) :: ps).*1) in *.
  cbn [length Nat.eqb negb]. specialize (Hcalloc _ eq_refl). simpl in Hcalloc. subst ok.
  rewrite (hashed_final _ s).
  - cbn [mbind option_bind]. change (Z.of_nat TLSH_DIGEST_HEXLEN) with 70. unfold hash_answer.
    destruct (digest_of s); [|done]. by destruct (outlen <=? 70).
  - cbn [feed foldl]. unfold s. csimpl. apply feed_hashed; [|done].
    apply (update_hashed tlsh_init [] data true); [by right|]. unfold s in Hlen. csimpl in Hlen.
    rewrite length_app in Hlen. cbn [app]. lia.
Qed.

(** C36: [av_tlsh_hash_fd] always returns, and what it returns is a function of the bytes of the
    file alone, at most [max_len] of them, however the reads cut them and whatever signals
    interrupt them: -1 if the file cannot be rewound or read, -2 if it is empty or has no digest,
    -3 if the buffer is too small, and otherwise 0 with the 70 hexadecimal digits of the digest
    of these bytes. *)
Theorem tlsh_hash_fd_spec lseek_ok reads outlen max_len :
  let pieces := bytes_read reads max_len 0 in
  let s := mjoin pieces.*1 in
  0 ≤ max_len → as_asked reads max_len 0 → Z.of_nat (length s) < 2 ^ 32 →
  (∀ piece, head pieces = Some piece → piece.2 = true) →
  Z.of_nat (length s) ≤ max_len ∧
  av_tlsh_hash_fd lseek_ok reads outlen max_len =
    Some (if negb lseek_ok || read_error reads max_len 0 then (-1, None)
          else hash_answer s outlen) ∧
  ∀ d, digest_of s = Some d → digest_wf d ∧ length (tlsh_to_hex d) = TLSH_DIGEST_HEXLEN.
Proof.
  intros pieces s Hmax Hasked Hlen Hcalloc. split_and!.
  - pose proof (bytes_read_bound reads max_len 0 Hmax Hasked). unfold s, pieces. lia.
  - destruct lseek_ok; [|done]. by rewrite hash_fd_content.
  - intros d Hd. split; [by eapply digest_of_wf|]. apply to_from_hex. by eapply digest_of_wf.
Qed.

(** ** Examples *)

Module TlshExamples.

Definition data1 : list Z := (λ i, (Z.of_nat i * Z.of_nat i * 7919 + Z.of_nat i * 31) / 3 mod 251) <$> seq 0 600.
Definition ctx1 : tlsh_ctx := feed tlsh_init [(data1, true)].
Definition bucket1 : list Z := default [] (a_bucket ctx1).

(** Two pieces give what one gives. *)
Lemma tlsh_stream_witness :
  a_bucket (feed tlsh_init [(take 7 data1, true); (drop 7 data1, true)]) ≠ None ∧
  ctx_checksum (feed tlsh_init [(take 7 data1, true); (drop 7 data1, true)]) = ref_checksum data1.
Proof.
  assert (Z.of_nat (length (take 7 data1 ++ mjoin [(drop 7 data1, true)].*1)) < 2 ^ 32) as Hl
    by (apply Z.ltb_lt; by vm_compute).
  destruct (tlsh_stream (take 7 data1) true [(drop 7 data1, true)] Hl)
    as (b & Hb & _ & _ & Hck & _).
  split; [intros He; by rewrite Hb in He|]. rewrite Hck. by vm_compute.
Defined.

Lemma tlsh_final_spec_witness :
  ∃ lv d, in_bucket 600 lv ∧ tlsh_final ctx1 = Some (0, Some d, tlsh_free ctx1) ∧ Lvalue d = lv.
Proof.
  destruct (tlsh_final_spec ctx1 bucket1) as [[_ He]|(_ & lv & Hlv & He)].
  - by vm_compute.
  - by vm_compute.
  - apply (bool_decide_unpack _). by vm_compute.
  - by vm_compute.
  - vm_compute in He. discriminate He.
  - assert (data_len ctx1 = 600) as Hd by by vm_compute. rewrite Hd in Hlv.
    eexists lv, _. split; [exact Hlv|]. split; [exact He|]. reflexivity.
Defined.

Definition digest_a : tlsh_digest :=
  {| checksum := 17; Lvalue := 40; Q1ratio := 3; Q2ratio := 9; tmp_code := Z.of_nat <$> seq 5 32 |}.
Definition digest_b : tlsh_digest :=
  {| checksum := 18; Lvalue := 41; Q1ratio := 3; Q2ratio := 12; tmp_code := Z.of_nat <$> seq 9 32 |}.

Lemma digest_ab_wf : digest_wf digest_a ∧ digest_wf digest_b.
Proof.
  split; (split; [by split|by split|by split|by split|split; [done|]];
    apply (bool_decide_unpack _); by vm_compute).
Qed.

Lemma tlsh_distance_witness :
  av_tlsh_diff (tlsh_to_hex digest_a) (tlsh_to_hex digest_b) = distance digest_a digest_b ∧
  distance digest_a digest_b = 106.
Proof.
  destruct digest_ab_wf as [Ha Hb].
  destruct (tlsh_distance digest_a digest_b Ha Hb) as (_ & _ & Hd & _).
  split; [exact Hd|]. by vm_compute.
Defined.

(** Interrupted, and cut at 7. *)
Definition reads1 : list (read_result * bool) :=
  [(Data (take 7 data1), true); (Eintr, false); (Data (drop 7 data1), false); (Data [], false)].

Lemma tlsh_hash_fd_spec_witness :
  ∃ d, av_tlsh_hash_fd true reads1 200 268435456 = Some (0, Some (tlsh_to_hex d)) ∧
    digest_of data1 = Some d.
Proof.
  assert (as_asked reads1 268435456 0) as Ha by (vm_compute; repeat split; discriminate).
  assert (mjoin (bytes_read reads1 268435456 0).*1 = data1) as Hs by (vm_compute; reflexivity).
  assert (∃ h, av_tlsh_hash_fd true reads1 200 268435456 = Some (0, Some h)) as [h Hv]
    by (eexists; vm_compute; reflexivity).
  destruct (tlsh_hash_fd_spec true reads1 200 268435456) as (_ & Hr & _).
  - lia.
  - exact Ha.
  - rewrite Hs. vm_compute. reflexivity.
  - intros piece Hp. assert (head (bytes_read reads1 268435456 0) = Some (take 7 data1, true)) as Hh
      by (vm_compute; reflexivity). rewrite Hh in Hp. injection Hp as <-. reflexivity.
  - rewrite Hs, Hv in Hr. symmetry in Hr.
    destruct (hash_answer_ok data1 200 h (negb true || read_error reads1 268435456 0) Hr) as (d & Hd & Hh).
    exists d. rewrite <- Hh. split; [exact Hv|exact Hd].
Defined.
End TlshExamples.
