(* ===== verification/CText.v ===== *)
(** * Text with numbers and lines

    What the daemon and avctl use of stdio and stdlib to write and read line
    oriented text, in the C locale: [%d], [%o], [%u], [strtoul], [strtoll],
    [strtol] with its end pointer, [fgets]; and the lemmas that reading undoes
    writing. *)

From Stdlib Require Import ZArith Lia Ascii String.
From stdpp Require Import prelude list.
From S2P Require Import Prelude CString.

Local Open Scope Z_scope.

(** ** Numbers in text *)

(** Digits of [n] in a base up to 10, most significant first. *)
Fixpoint digits_loop (fuel : nat) (base n : Z) (acc : cstr) : cstr :=
  match fuel with
  | O => acc
  | S fuel =>
      let acc := chr (48 + n mod base) :: acc in
      if n <? base then acc else digits_loop fuel base (n / base) acc
  end.

(** Enough for 64-bit numbers in any base. *)
Definition print_unsigned (base n : Z) : cstr := digits_loop 64 base n [].

(** "%d" and "%lld". *)
Definition print_signed (n : Z) : cstr :=
  if n <? 0 then chr 45 :: print_unsigned 10 (- n) else print_unsigned 10 n.

(** [isspace] of the C locale. *)
Definition isspace_c (a : ascii) : bool := (9 <=? code a) && (code a <=? 13) || (code a =? 32).

Fixpoint skip_space (s : cstr) : cstr :=
  match s with a :: s' => if isspace_c a then skip_space s' else s | [] => [] end.

(** The value of the digits at the front, 0 if there are none. *)
Fixpoint digits_value (base : Z) (s : cstr) (acc : Z) : Z :=
  match s with
  | a :: s' =>
      let v := code a - 48 in
      if (0 <=? v) && (v <? base) then digits_value base s' (acc * base + v) else acc
  | [] => acc
  end.

Definition is_digit (a : ascii) : bool := (48 <=? code a) && (code a <=? 57).

(** The sign and the magnitude. *)
Definition scan_number (base : Z) (s : cstr) : bool * Z :=
  match skip_space s with
  | a :: s' =>
      if code a =? 45 then (true, digits_value base s' 0)
      else if code a =? 43 then (false, digits_value base s' 0)
      else (false, digits_value base (a :: s') 0)
  | [] => (false, 0)
  end.

Definition strtoul (s : cstr) (base : Z) : Z :=
  let '(neg, v) := scan_number base s in
  if 2 ^ 64 <=? v then 2 ^ 64 - 1 else if neg then u64 (- v) else v.

Definition strtoll (s : cstr) (base : Z) : Z :=
  let '(neg, v) := scan_number base s in
  if neg then Z.max (- 2 ^ 63) (- v) else Z.min (2 ^ 63 - 1) v.

(** The [int] a 32-bit value converts to. *)
Definition to_int (x : Z) : Z := if 2 ^ 31 <=? u32 x then u32 x - 2 ^ 32 else u32 x.

(** A digit in a base up to 10. *)
Definition digit_of (base : Z) (a : ascii) : Prop := 48 ≤ code a < 48 + base.

(** ** Lines *)

(** [fgets]: up to [n] bytes, the newline included. *)
Fixpoint next_line (n : nat) (s : cstr) : cstr * cstr :=
  match n, s with
  | S n, a :: s' =>
      if aeqb a LF then ([a], s')
      else let '(line, rest) := next_line n s' in (a :: line, rest)
  | _, _ => ([], s)
  end.

(** [line[len - 1]] cut off if it is a newline. *)
Definition chomp (line : cstr) : cstr :=
  match last line with
  | Some c => if aeqb c LF then removelast line else line
  | None => line
  end.
(** A byte string that stays on its line. *)
Definition clean (s : cstr) : Prop := Forall (λ a, a ≠ LF ∧ a ≠ NUL) s.

Definition clean_check (s : cstr) : bool :=
  forallb (λ a, negb (aeqb a LF) && negb (aeqb a NUL)) s.

(** ** Printing and reading numbers *)

Lemma digits_loop_spec fuel base n acc :
  2 ≤ base ≤ 10 → 0 ≤ n < base ^ Z.of_nat (S fuel) →
  ∃ ds, digits_loop (S fuel) base n acc = ds ++ acc ∧ ds ≠ [] ∧ Forall (digit_of base) ds ∧
    (length ds ≤ S fuel)%nat ∧
    ∀ v rest, digits_value base (ds ++ rest) v =
      digits_value base rest (v * base ^ Z.of_nat (length ds) + n).
Proof.
  intros Hb. revert n acc. induction fuel as [|fuel IH]; intros n acc Hn.
  all: assert (0 ≤ n mod base < base) as Hm by (apply Z.mod_pos_bound; lia).
  all: assert (code (chr (48 + n mod base)) = 48 + n mod base) as Hc by (apply code_chr; lia).
  all: assert (digit_of base (chr (48 + n mod base))) as Hd by (unfold digit_of; lia).
  all: assert (∀ v rest, digits_value base (chr (48 + n mod base) :: rest) v =
         digits_value base rest (v * base + n mod base)) as Hstep
    by (intros v rest; cbn [digits_value]; rewrite Hc;
        rewrite (proj2 (Z.leb_le _ _)), (proj2 (Z.ltb_lt _ _)) by lia; cbn [andb]; f_equal; lia).
  - cbn [digits_loop]. rewrite Z.pow_1_r in Hn. exists [chr (48 + n mod base)].
    rewrite (proj2 (Z.ltb_lt _ _)) by lia.
    split; [done|]. split; [done|]. split; [by constructor|]. split; [done|].
    intros v rest. cbn [app length]. rewrite Hstep, Z.mod_small, Z.pow_1_r by lia. done.
  - cbn [digits_loop]. fold (digits_loop (S fuel)). destruct (Z.ltb_spec n base) as [Hs|Hs].
    + exists [chr (48 + n mod base)]. split; [done|]. split; [done|]. split; [by constructor|].
      split; [simpl; lia|].
      intros v rest. cbn [app length]. rewrite Hstep, Z.mod_small, Z.pow_1_r by lia. done.
    + destruct (IH (n / base) (chr (48 + n mod base) :: acc)) as (ds & He & Hne & Hds & Hlen & Hv).
      { split; [apply Z.div_pos; lia|]. apply Z.div_lt_upper_bound; [lia|].
        rewrite (Nat2Z.inj_succ (S fuel)), Z.pow_succ_r in Hn by lia. lia. }
      exists (ds ++ [chr (48 + n mod base)]). split; [by rewrite <- (assoc_L (++))|].
      split; [by destruct ds|]. split; [apply Forall_app; split; [done|by constructor]|].
      split; [rewrite length_app; simpl; lia|].
      intros v rest. rewrite <- (assoc_L (++)), Hv. cbn [app]. rewrite Hstep. f_equal.
      rewrite length_app. cbn [length]. rewrite Nat2Z.inj_add, Z.pow_add_r by lia.
      change (Z.of_nat 1) with 1. rewrite Z.pow_1_r. pose proof (Z.div_mod n base). lia.
Qed.

Lemma print_unsigned_spec base n :
  2 ≤ base ≤ 10 → 0 ≤ n < 2 ^ 64 →
  ∃ a ds, print_unsigned base n = a :: ds ∧ Forall (digit_of base) (a :: ds) ∧
    (length (a :: ds) ≤ 64)%nat ∧ digits_value base (a :: ds) 0 = n.
Proof.
  intros Hb Hn. destruct (digits_loop_spec 63 base n []) as (ds & He & Hne & Hds & Hlen & Hv); [done|..].
  { change (Z.of_nat 64) with 64. split; [lia|]. eapply Z.lt_le_trans; [apply Hn|].
    apply Z.pow_le_mono_l. lia. }
  rewrite app_nil_r in He. destruct ds as [|a ds]; [done|]. exists a, ds.
  split; [exact He|]. split; [done|]. split; [done|].
  specialize (Hv 0 []). rewrite app_nil_r in Hv. rewrite Hv. cbn [digits_value]. lia.
Qed.

(** Nothing but digits is printed. *)
Lemma digits_loop_digits fuel base n acc :
  2 ≤ base ≤ 10 → Forall (digit_of base) acc → Forall (digit_of base) (digits_loop fuel base n acc).
Proof.
  intros Hb. revert n acc. induction fuel as [|fuel IH]; [done|]. intros n acc Hacc. cbn [digits_loop].
  assert (Forall (digit_of base) (chr (48 + n mod base) :: acc)).
  { constructor; [|done]. unfold digit_of. pose proof (Z.mod_pos_bound n base).
    rewrite code_chr by lia. lia. }
  destruct (n <? base); auto.
Qed.

Lemma print_unsigned_digits base n :
  2 ≤ base ≤ 10 → Forall (digit_of base) (print_unsigned base n).
Proof. intros Hb. by apply digits_loop_digits. Qed.

(** How many digits there are. *)
Lemma digits_loop_length fuel base n acc k :
  2 ≤ base → 0 ≤ n < base ^ Z.of_nat (S k) →
  (length (digits_loop fuel base n acc) ≤ S k + length acc)%nat.
Proof.
  intros Hb. revert n acc k. induction fuel as [|fuel IH]; intros n acc k Hn; cbn [digits_loop]; [lia|].
  destruct (Z.ltb_spec n base); [simpl; lia|].
  destruct k as [|k]; [rewrite Z.pow_1_r in Hn; lia|].
  etrans; [apply (IH _ _ k)|simpl; lia]. split; [apply Z.div_pos; lia|].
  rewrite (Nat2Z.inj_succ (S k)), Z.pow_succ_r in Hn by lia. apply Z.div_lt_upper_bound; lia.
Qed.

Lemma print_unsigned_length n k : 0 ≤ n < 10 ^ Z.of_nat (S k) → (length (print_unsigned 10 n) ≤ S k)%nat.
Proof. intros Hn. etrans; [by apply digits_loop_length|simpl; lia]. Qed.

Lemma print_signed_length n k : - 10 ^ Z.of_nat (S k) < n < 10 ^ Z.of_nat (S k) →
  (length (print_signed n) ≤ S (S k))%nat.
Proof.
  intros Hn. unfold print_signed. destruct (Z.ltb_spec n 0); cbn [length].
  - apply le_n_S, print_unsigned_length. lia.
  - etrans; [apply (print_unsigned_length n k)|]; lia.
Qed.

Lemma digit_scan base a ds :
  2 ≤ base ≤ 10 → digit_of base a → scan_number base (a :: ds) = (false, digits_value base (a :: ds) 0).
Proof.
  intros Hb Ha. unfold digit_of in Ha. unfold scan_number. cbn [skip_space].
  assert (isspace_c a = false) as -> by (unfold isspace_c;
    rewrite (proj2 (Z.leb_gt (code a) 13)), (proj2 (Z.eqb_neq (code a) 32)) by lia;
    by rewrite andb_false_r).
  by rewrite (proj2 (Z.eqb_neq (code a) 45)), (proj2 (Z.eqb_neq (code a) 43)) by lia.
Qed.

Lemma strtoul_print base n :
  2 ≤ base ≤ 10 → 0 ≤ n < 2 ^ 64 → strtoul (print_unsigned base n) base = n.
Proof.
  intros Hb Hn. destruct (print_unsigned_spec base n Hb Hn) as (a & ds & -> & Hds & _ & Hv).
  unfold strtoul. rewrite digit_scan, Hv by (done || by inversion Hds).
  by rewrite (proj2 (Z.leb_gt _ _)) by lia.
Qed.

(** A minus sign and digits. *)
Lemma minus_scan s : scan_number 10 (chr 45 :: s) = (true, digits_value 10 s 0).
Proof. done. Qed.

Lemma strtoul_signed n :
  - 2 ^ 31 ≤ n < 2 ^ 31 → u32 (strtoul (print_signed n) 10) = u32 n.
Proof.
  intros Hn. unfold print_signed. destruct (Z.ltb_spec n 0).
  - destruct (print_unsigned_spec 10 (- n)) as (a & ds & -> & _ & _ & Hv); [lia..|].
    unfold strtoul. rewrite minus_scan, Hv. rewrite (proj2 (Z.leb_gt _ _)) by lia.
    rewrite Z.opp_involutive. unfold wrap. rewrite Z.mod_mod_divide; [done|]. by exists (2 ^ 32).
  - by rewrite strtoul_print by lia.
Qed.

Lemma strtoll_signed n :
  - 2 ^ 63 ≤ n < 2 ^ 63 → strtoll (print_signed n) 10 = n.
Proof.
  intros Hn. unfold print_signed. destruct (Z.ltb_spec n 0).
  - destruct (print_unsigned_spec 10 (- n)) as (a & ds & -> & _ & _ & Hv); [lia..|].
    unfold strtoll. rewrite minus_scan, Hv. lia.
  - destruct (print_unsigned_spec 10 n) as (a & ds & -> & Hds & _ & Hv); [lia..|].
    unfold strtoll. rewrite digit_scan, Hv by (lia || by inversion Hds). lia.
Qed.

(** ** Reading the lines back *)

Lemma next_line_clean n line rest :
  clean line → (length line < n)%nat → next_line n (line ++ LF :: rest) = (line ++ [LF], rest).
Proof.
  intros Hc. revert n. induction Hc as [|a line [Ha _] Hc IH]; intros n Hn;
    (destruct n as [|n]; [simpl in Hn; lia|]); cbn [app next_line].
  - by rewrite aeqb_refl.
  - destruct (aeqb a LF) eqn:He; [by apply aeqb_eq in He|].
    rewrite IH by (simpl in Hn; lia). done.
Qed.

Lemma next_line_shorter n s : (length (next_line n s).2 ≤ length s)%nat.
Proof.
  revert n. induction s as [|a s IH]; intros [|n]; simpl; try lia.
  destruct (aeqb a LF); simpl; [lia|]. specialize (IH n). destruct (next_line n s). simpl in *. lia.
Qed.

Lemma next_line_length n a s : (length (next_line (S n) (a :: s)).2 ≤ length s)%nat.
Proof.
  simpl. destruct (aeqb a LF); simpl; [lia|]. pose proof (next_line_shorter n s).
  by destruct (next_line n s).
Qed.

Lemma chomp_line line : clean line → chomp (buf_str (line ++ [LF])) = line.
Proof.
  intros Hc. unfold buf_str. rewrite take_while_all.
  - unfold chomp. by rewrite last_snoc, aeqb_refl, removelast_last.
  - apply Forall_app. split; [|by repeat constructor].
    eapply Forall_impl; [exact Hc|]. intros a [_ Ha]. cbv beta.
    destruct (aeqb a NUL) eqn:He; [by apply aeqb_eq in He|done].
Qed.

Lemma clean_app s t : clean (s ++ t) ↔ clean s ∧ clean t.
Proof. apply Forall_app. Qed.

Lemma clean_digits base ds : base ≤ 10 → Forall (digit_of base) ds → clean ds.
Proof.
  intros Hb Hd. eapply Forall_impl; [exact Hd|]. unfold digit_of. intros a Ha.
  split; intros ->; [change (code LF) with 10 in Ha|change (code NUL) with 0 in Ha]; lia.
Qed.

Lemma clean_unsigned base n :
  2 ≤ base ≤ 10 → 0 ≤ n < 2 ^ 64 →
  clean (print_unsigned base n) ∧ (length (print_unsigned base n) ≤ 64)%nat.
Proof.
  intros Hb Hn. destruct (print_unsigned_spec base n Hb Hn) as (a & ds & -> & Hds & Hlen & _).
  split; [apply (clean_digits base); [lia|done]|done].
Qed.

Lemma clean_signed n :
  - 2 ^ 63 ≤ n < 2 ^ 63 → clean (print_signed n) ∧ (length (print_signed n) ≤ 65)%nat.
Proof.
  intros Hn. unfold print_signed. destruct (Z.ltb_spec n 0).
  - destruct (clean_unsigned 10 (- n)) as [Hc Hl]; [lia..|]. split; [|simpl; lia].
    constructor; [done|exact Hc].
  - destruct (clean_unsigned 10 n) as [Hc Hl]; [lia..|]. split; [done|lia].
Qed.

Lemma to_int_range x : - 2 ^ 31 ≤ to_int x < 2 ^ 31.
Proof.
  unfold to_int. pose proof (wrap_range 32 x ltac:(lia)). destruct (Z.leb_spec (2 ^ 31) (u32 x)); lia.
Qed.

Lemma u32_to_int x : u32 (to_int x) = u32 x.
Proof.
  unfold to_int. destruct (2 ^ 31 <=? u32 x).
  - unfold wrap. rewrite <- (Z.mod_add _ 1) by done. rewrite Z.mul_1_l, Z.sub_add. apply Z.mod_mod. done.
  - apply wrap_small. apply wrap_range. lia.
Qed.

Lemma clean_check_sound s : clean_check s = true → clean s.
Proof.
  intros Hs. unfold clean_check in Hs. apply Forall_forall. intros a Ha.
  rewrite forallb_forall in Hs. specialize (Hs a). apply list_elem_of_In in Ha. specialize (Hs Ha).
  to_prop. split; intros ->; by rewrite aeqb_refl in *.
Qed.
