(* ===== verification/Posix.v ===== *)
(** * The system calls the daemon makes on files

    The kernel's file system as the daemon sees it: directory entries and
    inodes ([fs]), and the calls of userspace/avd/avd.c as operations of the
    class [Posix], with what their manual pages promise as its laws.  Any call
    may fail, and then changes nothing.  Read-only calls are functions of the
    world, which includes whatever makes them fail.  An open descriptor is the
    inode it refers to.  [ToyFs], at the end, is an instance. *)

From Stdlib Require Import ZArith Lia Ascii String.
From stdpp Require Import prelude list gmap strings.
From S2P Require Import Prelude CString.

Local Open Scope Z_scope.

(** ** Modes (linux/stat.h) *)

Definition S_IFMT : Z := 61440.
Definition S_IFSOCK : Z := 49152.
Definition S_IFLNK : Z := 40960.
Definition S_IFREG : Z := 32768.
Definition S_IFDIR : Z := 16384.
Definition S_ISUID : Z := 2048.
Definition S_ISGID : Z := 1024.
Definition S_ISVTX : Z := 512.
Definition S_IWGRP : Z := 16.
Definition S_IXGRP : Z := 8.
Definition S_IWOTH : Z := 2.

Definition S_ISREG (m : Z) : bool := Z.land m S_IFMT =? S_IFREG.
Definition S_ISDIR (m : Z) : bool := Z.land m S_IFMT =? S_IFDIR.
Definition S_ISLNK (m : Z) : bool := Z.land m S_IFMT =? S_IFLNK.
Definition S_ISSOCK (m : Z) : bool := Z.land m S_IFMT =? S_IFSOCK.

(** ** Inodes and directory entries *)

Record stat := {
  st_dev : Z; st_ino : Z; st_mode : Z; st_uid : Z; st_gid : Z; st_size : Z;
}.

(** The device and the inode number. *)
Definition inum : Type := Z * Z.

Record inode := { i_mode : Z; i_uid : Z; i_gid : Z; i_data : cstr }.

Record fs := { entries : gmap cstr inum; nodes : gmap inum inode }.

Definition stat_of (i : inum) (n : inode) : stat :=
  {| st_dev := i.1; st_ino := i.2; st_mode := i_mode n; st_uid := i_uid n; st_gid := i_gid n;
     st_size := Z.of_nat (length (i_data n)) |}.

Definition with_data (d : cstr) (n : inode) : inode :=
  {| i_mode := i_mode n; i_uid := i_uid n; i_gid := i_gid n; i_data := d |}.
(** [chmod] sets the permission bits. *)
Definition with_perm (m : Z) (n : inode) : inode :=
  {| i_mode := Z.lor (Z.land (i_mode n) S_IFMT) (Z.land m 4095); i_uid := i_uid n;
     i_gid := i_gid n; i_data := i_data n |}.
Definition with_owner (m uid gid : Z) (n : inode) : inode :=
  {| i_mode := m; i_uid := uid; i_gid := gid; i_data := i_data n |}.

Definition set_node (i : inum) (n : inode) (f : fs) : fs :=
  {| entries := entries f; nodes := <[i := n]> (nodes f) |}.
Definition set_entry (k : cstr) (i : inum) (f : fs) : fs :=
  {| entries := <[k := i]> (entries f); nodes := nodes f |}.

Lemma land_kind a m : Z.land (Z.lor a (Z.land m 4095)) S_IFMT = Z.land a S_IFMT.
Proof.
  rewrite Z.land_lor_distr_l, <- Z.land_assoc. change (Z.land 4095 S_IFMT) with 0.
  by rewrite Z.land_0_r, Z.lor_0_r.
Qed.

(** Every inode that still has a name is as it was. *)
Definition keeps_nodes (f f' : fs) : Prop :=
  ∀ k i, entries f' !! k = Some i → nodes f' !! i = nodes f !! i.

(** ** The calls

    0 or an errno for the calls without another result. *)
Class Posix (W : Type) := {
  view : W → fs;
  (** The directory entry a path names. *)
  key : cstr → cstr;

  lstat : cstr → W → Z + stat;
  fstat : inum → W → option stat;
  open_rdonly : cstr → W → option inum;
  open_nofollow : cstr → W → option inum;
  lseek : inum → W → bool;
  (** What the [read] calls up to the end of the file give; [None] is -1. *)
  reads : inum → W → list (option cstr);
  (** [fopen] for reading, and the text read to its end. *)
  fopen : cstr → W → option cstr;

  mkdir : cstr → Z → W → Z * W;
  linkat : inum → cstr → W → Z * W;
  open_excl : cstr → Z → W → option inum * W;
  write : inum → cstr → W → Z * W;
  (** [fprintf]s up to a successful [fclose]. *)
  fprintf_fclose : inum → cstr → W → bool * W;
  chmod : cstr → Z → W → Z * W;
  fchmod : inum → Z → W → Z * W;
  fchown : inum → Z → Z → W → Z * W;
  unlink : cstr → W → Z * W;
  rename : cstr → cstr → W → Z * W;
  (** [bind] of a new AF_UNIX socket. *)
  bind : cstr → W → Z * W;

  lstat_ok p w st : lstat p w = inr st →
    ∃ i n, entries (view w) !! key p = Some i ∧ nodes (view w) !! i = Some n ∧ st = stat_of i n;
  lstat_noent p w : lstat p w = inl ENOENT → entries (view w) !! key p = None;
  fstat_ok i w st : fstat i w = Some st →
    (st_dev st, st_ino st) = i ∧ ∀ n, nodes (view w) !! i = Some n → st = stat_of i n;
  open_nofollow_ok p w i : open_nofollow p w = Some i →
    entries (view w) !! key p = Some i ∧ is_Some (nodes (view w) !! i);
  reads_ok i w n : Forall is_Some (reads i w) → nodes (view w) !! i = Some n →
    mjoin (default [] <$> reads i w) = i_data n;
  reads_nonempty i w : Some [] ∉ reads i w;
  fopen_ok p w s i n : fopen p w = Some s → entries (view w) !! key p = Some i →
    nodes (view w) !! i = Some n → S_ISREG (i_mode n) = true → s = i_data n;
  fopen_none p w : entries (view w) !! key p = None → fopen p w = None;

  mkdir_ok p m w r w' : mkdir p m w = (r, w') →
    view w' = view w ∨
    r = 0 ∧ entries (view w) !! key p = None ∧
    ∃ i n, nodes (view w) !! i = None ∧ view w' = set_entry (key p) i (set_node i n (view w));
  linkat_ok i p w r w' : linkat i p w = (r, w') →
    if r =? 0 then entries (view w) !! key p = None ∧ view w' = set_entry (key p) i (view w)
    else view w' = view w;
  open_excl_ok p m w r w' : open_excl p m w = (r, w') →
    match r with
    | Some i => entries (view w) !! key p = None ∧ nodes (view w) !! i = None ∧
        ∃ n, S_ISREG (i_mode n) = true ∧ i_data n = [] ∧
          view w' = set_entry (key p) i (set_node i n (view w))
    | None => view w' = view w
    end;
  write_ok i s w r w' n : write i s w = (r, w') → nodes (view w) !! i = Some n →
    ∃ k, (r = Z.of_nat k ∧ (k ≤ length s)%nat ∨ r < 0) ∧
      view w' = set_node i (with_data (i_data n ++ take k s) n) (view w);
  fprintf_fclose_ok i s w r w' n : fprintf_fclose i s w = (r, w') → nodes (view w) !! i = Some n →
    ∃ d, (r = true → d = i_data n ++ s) ∧ view w' = set_node i (with_data d n) (view w);
  chmod_ok p m w r w' i n : chmod p m w = (r, w') → entries (view w) !! key p = Some i →
    nodes (view w) !! i = Some n → S_ISLNK (i_mode n) = false →
    view w' = (if r =? 0 then set_node i (with_perm m n) (view w) else view w);
  fchmod_ok i m w r w' n : fchmod i m w = (r, w') → nodes (view w) !! i = Some n →
    view w' = (if r =? 0 then set_node i (with_perm m n) (view w) else view w);
  (** chown(2): the set-id bits may be cleared. *)
  fchown_ok i uid gid w r w' n : fchown i uid gid w = (r, w') → nodes (view w) !! i = Some n →
    if r =? 0 then
      ∃ m, Z.ldiff m (Z.lor S_ISUID S_ISGID) = Z.ldiff (i_mode n) (Z.lor S_ISUID S_ISGID) ∧
        view w' = set_node i (with_owner m uid gid n) (view w)
    else view w' = view w;
  unlink_ok p w r w' : unlink p w = (r, w') →
    (r = ENOENT → entries (view w) !! key p = None) ∧
    if r =? 0 then is_Some (entries (view w) !! key p) ∧
      entries (view w') = delete (key p) (entries (view w)) ∧ keeps_nodes (view w) (view w')
    else view w' = view w;
  rename_ok p q w r w' : rename p q w = (r, w') →
    if r =? 0 then ∃ i, entries (view w) !! key p = Some i ∧ keeps_nodes (view w) (view w') ∧
      entries (view w') =
        (if decide (entries (view w) !! key q = Some i) then entries (view w)
         else <[key q := i]> (delete (key p) (entries (view w))))
    else view w' = view w;
  bind_ok p w r w' : bind p w = (r, w') →
    if r =? 0 then entries (view w) !! key p = None ∧
      ∃ i n, nodes (view w) !! i = None ∧ S_ISSOCK (i_mode n) = true ∧
        view w' = set_entry (key p) i (set_node i n (view w))
    else view w' = view w;
}.

(** ** An instance

    A file system in memory, on which the calls listed in [failing] fail:
    each call that could change something takes one flag from the list. *)
Module ToyFs.

Record toy := { t_fs : fs; t_next : Z; t_failing : list bool }.

Definition EIO : Z := 5.

Definition attempt {A} (err : A) (f : fs → option (A * fs)) (bump : Z) (w : toy) : A * toy :=
  match t_failing w with
  | true :: rest => (err, {| t_fs := t_fs w; t_next := t_next w; t_failing := rest |})
  | _ =>
      match f (t_fs w) with
      | Some (a, f') =>
          (a, {| t_fs := f'; t_next := t_next w + bump; t_failing := tail (t_failing w) |})
      | None => (err, {| t_fs := t_fs w; t_next := t_next w; t_failing := tail (t_failing w) |})
      end
  end.

Definition node_at (p : cstr) (f : fs) : option (inum * inode) :=
  i ← entries f !! p; n ← nodes f !! i; Some (i, n).

Definition toy_lstat (p : cstr) (w : toy) : Z + stat :=
  match entries (t_fs w) !! p with
  | None => inl ENOENT
  | Some i => match nodes (t_fs w) !! i with Some n => inr (stat_of i n) | None => inl EIO end
  end.
Definition toy_fstat (i : inum) (w : toy) : option stat := stat_of i <$> nodes (t_fs w) !! i.
Definition toy_open (p : cstr) (w : toy) : option inum :=
  '(i, n) ← node_at p (t_fs w);
  if S_ISLNK (i_mode n) then fst <$> node_at (i_data n) (t_fs w) else Some i.
Definition toy_open_nofollow (p : cstr) (w : toy) : option inum :=
  '(i, n) ← node_at p (t_fs w); if S_ISLNK (i_mode n) then None else Some i.
Definition toy_reads (i : inum) (w : toy) : list (option cstr) :=
  match nodes (t_fs w) !! i with
  | Some n => match i_data n with [] => [] | d => [Some d] end
  | None => [None]
  end.
Definition toy_fopen (p : cstr) (w : toy) : option cstr :=
  '(i, n) ← node_at p (t_fs w); if S_ISREG (i_mode n) then Some (i_data n) else None.

Definition create (p : cstr) (n : inode) (i : inum) (f : fs) : option fs :=
  match entries f !! p, nodes f !! i with
  | None, None => Some (set_entry p i (set_node i n f))
  | _, _ => None
  end.

Definition toy_mkdir (p : cstr) (m : Z) (w : toy) : Z * toy :=
  let i := (0, t_next w) in
  match entries (t_fs w) !! p with
  | Some _ => (EEXIST, w)
  | None =>
      attempt EIO (λ f, pair 0 <$> create p {| i_mode := Z.lor S_IFDIR (Z.land m 4095); i_uid := 0; i_gid := 0;
                                               i_data := [] |} i f) 1 w
  end.
Definition toy_linkat (i : inum) (p : cstr) (w : toy) : Z * toy :=
  attempt EIO (λ f, match entries f !! p with
                    | None => Some (0, set_entry p i f) | Some _ => None end) 0 w.
Definition toy_open_excl (p : cstr) (m : Z) (w : toy) : option inum * toy :=
  let i := (0, t_next w) in
  attempt None (λ f, pair (Some i) <$> create p {| i_mode := Z.lor S_IFREG (Z.land m 4095);
                                                   i_uid := 0; i_gid := 0; i_data := [] |} i f) 1 w.
Definition on_node {A} (ok err : A) (i : inum) (g : inode → inode) (w : toy) : A * toy :=
  attempt err (λ f, match nodes f !! i with
                    | Some n => Some (ok, set_node i (g n) f) | None => None end) 0 w.
Definition toy_write (i : inum) (s : cstr) : toy → Z * toy :=
  on_node (Z.of_nat (length s)) (-1) i (λ n, with_data (i_data n ++ s) n).
Definition toy_fprintf_fclose (i : inum) (s : cstr) : toy → bool * toy :=
  on_node true false i (λ n, with_data (i_data n ++ s) n).
Definition toy_fchmod (i : inum) (m : Z) : toy → Z * toy := on_node 0 EIO i (with_perm m).
Definition toy_chmod (p : cstr) (m : Z) (w : toy) : Z * toy :=
  match entries (t_fs w) !! p with Some i => toy_fchmod i m w | None => (ENOENT, w) end.
(** As Linux does for a regular file. *)
Definition chown_mode (m : Z) : Z :=
  let m := Z.ldiff m S_ISUID in
  if negb (Z.land m S_IXGRP =? 0) then Z.ldiff m S_ISGID else m.
Definition toy_fchown (i : inum) (uid gid : Z) : toy → Z * toy :=
  on_node 0 EIO i (λ n, with_owner (chown_mode (i_mode n)) uid gid n).
Definition toy_unlink (p : cstr) (w : toy) : Z * toy :=
  match entries (t_fs w) !! p with
  | None => (ENOENT, w)
  | Some _ =>
      attempt EIO (λ f, Some (0, {| entries := delete p (entries f); nodes := nodes f |})) 0 w
  end.
Definition toy_rename (p q : cstr) (w : toy) : Z * toy :=
  attempt EIO (λ f, match entries f !! p with
    | Some i => Some (0, {| entries := if decide (entries f !! q = Some i) then entries f
                                       else <[q := i]> (delete p (entries f)); nodes := nodes f |})
    | None => None end) 0 w.
Definition toy_bind (p : cstr) (w : toy) : Z * toy :=
  let i := (0, t_next w) in
  attempt EIO (λ f, pair 0 <$> create p {| i_mode := Z.lor S_IFSOCK 493; i_uid := 0; i_gid := 0;
                                           i_data := [] |} i f) 1 w.

(** Paths with their inodes. *)
Definition boot (l : list (cstr * (inum * inode))) : toy :=
  {| t_fs := {| entries := list_to_map ((λ x, (x.1, x.2.1)) <$> l);
                nodes := list_to_map (snd <$> l) |};
     t_next := 1000; t_failing := [] |}.

Lemma attempt_spec {A} (err : A) f bump w r w' :
  attempt err f bump w = (r, w') →
  r = err ∧ t_fs w' = t_fs w ∨ f (t_fs w) = Some (r, t_fs w').
Proof.
  unfold attempt. intros He. destruct (t_failing w) as [|[] ?]; [| |];
    [destruct (f (t_fs w)) as [[a f']|] eqn:Hf| |destruct (f (t_fs w)) as [[a f']|] eqn:Hf];
    simplify_eq/=; auto.
Qed.

Lemma on_node_spec {A} (ok err : A) i g w r w' n :
  on_node ok err i g w = (r, w') → nodes (t_fs w) !! i = Some n →
  r = err ∧ t_fs w' = t_fs w ∨ r = ok ∧ t_fs w' = set_node i (g n) (t_fs w).
Proof.
  intros [[-> ->]|He]%attempt_spec Hn; [by left|]. rewrite Hn in He. simplify_eq/=. by right.
Qed.

Lemma fchmod_spec i m w r w' n :
  toy_fchmod i m w = (r, w') → nodes (t_fs w) !! i = Some n →
  t_fs w' = (if r =? 0 then set_node i (with_perm m n) (t_fs w) else t_fs w).
Proof. intros He Hn. by destruct (on_node_spec _ _ _ _ _ _ _ _ He Hn) as [[-> ->]|[-> ->]]. Qed.

Lemma ldiff_chown m :
  Z.ldiff (chown_mode m) (Z.lor S_ISUID S_ISGID) = Z.ldiff m (Z.lor S_ISUID S_ISGID).
Proof.
  unfold chown_mode.
  destruct (negb (Z.land (Z.ldiff m S_ISUID) S_IXGRP =? 0)); apply Z.bits_inj'; intros k Hk;
    rewrite !Z.ldiff_spec, !Z.lor_spec; destruct (Z.testbit m k), (Z.testbit S_ISUID k),
    (Z.testbit S_ISGID k); done.
Qed.

Lemma create_spec p n i f f' :
  create p n i f = Some f' →
  entries f !! p = None ∧ nodes f !! i = None ∧ f' = set_entry p i (set_node i n f).
Proof.
  unfold create. destruct (entries f !! p), (nodes f !! i); intros ?; by simplify_eq.
Qed.

#[export, refine] Instance toy_posix : Posix toy := {
  view := t_fs; key := id;
  lstat := toy_lstat; fstat := toy_fstat; open_rdonly := toy_open;
  open_nofollow := toy_open_nofollow; lseek := λ _ _, true; reads := toy_reads;
  fopen := toy_fopen; mkdir := toy_mkdir; linkat := toy_linkat; open_excl := toy_open_excl;
  write := toy_write; fprintf_fclose := toy_fprintf_fclose; chmod := toy_chmod;
  fchmod := toy_fchmod; fchown := toy_fchown; unlink := toy_unlink; rename := toy_rename;
  bind := toy_bind;
}.
Proof.
  - unfold toy_lstat. intros p w st He. destruct (entries (t_fs w) !! p) as [i|] eqn:Hi; [|done].
    destruct (nodes (t_fs w) !! i) as [n|] eqn:Hn; [|done]. exists i, n. by simplify_eq/=.
  - unfold toy_lstat. intros p w He. destruct (entries (t_fs w) !! p) as [i|] eqn:Hi; [|done].
    by destruct (nodes (t_fs w) !! i).
  - unfold toy_fstat. intros i w st He. destruct (nodes (t_fs w) !! i); simplify_eq/=.
    split; [by destruct i|]. intros n' Hn'. by simplify_eq.
  - unfold toy_open_nofollow, node_at, id. intros p w i He.
    destruct (entries (t_fs w) !! p) as [j|]; [|done]. simpl in He.
    destruct (nodes (t_fs w) !! j) as [n|] eqn:Hn; [|done]. simpl in He.
    destruct (S_ISLNK (i_mode n)); simplify_eq. by eauto.
  - unfold toy_reads. intros i w n _ ->. destruct (i_data n) as [|a d]; [done|]. apply app_nil_r.
  - unfold toy_reads. intros i w. destruct (nodes (t_fs w) !! i) as [[? ? ? [|a d]]|]; simpl;
      [by intros ?%elem_of_nil|by intros ?%list_elem_of_singleton..].
  - unfold toy_fopen, node_at. intros p w s i n He Hi Hn Hr.
    unfold id in Hi. rewrite Hi in He. simpl in He. rewrite Hn in He. simpl in He.
    rewrite Hr in He. by simplify_eq/=.
  - unfold toy_fopen, node_at. unfold id. by intros p w ->.
  - unfold toy_mkdir, id. intros p m w r w' He.
    destruct (entries (t_fs w) !! p) as [i|] eqn:Hp; [simplify_eq; by left|].
    apply attempt_spec in He as [[-> ->]|He]; [by left|]. right.
    destruct (create p _ _ _) as [f'|] eqn:Hc in He; [|done].
    apply create_spec in Hc as (?&?&Hf'). simplify_eq/=. split_and!; [done..|]. eauto.
  - unfold toy_linkat, id. intros i p w r w' [[-> ->]|He]%attempt_spec; [done|].
    destruct (entries (t_fs w) !! p) eqn:Hp; simplify_eq/=. done.
  - unfold toy_open_excl, id. intros p m w r w' [[-> ->]|He]%attempt_spec; [done|].
    destruct (create p _ _ _) as [f'|] eqn:Hc in He; [|done].
    apply create_spec in Hc as (?&?&Hf'). simplify_eq/=. split_and!; [done..|].
    match goal with H : _ = t_fs w' |- _ => rewrite <- H end.
    eexists. split_and!; [| |reflexivity]; [|done]. unfold S_ISREG. cbn [i_mode].
    by rewrite land_kind.
  - intros i s w r w' n He Hn.
    destruct (on_node_spec _ _ _ _ _ _ _ _ He Hn) as [[-> ->]|[-> ->]].
    + exists 0%nat. split; [by right|]. rewrite take_0, app_nil_r. destruct (t_fs w), n.
      unfold set_node, with_data. simpl in *. by rewrite insert_id.
    + exists (length s). split; [left; lia|]. by rewrite take_ge by lia.
  - intros i s w r w' n He Hn.
    destruct (on_node_spec _ _ _ _ _ _ _ _ He Hn) as [[-> ->]|[-> ->]].
    + exists (i_data n). split; [done|]. destruct (t_fs w), n.
      unfold set_node, with_data. simpl in *. by rewrite insert_id.
    + eauto.
  - unfold toy_chmod, id. intros p m w r w' i n He Hi Hn _. rewrite Hi in He.
    by apply fchmod_spec.
  - apply fchmod_spec.
  - intros i uid gid w r w' n He Hn.
    destruct (on_node_spec _ _ _ _ _ _ _ _ He Hn) as [[-> ->]|[-> ->]]; [done|]. simpl.
    eexists. split; [|done]. apply ldiff_chown.
  - unfold toy_unlink, id. intros p w r w' He.
    destruct (entries (t_fs w) !! p) as [i|] eqn:Hp; [|by simplify_eq].
    apply attempt_spec in He as [[-> ->]|He]; [done|]. simplify_eq/=. split; [done|].
    match goal with H : _ = t_fs w' |- _ => rewrite <- H end. by split_and!.
  - unfold toy_rename, id. intros p q w r w' [[-> ->]|He]%attempt_spec; [done|].
    destruct (entries (t_fs w) !! p) as [i|] eqn:Hp; [|done]. simplify_eq/=.
    match goal with H : _ = t_fs w' |- _ => rewrite <- H end.
    exists i. split_and!; [done| |done]. by intros k j.
  - unfold toy_bind, id. intros p w r w' [[-> ->]|He]%attempt_spec; [done|].
    destruct (create p _ _ _) as [f'|] eqn:Hc in He; [|done].
    apply create_spec in Hc as (?&?&Hf'). simplify_eq/=. split_and!; [done..|].
    match goal with H : _ = t_fs w' |- _ => rewrite <- H end.
    eexists _, _. by split_and!; [| |reflexivity].
Defined.

End ToyFs.
