(* ===== verification/Quarantine.v ===== *)
(** * Quarantine metadata: userspace/avd/avd.c

    The sidecar file a quarantined file is restored from:
    [write_quarantine_meta]'s lines, [read_quarantine_meta]'s parser, and the
    check on an entry's name. *)

From Stdlib Require Import ZArith Lia Ascii String.
From stdpp Require Import prelude list.
From S2P Require Import Prelude CString CText Posix.

Local Open Scope Z_scope.

(** ** The sidecar *)

Definition RULE_NAME_LEN : nat := 64.
Definition SHA256_LEN : nat := 65.

Record quarantine_meta := {
  original_path : cstr; original_mode : Z; original_uid : Z; original_gid : Z;
  timestamp : Z; rule_name : cstr; sha256_hex : cstr;
}.

(** The contents of the file; the first argument is [orig_st], then
    [time(NULL)]. *)
Definition write_quarantine_meta (orig_st : option stat) (now : Z) (orig_path : cstr)
    (rule sha : option cstr) : cstr :=
  (cs "ORIGINAL_MODE=" ++ print_unsigned 8 (match orig_st with
     | Some st => Z.land (st_mode st) 4095 | None => 384 end) ++ [LF]) ++
  (cs "ORIGINAL_UID=" ++ print_signed (match orig_st with
     | Some st => to_int (st_uid st) | None => 0 end) ++ [LF]) ++
  (cs "ORIGINAL_GID=" ++ print_signed (match orig_st with
     | Some st => to_int (st_gid st) | None => 0 end) ++ [LF]) ++
  (cs "TIMESTAMP=" ++ print_signed now ++ [LF]) ++
  (cs "RULE_NAME=" ++ default [] rule ++ [LF]) ++
  (cs "SHA256=" ++ default [] sha ++ [LF]) ++
  (cs "ORIGINAL_PATH=" ++ orig_path ++ [LF]).

(** [sizeof(line)]. *)
Definition LINE_LEN : nat := (PATH_MAX + 64)%nat.

Definition set_path (p : cstr) (m : quarantine_meta) : quarantine_meta :=
  {| original_path := p; original_mode := original_mode m; original_uid := original_uid m;
     original_gid := original_gid m; timestamp := timestamp m; rule_name := rule_name m;
     sha256_hex := sha256_hex m |}.

(** One line, its newline removed. *)
Definition meta_line (line : cstr) (m : quarantine_meta) : quarantine_meta :=
  if strncmp_eq 14 line (cs "ORIGINAL_PATH=")
  then set_path (strscpy (drop 14 line) PATH_MAX) m
  else if strncmp_eq 14 line (cs "ORIGINAL_MODE=")
  then {| original_path := original_path m; original_mode := u32 (strtoul (drop 14 line) 8);
          original_uid := original_uid m; original_gid := original_gid m;
          timestamp := timestamp m; rule_name := rule_name m; sha256_hex := sha256_hex m |}
  else if strncmp_eq 13 line (cs "ORIGINAL_UID=")
  then {| original_path := original_path m; original_mode := original_mode m;
          original_uid := u32 (strtoul (drop 13 line) 10); original_gid := original_gid m;
          timestamp := timestamp m; rule_name := rule_name m; sha256_hex := sha256_hex m |}
  else if strncmp_eq 13 line (cs "ORIGINAL_GID=")
  then {| original_path := original_path m; original_mode := original_mode m;
          original_uid := original_uid m; original_gid := u32 (strtoul (drop 13 line) 10);
          timestamp := timestamp m; rule_name := rule_name m; sha256_hex := sha256_hex m |}
  else if strncmp_eq 10 line (cs "TIMESTAMP=")
  then {| original_path := original_path m; original_mode := original_mode m;
          original_uid := original_uid m; original_gid := original_gid m;
          timestamp := strtoll (drop 10 line) 10; rule_name := rule_name m;
          sha256_hex := sha256_hex m |}
  else if strncmp_eq 10 line (cs "RULE_NAME=")
  then {| original_path := original_path m; original_mode := original_mode m;
          original_uid := original_uid m; original_gid := original_gid m;
          timestamp := timestamp m; rule_name := strscpy (drop 10 line) RULE_NAME_LEN;
          sha256_hex := sha256_hex m |}
  else if strncmp_eq 7 line (cs "SHA256=")
  then {| original_path := original_path m; original_mode := original_mode m;
          original_uid := original_uid m; original_gid := original_gid m;
          timestamp := timestamp m; rule_name := rule_name m;
          sha256_hex := strscpy (drop 7 line) SHA256_LEN |}
  else m.

Fixpoint meta_loop (fuel : nat) (s : cstr) (m : quarantine_meta) : quarantine_meta :=
  match fuel, s with
  | S fuel, _ :: _ =>
      let '(line, rest) := next_line (LINE_LEN - 1) s in
      meta_loop fuel rest (meta_line (chomp (buf_str line)) m)
  | _, _ => m
  end.

Definition meta_zero : quarantine_meta :=
  {| original_path := []; original_mode := 384; original_uid := 0; original_gid := 0;
     timestamp := 0; rule_name := []; sha256_hex := [] |}.

(** [contents]: the file's, [None] if it cannot be opened; the result is
    [None] for the return value -1. *)
Definition read_quarantine_meta (contents : option cstr) : option quarantine_meta :=
  match contents with
  | None => None
  | Some s =>
      let m := meta_loop (length s) s meta_zero in
      match original_path m with [] => None | _ => Some m end
  end.

Definition quarantine_id_valid (id : cstr) : bool :=
  match id with
  | [] => false
  | _ =>
      if existsb (aeqb SLASH) id then false
      else if strcmp_eq id (cs ".") || strcmp_eq id (cs "..") then false
      else if (PATH_MAX - 32 <=? length id)%nat then false
      else true
  end.

(** ** Reading the lines back *)

Lemma meta_loop_lines lines fuel m :
  Forall (λ l, clean l ∧ (length l < LINE_LEN - 1)%nat) lines → (length lines ≤ fuel)%nat →
  meta_loop fuel (mjoin ((λ l, l ++ [LF]) <$> lines)) m = foldl (λ m l, meta_line l m) m lines.
Proof.
  intros Hl. revert fuel m. induction Hl as [|l lines [Hc Hn] Hl IH]; intros fuel m Hf.
  { by destruct fuel. }
  destruct fuel as [|fuel]; [simpl in Hf; lia|].
  change (mjoin ((λ l, l ++ [LF]) <$> (l :: lines)))
    with ((l ++ [LF]) ++ mjoin ((λ l, l ++ [LF]) <$> lines)).
  rewrite <- (assoc_L (++)). cbn [app foldl].
  set (rest := mjoin _). pose proof (next_line_clean (LINE_LEN - 1) l rest Hc Hn) as He.
  destruct (l ++ LF :: rest) as [|a s] eqn:Hs; [by destruct l|].
  cbn [meta_loop]. rewrite He, chomp_line by done. apply IH. simpl in Hf. lia.
Qed.

Lemma line_ok p s :
  clean_check p && (length p <=? 14)%nat = true → clean s → (14 + length s < LINE_LEN - 1)%nat →
  clean (p ++ s) ∧ (length (p ++ s) < LINE_LEN - 1)%nat.
Proof.
  intros [Hp Hn%Nat.leb_le]%andb_prop Hs Hl.
  split; [apply clean_app; split; [by apply clean_check_sound|done]|]. rewrite length_app. lia.
Qed.

(** The lines for a mode, an owner and a group, and what is read from them. *)
Definition meta_lines (mode uid gid now : Z) (path rule sha : cstr) : list cstr :=
  [cs "ORIGINAL_MODE=" ++ print_unsigned 8 mode; cs "ORIGINAL_UID=" ++ print_signed uid;
   cs "ORIGINAL_GID=" ++ print_signed gid; cs "TIMESTAMP=" ++ print_signed now;
   cs "RULE_NAME=" ++ rule; cs "SHA256=" ++ sha; cs "ORIGINAL_PATH=" ++ path].

Lemma write_lines st now path rule sha :
  write_quarantine_meta st now path rule sha = mjoin ((λ l, l ++ [LF]) <$>
    meta_lines (match st with Some st => Z.land (st_mode st) 4095 | None => 384 end)
      (match st with Some st => to_int (st_uid st) | None => 0 end)
      (match st with Some st => to_int (st_gid st) | None => 0 end)
      now path (default [] rule) (default [] sha)).
Proof.
  unfold write_quarantine_meta, meta_lines. cbn [fmap list_fmap mjoin list_join].
  by rewrite <- !(assoc_L (++)), app_nil_r.
Qed.

Section read_back.
Context (path rule sha : cstr) (now : Z).
Context (Hnow : - 2 ^ 63 ≤ now < 2 ^ 63) (Hpath : clean path) (Hne : path ≠ [])
  (Hfit : (length path < PATH_MAX)%nat) (Hrule : clean rule) (Hrfit : (length rule < RULE_NAME_LEN)%nat)
  (Hsha : clean sha) (Hsfit : (length sha < SHA256_LEN)%nat).

Lemma read_lines mode uid gid :
  0 ≤ mode < 4096 → - 2 ^ 31 ≤ uid < 2 ^ 31 → - 2 ^ 31 ≤ gid < 2 ^ 31 →
  read_quarantine_meta (Some (mjoin ((λ l, l ++ [LF]) <$> meta_lines mode uid gid now path rule sha))) =
    Some {| original_path := path; original_mode := mode; original_uid := u32 uid;
            original_gid := u32 gid; timestamp := now; rule_name := rule; sha256_hex := sha |}.
Proof using All.
  intros Hm Hu Hg. set (lines := meta_lines mode uid gid now path rule sha).
  assert (Forall (λ l, clean l ∧ (length l < LINE_LEN - 1)%nat) lines) as Hlines.
  { destruct (clean_unsigned 8 mode) as [? ?]; [lia..|].
    destruct (clean_signed uid) as [? ?]; [lia|]. destruct (clean_signed gid) as [? ?]; [lia|].
    destruct (clean_signed now) as [? ?]; [lia|].
    assert (LINE_LEN = 4160%nat ∧ PATH_MAX = 4096%nat ∧ RULE_NAME_LEN = 64%nat ∧
      SHA256_LEN = 65%nat) as (EL & EP & ER & ES) by done.
    unfold lines. do 7 (constructor; [apply line_ok; [reflexivity|assumption|lia]|]). constructor. }
  unfold read_quarantine_meta. rewrite meta_loop_lines; [|done|].
  2: { unfold lines, meta_lines. cbn [fmap list_fmap mjoin list_join length]. rewrite !length_app.
       cbn [length]. lia. }
  assert (foldl (λ m l, meta_line l m) meta_zero lines =
    {| original_path := strscpy path PATH_MAX;
       original_mode := u32 (strtoul (print_unsigned 8 mode) 8);
       original_uid := u32 (strtoul (print_signed uid) 10);
       original_gid := u32 (strtoul (print_signed gid) 10);
       timestamp := strtoll (print_signed now) 10;
       rule_name := strscpy rule RULE_NAME_LEN; sha256_hex := strscpy sha SHA256_LEN |}) as ->
    by reflexivity.
  rewrite strtoul_print, !strtoul_signed, strtoll_signed by lia.
  rewrite (wrap_small 32 mode) by lia. rewrite !strscpy_fit by (done || lia). cbn [original_path].
  by destruct path.
Qed.

(** What is read of a sidecar; without the file's [stat] its fallbacks. *)
Lemma read_written st :
  (∀ s, st = Some s → 0 ≤ st_uid s < 2 ^ 32 ∧ 0 ≤ st_gid s < 2 ^ 32) →
  read_quarantine_meta (Some (write_quarantine_meta st now path (Some rule) (Some sha))) =
    Some {| original_path := path;
            original_mode := match st with Some s => Z.land (st_mode s) 4095 | None => 384 end;
            original_uid := match st with Some s => st_uid s | None => 0 end;
            original_gid := match st with Some s => st_gid s | None => 0 end;
            timestamp := now; rule_name := rule; sha256_hex := sha |}.
Proof using All.
  intros Hst. rewrite write_lines. cbn [default]. destruct st as [st|].
  - destruct (Hst st eq_refl) as [Hu Hg]. rewrite read_lines; [|..|apply to_int_range|apply to_int_range].
    + by rewrite !u32_to_int, !wrap_small by done.
    + change 4095 with (Z.ones 12). rewrite Z.land_ones by lia. by apply Z.mod_pos_bound.
  - by rewrite read_lines by lia.
Qed.
End read_back.

(** A quarantine entry's sidecar is read back exactly: the path (unless
    it is empty), the permission bits, owner, group, time, rule and hash that
    were written, for all of them that fit their fields and stay on their own
    line.  (For a path with a newline this fails, see
    [QuarantineExamples.newline_sets_mode_and_owner].) *)
Theorem quarantine_meta_roundtrip st now path rule sha :
  0 ≤ st_uid st < 2 ^ 32 → 0 ≤ st_gid st < 2 ^ 32 → - 2 ^ 63 ≤ now < 2 ^ 63 →
  clean path → path ≠ [] → (length path < PATH_MAX)%nat →
  clean (default [] rule) → (length (default [] rule) < RULE_NAME_LEN)%nat →
  clean (default [] sha) → (length (default [] sha) < SHA256_LEN)%nat →
  read_quarantine_meta (Some (write_quarantine_meta (Some st) now path rule sha)) =
    Some {| original_path := path; original_mode := Z.land (st_mode st) 4095;
            original_uid := st_uid st; original_gid := st_gid st; timestamp := now;
            rule_name := default [] rule; sha256_hex := default [] sha |}.
Proof.
  intros Hu Hg Ht Hp Hpe Hpl Hr Hrl Hs Hsl.
  assert (write_quarantine_meta (Some st) now path rule sha =
    write_quarantine_meta (Some st) now path (Some (default [] rule)) (Some (default [] sha))) as ->
    by done.
  rewrite read_written by (done || by intros ? [= <-]). done.
Qed.

(** ** Examples *)

Module QuarantineExamples.

Definition st_user : stat :=
  {| st_dev := 1; st_ino := 7; st_mode := 33261; st_uid := 1000; st_gid := 1000; st_size := 20 |}.

(** A file name with newlines, written by its owner, sets the mode and the
    owner that the file will be restored with. *)
Definition evil : cstr :=
  cs "/home/u/x" ++ [LF] ++ cs "ORIGINAL_MODE=4755" ++ [LF] ++ cs "ORIGINAL_UID=0".

Example newline_sets_mode_and_owner :
  (λ m, (original_path m, original_mode m, original_uid m)) <$>
    read_quarantine_meta (Some (write_quarantine_meta (Some st_user) 1700000000 evil None None)) =
  Some (cs "/home/u/x", 2541, 0).
Proof. by vm_compute. Qed.

(** A directory name redirects the restore. *)
Example newline_redirects :
  original_path <$>
    read_quarantine_meta (Some (write_quarantine_meta (Some st_user) 1700000000
      (cs "/home/u/d" ++ [LF] ++ cs "ORIGINAL_PATH=/etc/cron.d/x") None None)) =
  Some (cs "/etc/cron.d/x").
Proof. by vm_compute. Qed.

Lemma quarantine_meta_roundtrip_witness :
  original_uid <$> read_quarantine_meta (Some (write_quarantine_meta (Some st_user) 1700000000
    (cs "/home/u/a b=c.sh") (Some (cs "Rule_X,Rule_Y")) None)) = Some 1000.
Proof.
  rewrite (quarantine_meta_roundtrip st_user 1700000000 (cs "/home/u/a b=c.sh")
    (Some (cs "Rule_X,Rule_Y")) None).
  - reflexivity.
  - simpl. lia.
  - simpl. lia.
  - lia.
  - apply clean_check_sound. reflexivity.
  - discriminate.
  - apply Nat.ltb_lt. by vm_compute.
  - apply clean_check_sound. reflexivity.
  - apply Nat.ltb_lt. by vm_compute.
  - apply clean_check_sound. reflexivity.
  - apply Nat.ltb_lt. by vm_compute.
Defined.
End QuarantineExamples.
