(* ===== verification/Trust.v ===== *)
(** * Directories the daemon relies on: userspace/avd/avd.c

    [trust_one_component] and [dir_hierarchy_trusted], the gate in front of the
    quarantine directory and of the control socket's parent, and the two
    functions that create those directories.  A return value 0 is [true]. *)

From Stdlib Require Import ZArith Lia Ascii String.
From stdpp Require Import prelude list gmap strings.
From S2P Require Import Prelude CString Posix.

Local Open Scope Z_scope.

Section trust.
Context {W : Type} `{!Posix W}.

Definition trust_one_component (euid : Z) (comp : cstr) (allow_sticky_ww : bool) (w : W) : bool :=
  match lstat comp w with
  | inl _ => false
  | inr st =>
      if S_ISLNK (st_mode st) then false
      else if negb (S_ISDIR (st_mode st)) then false
      else if negb (st_uid st =? euid) && negb (st_uid st =? 0) then false
      else if negb (Z.land (st_mode st) (Z.lor S_IWGRP S_IWOTH) =? 0) &&
              (negb allow_sticky_ww || (Z.land (st_mode st) S_ISVTX =? 0)) then false
      else true
  end.

(** [while (len > 1 && buf[len - 1] == '/')]. *)
Fixpoint strip_slashes (n : nat) (buf : cstr) : cstr :=
  match n with
  | O => buf
  | S n =>
      if (1 <? length buf)%nat && match last buf with Some a => aeqb a SLASH | None => false end
      then strip_slashes n (removelast buf) else buf
  end.

Definition slash_at (buf : cstr) (i : nat) : bool :=
  match buf !! i with Some a => aeqb a SLASH | None => false end.

(** The loop over [i], [n] more times. *)
Fixpoint trust_loop (euid : Z) (buf : cstr) (allow_sticky_ww : bool) (n i : nat) (w : W) : bool :=
  match n with
  | O => true
  | S n =>
      if slash_at buf i || (i =? length buf)%nat then
        let is_final := (i =? length buf)%nat in
        if (i =? 1)%nat || slash_at buf (i - 1)
        then trust_loop euid buf allow_sticky_ww n (S i) w
        else if trust_one_component euid (take i buf) (if is_final then allow_sticky_ww else true) w
        then trust_loop euid buf allow_sticky_ww n (S i) w
        else false
      else trust_loop euid buf allow_sticky_ww n (S i) w
  end.

Definition dir_hierarchy_trusted (euid : Z) (dir : cstr) (allow_sticky_ww : bool) (w : W) : bool :=
  if negb (slash_at dir 0) then false
  else if (PATH_MAX <=? length dir)%nat then false
  else
    let buf := strip_slashes (length dir) dir in
    if negb (trust_one_component euid [SLASH] true w) then false
    else trust_loop euid buf allow_sticky_ww (length buf) 1 w.

Definition ensure_quarantine_dir (euid : Z) (quarantine_dir : cstr) (w : W) : bool * W :=
  let '(r, w) := mkdir quarantine_dir 448 w in
  if negb (r =? 0) && negb (r =? EEXIST) then (false, w)
  else (dir_hierarchy_trusted euid quarantine_dir false w, w).

(** dirname(3). *)
Definition dirname (path : cstr) : cstr :=
  let p := strip_slashes (length path) path in
  match strrchr p SLASH with
  | None => [DOT]
  | Some rest => strip_slashes (length p) (take (length p - length rest + 1) p)
  end.

Definition ensure_parent_dir (euid : Z) (path : cstr) (mode : Z) (w : W) : bool * W :=
  if (PATH_MAX <=? length path)%nat then (false, w)
  else
    let dir := dirname path in
    let '(r, w) := mkdir dir mode w in
    if negb (r =? 0) && negb (r =? EEXIST) then (false, w)
    else (dir_hierarchy_trusted euid dir true w, w).

(** ** What the gate excludes *)

(** A user may create, rename and remove entries of a directory it owns or
    that others may write; in a sticky one it must own the directory or the
    entry (unlink(2), path_resolution(7)). *)
Definition may_write (u : Z) (d : stat) : Prop :=
  u = st_uid d ∨ Z.land (st_mode d) (Z.lor S_IWGRP S_IWOTH) ≠ 0.
Definition may_replace (u : Z) (d e : stat) : Prop :=
  may_write u d ∧ (Z.land (st_mode d) S_ISVTX = 0 ∨ u = st_uid d ∨ u = st_uid e).

(** What [trust_one_component] accepts. *)
Record component_ok (euid : Z) (sticky : bool) (st : stat) : Prop := {
  co_dir : S_ISDIR (st_mode st) = true;
  co_owner : st_uid st = euid ∨ st_uid st = 0;
  co_write : Z.land (st_mode st) (Z.lor S_IWGRP S_IWOTH) = 0 ∨
             sticky = true ∧ Z.land (st_mode st) S_ISVTX ≠ 0;
}.

Lemma trust_one_component_spec euid comp sticky w :
  trust_one_component euid comp sticky w = true ↔
  ∃ st, lstat comp w = inr st ∧ component_ok euid sticky st.
Proof.
  unfold trust_one_component. destruct (lstat comp w) as [e|st].
  { split; [done|by intros (?&?&?)]. }
  assert (S_ISDIR (st_mode st) = true → S_ISLNK (st_mode st) = false) as Hlnk.
  { unfold S_ISDIR, S_ISLNK. intros ->%Z.eqb_eq. done. }
  split.
  - intros Ht. exists st. split; [done|].
    destruct (S_ISLNK (st_mode st)); [done|]. destruct (S_ISDIR (st_mode st)) eqn:?; [|done].
    destruct (Z.eqb_spec (st_uid st) euid), (Z.eqb_spec (st_uid st) 0); try done;
      (destruct (Z.eqb_spec (Z.land (st_mode st) (Z.lor S_IWGRP S_IWOTH)) 0); [by constructor; auto|]);
      destruct sticky, (Z.eqb_spec (Z.land (st_mode st) S_ISVTX) 0); try done; constructor; auto.
  - intros (?&[= <-]&[Hd Ho Hw]). rewrite Hlnk, Hd by done. simpl.
    assert (negb (st_uid st =? euid) && negb (st_uid st =? 0) = false) as ->.
    { destruct Ho as [-> | ->]; rewrite ?Z.eqb_refl, ?andb_false_r; done. }
    destruct Hw as [-> | [-> Hs%Z.eqb_neq]]; [done|]. by rewrite Hs, andb_false_r.
Qed.

Lemma not_replaceable euid u sticky d e :
  component_ok euid true d → component_ok euid sticky e → u ≠ 0 → u ≠ euid → ¬ may_replace u d e.
Proof.
  intros [_ Ho Hw] [_ Ho' _] Hu Hu' [[Hm|Hm] Hs]; [destruct Ho; congruence|].
  destruct Hw as [?|[_ ?]]; [done|]. destruct Hs as [|[|]], Ho, Ho'; congruence.
Qed.

Lemma not_writable euid u e :
  component_ok euid false e → u ≠ 0 → u ≠ euid → ¬ may_write u e.
Proof. intros [_ Ho [?|[]]] Hu Hu' [Hm|Hm]; [destruct Ho; congruence|done|done..]. Qed.

(** ** The components of the path *)

Definition slashes (s : cstr) : Prop := Forall (λ a, a = SLASH) s.

Lemma last_slash buf :
  match last buf with Some a => aeqb a SLASH | None => false end = true ↔
  ∃ b, buf = b ++ [SLASH].
Proof.
  split.
  - destruct (last buf) as [a|] eqn:Hl; [|done]. intros ->%aeqb_eq.
    apply last_Some in Hl as [b ->]. by exists b.
  - intros [b ->]. by rewrite last_snoc, aeqb_refl.
Qed.

Lemma strip_slashes_spec n dir :
  (length dir ≤ n)%nat → dir ≠ [] →
  ∃ sl, dir = strip_slashes n dir ++ sl ∧ slashes sl ∧
    (length (strip_slashes n dir) = 1%nat ∨
     ∃ b a, strip_slashes n dir = b ++ [a] ∧ a ≠ SLASH).
Proof.
  revert dir. induction n as [|n IH]; intros dir Hl Hne.
  { destruct dir; [done|simpl in Hl; lia]. }
  cbn [strip_slashes]. destruct ((1 <? length dir)%nat) eqn:H1; cbn [andb].
  2: { exists []. rewrite app_nil_r. split_and!; [done|constructor|]. left.
       apply Nat.ltb_ge in H1. destruct dir as [|? [|]]; simpl in *; [done|done|lia]. }
  apply Nat.ltb_lt in H1.
  destruct (match last dir with Some a => aeqb a SLASH | None => false end) eqn:Hs.
  - apply last_slash in Hs as [b ->]. rewrite removelast_last. rewrite length_app in *. simpl in *.
    destruct (IH b) as (sl & He & Hsl & Hend); [lia|destruct b; simpl in *; [lia|done]|].
    exists (sl ++ [SLASH]). rewrite (assoc_L (++)), <- He. split_and!; [done| |done].
    apply Forall_app. split; [done|by repeat constructor].
  - exists []. rewrite app_nil_r. split_and!; [done|constructor|]. right.
    destruct dir as [|a dir] using rev_ind; [done|]. exists dir, a. split; [done|].
    intros ->. rewrite last_snoc, aeqb_refl in Hs. done.
Qed.

Lemma trust_loop_spec euid buf allow w n i :
  trust_loop euid buf allow n i w = true →
  ∀ j, (i ≤ j < i + n)%nat → slash_at buf j || (j =? length buf)%nat = true →
    (j =? 1)%nat || slash_at buf (j - 1) = false →
    trust_one_component euid (take j buf) (if (j =? length buf)%nat then allow else true) w = true.
Proof.
  revert i. induction n as [|n IH]; intros i Hl j Hj Hb Hc; [lia|]. cbn [trust_loop] in Hl.
  destruct (decide (j = i)) as [->|].
  - rewrite Hb, Hc in Hl. by destruct (trust_one_component _ _ _ _).
  - apply (IH (S i)); [|lia|done..].
    destruct (slash_at buf i || (i =? length buf)%nat); [|done].
    destruct ((i =? 1)%nat || slash_at buf (i - 1)); [done|].
    by destruct (trust_one_component _ _ _ _).
Qed.

(** [d ++ s ++ c]: a directory on the way, [c] its name, [d] its parent. *)
Record on_path (dir d s c post : cstr) : Prop := {
  op_dir : dir = d ++ s ++ c ++ post;
  op_slashes : s ≠ [] ∧ slashes s;
  op_parent : d = [] ∨ ∃ b a, d = b ++ [a] ∧ a ≠ SLASH;
  op_name : c ≠ [] ∧ Forall (λ a, a ≠ SLASH) c;
  op_post : post = [] ∨ ∃ rest, post = SLASH :: rest;
}.

Lemma slash_at_snoc (b : cstr) a rest : slash_at (b ++ a :: rest) (length b) = aeqb a SLASH.
Proof. unfold slash_at. by rewrite list_lookup_middle by done. Qed.

Lemma strip_keeps (t sl b : cstr) a post :
  t ++ sl = (b ++ [a]) ++ post → slashes sl → a ≠ SLASH → ∃ post', t = (b ++ [a]) ++ post' ∧ post = post' ++ sl.
Proof.
  intros He Hs Ha. apply app_eq_inv in He as [(k & -> & ->)|(k & He & ->)]; [by eauto|].
  destruct k as [|x k]; [exists []; by rewrite app_nil_r in *|].
  apply Forall_app in Hs as [Hs _]. destruct k as [|y k _] using rev_ind.
  - apply app_inj_tail in He as [_ <-]. inversion Hs. congruence.
  - rewrite app_comm_cons, (assoc_L (++)) in He. apply app_inj_tail in He as [_ <-].
    apply Forall_cons in Hs as [_ [_ Hs]%Forall_app]. inversion Hs. congruence.
Qed.

Lemma snoc_cases {A} (l : list A) : l ≠ [] → ∃ l' x, l = l' ++ [x].
Proof. destruct l as [|x l] using rev_ind; [done|eauto]. Qed.

(** A directory of the path has been checked, as an ancestor unless only
    slashes follow. *)
Lemma trusted_component euid dir allow w b a post :
  dir_hierarchy_trusted euid dir allow w = true →
  dir = (b ++ [a]) ++ post → a ≠ SLASH → post = [] ∨ (∃ rest, post = SLASH :: rest) → b ≠ [] →
  ∃ sticky st, lstat (b ++ [a]) w = inr st ∧ component_ok euid sticky st ∧
    (slashes post → sticky = allow) ∧ (¬ slashes post → sticky = true).
Proof.
  unfold dir_hierarchy_trusted. intros Ht He Ha Hp Hb.
  destruct (slash_at dir 0) eqn:Habs; [|done]. cbn [negb] in Ht.
  destruct (PATH_MAX <=? length dir)%nat; [done|].
  destruct (strip_slashes_spec (length dir) dir) as (sl & Hdir & Hsl & Hend); [done|by destruct dir|].
  set (t := strip_slashes (length dir) dir) in *.
  destruct (trust_one_component euid [SLASH] true w); [|done]. cbn [negb] in Ht.
  rewrite Hdir in He. apply strip_keeps in He as (post' & Htt & ->); [|done..].
  assert (slash_at t (length (b ++ [a])) || (length (b ++ [a]) =? length t)%nat = true ∧
          ((length (b ++ [a]) =? length t)%nat = true ↔ post' = [])) as [Hbd Hfin].
  { rewrite Htt. destruct post' as [|x post'].
    - by rewrite app_nil_r, Nat.eqb_refl, orb_true_r.
    - destruct Hp as [?|[rest [= -> ?]]]; [done|].
      split; [by rewrite slash_at_snoc, aeqb_refl|].
      split; [|done]. intros Hl%Nat.eqb_eq. rewrite !length_app in Hl. simpl in Hl. lia. }
  assert (slashes (post' ++ sl) → post' = []) as Hall.
  { intros [Hall _]%Forall_app. destruct post' as [|x post' _] using rev_ind; [done|exfalso].
    destruct Hend as [Hl|(b' & a' & Hb' & Ha')].
    - rewrite Htt, !length_app in Hl. simpl in Hl. lia.
    - rewrite Htt, (assoc_L (++)) in Hb'. apply app_inj_tail in Hb' as [_ ->].
      apply Forall_app in Hall as [_ Hall]. inversion Hall. congruence. }
  pose proof (trust_loop_spec _ _ _ _ _ _ Ht (length (b ++ [a]))) as Hc.
  assert (take (length (b ++ [a])) t = b ++ [a]) as Htake by (rewrite Htt; apply take_app_length).
  rewrite Htake in Hc.
  assert ((length (b ++ [a]) =? 1)%nat || slash_at t (length (b ++ [a]) - 1) = false) as Hprev.
  { rewrite length_app. simpl. apply orb_false_iff. split.
    - apply Nat.eqb_neq. destruct b; [done|simpl; lia].
    - replace (length b + 1 - 1)%nat with (length b) by lia. rewrite Htt, <- (assoc_L (++)).
      cbn [app]. rewrite slash_at_snoc. by apply aeqb_neq. }
  apply (trust_one_component_spec euid (b ++ [a])) in Hc as (st & Hst & Hok); [| |done|done].
  2: { rewrite Htt. rewrite !length_app. simpl. destruct b; simpl; lia. }
  eexists _, st. split; [exact Hst|]. split; [exact Hok|].
  destruct (length (b ++ [a]) =? length t)%nat; split; [done| |intros Hps|done].
  - intros Hn. destruct Hn. by rewrite (proj1 Hfin).
  - by apply Hall, Hfin in Hps.
Qed.

Lemma trusted_root euid dir allow w :
  dir_hierarchy_trusted euid dir allow w = true →
  slash_at dir 0 = true ∧ ∃ st, lstat [SLASH] w = inr st ∧ component_ok euid true st.
Proof.
  unfold dir_hierarchy_trusted. intros Ht.
  destruct (slash_at dir 0); [|done]. destruct (PATH_MAX <=? length dir)%nat; [done|].
  split; [done|]. apply trust_one_component_spec.
  by destruct (trust_one_component euid [SLASH] true w).
Qed.

(** Conversely, a path is accepted when all its directories are. *)
Lemma trust_loop_complete euid buf allow w n i :
  (∀ j, (i ≤ j < i + n)%nat → slash_at buf j || (j =? length buf)%nat = true →
    (j =? 1)%nat || slash_at buf (j - 1) = false →
    trust_one_component euid (take j buf) (if (j =? length buf)%nat then allow else true) w = true) →
  trust_loop euid buf allow n i w = true.
Proof.
  revert i. induction n as [|n IH]; intros i Hj; [done|]. cbn [trust_loop].
  assert (trust_loop euid buf allow n (S i) w = true) as Hn by (apply IH; intros; apply Hj; [lia|done..]).
  rewrite Hn. destruct (slash_at buf i || (i =? length buf)%nat) eqn:Hb; [|done].
  destruct ((i =? 1)%nat || slash_at buf (i - 1)) eqn:Hc; [done|]. by rewrite Hj by (lia || done).
Qed.

(** The last name of a path. *)
Lemma split_name (x : cstr) a :
  a ≠ SLASH → head (x ++ [a]) = Some SLASH →
  ∃ d s c, x ++ [a] = d ++ s ++ c ∧ s ≠ [] ∧ slashes s ∧ (d = [] ∨ ∃ b a, d = b ++ [a] ∧ a ≠ SLASH) ∧
    c ≠ [] ∧ Forall (λ a, a ≠ SLASH) c.
Proof.
  revert a. induction x as [|y x IH] using rev_ind; intros a Ha Hh; [simpl in Hh; congruence|].
  destruct (decide (y = SLASH)) as [->|Hy].
  - assert (∃ d s, x ++ [SLASH] = d ++ s ∧ s ≠ [] ∧ slashes s ∧
              (d = [] ∨ ∃ b a, d = b ++ [a] ∧ a ≠ SLASH)) as (d & s & He & Hs & Hsl & Hd).
    { clear IH Hh. induction x as [|z x IHx] using rev_ind.
      - exists [], [SLASH]. split_and!; [done..|by repeat constructor|by left].
      - destruct (decide (z = SLASH)) as [->|Hz].
        + destruct IHx as (d & s & -> & Hs & Hsl & Hd). exists d, (s ++ [SLASH]).
          rewrite (assoc_L (++)). split_and!; [done|by destruct s| |done].
          apply Forall_app. split; [done|by repeat constructor].
        + exists (x ++ [z]), [SLASH]. split_and!; [done..|by repeat constructor|]. right. eauto. }
    exists d, s, [a]. rewrite He, <- (assoc_L (++)). split_and!; [done..|by repeat constructor].
  - assert (head (x ++ [y]) = Some SLASH) as Hh'.
    { destruct x as [|z x]; simpl in Hh |- *; [|done]. congruence. }
    destruct (IH y Hy Hh') as (d & s & c & He & ? & ? & ? & ? & ?).
    exists d, s, (c ++ [a]). rewrite He, <- !(assoc_L (++)). split_and!; [done..| |].
    + by destruct c.
    + apply Forall_app. split; [done|by repeat constructor].
Qed.

Lemma trusted_complete euid dir allow w st0 :
  slash_at dir 0 = true → (length dir < PATH_MAX)%nat →
  lstat [SLASH] w = inr st0 → component_ok euid true st0 →
  (∀ d s c post sticky, on_path dir d s c post → (slashes post → sticky = allow) →
    (¬ slashes post → sticky = true) →
    ∃ st, lstat (d ++ s ++ c) w = inr st ∧ component_ok euid sticky st) →
  dir_hierarchy_trusted euid dir allow w = true.
Proof.
  intros Habs Hlen H0 Hok0 Hall. unfold dir_hierarchy_trusted. rewrite Habs. cbn [negb].
  rewrite (proj2 (Nat.leb_gt _ _)) by done.
  rewrite (proj2 (trust_one_component_spec euid [SLASH] true w)) by eauto. cbn [negb].
  destruct (strip_slashes_spec (length dir) dir) as (sl & Hdir & Hsl & Hend); [done|by destruct dir|].
  set (t := strip_slashes (length dir) dir) in *.
  apply trust_loop_complete. intros j Hj Hb Hc. apply trust_one_component_spec.
  apply orb_false_iff in Hc as [Hj1%Nat.eqb_neq Hprev].
  destruct (lookup_lt_is_Some_2 t (j - 1)) as [a Ha]; [lia|].
  unfold slash_at in Hprev. rewrite Ha in Hprev. apply aeqb_neq in Hprev.
  assert (t = (take (j - 1) t ++ [a]) ++ drop j t) as Ht.
  { rewrite <- (assoc_L (++)). rewrite <- (take_drop_middle t (j - 1) a Ha) at 1.
    do 3 f_equal. lia. }
  assert (take j t = take (j - 1) t ++ [a]) as Htake.
  { rewrite Ht at 1. apply take_app_length'. rewrite length_app, length_take_le by lia. simpl. lia. }
  destruct (split_name (take (j - 1) t) a) as (d & s & c & Hds & Hs & Hss & Hd & Hcn & Hns); [done| |].
  { unfold slash_at in Habs. rewrite Hdir, Ht in Habs. destruct (take (j - 1) t) as [|y l] eqn:Hy.
    - apply (f_equal length) in Hy. rewrite length_take_le in Hy by lia. simpl in Hy. lia.
    - cbn in Habs |- *. apply aeqb_eq in Habs. by rewrite Habs. }
  rewrite Htake, Hds. apply (Hall d s c (drop j t ++ sl)).
  - constructor; [|done..|].
    + rewrite Hdir at 1. rewrite Ht at 1. rewrite Hds. by rewrite <- !(assoc_L (++)).
    + destruct (drop j t) as [|y l] eqn:Hdr; [destruct sl as [|y l]; [by left|right]|right].
      * apply Forall_cons in Hsl as [-> _]. by exists l.
      * assert (t !! j = Some y) as Hy by (rewrite <- (Nat.add_0_r j), <- lookup_drop, Hdr; done).
        unfold slash_at in Hb. rewrite Hy in Hb. apply lookup_lt_Some in Hy.
        rewrite (proj2 (Nat.eqb_neq j (length t))), orb_false_r in Hb by lia.
        apply aeqb_eq in Hb as ->. by exists (l ++ sl).
  - intros [Hps _]%Forall_app. destruct (Nat.eqb_spec j (length t)) as [|Hne]; [done|exfalso].
    destruct Hend as [?|(b & x & Hb' & Hx)]; [lia|].
    assert (drop j t !! (length t - 1 - j)%nat = Some x) as Hlast.
    { rewrite lookup_drop. replace (j + (length t - 1 - j))%nat with (length t - 1)%nat by lia.
      rewrite Hb', length_app. simpl. rewrite Nat.add_sub. by apply list_lookup_middle. }
    apply Hx. by eapply (Forall_lookup_1 _ _ _ _ Hps).
  - intros Hns'. destruct (Nat.eqb_spec j (length t)) as [->|]; [|done]. destruct Hns'.
    by rewrite drop_all.
Qed.

(** C29: once a path has passed the gate, no user but root and the daemon's
    own can rename, remove or replace any directory on the way from the root
    to it, each of which is a real directory; and in a directory that must not
    be shared (the quarantine) no such user can even create an entry.  The
    gate is no stricter than its rules: an absolute path whose directories
    all satisfy them passes. *)
Theorem hierarchy_secure euid dir allow w :
  (dir_hierarchy_trusted euid dir allow w = true →
   ∀ u d s c post, u ≠ 0 → u ≠ euid → on_path dir d s c post →
    ∃ sd sc, lstat (match d with [] => [SLASH] | _ => d end) w = inr sd ∧
      lstat (d ++ s ++ c) w = inr sc ∧
      S_ISDIR (st_mode sd) = true ∧ S_ISDIR (st_mode sc) = true ∧ ¬ may_replace u sd sc ∧
      (slashes post → allow = false → ¬ may_write u sc)) ∧
  (slash_at dir 0 = true → (length dir < PATH_MAX)%nat →
   (∃ st, lstat [SLASH] w = inr st ∧ component_ok euid true st) →
   (∀ d s c post sticky, on_path dir d s c post → (slashes post → sticky = allow) →
     (¬ slashes post → sticky = true) →
     ∃ st, lstat (d ++ s ++ c) w = inr st ∧ component_ok euid sticky st) →
   dir_hierarchy_trusted euid dir allow w = true).
Proof.
  split; [|intros ?? (st0 & ? & ?) ?; by eapply trusted_complete].
  intros Ht u d s c post Hu Hu' [Hdir [Hs Hsl] Hd [Hc Hns] Hpost].
  assert (∃ sd, lstat (match d with [] => [SLASH] | _ => d end) w = inr sd ∧
            component_ok euid true sd) as (sd & Hsd & Hokd).
  { destruct Hd as [->|(b & a & -> & Ha)]; [by apply trusted_root in Ht as [_ ?]|].
    destruct s as [|x s]; [done|]. apply Forall_cons in Hsl as [-> Hsl].
    destruct (decide (b = [])) as [->|Hb].
    { exfalso. apply trusted_root in Ht as [Ht _]. rewrite Hdir in Ht. cbn in Ht.
      by apply aeqb_eq in Ht. }
    destruct (trusted_component _ _ _ _ b a _ Ht Hdir Ha) as (sticky & st & Hst & Hok & Hsticky);
      [right; eauto|done|].
    exists st. split; [by destruct b|].
    rewrite (proj2 Hsticky) in Hok; [done|].
    destruct c as [|x c]; [done|]. apply Forall_cons in Hns as [Hx _].
    intros [_ [_ Hall]%Forall_app]%Forall_cons. inversion Hall. congruence. }
  destruct (snoc_cases c Hc) as (c' & a & ->). apply Forall_app in Hns as [_ Ha].
  apply Forall_cons in Ha as [Ha _].
  destruct (trusted_component euid dir allow w (d ++ s ++ c') a post) as (sticky & sc & Hsc & Hok & Hst);
    [done|by rewrite Hdir, <- !(assoc_L (++))|done|done|by destruct d, s|].
  exists sd, sc. split; [done|]. split; [by rewrite <- !(assoc_L (++)) in Hsc|].
  split; [apply Hokd|]. split; [apply Hok|]. split; [by eapply not_replaceable|].
  intros Hps ->. rewrite (proj1 Hst Hps) in Hok. by eapply not_writable.
Qed.

End trust.

(** ** Examples *)

Module TrustExamples.
Import ToyFs.

Definition dir_node (perm uid : Z) : inode :=
  {| i_mode := Z.lor S_IFDIR perm; i_uid := uid; i_gid := uid; i_data := [] |}.

Definition disk : toy := boot [
  (cs "/", ((0, 1), dir_node 493 0));
  (cs "/var", ((0, 2), dir_node 493 0));
  (cs "/var/lib", ((0, 3), dir_node 493 0));
  (cs "/var/lib/avq", ((0, 4), dir_node 448 0));
  (cs "/tmp", ((0, 5), dir_node 1023 0));
  (cs "/tmp/x", ((0, 6), dir_node 493 1000));
  (cs "/tmp/x/q", ((0, 7), dir_node 448 0));
  (cs "/tmp/q", ((0, 8), dir_node 448 0));
  (cs "/tmp/l", ((0, 9), {| i_mode := Z.lor S_IFLNK 511; i_uid := 0; i_gid := 0;
                            i_data := cs "/etc" |}))].

Example gate_default : dir_hierarchy_trusted 0 (cs "/var/lib/avq") false disk = true.
Proof. by vm_compute. Qed.
Example gate_sticky_ancestor : dir_hierarchy_trusted 0 (cs "/tmp/q//") false disk = true.
Proof. by vm_compute. Qed.
Example gate_sticky_final : dir_hierarchy_trusted 0 (cs "/tmp") false disk = false.
Proof. by vm_compute. Qed.
Example gate_owned_ancestor : dir_hierarchy_trusted 0 (cs "/tmp/x/q") false disk = false.
Proof. by vm_compute. Qed.
Example gate_symlink : dir_hierarchy_trusted 0 (cs "/tmp/l/q") true disk = false.
Proof. by vm_compute. Qed.
Example gate_relative : dir_hierarchy_trusted 0 (cs "var/lib") true disk = false.
Proof. by vm_compute. Qed.
Example parent_of_socket : dirname (cs "/run/avd//control.sock") = cs "/run/avd".
Proof. by vm_compute. Qed.

(** "/tmp/q" in the sticky "/tmp": another user can neither move it nor put
    anything into it. *)
Lemma hierarchy_secure_witness :
  ∃ sd sc, lstat (cs "/tmp") disk = inr sd ∧ lstat (cs "/tmp/q") disk = inr sc ∧
    may_write 1000 sd ∧ ¬ may_replace 1000 sd sc ∧ ¬ may_write 1000 sc.
Proof.
  assert (dir_hierarchy_trusted 0 (cs "/tmp/q") false disk = true) as Hg by (vm_compute; reflexivity).
  destruct (proj1 (hierarchy_secure 0 (cs "/tmp/q") false disk) Hg 1000
    (cs "/tmp") (cs "/") (cs "q") []) as (sd & sc & Hsd & Hsc & _ & _ & Hr & Hw).
  - done.
  - done.
  - constructor.
    + by vm_compute.
    + split; [done|]. by repeat constructor.
    + right. exists (cs "/tm"), "p"%char. by vm_compute.
    + split; [done|]. by repeat constructor.
    + by left.
  - exists sd, sc. split; [exact Hsd|]. split; [exact Hsc|]. split; [|split; [exact Hr|]].
    + assert (lstat (cs "/tmp") disk = inr (stat_of (0, 5) (dir_node 1023 0))) as He
        by (by vm_compute).
      pose proof (eq_trans (eq_sym He) Hsd) as Hi. injection Hi as <-. right. discriminate.
    + apply Hw; [constructor|done].
Defined.

End TrustExamples.
