(* ===== verification/QuarantineOps.v ===== *)
(** * Into and out of quarantine: userspace/avd/avd.c

    [quarantine_file] and the two commands that undo it, on the file system of
    Posix.  What they print is their outcome.  The names chosen for the copy
    and its sidecar embed the daemon's pid and the clock. *)

From Stdlib Require Import ZArith Lia Ascii String.
From stdpp Require Import prelude list gmap strings.
From S2P Require Import Prelude CString CText Posix Quarantine Trust.

Local Open Scope Z_scope.

(** What the process and its clocks answer. *)
Record env := {
  quarantine_dir : cstr; geteuid : Z; getpid : Z; tv_sec : Z; tv_nsec : Z; time_now : Z;
}.

(** "%09ld" of a number below 10^9. *)
Definition print_9 (n : Z) : cstr :=
  let d := print_unsigned 10 n in replicate (9 - length d) (chr 48) ++ d.

Definition base_name (path : cstr) : cstr :=
  match strrchr path SLASH with Some slash => tail slash | None => path end.

(** The entry's id, and the paths made from it. *)
Definition quarantine_id (e : env) (path : cstr) : cstr :=
  print_signed (getpid e) ++ cs "_" ++ print_signed (tv_sec e) ++ print_9 (tv_nsec e) ++ cs "_" ++
  base_name path.
Definition dest_path (e : env) (id : cstr) : cstr :=
  quarantine_dir e ++ cs "/" ++ id ++ cs ".quarantined".
Definition meta_path (dest : cstr) : cstr := dest ++ cs ".meta".

Inductive quarantine_log :=
  | DirRefused | DestTooLong | CopyFailed | ChmodFailed | FstatFailed | PathChanged | UnlinkFailed
  | Quarantined (linked : bool).

Inductive reply := ReplyOk | ReplyErr (msg : cstr).

Section ops.
Context {W : Type} `{!Posix W}.

Fixpoint copy_loop (out_fd : inum) (chunks : list (option cstr)) (w : W) : bool * W :=
  match chunks with
  | [] | Some [] :: _ => (true, w)
  | None :: _ => (false, w)
  | Some buf :: chunks =>
      let '(n, w) := write out_fd buf w in
      if n =? Z.of_nat (length buf) then copy_loop out_fd chunks w else (false, w)
  end.

Definition copy_fd_to (fd : inum) (dst : cstr) (w : W) : bool * W :=
  if negb (lseek fd w) then (false, w)
  else
    let '(out, w) := open_excl dst 384 w in
    match out with
    | None => (false, w)
    | Some out_fd =>
        let '(ok, w) := copy_loop out_fd (reads fd w) w in
        if ok then (true, w) else (false, (unlink dst w).2)
    end.

(** [write_quarantine_meta]: the file around the lines. *)
Definition write_meta_file (dest : cstr) (orig_st : option stat) (now : Z) (orig_path : cstr)
    (rule_name sha256_hex : option cstr) (w : W) : bool * W :=
  if (PATH_MAX + 8 <=? length (meta_path dest))%nat then (false, w)
  else
    let '(mfd, w) := open_excl (meta_path dest) 384 w in
    match mfd with
    | None => (false, w)
    | Some f =>
        let '(ok, w) :=
          fprintf_fclose f (write_quarantine_meta orig_st now orig_path rule_name sha256_hex) w in
        if ok then (true, w) else (false, (unlink (meta_path dest) w).2)
    end.

(** The outcome, and whether the sidecar was written. *)
Definition quarantine_file (e : env) (fd : inum) (path : cstr) (rule_name sha256_hex : option cstr)
    (w : W) : quarantine_log * bool * W :=
  let '(ok, w) := ensure_quarantine_dir (geteuid e) (quarantine_dir e) w in
  if negb ok then (DirRefused, false, w)
  else
    let orig_st := fstat fd w in
    let dest := dest_path e (quarantine_id e path) in
    if (PATH_MAX <=? length dest)%nat then (DestTooLong, false, w)
    else
      let '(r, w) := linkat fd dest w in
      let linked := r =? 0 in
      let '(have, w) := if linked then (true, w) else copy_fd_to fd dest w in
      if negb have then (CopyFailed, false, w)
      else
        let '(meta, w) := write_meta_file dest orig_st (time_now e) path rule_name sha256_hex w in
        let '(r, w) := chmod dest 0 w in
        if negb (r =? 0) then (ChmodFailed, meta, (unlink dest w).2)
        else
          match fstat fd w with
          | None => (FstatFailed, meta, w)
          | Some fd_st =>
              match lstat path w with
              | inl _ => (PathChanged, meta, w)
              | inr now_st =>
                  if negb (st_dev now_st =? st_dev fd_st) || negb (st_ino now_st =? st_ino fd_st)
                  then (PathChanged, meta, w)
                  else
                    let '(r, w) := unlink path w in
                    if negb (r =? 0) then (UnlinkFailed, meta, w) else (Quarantined linked, meta, w)
              end
          end.

(** The reply, and whether the owner could be restored. *)
Definition cmd_quarantine_restore (e : env) (id : cstr) (w : W) : reply * bool * W :=
  if negb (quarantine_id_valid id) then (ReplyErr (cs "invalid id"), false, w)
  else
    let dest := dest_path e id in
    if (PATH_MAX * 2 <=? length dest)%nat then (ReplyErr (cs "internal path error"), false, w)
    else if (PATH_MAX * 2 + 8 <=? length (meta_path dest))%nat
    then (ReplyErr (cs "internal path error"), false, w)
    else
      match read_quarantine_meta (fopen (meta_path dest) w) with
      | None =>
          (ReplyErr (cs "no metadata for this id (quarantined before this feature existed, or corrupt) - cannot determine where to restore it"),
           false, w)
      | Some meta =>
          match open_nofollow dest w with
          | None => (ReplyErr (cs "quarantined file not found"), false, w)
          | Some qfd =>
              if negb match fstat qfd w with Some st => S_ISREG (st_mode st) | None => false end
              then (ReplyErr (cs "quarantined file is not a regular file - refusing to restore"),
                    false, w)
              else
                match lstat (original_path meta) w with
                | inr _ =>
                    (ReplyErr (cs "original path is occupied - move or remove it first"), false, w)
                | inl _ =>
                    let '(r, w) := fchmod qfd (original_mode meta) w in
                    if negb (r =? 0) then (ReplyErr (cs "chmod failed"), false, w)
                    else
                      let '(c, w) := fchown qfd (original_uid meta) (original_gid meta) w in
                      let '(r, w) := rename dest (original_path meta) w in
                      if negb (r =? 0)
                      then (ReplyErr (cs "rename failed (different filesystem? check /var/lib/av-quarantine manually)"),
                            c =? 0, w)
                      else (ReplyOk, c =? 0, (unlink (meta_path dest) w).2)
                end
          end
      end.

Definition cmd_quarantine_delete (e : env) (id : cstr) (w : W) : reply * W :=
  if negb (quarantine_id_valid id) then (ReplyErr (cs "invalid id"), w)
  else
    let dest := dest_path e id in
    if (PATH_MAX * 2 <=? length dest)%nat then (ReplyErr (cs "internal path error"), w)
    else if (PATH_MAX * 2 + 8 <=? length (meta_path dest))%nat
    then (ReplyErr (cs "internal path error"), w)
    else
      let '(r, w) := unlink dest w in
      if negb (r =? 0) && negb (r =? ENOENT) then (ReplyErr (cs "delete failed"), w)
      else (ReplyOk, (unlink (meta_path dest) w).2).

(** ** What the steps keep *)

(** Every file that had a name keeps it, and is as it was. *)
Definition frame (f f' : fs) : Prop :=
  ∀ k i n, entries f !! k = Some i → nodes f !! i = Some n →
    entries f' !! k = Some i ∧ nodes f' !! i = Some n.

(** The same, but that [fd] may have lost its permission bits. *)
Definition spares (fd : inum) (f f' : fs) : Prop :=
  ∀ k i n, entries f !! k = Some i → nodes f !! i = Some n →
    entries f' !! k = Some i ∧
    (nodes f' !! i = Some n ∨ i = fd ∧ nodes f' !! i = Some (with_perm 0 n)).

(** No name is new, but for those in [made]. *)
Definition adds (made : cstr → Prop) (f f' : fs) : Prop :=
  ∀ k, is_Some (entries f' !! k) → made k ∨ is_Some (entries f !! k).

#[local] Instance frame_preorder : PreOrder frame.
Proof.
  split; [by intros f k i n|]. intros f g h H1 H2 k i n Hk Hn.
  destruct (H1 _ _ _ Hk Hn). by apply H2.
Qed.

#[local] Instance adds_preorder made : PreOrder (adds made).
Proof.
  split; [by intros f k ?; right|]. intros f g h H1 H2 k Hk.
  destruct (H2 k Hk); [by left|by apply H1].
Qed.

Lemma adds_same made f f' : entries f' = entries f → adds made f f'.
Proof. intros He k. rewrite He. by right. Qed.

Lemma adds_entry (made : cstr → Prop) k i f f' :
  made k → entries f' = entries f → adds made f (set_entry k i f').
Proof.
  intros Hk He j [x Hj]. unfold set_entry in Hj. simpl in Hj. rewrite He in Hj.
  destruct (decide (j = k)) as [->|]; [by left|right]. rewrite lookup_insert_ne in Hj by done. by exists x.
Qed.

Lemma adds_unlink made p w r w' : unlink p w = (r, w') → adds made (view w) (view w').
Proof.
  intros [_ Hu]%unlink_ok. destruct (r =? 0); [|by rewrite Hu].
  destruct Hu as (_ & He & _). intros k [x Hk]. right. rewrite He in Hk.
  apply lookup_delete_Some in Hk as [_ Hk]. by exists x.
Qed.

Lemma adds_rename (made : cstr → Prop) p q w r w' :
  made (key q) → rename p q w = (r, w') → adds made (view w) (view w').
Proof.
  intros Hq Hr%rename_ok. destruct (r =? 0); [|by rewrite Hr].
  destruct Hr as (j & _ & _ & He). intros k [x Hk]. rewrite He in Hk. case_decide; [right; by exists x|].
  destruct (decide (k = key q)) as [->|]; [by left|]. rewrite lookup_insert_ne in Hk by done.
  apply lookup_delete_Some in Hk as [_ Hk]. right. by exists x.
Qed.

Lemma frame_spares fd f g : frame f g → spares fd f g.
Proof. intros Hf k i n Hk Hn. destruct (Hf _ _ _ Hk Hn). auto. Qed.

Lemma frame_fresh f k i n :
  entries f !! k = None → nodes f !! i = None → frame f (set_entry k i (set_node i n f)).
Proof.
  intros Hk Hi k' i' n' Hk' Hi'. unfold set_entry, set_node. simpl.
  by rewrite !lookup_insert_ne by congruence.
Qed.

Lemma frame_link f k i : entries f !! k = None → frame f (set_entry k i f).
Proof. intros Hk k' i' n' Hk' Hi'. unfold set_entry. simpl. by rewrite lookup_insert_ne by congruence. Qed.

(** Removing an entry made since [f]. *)
Lemma unlink_frame f p w r w' :
  entries f !! key p = None → frame f (view w) → unlink p w = (r, w') → frame f (view w').
Proof.
  intros Hp Hf Hu k i n Hk Hn. destruct (Hf _ _ _ Hk Hn) as [Hk' Hn'].
  apply unlink_ok in Hu as [_ Hu]. destruct (r =? 0); [|by rewrite Hu].
  destruct Hu as (_ & He & Hkeep).
  assert (entries (view w') !! k = Some i) as Hk2 by (rewrite He, lookup_delete_ne; congruence).
  split; [done|]. by rewrite (Hkeep k i).
Qed.

Lemma ensure_dir_frame (made : cstr → Prop) euid dir w ok w' :
  made (key dir) → ensure_quarantine_dir euid dir w = (ok, w') →
  frame (view w) (view w') ∧ adds made (view w) (view w') ∧
  ∀ i n, nodes (view w) !! i = Some n → nodes (view w') !! i = Some n.
Proof.
  unfold ensure_quarantine_dir. destruct (mkdir dir 448 w) as [r w1] eqn:Hm. intros Hmade He.
  assert (w' = w1) as -> by (destruct (_ && _) in He; by simplify_eq).
  apply mkdir_ok in Hm as [->|(_ & Hk & i & n & Hi & ->)]; [by split_and!|].
  split_and!; [by apply frame_fresh|by apply adds_entry|]. intros j m Hj.
  unfold set_entry, set_node. simpl. by rewrite lookup_insert_ne by congruence.
Qed.

Lemma copy_loop_spec out chunks w ok w' no :
  copy_loop out chunks w = (ok, w') → nodes (view w) !! out = Some no →
  ∃ d, view w' = set_node out (with_data (i_data no ++ d) no) (view w) ∧
    (ok = true → Some [] ∉ chunks → Forall is_Some chunks ∧ d = mjoin (default [] <$> chunks)).
Proof.
  revert w no. induction chunks as [|c chunks IH]; intros w no; cbn [copy_loop].
  { intros [= <- <-] Hn. exists []. rewrite app_nil_r. split; [|by split].
    destruct (view w), no. unfold set_node, with_data. simpl in *. by rewrite insert_id. }
  assert (nodes (view w) !! out = Some no →
          view w = set_node out (with_data (i_data no ++ []) no) (view w)) as Hsame.
  { intros Hn. rewrite app_nil_r. destruct (view w), no. unfold set_node, with_data. simpl in *.
    by rewrite insert_id. }
  destruct c as [[|a buf]|].
  - intros [= <- <-] Hn. exists []. split; [by apply Hsame|]. intros _ Hnot. destruct Hnot. by left.
  - destruct (write out (a :: buf) w) as [r w1] eqn:Hw. intros Hl Hn.
    destruct (write_ok _ _ _ _ _ _ Hw Hn) as (k & Hk & Hv).
    assert (nodes (view w1) !! out = Some (with_data (i_data no ++ take k (a :: buf)) no)) as Hn1
      by (rewrite Hv; apply lookup_insert_eq).
    destruct (Z.eqb_spec r (Z.of_nat (length (a :: buf)))) as [Hr|].
    + destruct (IH _ _ Hl Hn1) as (d & Hv' & Hd). exists (take k (a :: buf) ++ d). split.
      { rewrite Hv', Hv. unfold set_node, with_data. simpl. by rewrite insert_insert_eq, (assoc_L (++)). }
      intros Ho Hnot. destruct Hd as [Hd ->]; [done|by intros ?; apply Hnot; right|].
      split; [by constructor|]. rewrite take_ge; [done|]. destruct Hk as [[-> _]|]; lia.
    + simplify_eq. exists (take k (a :: buf)). by split.
  - intros [= <- <-] Hn. exists []. split; [by apply Hsame|done].
Qed.

(** The copy, or the link, under a name that was free. *)
Record stored (fd : inum) (n : inode) (dst : cstr) (linked : bool) (f f' : fs) (j : inum) (nj : inode)
    : Prop := {
  so_free : entries f !! key dst = None;
  so_fresh : linked = false → nodes f !! j = None;
  so_entry : entries f' !! key dst = Some j;
  so_node : nodes f' !! j = Some nj;
  so_data : i_data nj = i_data n;
  so_reg : S_ISREG (i_mode nj) = true;
  so_link : linked = true → j = fd ∧ nj = n;
  so_frame : frame f f';
}.

Lemma copy_fd_to_spec (made : cstr → Prop) fd dst w ok w' n :
  made (key dst) → copy_fd_to fd dst w = (ok, w') → nodes (view w) !! fd = Some n →
  adds made (view w) (view w') ∧
  if ok then ∃ j nj, stored fd n dst false (view w) (view w') j nj
  else frame (view w) (view w').
Proof.
  unfold copy_fd_to. intros Hmade He Hn. destruct (lseek fd w); cbn [negb] in He; [|by simplify_eq].
  destruct (open_excl dst 384 w) as [[out|] w1] eqn:Ho; apply open_excl_ok in Ho.
  2: { simplify_eq. by rewrite Ho. }
  destruct Ho as (Hfree & Hfresh & no & Hreg & Hno & Hv).
  assert (fd ≠ out) as Hne by congruence.
  assert (nodes (view w1) !! out = Some no) as Hout by (rewrite Hv; apply lookup_insert_eq).
  assert (nodes (view w1) !! fd = Some n) as Hfd
    by (rewrite Hv; unfold set_entry, set_node; simpl; by rewrite lookup_insert_ne).
  destruct (copy_loop out (reads fd w1) w1) as [ok2 w2] eqn:Hl.
  destruct (copy_loop_spec _ _ _ _ _ _ Hl Hout) as (d & Hv2 & Hd).
  assert (view w2 = set_entry (key dst) out (set_node out (with_data (i_data no ++ d) no) (view w)))
    as Hv3.
  { rewrite Hv2, Hv. unfold set_entry, set_node. simpl. by rewrite insert_insert_eq. }
  assert (adds made (view w) (view w2)) as Ha
    by (rewrite Hv3; by apply adds_entry).
  destruct ok2; simplify_eq.
  - split; [done|]. exists out, (with_data (i_data no ++ d) no). constructor; [done|done|..].
    + rewrite Hv3. apply lookup_insert_eq.
    + rewrite Hv3. apply lookup_insert_eq.
    + simpl. rewrite Hno. cbn [app]. destruct (Hd eq_refl (reads_nonempty _ _)) as [Hs ->].
      by apply reads_ok.
    + done.
    + done.
    + rewrite Hv3. by apply frame_fresh.
  - destruct (unlink dst w2) as [r w3] eqn:Hu. split; [by etrans; [|eapply adds_unlink]|].
    eapply unlink_frame; [done| |done].
    rewrite Hv3. by apply frame_fresh.
Qed.

Lemma write_meta_frame (made : cstr → Prop) dest st now path rule sha w ok w' :
  made (key (meta_path dest)) → write_meta_file dest st now path rule sha w = (ok, w') →
  adds made (view w) (view w') ∧ frame (view w) (view w') ∧
  (ok = true → ∃ m nm, entries (view w) !! key (meta_path dest) = None ∧
     entries (view w') !! key (meta_path dest) = Some m ∧ nodes (view w') !! m = Some nm ∧
     nodes (view w) !! m = None ∧
     S_ISREG (i_mode nm) = true ∧ i_data nm = write_quarantine_meta st now path rule sha).
Proof.
  unfold write_meta_file. intros Hmade He.
  destruct (PATH_MAX + 8 <=? length (meta_path dest))%nat; [by simplify_eq|].
  destruct (open_excl (meta_path dest) 384 w) as [[m|] w1] eqn:Ho; apply open_excl_ok in Ho.
  2: { simplify_eq. by rewrite Ho. }
  destruct Ho as (Hfree & Hfresh & no & Hreg & Hno & Hv).
  assert (nodes (view w1) !! m = Some no) as Hm by (rewrite Hv; apply lookup_insert_eq).
  destruct (fprintf_fclose m _ w1) as [ok2 w2] eqn:Hf.
  destruct (fprintf_fclose_ok _ _ _ _ _ _ Hf Hm) as (d & Hd & Hv2).
  assert (view w2 = set_entry (key (meta_path dest)) m (set_node m (with_data d no) (view w))) as Hv3.
  { rewrite Hv2, Hv. unfold set_entry, set_node. simpl. by rewrite insert_insert_eq. }
  assert (frame (view w) (view w2)) as Hfr by (rewrite Hv3; by apply frame_fresh).
  assert (adds made (view w) (view w2)) as Ha
    by (rewrite Hv3; by apply adds_entry).
  destruct ok2; simplify_eq.
  - split_and!; [done..|]. intros _. exists m, (with_data d no). rewrite Hv3. simpl.
    rewrite !lookup_insert_eq. split_and!; [done..|]. rewrite (Hd eq_refl), Hno. done.
  - destruct (unlink (meta_path dest) w2) as [r w3] eqn:Hu.
    split_and!; [by etrans; [|eapply adds_unlink]|by eapply unlink_frame|done].
Qed.

Lemma stat_of_id i n : (st_dev (stat_of i n), st_ino (stat_of i n)) = i.
Proof. by destruct i. Qed.

(** The link, or else the copy. *)
Lemma store_spec (made : cstr → Prop) fd n dst w r w1 have w2 :
  made (key dst) → linkat fd dst w = (r, w1) → nodes (view w) !! fd = Some n → S_ISREG (i_mode n) = true →
  (if r =? 0 then (true, w1) else copy_fd_to fd dst w1) = (have, w2) →
  adds made (view w) (view w2) ∧
  if have then ∃ j nj, stored fd n dst (r =? 0) (view w) (view w2) j nj
  else frame (view w) (view w2).
Proof.
  intros Hmade Hl%linkat_ok Hn Hreg He. destruct (r =? 0).
  - simplify_eq. destruct Hl as [Hfree Hv]. rewrite Hv. split; [by apply adds_entry|].
    exists fd, n. constructor; try done; [apply lookup_insert_eq|by apply frame_link].
  - rewrite <- Hl in *. by eapply copy_fd_to_spec.
Qed.

Lemma reg_not_link m : S_ISREG m = true → S_ISLNK m = false.
Proof. unfold S_ISREG, S_ISLNK. by intros ->%Z.eqb_eq. Qed.

Lemma with_perm_kind m n : S_ISREG (i_mode (with_perm m n)) = S_ISREG (i_mode n).
Proof. unfold S_ISREG, with_perm. cbn [i_mode]. by rewrite land_kind, <- Z.land_assoc. Qed.

Lemma with_perm_0 n : Z.land (i_mode (with_perm 0 n)) 4095 = 0.
Proof.
  unfold with_perm. cbn [i_mode]. rewrite Z.land_0_l, Z.lor_0_r, <- Z.land_assoc.
  change (Z.land S_IFMT 4095) with 0. apply Z.land_0_r.
Qed.

(** [chmod] of the stored copy. *)
Lemma lock_spec fd n linked f dst w r w' j nj :
  chmod dst 0 w = (r, w') → entries (view w) !! key dst = Some j → nodes (view w) !! j = Some nj →
  S_ISREG (i_mode nj) = true → frame f (view w) →
  (linked = true → j = fd ∧ nj = n) → (linked = false → nodes f !! j = None) → nodes f !! fd = Some n →
  view w' = (if r =? 0 then set_node j (with_perm 0 nj) (view w) else view w) ∧
  (if r =? 0 then spares fd f (view w') else frame f (view w')).
Proof.
  intros Hc Hj Hnj Hr Hf Hl Hnl Hn. pose proof (chmod_ok _ _ _ _ _ _ _ Hc Hj Hnj (reg_not_link _ Hr)) as Hv.
  split; [done|]. rewrite Hv. destruct (r =? 0); [|done]. intros k i m Hk Hi.
  destruct (Hf _ _ _ Hk Hi) as [Hk' Hi']. split; [done|]. unfold set_node. cbn [nodes].
  destruct (decide (j = i)) as [->|]; [|left; by rewrite lookup_insert_ne].
  rewrite lookup_insert_eq. destruct linked; [|specialize (Hnl eq_refl); congruence].
  destruct (Hl eq_refl) as [-> ->]. right. split; [done|]. congruence.
Qed.

(** The names a quarantine makes. *)
Definition quarantine_names (e : env) (path k : cstr) : Prop :=
  k = key (quarantine_dir e) ∨ k = key (dest_path e (quarantine_id e path)) ∨
  k = key (meta_path (dest_path e (quarantine_id e path))).

(** The contents are in the quarantine, under a name without any permission bit. *)
Definition copied (e : env) (n : inode) (path : cstr) (w' : W) : Prop :=
  ∃ j nj, entries (view w') !! key (dest_path e (quarantine_id e path)) = Some j ∧
    nodes (view w') !! j = Some nj ∧ i_data nj = i_data n ∧ S_ISREG (i_mode nj) = true ∧
    Z.land (i_mode nj) 4095 = 0.

(** What a completed quarantine leaves. *)
Record secured (e : env) (fd : inum) (n : inode) (path : cstr) (rule sha : option cstr)
    (w w' : W) (meta : bool) : Prop := {
  sec_same : ∀ i ni, entries (view w) !! key path = Some i → nodes (view w) !! i = Some ni → i = fd;
  sec_gone : entries (view w') !! key path = None;
  sec_copy : copied e n path w';
  sec_meta : meta = true → ∃ m nm st,
    entries (view w') !! key (meta_path (dest_path e (quarantine_id e path))) = Some m ∧
    nodes (view w') !! m = Some nm ∧ S_ISREG (i_mode nm) = true ∧
    i_data nm = write_quarantine_meta st (time_now e) path rule sha ∧
    (st = None ∨ st = Some (stat_of fd n));
  sec_others : ∀ k i ni, k ≠ key path →
    entries (view w) !! k = Some i → nodes (view w) !! i = Some ni →
    entries (view w') !! k = Some i ∧
    (nodes (view w') !! i = Some ni ∨ i = fd ∧ nodes (view w') !! i = Some (with_perm 0 ni));
}.

(** What each outcome means for the files there were. *)
Definition quarantine_outcome (e : env) (fd : inum) (n : inode) (path : cstr) (rule sha : option cstr)
    (w w' : W) (meta : bool) (out : quarantine_log) : Prop :=
  match out with
  | Quarantined _ => secured e fd n path rule sha w w' meta
  | DirRefused | DestTooLong | CopyFailed | ChmodFailed => frame (view w) (view w')
  | FstatFailed | PathChanged | UnlinkFailed => spares fd (view w) (view w') ∧ copied e n path w'
  end.

Lemma quarantine_steps e fd n path rule sha w :
  nodes (view w) !! fd = Some n → S_ISREG (i_mode n) = true →
  key path ≠ key (dest_path e (quarantine_id e path)) →
  key path ≠ key (meta_path (dest_path e (quarantine_id e path))) →
  let '(out, meta, w') := quarantine_file e fd path rule sha w in
  quarantine_outcome e fd n path rule sha w w' meta out ∧
  adds (quarantine_names e path) (view w) (view w').
Proof.
  intros Hn Hreg Hkd Hkm. unfold quarantine_file. assert (Hn0 := Hn).
  destruct (ensure_quarantine_dir (geteuid e) (quarantine_dir e) w) as [ok w1] eqn:Hdir.
  apply (ensure_dir_frame (quarantine_names e path)) in Hdir as (Hf1 & Ha1 & Hn1); [|by left].
  apply Hn1 in Hn. destruct ok; cbn [negb]; [|done].
  assert (quarantine_names e path (key (dest_path e (quarantine_id e path)))) as Hq1 by (right; by left).
  assert (quarantine_names e path (key (meta_path (dest_path e (quarantine_id e path))))) as Hq2 by (right; by right).
  unfold quarantine_outcome, copied. set (dest := dest_path e (quarantine_id e path)) in *.
  destruct (PATH_MAX <=? length dest)%nat; [done|].
  destruct (linkat fd dest w1) as [r w2] eqn:Hl.
  destruct (if r =? 0 then (true, w2) else copy_fd_to fd dest w2) as [have w3] eqn:Hc.
  destruct (store_spec _ _ _ _ _ _ _ _ _ Hq1 Hl Hn Hreg Hc) as [Ha2 Hst].
  destruct have; cbn [negb]; [|split; by etrans].
  destruct Hst as (j & nj & [Hfree Hfresh Hj Hnj Hd Hrj Hlink Hf2]).
  destruct (write_meta_file _ _ _ _ _ _ w3) as [meta w4] eqn:Hm.
  apply (write_meta_frame _ _ _ _ _ _ _ _ _ _ Hq2) in Hm as (Ha3 & Hf3 & Hmeta).
  destruct (Hf3 _ _ _ Hj Hnj) as [Hj4 Hnj4].
  assert (frame (view w) (view w4)) as Hf4 by (etrans; [exact Hf1|by etrans]).
  assert (adds (quarantine_names e path) (view w) (view w4)) as Ha4 by (etrans; [exact Ha1|by etrans]).
  destruct (chmod dest 0 w4) as [r2 w5] eqn:Hch.
  destruct (lock_spec fd n (r =? 0) (view w) _ _ _ _ _ _ Hch Hj4 Hnj4 Hrj Hf4 Hlink) as [Hv5 Hp5]; [|done|].
  { intros Hr. specialize (Hfresh Hr). destruct (nodes (view w) !! j) eqn:E; [|done].
    apply Hn1 in E. congruence. }
  assert (adds (quarantine_names e path) (view w) (view w5)) as Ha5.
  { etrans; [exact Ha4|]. apply adds_same. rewrite Hv5. by destruct (r2 =? 0). }
  destruct (Z.eqb_spec r2 0) as [->|]; cbn [negb].
  2: { destruct (unlink dest w5) as [r6 w6] eqn:Hu. simpl.
       split; [|by etrans; [|eapply adds_unlink]]. etrans; [exact Hf1|].
       eapply unlink_frame; [exact Hfree| |exact Hu]. rewrite Hv5. by etrans. }
  cbn [Z.eqb] in Hv5, Hp5.
  assert (∀ w', view w' = view w5 → ∃ j nj, entries (view w') !! key dest = Some j ∧
    nodes (view w') !! j = Some nj ∧ i_data nj = i_data n ∧ S_ISREG (i_mode nj) = true ∧
    Z.land (i_mode nj) 4095 = 0) as Hcopy.
  { intros w' ->. exists j, (with_perm 0 nj). rewrite Hv5.
    split_and!; [done|apply lookup_insert_eq|done|by rewrite with_perm_kind|apply with_perm_0]. }
  destruct (fstat fd w5) as [fd_st|] eqn:Hfs; [|by auto]. apply fstat_ok in Hfs as [Hid _].
  destruct (lstat path w5) as [|now_st] eqn:Hls; [by auto|].
  apply lstat_ok in Hls as (i5 & n5 & Hi5 & Hn5 & ->).
  destruct (negb (st_dev _ =? _) || _) eqn:Hsame; [by auto|].
  apply orb_false_iff in Hsame as [Hdv%negb_false_iff%Z.eqb_eq Hin%negb_false_iff%Z.eqb_eq].
  assert (i5 = fd) as -> by (rewrite <- Hid, <- Hdv, <- Hin; by rewrite stat_of_id).
  destruct (unlink path w5) as [r6 w6] eqn:Hu.
  assert (adds (quarantine_names e path) (view w) (view w6)) as Ha6 by (by etrans; [|eapply adds_unlink]).
  apply unlink_ok in Hu as [_ Hu].
  destruct (Z.eqb_spec r6 0) as [->|]; cbn [negb]; [|split; [rewrite Hu; auto|done]].
  split; [|done]. destruct Hu as (_ & He6 & Hk6).
  assert (∀ k i, k ≠ key path → entries (view w5) !! k = Some i →
            entries (view w6) !! k = Some i ∧ nodes (view w6) !! i = nodes (view w5) !! i) as H56.
  { intros k i Hk Hki. assert (entries (view w6) !! k = Some i) as Hki'
      by (by rewrite He6, lookup_delete_ne). split; [done|]. by eapply Hk6. }
  constructor.
  - intros i ni Hi Hni. destruct (Hp5 _ _ _ Hi Hni) as [? _]. congruence.
  - rewrite He6. apply lookup_delete_eq.
  - destruct (Hcopy w5 eq_refl) as (j' & nj' & Hj' & Hnj' & Hrest).
    destruct (H56 (key dest) j') as [Hd1 Hd2]; [done..|]. exists j', nj'. by rewrite Hd2.
  - intros ->. destruct Hmeta as (m & nm & Hmf & Hme & Hmn & Hmi & Hmr & Hmd); [done|].
    assert (m ≠ j) as Hmj by congruence.
    destruct (H56 (key (meta_path dest)) m) as [Hm1 Hm2]; [done|by rewrite Hv5|].
    exists m, nm, (fstat fd w1). split_and!; [done| |done|done|].
    + rewrite Hm2, Hv5. unfold set_node. simpl. by rewrite lookup_insert_ne.
    + destruct (fstat fd w1) as [st|] eqn:Hst; [right|by left]. f_equal.
      apply fstat_ok in Hst as [_ Hst]. by apply Hst.
  - intros k i ni Hk Hi Hni. destruct (Hp5 _ _ _ Hi Hni) as (Hi' & Hn').
    destruct (H56 k i Hk Hi') as [? Heq]. split; [done|]. by rewrite Heq.
Qed.

(** ** The id *)

Lemma base_name_plain path : SLASH ∉ base_name path.
Proof.
  unfold base_name. pose proof (strrchr_spec path SLASH) as Hs.
  destruct (strrchr path SLASH); [|done]. by destruct Hs as (d & b & -> & -> & ?).
Qed.

Lemma digit_plain a : digit_of 10 a → a ≠ SLASH.
Proof. unfold digit_of. intros Ha ->. change (code SLASH) with 47 in Ha. lia. Qed.

Lemma signed_plain n : Forall (λ a, a ≠ SLASH) (print_signed n).
Proof.
  unfold print_signed. destruct (n <? 0); [constructor; [done|]|];
    (eapply Forall_impl; [apply print_unsigned_digits; lia|apply digit_plain]).
Qed.

Lemma print_9_plain n : Forall (λ a, a ≠ SLASH) (print_9 n).
Proof.
  unfold print_9. apply Forall_app. split; [by apply Forall_replicate|].
  eapply Forall_impl; [apply print_unsigned_digits; lia|apply digit_plain].
Qed.

Lemma id_plain e path : Forall (λ a, a ≠ SLASH) (quarantine_id e path).
Proof.
  unfold quarantine_id. rewrite !Forall_app.
  split_and!; try apply signed_plain; try apply print_9_plain; try by repeat constructor.
  apply Forall_forall. intros a Ha ->. by apply (base_name_plain path).
Qed.

Lemma plain_existsb s : existsb (aeqb SLASH) s = false ↔ Forall (λ a, a ≠ SLASH) s.
Proof.
  induction s as [|a s IH]; simpl; [split; [constructor|done]|].
  rewrite orb_false_iff, IH, aeqb_neq, Forall_cons. split; intros [? ?]; split; congruence || done.
Qed.

(** The ids the daemon makes are ids it accepts. *)
Lemma quarantine_id_ok e path :
  (length (quarantine_id e path) < PATH_MAX - 32)%nat → quarantine_id_valid (quarantine_id e path) = true.
Proof.
  intros Hl. unfold quarantine_id_valid. rewrite (proj2 (plain_existsb _)) by apply id_plain.
  destruct (quarantine_id e path) as [|a s] eqn:He.
  { unfold quarantine_id in He. apply app_eq_nil in He as [_ He]. done. }
  rewrite (proj2 (Nat.leb_gt _ _)) by done. rewrite <- He.
  assert (chr 95 ∈ quarantine_id e path) as Hin.
  { unfold quarantine_id. apply elem_of_app. right. apply elem_of_app. left. by left. }
  destruct (strcmp_eq (quarantine_id e path) (cs ".")) eqn:H1.
  { apply strcmp_eq_spec in H1. rewrite H1 in Hin. by apply list_elem_of_singleton in Hin. }
  destruct (strcmp_eq (quarantine_id e path) (cs "..")) eqn:H2; [|done].
  apply strcmp_eq_spec in H2. rewrite H2 in Hin. exfalso.
  apply elem_of_cons in Hin as [?|?%list_elem_of_singleton]; done.
Qed.

(** ** Restoring *)

(** The mode of a restored file: the permission bits read back on the same
    kind of file. *)
Lemma mode_restored m nj :
  0 ≤ m < 2 ^ 16 → S_ISREG m = true → S_ISREG (i_mode nj) = true →
  i_mode (with_perm (Z.land m 4095) nj) = m.
Proof.
  intros Hm Hr%Z.eqb_eq Hr'%Z.eqb_eq. unfold with_perm. cbn [i_mode].
  rewrite Hr', <- Hr, <- Z.land_assoc, <- Z.land_lor_distr_r.
  change (Z.lor S_IFMT (Z.land 4095 4095)) with (Z.ones 16). rewrite Z.land_ones by lia.
  by apply Z.mod_small.
Qed.

(** The steps from an unoccupied original path on. *)
Lemma restore_steps dest meta_p path mode uid gid w0 w1 w2 w3 w4 c u j nj :
  fchmod j mode w0 = (0, w1) → fchown j uid gid w1 = (c, w2) → rename dest path w2 = (0, w3) →
  unlink meta_p w3 = (u, w4) →
  entries (view w0) !! key dest = Some j → nodes (view w0) !! j = Some nj →
  entries (view w0) !! key path = None → key path ≠ key meta_p →
  ∃ n', entries (view w4) !! key path = Some j ∧ nodes (view w4) !! j = Some n' ∧
    i_data n' = i_data nj ∧ entries (view w4) !! key dest = None ∧
    Z.ldiff (i_mode n') (Z.lor S_ISUID S_ISGID) =
      Z.ldiff (i_mode (with_perm mode nj)) (Z.lor S_ISUID S_ISGID) ∧
    (c = 0 → i_uid n' = uid ∧ i_gid n' = gid) ∧
    ∀ k, k ≠ key path → k ≠ key dest → k ≠ key meta_p →
      entries (view w4) !! k = entries (view w0) !! k.
Proof.
  intros Hm Ho Hr Hu Hj Hn Hfree Hpm.
  pose proof (fchmod_ok _ _ _ _ _ _ Hm Hn) as Hv1. cbn [Z.eqb] in Hv1.
  assert (nodes (view w1) !! j = Some (with_perm mode nj)) as Hn1 by (rewrite Hv1; apply lookup_insert_eq).
  assert (∃ n2, view w2 = set_node j n2 (view w1) ∧ i_data n2 = i_data nj ∧
    Z.ldiff (i_mode n2) (Z.lor S_ISUID S_ISGID) =
      Z.ldiff (i_mode (with_perm mode nj)) (Z.lor S_ISUID S_ISGID) ∧
    (c = 0 → i_uid n2 = uid ∧ i_gid n2 = gid)) as (n2 & Hv2 & Hd2 & Hm2 & Ho2).
  { pose proof (fchown_ok _ _ _ _ _ _ _ Ho Hn1) as Hv2. destruct (Z.eqb_spec c 0) as [->|Hc].
    - destruct Hv2 as (m & Hm' & Hv2). eexists. split; [exact Hv2|]. by split_and!.
    - exists (with_perm mode nj). rewrite Hv2. split_and!; [|done..].
      destruct (view w1). unfold set_node. simpl in *. by rewrite insert_id. }
  assert (entries (view w2) = entries (view w0)) as He2 by (by rewrite Hv2, Hv1).
  assert (nodes (view w2) !! j = Some n2) as Hn2 by (rewrite Hv2; apply lookup_insert_eq).
  assert (key path ≠ key dest) as Hpd by congruence.
  apply rename_ok in Hr as (i & Hi & Hk3 & He3). rewrite He2 in Hi, He3. rewrite decide_False in He3 by congruence.
  assert (i = j) as -> by congruence.
  assert (entries (view w3) !! key path = Some j) as Hp3 by (rewrite He3; apply lookup_insert_eq).
  assert (entries (view w3) !! key dest = None) as Hd3
    by (rewrite He3, lookup_insert_ne by done; apply lookup_delete_eq).
  assert (∀ k, k ≠ key meta_p → entries (view w4) !! k = entries (view w3) !! k) as He4.
  { intros k Hk. apply unlink_ok in Hu as [_ Hu]. destruct (u =? 0); [|by rewrite Hu].
    destruct Hu as (_ & -> & _). by rewrite lookup_delete_ne. }
  assert (nodes (view w4) !! j = nodes (view w3) !! j) as Hn4.
  { apply unlink_ok in Hu as [_ Hu]. destruct (u =? 0); [|by rewrite Hu].
    destruct Hu as (_ & _ & Hk4). apply (Hk4 (key path)). by rewrite He4. }
  exists n2. split_and!; [by rewrite He4|by rewrite Hn4, (Hk3 (key path))|done| |done|done|].
  - destruct (decide (key dest = key meta_p)) as [Hdm|]; [|by rewrite He4].
    apply unlink_ok in Hu as [_ Hu]. destruct (u =? 0); [|by rewrite Hu].
    destruct Hu as (_ & -> & _). rewrite Hdm. apply lookup_delete_eq.
  - intros k H1 H2 H3. rewrite He4, He3, lookup_insert_ne, lookup_delete_ne by done. done.
Qed.

(** A file whose quarantine record holds all there is to say of it. *)
Record quarantinable (e : env) (n : inode) (path rule sha : cstr) : Prop := {
  qu_mode : 0 ≤ i_mode n < 2 ^ 16 ∧ S_ISREG (i_mode n) = true;
  qu_owner : 0 ≤ i_uid n < 2 ^ 32 ∧ 0 ≤ i_gid n < 2 ^ 32;
  qu_time : - 2 ^ 63 ≤ time_now e < 2 ^ 63;
  qu_path : clean path ∧ path ≠ [] ∧ (length path < PATH_MAX)%nat;
  qu_rule : clean rule ∧ (length rule < RULE_NAME_LEN)%nat;
  qu_sha : clean sha ∧ (length sha < SHA256_LEN)%nat;
  qu_id : (length (quarantine_id e path) < PATH_MAX - 32)%nat;
  qu_keys : key path ≠ key (dest_path e (quarantine_id e path)) ∧
            key path ≠ key (meta_path (dest_path e (quarantine_id e path)));
}.

(** What a successful restore has gone through. *)
Lemma restore_inv e id w owner w' :
  cmd_quarantine_restore e id w = (ReplyOk, owner, w') →
  ∃ meta qfd err w1 w2 w3 c u,
    read_quarantine_meta (fopen (meta_path (dest_path e id)) w) = Some meta ∧
    open_nofollow (dest_path e id) w = Some qfd ∧ lstat (original_path meta) w = inl err ∧
    fchmod qfd (original_mode meta) w = (0, w1) ∧
    fchown qfd (original_uid meta) (original_gid meta) w1 = (c, w2) ∧ owner = (c =? 0) ∧
    rename (dest_path e id) (original_path meta) w2 = (0, w3) ∧
    unlink (meta_path (dest_path e id)) w3 = (u, w').
Proof.
  unfold cmd_quarantine_restore. intros He.
  destruct (quarantine_id_valid id); [cbn [negb] in He|done].
  destruct (_ <=? _)%nat in He; [done|]. destruct (_ <=? _)%nat in He; [done|].
  destruct (read_quarantine_meta _) as [meta|]; [|done].
  destruct (open_nofollow _ w) as [qfd|]; [|done]. destruct (negb _) in He; [done|].
  destruct (lstat _ w) as [err|] eqn:Hls; [|done].
  destruct (fchmod _ _ w) as [r w1] eqn:Hm. destruct (Z.eqb_spec r 0) as [->|]; [cbn [negb] in He|done].
  destruct (fchown _ _ _ w1) as [c w2] eqn:Ho. destruct (rename _ _ w2) as [r2 w3] eqn:Hr.
  destruct (Z.eqb_spec r2 0) as [->|]; [cbn [negb] in He|done].
  destruct (unlink _ w3) as [u w4] eqn:Hu. injection He as <- <-.
  exists meta, qfd, err, w1, w2, w3, c, u. by split_and!.
Qed.

(** C5: quarantining loses nothing, whatever call fails and whatever is at the path by then, as
    long as no other process acts between the daemon's own calls (the source cannot make the last
    comparison and the removal one step).  If the directory is refused, a name would not fit, or
    the file cannot be copied or locked, every file there was is as it was.  If what is at the path
    is not the file scanned, or it cannot be removed, then every file still has its name, contents,
    owner and mode, except that the scanned file itself may have lost its permission bits, as the
    quarantine can be a second link to it; and its contents are in the quarantine, under a name
    without any permission bit.  If the outcome is [Quarantined], the name removed was that of the
    very file scanned (same device and inode), the same holds of its contents and of every other
    file, and the sidecar, if written, says what the file was.  In all cases no name is new but
    the quarantine directory's, the entry's and its sidecar's. *)
Theorem quarantine_file_safe e fd n path rule sha w :
  nodes (view w) !! fd = Some n → S_ISREG (i_mode n) = true →
  key path ≠ key (dest_path e (quarantine_id e path)) →
  key path ≠ key (meta_path (dest_path e (quarantine_id e path))) →
  let '(out, meta, w') := quarantine_file e fd path rule sha w in
  quarantine_outcome e fd n path rule sha w w' meta out ∧
  adds (quarantine_names e path) (view w) (view w').
Proof. apply quarantine_steps. Qed.


(** ** Confinement *)

(** A name in the quarantine directory itself. *)
Definition in_quarantine (e : env) (k : cstr) : Prop :=
  ∃ name, k = key (quarantine_dir e ++ cs "/" ++ name) ∧ (SLASH ∉ name) ∧ name ∉ [[]; cs "."; cs ".."].

(** Every file keeps its name, except those in [gone], and its inode but for [R]; no name is new but
    those in [made]. *)
Record only_changes (gone made : cstr → Prop) (R : inum → inode → inode → Prop) (f f' : fs) : Prop := {
  oc_old : ∀ k i n, entries f !! k = Some i → nodes f !! i = Some n →
    gone k ∨ entries f' !! k = Some i ∧ ∃ n', nodes f' !! i = Some n' ∧ R i n n';
  oc_new : adds made f f';
}.

(** Equality, but for the mode and the owner of [j]. *)
Definition but_owner (j i : inum) (n n' : inode) : Prop := n' = n ∨ i = j ∧ i_data n' = i_data n.
Definition as_it_was (i : inum) (n n' : inode) : Prop := n' = n.

Lemma but_owner_refl j i n : but_owner j i n n.
Proof. by left. Qed.

Section changes.
Context (gone made : cstr → Prop) (R : inum → inode → inode → Prop).
Context (Hrefl : ∀ i n, R i n n) (Htrans : ∀ i n1 n2 n3, R i n1 n2 → R i n2 n3 → R i n1 n3).

Lemma oc_refl f : only_changes gone made R f f.
Proof using Hrefl. split; [|done]. intros k i n ??. right. eauto. Qed.

Lemma oc_trans f g h : only_changes gone made R f g → only_changes gone made R g h → only_changes gone made R f h.
Proof using Htrans.
  intros [H1 A1] [H2 A2]. split; [|by etrans]. intros k i n Hk Hi.
  destruct (H1 _ _ _ Hk Hi) as [?|(Hk' & n' & Hn' & HR)]; [by left|].
  destruct (H2 _ _ _ Hk' Hn') as [?|(Hk'' & n'' & Hn'' & HR')]; [by left|].
  right. split; [done|]. exists n''. split; [done|by eapply Htrans].
Qed.

Lemma oc_unlink p w r w' : gone (key p) → unlink p w = (r, w') → only_changes gone made R (view w) (view w').
Proof using Hrefl.
  intros Hp Hu. split; [|by eapply adds_unlink]. apply unlink_ok in Hu as [_ Hu].
  destruct (r =? 0); [|rewrite Hu; apply oc_refl].
  destruct Hu as (_ & He & Hk). intros k i n Hki Hi.
  destruct (decide (k = key p)) as [->|]; [by left|right].
  assert (entries (view w') !! k = Some i) as Hki' by (by rewrite He, lookup_delete_ne).
  split; [done|]. exists n. by rewrite (Hk k i).
Qed.

Lemma oc_rename p q w r w' :
  gone (key p) → (gone (key q) ∨ entries (view w) !! key q = None) → made (key q) →
  rename p q w = (r, w') → only_changes gone made R (view w) (view w').
Proof using Hrefl.
  intros Hp Hq Hmade Hr. split; [|by eapply adds_rename]. apply rename_ok in Hr.
  destruct (r =? 0); [|rewrite Hr; apply oc_refl].
  destruct Hr as (j & Hj & Hk & He). intros k i n Hki Hi.
  destruct (decide (k = key p)) as [->|Hkp]; [by left|].
  destruct (decide (k = key q)) as [->|Hkq]; [destruct Hq; [by left|congruence]|]. right.
  assert (entries (view w') !! k = Some i) as Hki'.
  { rewrite He. case_decide; [done|]. by rewrite lookup_insert_ne, lookup_delete_ne. }
  split; [done|]. exists n. by rewrite (Hk k i).
Qed.

Lemma oc_node i n n' f : nodes f !! i = Some n → R i n n' → only_changes gone made R f (set_node i n' f).
Proof using Hrefl.
  intros Hi HR. split; [|by apply adds_same]. intros k j m Hk Hj. right. split; [done|]. unfold set_node. simpl.
  destruct (decide (i = j)) as [->|]; [|rewrite lookup_insert_ne by done; eauto].
  rewrite lookup_insert_eq. simplify_eq. eauto.
Qed.
End changes.

Lemma dest_inside e id :
  quarantine_id_valid id = true →
  in_quarantine e (key (dest_path e id)) ∧ in_quarantine e (key (meta_path (dest_path e id))).
Proof.
  unfold quarantine_id_valid. intros Hv. destruct id as [|a id]; [done|].
  destruct (existsb (aeqb SLASH) (a :: id)) eqn:Hs; [done|]. apply plain_existsb in Hs.
  assert (∀ suf, Forall (λ a, a ≠ SLASH) suf → (3 < length suf)%nat →
    (SLASH ∉ (a :: id) ++ suf) ∧ (a :: id) ++ suf ∉ [[]; cs "."; cs ".."]) as Hok.
  { intros suf Hsuf Hl. split.
    - intros Hin. pose proof (proj2 (Forall_app _ _ _) (conj Hs Hsuf)) as Hall.
      by apply (proj1 (Forall_forall _ _) Hall _ Hin).
    - rewrite !elem_of_cons, elem_of_nil. intros [He|[He|[He|[]]]];
        apply (f_equal length) in He; rewrite length_app in He; simpl in He; lia. }
  split.
  - exists ((a :: id) ++ cs ".quarantined"). split; [done|].
    apply Hok; [by repeat constructor|simpl; lia].
  - exists ((a :: id) ++ cs ".quarantined.meta"). split.
    + f_equal. unfold meta_path, dest_path. by rewrite <- !(assoc_L (++)).
    + apply Hok; [by repeat constructor|simpl; lia].
Qed.

(** The two names of an entry. *)
Definition entry_names (e : env) (id k : cstr) : Prop :=
  in_quarantine e k ∧ (k = key (dest_path e id) ∨ k = key (meta_path (dest_path e id))).

Lemma delete_spec e id w r w' :
  cmd_quarantine_delete e id w = (r, w') →
  only_changes (entry_names e id) (λ _, False) as_it_was (view w) (view w') ∧
  (r ≠ ReplyOk → view w' = view w) ∧
  (r = ReplyOk → entries (view w') !! key (dest_path e id) = None).
Proof.
  assert (∀ f, only_changes (entry_names e id) (λ _, False) as_it_was f f) as Hrefl by (intros; by apply oc_refl).
  unfold cmd_quarantine_delete. intros He.
  destruct (quarantine_id_valid id) eqn:Hv; cbn [negb] in He; [|by simplify_eq].
  destruct (dest_inside e id Hv) as [Hd Hm].
  destruct (_ <=? _)%nat in He; [by simplify_eq|]. destruct (_ <=? _)%nat in He; [by simplify_eq|].
  destruct (unlink (dest_path e id) w) as [r1 w1] eqn:H1.
  assert (only_changes (entry_names e id) (λ _, False) as_it_was (view w) (view w1)) as Hp1
    by (eapply oc_unlink; [done| |done]; by split; [|left]).
  apply unlink_ok in H1 as [Hno H1].
  destruct (decide (r1 = 0 ∨ r1 = ENOENT)) as [Hok|Hbad].
  - assert (negb (r1 =? 0) && negb (r1 =? ENOENT) = false) as Heq by (by destruct Hok as [->| ->]).
    rewrite Heq in He.
    destruct (unlink (meta_path (dest_path e id)) w1) as [r2 w2] eqn:H2. simplify_eq/=.
    split_and!; [|done|intros _].
    { eapply oc_trans; [by intros i n1 n2 n3 -> ->|done|]. eapply oc_unlink; [done| |done]. by split; [|right]. }
    assert (entries (view w1) !! key (dest_path e id) = None) as Hn1.
    { destruct Hok as [->| ->]; cbn [Z.eqb] in H1.
      - destruct H1 as (_ & -> & _). apply lookup_delete_eq.
      - rewrite H1. by apply Hno. }
    apply unlink_ok in H2 as [_ H2]. destruct (r2 =? 0); [|by rewrite H2].
    destruct H2 as (_ & -> & _). rewrite lookup_delete_None. by right.
  - assert (r1 ≠ 0 ∧ r1 ≠ ENOENT) as [H0 H2] by (split; intros ->; apply Hbad; auto).
    rewrite (proj2 (Z.eqb_neq r1 0)), (proj2 (Z.eqb_neq r1 ENOENT)) in He by done.
    rewrite (proj2 (Z.eqb_neq r1 0)) in H1 by done. cbn in He. by simplify_eq.
Qed.

(** What a restore may remove or replace: the entry, and what is at the original path if [lstat] of
    it failed with something else than ENOENT. *)
Definition restore_gone (e : env) (id path : cstr) (w : W) (k : cstr) : Prop :=
  entry_names e id k ∨ k = key path ∧ ∃ err, lstat path w = inl err ∧ err ≠ ENOENT.

(** A restore that has got past its checks. *)
Record restore_changes (e : env) (id : cstr) (w w' : W) (r : reply) (meta : quarantine_meta) (j : inum)
    : Prop := {
  rc_meta : read_quarantine_meta (fopen (meta_path (dest_path e id)) w) = Some meta;
  rc_file : entries (view w) !! key (dest_path e id) = Some j;
  rc_only : only_changes (restore_gone e id (original_path meta) w) (λ k, k = key (original_path meta))
    (but_owner j) (view w) (view w');
  rc_failed : r ≠ ReplyOk → entries (view w') = entries (view w);
  rc_back : r = ReplyOk → key (original_path meta) ≠ key (meta_path (dest_path e id)) →
    entries (view w') !! key (original_path meta) = Some j;
}.

(** The two calls on the open file. *)
Lemma chmod_chown j mode uid gid (w : W) n r1 w1 c w2 :
  nodes (view w) !! j = Some n → fchmod j mode w = (r1, w1) → fchown j uid gid w1 = (c, w2) →
  ∃ n1 n2, view w1 = set_node j n1 (view w) ∧ view w2 = set_node j n2 (view w) ∧
    i_data n1 = i_data n ∧ i_data n2 = i_data n.
Proof.
  intros Hn H1 H2. pose proof (fchmod_ok _ _ _ _ _ _ H1 Hn) as Hv1.
  assert (∃ n1, view w1 = set_node j n1 (view w) ∧ i_data n1 = i_data n) as (n1 & Hw1 & Hd1).
  { destruct (r1 =? 0); [by exists (with_perm mode n)|]. exists n. split; [|done]. rewrite Hv1.
    destruct (view w). unfold set_node. simpl in *. by rewrite insert_id. }
  assert (nodes (view w1) !! j = Some n1) as Hn1 by (rewrite Hw1; apply lookup_insert_eq).
  pose proof (fchown_ok _ _ _ _ _ _ _ H2 Hn1) as Hv2. destruct (c =? 0).
  - destruct Hv2 as (m & _ & Hv2). exists n1, (with_owner m uid gid n1). split_and!; [done| |done|done].
    rewrite Hv2, Hw1. unfold set_node. simpl. by rewrite insert_insert_eq.
  - exists n1, n1. split_and!; [done|congruence|done|done].
Qed.

Lemma restore_spec e id w r owner w' :
  cmd_quarantine_restore e id w = (r, owner, w') →
  r ≠ ReplyOk ∧ view w' = view w ∨ ∃ meta j, restore_changes e id w w' r meta j.
Proof.
  unfold cmd_quarantine_restore. intros He.
  destruct (quarantine_id_valid id) eqn:Hv; cbn [negb] in He; [|left; by simplify_eq].
  destruct (dest_inside e id Hv) as [Hd Hm].
  destruct (_ <=? _)%nat in He; [left; by simplify_eq|]. destruct (_ <=? _)%nat in He; [left; by simplify_eq|].
  destruct (read_quarantine_meta _) as [meta|] eqn:Hmeta; [|left; by simplify_eq].
  destruct (open_nofollow _ w) as [j|] eqn:Ho; [|left; by simplify_eq].
  destruct (negb _) in He; [left; by simplify_eq|].
  destruct (lstat _ w) as [err|] eqn:Hls; [|left; by simplify_eq].
  right. exists meta, j. apply open_nofollow_ok in Ho as [Hj [n Hn]].
  set (P := only_changes (restore_gone e id (original_path meta) w) (λ k, k = key (original_path meta)) (but_owner j)).
  assert (∀ n', i_data n' = i_data n → P (view w) (set_node j n' (view w))) as Hnode.
  { intros n' Hd'. apply oc_node with n; [intros; apply but_owner_refl|done|by right]. }
  destruct (fchmod _ _ w) as [r1 w1] eqn:H1.
  destruct (fchown j (original_uid meta) (original_gid meta) w1) as [c w2] eqn:H2.
  destruct (chmod_chown _ _ _ _ _ _ _ _ _ _ Hn H1 H2) as (n1 & n2 & Hv1 & Hv2 & Hd1 & Hd2).
  destruct (negb (r1 =? 0)).
  { simplify_eq. constructor; [done|done|rewrite Hv1; by apply Hnode|by rewrite Hv1|done]. }
  destruct (rename _ _ w2) as [r3 w3] eqn:H3.
  assert (∀ i n1 n2 n3, but_owner j i n1 n2 → but_owner j i n2 n3 → but_owner j i n1 n3) as Htr.
  { intros i m1 m2 m3 [->|[-> E1]] [->|[? E2]]; [by left|by right|by right|right; split; congruence]. }
  assert (P (view w) (view w3)) as Hp3.
  { assert (P (view w) (view w2)) as Hp2 by (rewrite Hv2; by apply Hnode).
    eapply oc_trans; [exact Htr|exact Hp2|].
    eapply oc_rename; [intros; apply but_owner_refl| | |done|exact H3]; [left; by split; [|left]|].
    destruct (decide (err = ENOENT)) as [->|]; [right; rewrite Hv2; by apply lstat_noent|].
    left. right. eauto. }
  apply rename_ok in H3. destruct (Z.eqb_spec r3 0) as [->|Hr3]; cbn [negb] in He.
  - destruct (unlink _ w3) as [u w4] eqn:H4. simplify_eq/=. constructor; [done|done| |done|].
    + eapply oc_trans; [exact Htr|exact Hp3|]. eapply oc_unlink; [intros; apply but_owner_refl| |exact H4].
      left. by split; [|right].
    + intros _ Hne. apply unlink_ok in H4 as [_ H4].
      assert (entries (view w3) !! key (original_path meta) = Some j) as H3'.
      { destruct H3 as (i & Hi & _ & ->). rewrite Hv2 in Hi. cbn [set_node entries] in Hi. simplify_eq.
        case_decide; [done|apply lookup_insert_eq]. }
      destruct (u =? 0); [|by rewrite H4]. destruct H4 as (_ & -> & _). by rewrite lookup_delete_ne.
  - simplify_eq. constructor; [done|done|done| |done]. intros _. by rewrite H3, Hv2.
Qed.

(** C30: the ids of RESTORE and DELETE cannot reach out of the quarantine.  Whatever bytes the id is
    made of: a restore either answers with an error and changes nothing, or the id has a sidecar
    and an entry, and then no name is removed but the entry's two, directly in the quarantine
    directory, and none is made but the sidecar's ORIGINAL_PATH (an existing file there is only
    replaced if [lstat] of it failed with something else than ENOENT); no file changes but the
    entry's own, and that only in mode and owner; an answer of OK means that the original path names
    the entry's file, any other that no name has changed.  A delete removes no name but those two,
    makes none and changes no file; if it does not answer OK it has changed nothing, and if it does
    the entry is gone. *)
Theorem quarantine_confined e id w :
  (let '(r, _, w') := cmd_quarantine_restore e id w in
   r ≠ ReplyOk ∧ view w' = view w ∨ ∃ meta j, restore_changes e id w w' r meta j) ∧
  (let '(r, w') := cmd_quarantine_delete e id w in
   only_changes (entry_names e id) (λ _, False) as_it_was (view w) (view w') ∧
   (r ≠ ReplyOk → view w' = view w) ∧
   (r = ReplyOk → entries (view w') !! key (dest_path e id) = None)).
Proof.
  split.
  - destruct (cmd_quarantine_restore e id w) as [[r owner] w'] eqn:He. by eapply restore_spec.
  - destruct (cmd_quarantine_delete e id w) as [r w'] eqn:He. by eapply delete_spec.
Qed.

End ops.

(** ** Examples *)

Module OpsExamples.
Import ToyFs.

Definition daemon : env := {|
  quarantine_dir := cs "/var/lib/av-quarantine"; geteuid := 0; getpid := 812; tv_sec := 77;
  tv_nsec := 5; time_now := 1700000000 |}.

Definition dir_node (perm : Z) : inode :=
  {| i_mode := Z.lor S_IFDIR perm; i_uid := 0; i_gid := 0; i_data := [] |}.

Definition program (perm : Z) : inode :=
  {| i_mode := Z.lor S_IFREG perm; i_uid := 1000; i_gid := 1000; i_data := cs "#!/bin/sh evil" |}.

Definition disk (perm : Z) : toy := boot [
  (cs "/", ((0, 1), dir_node 493)); (cs "/var", ((0, 2), dir_node 493));
  (cs "/var/lib", ((0, 3), dir_node 493)); (cs "/home/u/x", ((0, 20), program perm));
  (cs "/home/u/y", ((0, 21), program 420))].

Definition fd : inum := (0, 20).

Definition quarantined (w : toy) : quarantine_log * bool * toy :=
  quarantine_file daemon fd (cs "/home/u/x") (Some (cs "Rule")) (Some (cs "00ff")) w.

Definition the_id : cstr := cs "812_77000000005_x".

Definition look (p : cstr) (w : toy) : option (Z * Z * cstr) :=
  '(_, n) ← node_at p (t_fs w); Some (i_mode n, i_uid n, i_data n).

Example quarantine_links :
  let '(out, meta, w) := quarantined (disk 493) in
  (out, meta, look (cs "/home/u/x") w,
   look (cs "/var/lib/av-quarantine/812_77000000005_x.quarantined") w) =
  (Quarantined true, true, None, Some (Z.lor S_IFREG 0, 1000, cs "#!/bin/sh evil")).
Proof. vm_compute. reflexivity. Qed.

(** [linkat] fails: the contents are copied. *)
Example quarantine_copies :
  let '(out, meta, w) := quarantined
    {| t_fs := t_fs (disk 493); t_next := 1000; t_failing := [false; true] |} in
  (out, meta, look (cs "/home/u/x") w,
   look (cs "/var/lib/av-quarantine/812_77000000005_x.quarantined") w) =
  (Quarantined false, true, None, Some (Z.lor S_IFREG 0, 0, cs "#!/bin/sh evil")).
Proof. vm_compute. reflexivity. Qed.

(** The path was swapped after the scan: the file there stays. *)
Example quarantine_swapped :
  let '(out, _, w) := quarantine_file daemon fd (cs "/home/u/y") None None (disk 493) in
  (out, look (cs "/home/u/y") w) = (PathChanged, Some (Z.lor S_IFREG 420, 1000, cs "#!/bin/sh evil")).
Proof. vm_compute. reflexivity. Qed.

Definition restored (perm : Z) : reply * option (Z * Z * cstr) :=
  let '(_, _, w) := quarantined (disk perm) in
  let '(r, _, w) := cmd_quarantine_restore daemon the_id w in (r, look (cs "/home/u/x") w).

Example restore_brings_back :
  restored 493 = (ReplyOk, Some (Z.lor S_IFREG 493, 1000, cs "#!/bin/sh evil")).
Proof. vm_compute. reflexivity. Qed.

(** A set-user-id program (04755) comes back without the bit: [fchown] comes
    after [fchmod] and clears it. *)
Example restore_loses_suid :
  restored 2541 = (ReplyOk, Some (Z.lor S_IFREG 493, 1000, cs "#!/bin/sh evil")).
Proof. vm_compute. reflexivity. Qed.

Example delete_traversal :
  (cmd_quarantine_delete daemon (cs "../../../home/u/x") (disk 493)).1 = ReplyErr (cs "invalid id").
Proof. vm_compute. reflexivity. Qed.

Lemma disk_node : nodes (view (disk 493)) !! fd = Some (program 493).
Proof. vm_compute. reflexivity. Qed.

Lemma disk_quarantinable : quarantinable daemon (program 493) (cs "/home/u/x") (cs "Rule") (cs "00ff").
Proof.
  constructor.
  - split; [split; [|apply Z.ltb_lt]|]; vm_compute; first [reflexivity | discriminate].
  - simpl. lia.
  - simpl. lia.
  - split_and!; [apply clean_check_sound; reflexivity|discriminate|].
    apply Nat.ltb_lt. vm_compute. reflexivity.
  - split; [apply clean_check_sound; reflexivity|]. apply Nat.ltb_lt. vm_compute. reflexivity.
  - split; [apply clean_check_sound; reflexivity|]. apply Nat.ltb_lt. vm_compute. reflexivity.
  - apply Nat.ltb_lt. vm_compute. reflexivity.
  - split; intros Hk; apply (f_equal length) in Hk; vm_compute in Hk; discriminate.
Qed.

Lemma quarantine_file_safe_witness :
  let '(out, meta, w') := quarantined (disk 493) in
  secured daemon fd (program 493) (cs "/home/u/x") (Some (cs "Rule")) (Some (cs "00ff"))
    (disk 493) w' meta.
Proof.
  pose proof (quarantine_file_safe daemon fd (program 493) (cs "/home/u/x") (Some (cs "Rule"))
    (Some (cs "00ff")) (disk 493) disk_node eq_refl (proj1 (qu_keys _ _ _ _ _ disk_quarantinable))
    (proj2 (qu_keys _ _ _ _ _ disk_quarantinable))) as Hs.
  assert ((quarantined (disk 493)).1.1 = Quarantined true) as Ho by (vm_compute; reflexivity).
  unfold quarantined in *.
  destruct (quarantine_file daemon fd (cs "/home/u/x") (Some (cs "Rule")) (Some (cs "00ff")) (disk 493))
    as [[out meta] w']. cbn [fst] in Ho. rewrite Ho in Hs. exact (proj1 Hs).
Defined.


End OpsExamples.
