(* ===== verification/Sock.v ===== *)
(** * Lines on the control socket: userspace/avd/avd.c

    [write_all] and [send_err], on a peer whose [write] results are a script,
    and [read_line], on the clock readings and [read] results it meets. *)

From Stdlib Require Import ZArith Lia Ascii String.
From stdpp Require Import prelude list.
From S2P Require Import Prelude CString CText.

Local Open Scope Z_scope.

(** ** Writing *)

(** What one [write] does: EINTR, another error, or so many bytes taken. *)
Inductive write_result := WEintr | WError | WCount (n : nat).

(** The results to come, after which every write is taken whole, and what the
    peer has been sent. *)
Record sock := { sk_script : list write_result; sk_out : cstr }.

Fixpoint write_loop (script : list write_result) (buf out : cstr) : bool * sock :=
  match buf with
  | [] => (true, {| sk_script := script; sk_out := out |})
  | _ =>
      match script with
      | [] => (true, {| sk_script := []; sk_out := out ++ buf |})
      | WEintr :: script => write_loop script buf out
      | WError :: script => (false, {| sk_script := script; sk_out := out |})
      | WCount n :: script => write_loop script (drop n buf) (out ++ take n buf)
      end
  end.

(** 0 is [true]. *)
Definition write_all (s : sock) (buf : cstr) : bool * sock :=
  write_loop (sk_script s) buf (sk_out s).

Definition send (buf : cstr) (s : sock) : sock := (write_all s buf).2.

Definition send_err (msg : cstr) (s : sock) : sock :=
  send (take 255 (cs "ERR " ++ msg ++ [LF])) s.

(** ** Reading *)

Definition AVD_SOCK_LINE_MAX : nat := (PATH_MAX + 256)%nat.
Definition AVD_CONTROL_RECV_TIMEOUT_SECS : Z := 5.

(** What one [read] of a byte does. *)
Inductive read_result := REintr | RError | REof | RByte (c : ascii).

(** The clock before a [read], and its result. *)
Record read_event := { ev_sec : Z; ev_nsec : Z; ev_result : read_result }.

(** -1, 0 (nothing sent), the line; or still waiting. *)
Inductive line_result := LineError | LineEof | Line (line : cstr) | LineWait.

Fixpoint read_loop (dl_sec dl_nsec : Z) (bufsz : nat) (events : list read_event) (buf : cstr)
    : line_result :=
  if (length buf + 1 <? bufsz)%nat then
    match events with
    | [] => LineWait
    | ev :: events =>
        if (dl_sec <? ev_sec ev) || (ev_sec ev =? dl_sec) && (dl_nsec <=? ev_nsec ev) then LineError
        else
          match ev_result ev with
          | REintr => read_loop dl_sec dl_nsec bufsz events buf
          | RError => LineError
          | REof => match buf with [] => LineEof | _ => LineError end
          | RByte c =>
              if aeqb c LF then Line buf
              else read_loop dl_sec dl_nsec bufsz events (buf ++ [c])
          end
    end
  else LineError.

Definition read_line (start_sec start_nsec : Z) (bufsz : nat) (events : list read_event)
    : line_result :=
  read_loop (start_sec + AVD_CONTROL_RECV_TIMEOUT_SECS) start_nsec bufsz events [].

(** ** What is sent *)

Lemma write_loop_spec script buf out :
  let '(ok, s) := write_loop script buf out in
  ∃ k, sk_out s = out ++ take k buf ∧ (ok = true → sk_out s = out ++ buf) ∧
    (script = [] → ok = true ∧ sk_script s = []).
Proof.
  revert buf out. induction script as [|r script IH]; intros buf out; destruct buf as [|a buf]; simpl.
  - exists 0%nat. by rewrite take_0, !app_nil_r.
  - exists (length (a :: buf)). rewrite take_ge by done. done.
  - exists 0%nat. by rewrite take_0, !app_nil_r.
  - destruct r as [| |n].
    + specialize (IH (a :: buf) out). destruct (write_loop _ _ _) as [ok s].
      destruct IH as (k & ? & ? & _). by exists k.
    + exists 0%nat. by rewrite take_0, app_nil_r.
    + specialize (IH (drop n (a :: buf)) (out ++ take n (a :: buf))).
      destruct (write_loop _ _ _) as [ok s]. destruct IH as (k & Hk & Hok & _).
      exists (n + k)%nat. split_and!; [|intros Ho|done].
      * by rewrite Hk, <- (assoc_L (++)), take_take_drop.
      * by rewrite (Hok Ho), <- (assoc_L (++)), take_drop.
Qed.

(** A peer that takes everything. *)
Lemma send_open buf out :
  send buf {| sk_script := []; sk_out := out |} = {| sk_script := []; sk_out := out ++ buf |}.
Proof. unfold send, write_all. destruct buf; simpl; by rewrite ?app_nil_r. Qed.

Lemma write_all_open buf out :
  write_all {| sk_script := []; sk_out := out |} buf = (true, {| sk_script := []; sk_out := out ++ buf |}).
Proof. unfold write_all. destruct buf; simpl; by rewrite ?app_nil_r. Qed.

(** ** What is read *)

(** The clock, read just before the [read], was before the deadline.  The [read] itself may then
    wait, for as long as SO_RCVTIMEO lets it. *)
Definition begun_in_time (dl_sec dl_nsec : Z) (ev : read_event) : Prop :=
  ev_sec ev < dl_sec ∨ ev_sec ev = dl_sec ∧ ev_nsec ev < dl_nsec.

(** The bytes among the results. *)
Definition bytes_of (events : list read_event) : cstr :=
  omap (λ ev, match ev_result ev with RByte c => Some c | _ => None end) events.

Definition no_failure (ev : read_event) : Prop :=
  match ev_result ev with REintr | RByte _ => True | _ => False end.

Lemma begun_in_time_spec dl_sec dl_nsec ev :
  (dl_sec <? ev_sec ev) || (ev_sec ev =? dl_sec) && (dl_nsec <=? ev_nsec ev) = false ↔
  begun_in_time dl_sec dl_nsec ev.
Proof.
  unfold begun_in_time. rewrite orb_false_iff, andb_false_iff, Z.ltb_ge, Z.eqb_neq, Z.leb_gt. lia.
Qed.

(** A complete line is returned, *)
Lemma read_loop_complete dl_sec dl_nsec bufsz pre ev post buf :
  ev_result ev = RByte LF → LF ∉ bytes_of pre → Forall no_failure pre →
  Forall (begun_in_time dl_sec dl_nsec) (pre ++ [ev]) →
  (length (buf ++ bytes_of pre) + 1 < bufsz)%nat →
  read_loop dl_sec dl_nsec bufsz (pre ++ ev :: post) buf = Line (buf ++ bytes_of pre).
Proof.
  intros Hev. revert buf. induction pre as [|e pre IH]; intros buf Hlf Hf Ht Hl; cbn [app read_loop].
  - apply Forall_cons in Ht as [Ht%begun_in_time_spec _]. rewrite Ht, Hev, aeqb_refl.
    rewrite app_nil_r in *. by rewrite (proj2 (Nat.ltb_lt _ _)).
  - apply Forall_cons in Hf as [He Hf]. apply Forall_cons in Ht as [Ht%begun_in_time_spec Hts]. rewrite Ht.
    rewrite (proj2 (Nat.ltb_lt _ _)) by (rewrite length_app in Hl; lia).
    unfold bytes_of in *. cbn [omap list_omap] in *. unfold no_failure in He.
    destruct (ev_result e) as [| | |c]; [by apply IH|done..|].
    apply not_elem_of_cons in Hlf as [Hc Hlf].
    rewrite (proj2 (aeqb_neq c LF)) by done. rewrite IH; [|done..|].
    + by rewrite <- (assoc_L (++)).
    + by rewrite <- (assoc_L (++)).
Qed.

(** and nothing else is a line. *)
Lemma read_loop_sound dl_sec dl_nsec bufsz events buf line :
  read_loop dl_sec dl_nsec bufsz events buf = Line line →
  ∃ pre ev post, events = pre ++ ev :: post ∧ ev_result ev = RByte LF ∧
    line = buf ++ bytes_of pre ∧ (LF ∉ bytes_of pre) ∧ Forall no_failure pre ∧
    Forall (begun_in_time dl_sec dl_nsec) (pre ++ [ev]) ∧ (length line + 1 < bufsz)%nat.
Proof.
  revert buf. induction events as [|ev events IH]; intros buf; cbn [read_loop]; intros Hr;
    (destruct (Nat.ltb_spec (length buf + 1) bufsz) as [Hb|Hb]; [|done]); [done|].
  destruct ((dl_sec <? ev_sec ev) || _) eqn:Ht; [done|]. apply begun_in_time_spec in Ht.
  assert (∀ pre ev0 post line, (∃ b, bytes_of [ev] = b ∧ line = (buf ++ b) ++ bytes_of pre) →
    events = pre ++ ev0 :: post → LF ∉ bytes_of [ev] → no_failure ev →
    ev_result ev0 = RByte LF → LF ∉ bytes_of pre → Forall no_failure pre →
    Forall (begun_in_time dl_sec dl_nsec) (pre ++ [ev0]) → (length line + 1 < bufsz)%nat →
    ∃ pre ev0 post, ev :: events = pre ++ ev0 :: post ∧ ev_result ev0 = RByte LF ∧
      line = buf ++ bytes_of pre ∧ (LF ∉ bytes_of pre) ∧ Forall no_failure pre ∧
      Forall (begun_in_time dl_sec dl_nsec) (pre ++ [ev0]) ∧ (length line + 1 < bufsz)%nat) as Hnext.
  { intros pre ev0 post line' (b & <- & ->) -> Hl1 Hf Hev Hl2 Hfs Hts Hlen.
    assert (bytes_of (ev :: pre) = bytes_of [ev] ++ bytes_of pre) as Hb'.
    { unfold bytes_of. cbn [omap list_omap]. by destruct (ev_result ev). }
    exists (ev :: pre), ev0, post. rewrite Hb', (assoc_L (++)), elem_of_app.
    split_and!; [done..|by intros [?|?]|by constructor|by constructor|done]. }
  destruct (ev_result ev) as [| | |c] eqn:He; [|done|by destruct buf|].
  - destruct (IH _ Hr) as (pre & ev0 & post & Hevs & ? & ? & ? & ? & ? & ?).
    eapply Hnext; [|exact Hevs|..]; try done.
    + unfold bytes_of at 1. cbn [omap list_omap]. rewrite He. exists []. by rewrite app_nil_r.
    + unfold bytes_of. cbn [omap list_omap]. rewrite He. apply not_elem_of_nil.
    + unfold no_failure. by rewrite He.
  - destruct (aeqb c LF) eqn:Hc.
    + simplify_eq. apply aeqb_eq in Hc as ->. exists [], ev, events.
      rewrite app_nil_r. split_and!; [done..|apply not_elem_of_nil|done|by constructor|done].
    + apply aeqb_neq in Hc. destruct (IH _ Hr) as (pre & ev0 & post & Hevs & ? & ? & ? & ? & ? & ?).
      eapply Hnext; [|exact Hevs|..]; try done.
      * unfold bytes_of at 1. cbn [omap list_omap]. rewrite He. by exists [c].
      * unfold bytes_of. cbn [omap list_omap]. rewrite He. by intros ?%list_elem_of_singleton.
      * unfold no_failure. by rewrite He.
Qed.

(** C38: [read_line] returns exactly the bytes sent before the first newline,
    and returns a line only if they fit its buffer, no [read] failed and the
    [read] of every byte, the newline included, was begun before the deadline:
    a client cannot hold a connection by trickling bytes beyond the one [read]
    that is begun last, and cannot have a partial line taken for a command.
    That is about when a [read] begins: a byte that comes later, while it
    waits, still counts. *)
Theorem read_line_spec start_sec start_nsec bufsz events line :
  read_line start_sec start_nsec bufsz events = Line line ↔
  ∃ pre ev post, events = pre ++ ev :: post ∧ ev_result ev = RByte LF ∧ bytes_of pre = line ∧
    (LF ∉ line) ∧ Forall no_failure pre ∧
    Forall (begun_in_time (start_sec + AVD_CONTROL_RECV_TIMEOUT_SECS) start_nsec) (pre ++ [ev]) ∧
    (length line + 1 < bufsz)%nat.
Proof.
  unfold read_line. split.
  - intros Hr. destruct (read_loop_sound _ _ _ _ _ _ Hr)
      as (pre & ev & post & ? & ? & -> & ? & ? & ? & ?). by exists pre, ev, post.
  - intros (pre & ev & post & -> & ? & <- & ? & ? & ? & ?). by apply (read_loop_complete _ _ _ _ _ _ []).
Qed.

(** ** Examples *)

Module SockExamples.

Definition at_time (t : Z) (r : read_result) : read_event :=
  {| ev_sec := t; ev_nsec := 0; ev_result := r |}.

Example one_line :
  read_line 100 0 AVD_SOCK_LINE_MAX (at_time 100 REintr ::
    (at_time 101 ∘ RByte <$> cs "STATUS") ++ [at_time 104 (RByte LF)]) = Line (cs "STATUS").
Proof. reflexivity. Qed.

(** A byte a second never completes. *)
Example trickled :
  read_line 100 0 AVD_SOCK_LINE_MAX
    ((λ p, at_time (100 + Z.of_nat p.1) (RByte p.2)) <$> zip (seq 0 10) (cs "STATUS" ++ [LF])) =
  LineError.
Proof. reflexivity. Qed.

Example cut_short : read_line 0 0 AVD_SOCK_LINE_MAX [at_time 0 (RByte "S"); at_time 0 REof] = LineError.
Proof. reflexivity. Qed.

End SockExamples.
