(* ===== verification/History.v ===== *)
(** * The verdict history: userspace/avd/avd.c

    [record_verdict_history], the ring of the last 500 scans, and
    [cmd_verdicts_recent], which answers a client with the ones it may see. *)

From Stdlib Require Import ZArith Lia Ascii String.
From stdpp Require Import prelude list.
From S2P Require Import Prelude CString CText Sock.

Local Open Scope Z_scope.

Definition AVD_VERDICT_HISTORY_MAX : nat := 500.
Definition AV_VERDICT_MALICIOUS : Z := 1.
Definition UID_UNKNOWN : Z := 2 ^ 32 - 1.   (* (uid_t)-1 *)

Record verdict_record := {
  vr_id : Z; vr_timestamp : Z; vr_pid : Z; vr_uid : Z; vr_path : cstr; vr_sha256_hex : cstr;
  vr_verdict : Z; vr_rule_name : cstr; vr_score : Z; vr_on_demand : bool;
}.

Record history := {
  verdict_history : list verdict_record;
  verdict_history_count : nat;
  verdict_history_next : nat;
  verdict_history_next_id : Z;
}.

Definition zero_record : verdict_record :=
  {| vr_id := 0; vr_timestamp := 0; vr_pid := 0; vr_uid := 0; vr_path := []; vr_sha256_hex := [];
     vr_verdict := 0; vr_rule_name := []; vr_score := 0; vr_on_demand := false |}.

Definition history_init : history :=
  {| verdict_history := replicate AVD_VERDICT_HISTORY_MAX zero_record;
     verdict_history_count := 0; verdict_history_next := 0; verdict_history_next_id := 1 |}.

(** A completed scan, as [perform_scan] reports it. *)
Record scan := {
  sc_time : Z; sc_pid : Z; sc_uid : Z; sc_path : cstr; sc_sha256_hex : cstr; sc_verdict : Z;
  sc_rule_name : cstr; sc_score : Z; sc_on_demand : bool;
}.

Definition record_of (id : Z) (s : scan) : verdict_record :=
  {| vr_id := id; vr_timestamp := sc_time s; vr_pid := sc_pid s; vr_uid := sc_uid s;
     vr_path := strscpy (sc_path s) PATH_MAX; vr_sha256_hex := strscpy (sc_sha256_hex s) 65;
     vr_verdict := sc_verdict s; vr_rule_name := strscpy (sc_rule_name s) 64;
     vr_score := sc_score s; vr_on_demand := sc_on_demand s |}.

Definition record_verdict_history (s : scan) (h : history) : history :=
  {| verdict_history := <[verdict_history_next h := record_of (verdict_history_next_id h) s]>
                          (verdict_history h);
     verdict_history_count := if (verdict_history_count h <? AVD_VERDICT_HISTORY_MAX)%nat
                              then S (verdict_history_count h) else verdict_history_count h;
     verdict_history_next := ((verdict_history_next h + 1) mod AVD_VERDICT_HISTORY_MAX)%nat;
     verdict_history_next_id := u64 (verdict_history_next_id h + 1) |}.

Definition verdict_visible_to (rec : verdict_record) (peer_uid : Z) (is_root : bool) : bool :=
  is_root || (vr_uid rec =? peer_uid).

(** The copy made under the lock, newest first. *)
Definition snapshot (h : history) : list verdict_record :=
  (λ i, nth ((verdict_history_next h + AVD_VERDICT_HISTORY_MAX - 1 - i) mod AVD_VERDICT_HISTORY_MAX)
          (verdict_history h) zero_record) <$> seq 0 (verdict_history_count h).

(** [for (i = 0; i < avail && take < n; i++)], counting. *)
Fixpoint count_visible (snap : list verdict_record) (n take : nat) (peer_uid : Z) (is_root : bool)
    : nat :=
  match snap with
  | [] => take
  | rec :: snap =>
      if (take <? n)%nat then
        count_visible snap n (if verdict_visible_to rec peer_uid is_root then S take else take)
          peer_uid is_root
      else take
  end.

Definition verdict_row (rec : verdict_record) : cstr :=
  print_unsigned 10 (vr_id rec) ++ [TAB] ++ print_signed (vr_timestamp rec) ++ [TAB] ++
  print_unsigned 10 (vr_pid rec) ++ [TAB] ++ vr_path rec ++ [TAB] ++ vr_sha256_hex rec ++ [TAB] ++
  (if vr_verdict rec =? AV_VERDICT_MALICIOUS then cs "MALICIOUS" else cs "CLEAN") ++ [TAB] ++
  vr_rule_name rec ++ [TAB] ++ print_signed (vr_score rec) ++ [TAB] ++
  (if vr_on_demand rec then cs "1" else cs "0") ++ [LF].

(** The second loop; [false] when a write failed. *)
Fixpoint emit_rows (snap : list verdict_record) (n take : nat) (peer_uid : Z) (is_root : bool)
    (s : sock) : bool * sock :=
  match snap with
  | [] => (true, s)
  | rec :: snap =>
      if (take <? n)%nat then
        if verdict_visible_to rec peer_uid is_root then
          let '(ok, s) := write_all s (strscpy (verdict_row rec) (PATH_MAX + 256)) in
          if ok then emit_rows snap n (S take) peer_uid is_root s else (false, s)
        else emit_rows snap n take peer_uid is_root s
      else (true, s)
  end.

Definition cmd_verdicts_recent (malloc_ok : bool) (n : nat) (peer_uid : Z) (is_root : bool)
    (h : history) (s : sock) : sock :=
  if (0 <? verdict_history_count h)%nat && negb malloc_ok then send_err (cs "out of memory") s
  else
    let snap := snapshot h in
    let take := count_visible snap n 0 peer_uid is_root in
    let s := send (cs "OK" ++ [LF]) s in
    let s := send (cs "COUNT " ++ print_unsigned 10 (Z.of_nat take) ++ [LF]) s in
    let '(ok, s) := emit_rows snap n 0 peer_uid is_root s in
    if ok then send (cs "END" ++ [LF]) s else s.

(** ** The log the ring stands for *)

(** All the scans since the start, newest first. *)
Fixpoint log_of (scans : list scan) (id : Z) : list verdict_record :=
  match scans with
  | [] => []
  | s :: scans => log_of scans (u64 (id + 1)) ++ [record_of id s]
  end.

Definition history_of (scans : list scan) : history :=
  foldl (λ h s, record_verdict_history s h) history_init scans.

(** Slot [next - 1 - i] holds the [i]-th newest. *)
Record history_ok (h : history) (log : list verdict_record) : Prop := {
  ho_slots : length (verdict_history h) = AVD_VERDICT_HISTORY_MAX;
  ho_count : verdict_history_count h = Nat.min (length log) AVD_VERDICT_HISTORY_MAX;
  ho_next : verdict_history_next h = (length log mod AVD_VERDICT_HISTORY_MAX)%nat;
  ho_entry : ∀ i, (i < verdict_history_count h)%nat →
    verdict_history h !! ((verdict_history_next h + AVD_VERDICT_HISTORY_MAX - 1 - i)
      mod AVD_VERDICT_HISTORY_MAX)%nat = log !! i;
}.

Lemma slot_eq next i :
  (next < AVD_VERDICT_HISTORY_MAX)%nat → (i < AVD_VERDICT_HISTORY_MAX)%nat →
  ((next + AVD_VERDICT_HISTORY_MAX - 1 - i) mod AVD_VERDICT_HISTORY_MAX)%nat =
    (if (i <? next)%nat then next - 1 - i else next + AVD_VERDICT_HISTORY_MAX - 1 - i)%nat.
Proof.
  generalize AVD_VERDICT_HISTORY_MAX as M. intros M Hn Hi. destruct (Nat.ltb_spec i next).
  - replace (next + M - 1 - i)%nat with (next - 1 - i + 1 * M)%nat by lia.
    rewrite Nat.Div0.mod_add. apply Nat.mod_small. lia.
  - apply Nat.mod_small. lia.
Qed.

Lemma next_eq next :
  (next < AVD_VERDICT_HISTORY_MAX)%nat →
  ((next + 1) mod AVD_VERDICT_HISTORY_MAX)%nat =
    (if (next + 1 =? AVD_VERDICT_HISTORY_MAX)%nat then 0 else next + 1)%nat.
Proof.
  generalize AVD_VERDICT_HISTORY_MAX as M. intros M Hn. destruct (Nat.eqb_spec (next + 1) M) as [->|].
  - apply Nat.Div0.mod_same.
  - apply Nat.mod_small. lia.
Qed.

Lemma record_ok s h log :
  history_ok h log →
  history_ok (record_verdict_history s h) (record_of (verdict_history_next_id h) s :: log).
Proof.
  intros [Hs Hc Hn He].
  assert (verdict_history_next h < AVD_VERDICT_HISTORY_MAX)%nat as Hlt
    by (rewrite Hn; apply Nat.mod_upper_bound; done).
  assert ((verdict_history_next h + 1) mod AVD_VERDICT_HISTORY_MAX < AVD_VERDICT_HISTORY_MAX)%nat
    as Hlt' by (apply Nat.mod_upper_bound; done).
  constructor; cbn [record_verdict_history verdict_history verdict_history_count verdict_history_next
    length].
  - by rewrite length_insert.
  - rewrite Hc. destruct (Nat.ltb_spec (length log `min` AVD_VERDICT_HISTORY_MAX) AVD_VERDICT_HISTORY_MAX); lia.
  - by rewrite Hn, Nat.Div0.add_mod_idemp_l, Nat.add_1_r.
  - intros i Hi.
    assert (i < AVD_VERDICT_HISTORY_MAX)%nat as HiM.
    { rewrite Hc in Hi. destruct (Nat.ltb_spec (length log `min` AVD_VERDICT_HISTORY_MAX) AVD_VERDICT_HISTORY_MAX); lia. }
    rewrite slot_eq by done. rewrite next_eq in * by done. destruct i as [|i].
    + match goal with |- _ !! ?j = _ => replace j with (verdict_history_next h) by (nat_tests; lia) end.
      apply list_lookup_insert_eq. lia.
    + assert (i < verdict_history_count h)%nat as Hi' by (revert Hi; nat_tests; lia).
      specialize (He i Hi'). rewrite slot_eq in He by lia. etrans; [|exact He].
      rewrite list_lookup_insert_ne; [f_equal|]; nat_tests; lia.
Qed.

Lemma history_init_ok : history_ok history_init [].
Proof.
  constructor; [done|done|done|]. intros i Hi. change (i < 0)%nat in Hi. lia.
Qed.

Lemma foldl_ok scans h log :
  history_ok h log →
  history_ok (foldl (λ h s, record_verdict_history s h) h scans)
    (log_of scans (verdict_history_next_id h) ++ log).
Proof.
  revert h log. induction scans as [|s scans IH]; intros h log Hok; [done|].
  cbn [foldl log_of]. rewrite <- (assoc_L (++)). apply (IH (record_verdict_history s h)). by apply record_ok.
Qed.

Lemma snapshot_ok h log : history_ok h log → snapshot h = take AVD_VERDICT_HISTORY_MAX log.
Proof.
  intros [Hs Hc Hn He]. unfold snapshot. apply list_eq. intros i. rewrite list_lookup_fmap.
  destruct (decide (i < verdict_history_count h)%nat) as [Hi|Hi].
  - rewrite lookup_seq_lt by done. cbn [fmap option_fmap option_map plus].
    rewrite lookup_take_lt by lia. rewrite <- He by done.
    destruct (lookup_lt_is_Some_2 (verdict_history h)
      ((verdict_history_next h + AVD_VERDICT_HISTORY_MAX - 1 - i) mod AVD_VERDICT_HISTORY_MAX)%nat) as [x Hx].
    { rewrite Hs. by apply Nat.mod_upper_bound. }
    rewrite Hx. f_equal. by apply nth_lookup_Some.
  - rewrite lookup_seq_ge by lia. symmetry. apply lookup_ge_None. rewrite length_take. lia.
Qed.

(** ** What a client is sent *)

(** The rows a peer gets: the newest [n] among the last 500 that it may see. *)
Definition rows_for (log : list verdict_record) (n : nat) (peer_uid : Z) (is_root : bool)
    : list verdict_record :=
  take n (List.filter (λ r, verdict_visible_to r peer_uid is_root) (take AVD_VERDICT_HISTORY_MAX log)).

Definition verdicts_reply (rows : list verdict_record) : cstr :=
  cs "OK" ++ [LF] ++ (cs "COUNT " ++ print_unsigned 10 (Z.of_nat (length rows)) ++ [LF]) ++
  mjoin ((λ r, strscpy (verdict_row r) (PATH_MAX + 256)) <$> rows) ++ cs "END" ++ [LF].

Lemma count_visible_spec snap n t peer_uid is_root :
  (t ≤ n)%nat →
  count_visible snap n t peer_uid is_root =
    (t + length (take (n - t) (List.filter (λ r, verdict_visible_to r peer_uid is_root) snap)))%nat.
Proof.
  revert t. induction snap as [|r snap IH]; intros t Ht; cbn [count_visible List.filter].
  { rewrite take_nil. simpl. lia. }
  destruct (Nat.ltb_spec t n).
  - destruct (verdict_visible_to r peer_uid is_root); rewrite IH by lia; [|done].
    replace (n - t)%nat with (S (n - S t)) by lia. simpl. lia.
  - replace (n - t)%nat with 0%nat by lia. simpl. lia.
Qed.

Lemma emit_rows_spec snap n t peer_uid is_root out :
  (t ≤ n)%nat →
  emit_rows snap n t peer_uid is_root {| sk_script := []; sk_out := out |} =
    (true, {| sk_script := [];
              sk_out := out ++ mjoin ((λ r, strscpy (verdict_row r) (PATH_MAX + 256)) <$>
                take (n - t) (List.filter (λ r, verdict_visible_to r peer_uid is_root) snap)) |}).
Proof.
  revert t out. induction snap as [|r snap IH]; intros t out Ht; cbn [emit_rows List.filter].
  { by rewrite take_nil, app_nil_r. }
  destruct (Nat.ltb_spec t n).
  - destruct (verdict_visible_to r peer_uid is_root); [|by apply IH].
    rewrite write_all_open, IH by lia. replace (n - t)%nat with (S (n - S t)) by lia.
    cbn [take fmap list_fmap mjoin list_join]. by rewrite (assoc_L (++)).
  - replace (n - t)%nat with 0%nat by lia. by rewrite app_nil_r.
Qed.

(** Writing fails for a script of results, but what is written is decided by
    the rows alone. *)
Lemma emit_rows_filter snap n t peer_uid is_root s :
  emit_rows snap n t peer_uid is_root s =
    emit_rows (List.filter (λ r, verdict_visible_to r peer_uid is_root) snap) n t peer_uid is_root s.
Proof.
  revert t s. induction snap as [|r snap IH]; intros t s; [done|].
  cbn [emit_rows List.filter]. destruct (verdict_visible_to r peer_uid is_root) eqn:Hv.
  - cbn [emit_rows]. rewrite Hv. destruct (t <? n)%nat; [|done].
    destruct (write_all s _) as [[] s']; [apply IH|done].
  - rewrite <- IH. destruct (t <? n)%nat eqn:Ht; [done|]. destruct snap; [done|]. cbn [emit_rows].
    by rewrite Ht.
Qed.

(** A client that takes everything gets one full reply. *)
Lemma verdicts_recent_open malloc_ok n peer_uid is_root h out :
  sk_out (cmd_verdicts_recent malloc_ok n peer_uid is_root h {| sk_script := []; sk_out := out |}) =
    if (0 <? verdict_history_count h)%nat && negb malloc_ok
    then sk_out (send_err (cs "out of memory") {| sk_script := []; sk_out := out |})
    else out ++ verdicts_reply
           (take n (List.filter (λ r, verdict_visible_to r peer_uid is_root) (snapshot h))).
Proof.
  unfold cmd_verdicts_recent. destruct (_ && _); [done|].
  rewrite count_visible_spec by lia. rewrite !send_open, emit_rows_spec by lia.
  rewrite send_open. cbn [sk_out]. rewrite !Nat.sub_0_r, Nat.add_0_l.
  unfold verdicts_reply. by rewrite <- !(assoc_L (++)).
Qed.

(** C33: the ring answers for the log of the last 500 scans.  After any
    sequence of scans, a client that reads its answer gets, newest first, the
    rows of the newest [n] scans among the last 500, its own or others', that
    it may see, under a COUNT that is their number; and whatever its
    connection does, what it is sent depends on the scans it may see among
    those 500 and on no other, except that the scans of others, being logged
    too, drive its own out.  Root may see all of them; another peer those of
    files owned by the uid its credentials gave, which is never a file of
    another or of an unknown owner, unless the credentials could not be read:
    the uid is then the unknown one, and rows of unknown owners are shown, see
    [HistoryExamples.unknown_peer_sees_unknown]. *)
Theorem verdicts_recent_spec scans n peer_uid is_root out :
  let log := log_of scans 1 in
  sk_out (cmd_verdicts_recent true n peer_uid is_root (history_of scans)
            {| sk_script := []; sk_out := out |}) =
    out ++ verdicts_reply (rows_for log n peer_uid is_root) ∧
  (∀ scans' malloc_ok s,
    length scans ≠ 0%nat → length scans' ≠ 0%nat →
    List.filter (λ r, verdict_visible_to r peer_uid is_root) (take AVD_VERDICT_HISTORY_MAX log) =
    List.filter (λ r, verdict_visible_to r peer_uid is_root)
      (take AVD_VERDICT_HISTORY_MAX (log_of scans' 1)) →
    cmd_verdicts_recent malloc_ok n peer_uid is_root (history_of scans) s =
    cmd_verdicts_recent malloc_ok n peer_uid is_root (history_of scans') s) ∧
  (is_root = true → rows_for log n peer_uid is_root = take n (take AVD_VERDICT_HISTORY_MAX log)) ∧
  (is_root = false → Forall (λ r, vr_uid r = peer_uid) (rows_for log n peer_uid is_root)).
Proof.
  assert (∀ scans, history_ok (history_of scans) (log_of scans 1)) as Hok.
  { intros sc. pose proof (foldl_ok sc history_init [] history_init_ok) as Hok.
    by rewrite app_nil_r in Hok. }
  assert (∀ scans, length scans ≠ 0%nat → verdict_history_count (history_of scans) ≠ 0%nat) as Hcnt.
  { intros sc Hsc. rewrite (ho_count _ _ (Hok sc)).
    assert (length (log_of sc 1) = length sc) as ->; [|by destruct (length sc)].
    clear. generalize 1. induction sc as [|s sc IH]; intros id; [done|]. cbn [log_of].
    rewrite length_app, IH. simpl. lia. }
  intros log. split_and!.
  - rewrite verdicts_recent_open, andb_false_r, (snapshot_ok _ _ (Hok scans)). done.
  - intros scans' malloc_ok s Hs Hs' Hf. unfold cmd_verdicts_recent.
    assert (∀ sc, length sc ≠ 0%nat → (0 <? verdict_history_count (history_of sc))%nat = true) as Hpos
      by (intros sc ?; apply Nat.ltb_lt; specialize (Hcnt sc); lia).
    rewrite !Hpos by done. destruct (true && negb malloc_ok); [done|].
    rewrite !(snapshot_ok _ _ (Hok _)). rewrite !count_visible_spec by lia. fold log. rewrite Hf.
    rewrite emit_rows_filter, Hf, <- emit_rows_filter. done.
  - intros ->. unfold rows_for, verdict_visible_to. cbn [orb]. by rewrite filter_all by done.
  - intros ->. apply Forall_take, Forall_forall. intros r Hr.
    apply list_elem_of_In, filter_In in Hr as [_ Hr]. by apply Z.eqb_eq.
Qed.

(** No row is ever cut short: whatever a scan recorded, its row with the
    longest path, rule name and numbers the types allow fits the buffer, with
    its newline. *)
Theorem verdict_row_fits id s :
  0 ≤ id < 2 ^ 64 → - 2 ^ 63 ≤ sc_time s < 2 ^ 63 → 0 ≤ sc_pid s < 2 ^ 32 →
  - 2 ^ 31 ≤ sc_score s < 2 ^ 31 →
  strscpy (verdict_row (record_of id s)) (PATH_MAX + 256) = verdict_row (record_of id s).
Proof.
  intros Hid Ht Hp Hsc. apply strscpy_fit.
  pose proof (print_unsigned_length id 19 ltac:(simpl; lia)).
  pose proof (print_signed_length (sc_time s) 18 ltac:(simpl; lia)).
  pose proof (print_unsigned_length (sc_pid s) 9 ltac:(simpl; lia)).
  pose proof (print_signed_length (sc_score s) 9 ltac:(simpl; lia)).
  pose proof (strscpy_length (sc_path s) PATH_MAX ltac:(unfold PATH_MAX; lia)).
  pose proof (strscpy_length (sc_sha256_hex s) 65 ltac:(lia)).
  pose proof (strscpy_length (sc_rule_name s) 64 ltac:(lia)).
  unfold verdict_row, record_of. cbn [vr_id vr_timestamp vr_pid vr_path vr_sha256_hex vr_verdict
    vr_rule_name vr_score vr_on_demand].
  assert (∀ b : bool, length (if b then cs "MALICIOUS" else cs "CLEAN") ≤ 9)%nat as Hv
    by (intros []; simpl; lia).
  specialize (Hv (sc_verdict s =? AV_VERDICT_MALICIOUS)).
  assert (length (if sc_on_demand s then cs "1" else cs "0") = 1)%nat by (by destruct (sc_on_demand s)).
  rewrite !length_app. cbn [length]. lia.
Qed.

(** ** Examples *)

Module HistoryExamples.

Definition scan_of (uid : Z) (path : cstr) : scan :=
  {| sc_time := 1700000000; sc_pid := 7; sc_uid := uid; sc_path := path; sc_sha256_hex := cs "00ff";
     sc_verdict := 0; sc_rule_name := []; sc_score := 0; sc_on_demand := false |}.

Definition two : list scan := [scan_of 0 (cs "/root/secret"); scan_of 1000 (cs "/home/u/x")].

Definition ask (n : nat) (uid : Z) (is_root : bool) : cstr :=
  sk_out (cmd_verdicts_recent true n uid is_root (history_of two) {| sk_script := []; sk_out := [] |}).

Example own_rows_only :
  ask 10 1000 false =
  cs "OK" ++ [LF] ++ cs "COUNT 1" ++ [LF] ++
  mjoin (list_fmap _ _ (λ f, f ++ [TAB]) [cs "2"; cs "1700000000"; cs "7"; cs "/home/u/x"; cs "00ff";
    cs "CLEAN"; []; cs "0"]) ++ cs "0" ++ [LF] ++ cs "END" ++ [LF].
Proof. vm_compute. reflexivity. Qed.

Example root_sees_all : count_visible (snapshot (history_of two)) 10 0 0 true = 2%nat.
Proof. vm_compute. reflexivity. Qed.

(** A row without a known owner is root's, but a peer whose credentials could
    not be read has the same unknown uid, and sees it. *)
Example unknown_peer_sees_unknown :
  count_visible (snapshot (history_of [scan_of UID_UNKNOWN (cs "/root/secret")])) 10 0 UID_UNKNOWN false = 1%nat.
Proof. vm_compute. reflexivity. Qed.

(** The 501st scan takes the place of the first. *)
Example ring_wraps :
  (λ r, vr_id r) <$> head (rev (snapshot (history_of (replicate 501 (scan_of 0 (cs "/x")))))) = Some 2.
Proof. vm_compute. reflexivity. Qed.

(** What the user 1000 is sent does not depend on a scan of root's file. *)
Definition two' : list scan := [scan_of 0 (cs "/root/other"); scan_of 1000 (cs "/home/u/x")].

Lemma verdicts_recent_witness :
  let s := {| sk_script := [WEintr; WCount 3]; sk_out := [] |} in
  cmd_verdicts_recent true 10 1000 false (history_of two) s =
    cmd_verdicts_recent true 10 1000 false (history_of two') s ∧
  Forall (λ r, vr_uid r = 1000) (rows_for (log_of two 1) 10 1000 false).
Proof.
  intros s. destruct (verdicts_recent_spec two 10 1000 false []) as (_ & Hsame & _ & Hown). split.
  - apply Hsame; [discriminate|discriminate|vm_compute; reflexivity].
  - by apply Hown.
Defined.

Lemma verdict_row_fits_witness :
  strscpy (verdict_row (record_of 1 (scan_of 0 (cs "/x")))) (PATH_MAX + 256) =
  verdict_row (record_of 1 (scan_of 0 (cs "/x"))).
Proof. apply verdict_row_fits; simpl; lia. Defined.

End HistoryExamples.
