(* ===== verification/ScanQueue.v ===== *)
(** * The scan queue and its workers: userspace/avd/avd.c

    The bounded queue between the netlink thread, which enqueues
    ([enqueue_scan_task]), and the scan workers ([scan_worker_main]): a linked
    list of heap tasks under [queue_lock], with two condition variables.  Each
    section under the lock is one definition; [step] interleaves the threads.
    A signalled thread goes back to its check; a wait may also end by itself.
    [parse_tunable_env] gives the queue its bound. *)

From Stdlib Require Import ZArith Lia Ascii String.
From stdpp Require Import prelude list gmap.
From S2P Require Import Prelude CString CText.

Local Open Scope Z_scope.

(** ** The bounds from the environment *)

Definition AVD_SCAN_THREADS_DEFAULT : Z := 8.
Definition AVD_SCAN_THREADS_MIN : Z := 1.
Definition AVD_SCAN_THREADS_MAX : Z := 256.
Definition AVD_SCAN_QUEUE_MAX_DEFAULT : Z := 256.
Definition AVD_SCAN_QUEUE_MIN : Z := 1.
Definition AVD_SCAN_QUEUE_MAX_MAX : Z := 65536.

(** [strtol] in base 10: the value, whether it is out of range (ERANGE), and
    the rest of the string from [end] on, the whole of it if there is no
    number. *)
Definition strtol (s : cstr) : Z * bool * cstr :=
  let body := skip_space s in
  let '(neg, digits) := match body with
    | a :: body' => if code a =? 45 then (true, body') else if code a =? 43 then (false, body')
                    else (false, body)
    | [] => (false, [])
    end in
  match take_while is_digit digits with
  | [] => (0, false, s)
  | ds =>
      let v := digits_value 10 ds 0 in
      let v := if neg then - v else v in
      (Z.max (- 2 ^ 63) (Z.min (2 ^ 63 - 1) v), (v <? - 2 ^ 63) || (2 ^ 63 - 1 <? v),
       drop (length ds) digits)
  end.

(** [val]: what [getenv] returns. *)
Definition parse_tunable_env (val : option cstr) (default_val min_val max_val : Z) : Z :=
  match val with
  | None | Some [] => default_val
  | Some val =>
      let '(parsed, erange, rest) := strtol val in
      if erange || (length rest =? length val)%nat || negb (length rest =? 0)%nat ||
         (parsed <? min_val) || (max_val <? parsed)
      then default_val else parsed
  end.

(** ** The queue *)

Record request := { rq_reqid : Z; rq_pid : Z; rq_path : cstr; rq_sha256_hex : cstr }.

Record scan_task := { next : option nat; task : request }.

(** What [enqueue_scan_task] copies. *)
Definition task_of (reqid pid : Z) (path sha256_hex : option cstr) : request :=
  {| rq_reqid := reqid; rq_pid := pid; rq_path := strscpy (default [] path) PATH_MAX;
     rq_sha256_hex := strscpy (default [] sha256_hex) 65 |}.

Record queue := {
  heap : gmap nat scan_task;
  queue_head : option nat; queue_tail : option nat; queue_len : Z;
  shutting_down : bool;
}.

Definition queue_init : queue :=
  {| heap := ∅; queue_head := None; queue_tail := None; queue_len := 0; shutting_down := false |}.

Definition set_heap (h : gmap nat scan_task) (q : queue) : queue :=
  {| heap := h; queue_head := queue_head q; queue_tail := queue_tail q; queue_len := queue_len q;
     shutting_down := shutting_down q |}.

Inductive enqueue_result := EWait | ERefused | EQueued.

(** One pass of [enqueue_scan_task] under the lock, with its task [p]. *)
Definition enqueue_check (queue_max : Z) (p : nat) (q : queue) : enqueue_result * queue :=
  if (queue_max <=? queue_len q) && negb (shutting_down q) then (EWait, q)
  else if shutting_down q then (ERefused, set_heap (delete p (heap q)) q)
  else
    let h := match queue_tail q with
      | Some t => alter (λ n, {| next := Some p; task := task n |}) t (heap q)
      | None => heap q
      end in
    (EQueued,
     {| heap := h;
        queue_head := match queue_tail q with Some _ => queue_head q | None => Some p end;
        queue_tail := Some p; queue_len := queue_len q + 1; shutting_down := false |}).

Inductive dequeue_result := DWait | DExit | DTask (p : nat) (r : request).

(** One pass of [scan_worker_main] under the lock. *)
Definition dequeue_check (q : queue) : dequeue_result * queue :=
  match queue_head q with
  | None => (if shutting_down q then DExit else DWait, q)
  | Some p =>
      match heap q !! p with
      | None => (DWait, q)    (* a dangling head: excluded by the invariant *)
      | Some n =>
          (DTask p (task n),
           {| heap := heap q; queue_head := next n;
              queue_tail := match next n with None => None | Some _ => queue_tail q end;
              queue_len := queue_len q - 1; shutting_down := shutting_down q |})
      end
  end.

(** The end of [main] under the lock. *)
Definition queue_shutdown (q : queue) : queue :=
  {| heap := heap q; queue_head := queue_head q; queue_tail := queue_tail q;
     queue_len := queue_len q; shutting_down := true |}.

(** ** The threads *)

Inductive producer := PIdle | PCheck (p : nat) | PWait (p : nat).
Inductive worker := WCheck | WWait | WBusy (p : nat) (r : request) | WExit.

Record sys := {
  qu : queue; prod : producer; workers : gmap nat worker;
  queued : list request;    (* all that were accepted, in order *)
  taken : list request;     (* all that a worker took, in order *)
}.

Definition wake_producer (pr : producer) : producer :=
  match pr with PWait p => PCheck p | _ => pr end.
Definition wake_worker (w : worker) : worker := match w with WWait => WCheck | _ => w end.

(** [pthread_cond_signal]: one of the waiting workers, if there is any. *)
Definition signals (ws ws' : gmap nat worker) : Prop :=
  (∃ i, ws !! i = Some WWait ∧ ws' = <[i := WCheck]> ws) ∨
  ((∀ i, ws !! i ≠ Some WWait) ∧ ws' = ws).

(** What a worker does. *)
Inductive worker_step (s : sys) : sys → Prop :=
  | step_empty i q :
      workers s !! i = Some WCheck → dequeue_check (qu s) = (DWait, q) →
      worker_step s {| qu := q; prod := prod s; workers := <[i := WWait]> (workers s);
                       queued := queued s; taken := taken s |}
  | step_exit i q :
      workers s !! i = Some WCheck → dequeue_check (qu s) = (DExit, q) →
      worker_step s {| qu := q; prod := prod s; workers := <[i := WExit]> (workers s);
                       queued := queued s; taken := taken s |}
  | step_taken i p r q :
      workers s !! i = Some WCheck → dequeue_check (qu s) = (DTask p r, q) →
      worker_step s {| qu := q; prod := wake_producer (prod s);
                       workers := <[i := WBusy p r]> (workers s);
                       queued := queued s; taken := taken s ++ [r] |}
  | step_done i p r :
      workers s !! i = Some (WBusy p r) →
      worker_step s {| qu := set_heap (delete p (heap (qu s))) (qu s); prod := prod s;
                       workers := <[i := WCheck]> (workers s); queued := queued s;
                       taken := taken s |}.

(** Every thread, the start of the shutdown,
    and waits that end by themselves. *)
Inductive step (queue_max : Z) (s : sys) : sys → Prop :=
  | step_worker s' : worker_step s s' → step queue_max s s'
  | step_malloc p r :
      prod s = PIdle → heap (qu s) !! p = None →
      step queue_max s {| qu := set_heap (<[p := {| next := None; task := r |}]> (heap (qu s))) (qu s);
               prod := PCheck p; workers := workers s; queued := queued s; taken := taken s |}
  | step_full p q :
      prod s = PCheck p → enqueue_check queue_max p (qu s) = (EWait, q) →
      step queue_max s {| qu := q; prod := PWait p; workers := workers s; queued := queued s;
                          taken := taken s |}
  | step_refused p q :
      prod s = PCheck p → enqueue_check queue_max p (qu s) = (ERefused, q) →
      step queue_max s {| qu := q; prod := PIdle; workers := workers s; queued := queued s;
                          taken := taken s |}
  | step_queued p n q ws :
      prod s = PCheck p → heap (qu s) !! p = Some n →
      enqueue_check queue_max p (qu s) = (EQueued, q) → signals (workers s) ws →
      step queue_max s {| qu := q; prod := PIdle; workers := ws; queued := queued s ++ [task n];
                          taken := taken s |}
  | step_shutdown :
      step queue_max s
        {| qu := queue_shutdown (qu s);
           prod := wake_producer (prod s); workers := wake_worker <$> workers s;
           queued := queued s; taken := taken s |}
  | step_spurious_worker i :
      workers s !! i = Some WWait →
      step queue_max s {| qu := qu s; prod := prod s; workers := <[i := WCheck]> (workers s);
                          queued := queued s; taken := taken s |}
  | step_spurious_producer :
      step queue_max s {| qu := qu s; prod := wake_producer (prod s); workers := workers s;
                          queued := queued s; taken := taken s |}.

(** After [spawned] workers have been started. *)
Definition sys_init (spawned : nat) : sys :=
  {| qu := queue_init; prod := PIdle;
     workers := list_to_map ((λ i, (i, WCheck)) <$> seq 0 spawned); queued := []; taken := [] |}.

Inductive reachable (queue_max : Z) (spawned : nat) : sys → Prop :=
  | reach_init : reachable queue_max spawned (sys_init spawned)
  | reach_step s s' :
      reachable queue_max spawned s → step queue_max s s' → reachable queue_max spawned s'.

(** ** The list in the heap *)

#[export] Instance request_eq_dec : EqDecision request.
Proof. solve_decision. Defined.
#[export] Instance worker_eq_dec : EqDecision worker.
Proof. solve_decision. Defined.

Fixpoint chain (h : gmap nat scan_task) (hd : option nat) (l : list nat) (rs : list request) : Prop :=
  match l, rs with
  | [], [] => hd = None
  | p :: l, r :: rs => hd = Some p ∧ ∃ n, h !! p = Some n ∧ task n = r ∧ chain h (next n) l rs
  | _, _ => False
  end.

Lemma chain_frame h h' hd l rs :
  (∀ p, p ∈ l → h' !! p = h !! p) → chain h hd l rs → chain h' hd l rs.
Proof.
  revert hd rs. induction l as [|p l IH]; intros hd [|r rs] Hf; try done; simpl.
  intros (-> & n & Hn & Hr & Hc). split; [done|]. exists n. rewrite Hf by left.
  split_and!; [done..|]. apply IH; [|done]. intros q Hq. apply Hf. by right.
Qed.

Lemma chain_length h hd l rs : chain h hd l rs → length rs = length l.
Proof.
  revert hd rs. induction l as [|p l IH]; intros hd [|r rs]; try done; simpl.
  intros (_ & n & _ & _ & Hc). f_equal. by eapply IH.
Qed.

Lemma chain_in h hd l rs p : chain h hd l rs → p ∈ l → is_Some (h !! p).
Proof.
  revert hd rs. induction l as [|q l IH]; intros hd [|r rs]; simpl; try done; [by intros _ ?%elem_of_nil|].
  intros (_ & n & Hn & _ & Hc) [->|Hp]%elem_of_cons; [by eexists|by eapply IH].
Qed.

(** Appending behind the tail. *)
Lemma chain_snoc h hd l rs t p n :
  chain h hd (l ++ [t]) rs → NoDup (l ++ [t]) → p ∉ l ++ [t] → h !! p = Some n → next n = None →
  chain (alter (λ m, {| next := Some p; task := task m |}) t h) hd ((l ++ [t]) ++ [p]) (rs ++ [task n]).
Proof.
  revert hd rs. induction l as [|q l IH]; intros hd [|r rs]; simpl; try done.
  - intros (-> & m & Hm & <- & Hc) _ Hp Hn Hnx. destruct rs; [|done].
    split; [done|]. eexists. rewrite lookup_alter_eq, Hm. split; [done|]. split; [done|].
    simpl. split; [done|]. exists n. rewrite lookup_alter_ne; [by split_and!|].
    intros ->. apply Hp. by left.
  - intros (-> & m & Hm & <- & Hc) [Hq Hnd]%NoDup_cons Hp Hn Hnx. split; [done|]. exists m.
    rewrite lookup_alter_ne.
    + split_and!; [done..|]. apply IH; [done..| |done|done]. intros ?. apply Hp. by right.
    + intros ->. apply Hq. apply elem_of_app. right. by left.
Qed.

(** ** The invariant *)

Definition holds (pr : producer) (p : nat) : Prop := pr = PCheck p ∨ pr = PWait p.
Definition busy (ws : gmap nat worker) (i p : nat) : Prop := ∃ r, ws !! i = Some (WBusy p r).

(** The workers that are about to look at the queue. *)
Definition ready (ws : gmap nat worker) : nat := size (filter (λ x, x.2 = WCheck) ws).

Lemma ready_check ws i w :
  ws !! i = Some w → w ≠ WCheck → ready (<[i := WCheck]> ws) = S (ready ws).
Proof.
  intros Hi Hw. unfold ready. rewrite map_filter_insert_True by done.
  apply map_size_insert_None. apply map_lookup_filter_None. right. by intros x Hx; simplify_eq.
Qed.

Lemma ready_uncheck ws i w :
  ws !! i = Some WCheck → w ≠ WCheck → S (ready (<[i := w]> ws)) = ready ws.
Proof.
  intros Hi Hw. unfold ready. rewrite map_filter_insert_False by done.
  rewrite map_filter_delete. rewrite map_size_delete_Some; [|exists WCheck; by apply map_lookup_filter_Some_2].
  assert (0 < size (filter (λ x, x.2 = WCheck) ws))%nat; [|lia].
  assert (filter (λ x, x.2 = WCheck) ws !! i = Some WCheck) as Hf by (by apply map_lookup_filter_Some_2).
  destruct (decide (size (filter (λ x, x.2 = WCheck) ws) = 0)%nat) as [Hz|]; [|lia].
  apply map_size_empty_inv in Hz. by rewrite Hz in Hf.
Qed.

(** [l]: the tasks in the list, [rs] their requests. *)
Record inv (queue_max : Z) (s : sys) (l : list nat) (rs : list request) : Prop := {
  inv_chain : chain (heap (qu s)) (queue_head (qu s)) l rs;
  inv_tail : queue_tail (qu s) = last l;
  inv_nodup : NoDup l;
  inv_len : queue_len (qu s) = Z.of_nat (length l);
  inv_bound : Z.of_nat (length l) ≤ queue_max;
  inv_prod : ∀ p, holds (prod s) p → (p ∉ l) ∧ (∀ i, ¬ busy (workers s) i p) ∧
    ∃ n, heap (qu s) !! p = Some n ∧ next n = None;
  inv_busy : ∀ i p r, workers s !! i = Some (WBusy p r) →
    (p ∉ l) ∧ (∃ n, heap (qu s) !! p = Some n ∧ task n = r) ∧ ∀ j, busy (workers s) j p → j = i;
  inv_heap : ∀ p, is_Some (heap (qu s) !! p) → p ∈ l ∨ holds (prod s) p ∨ ∃ i, busy (workers s) i p;
  inv_fifo : queued s = taken s ++ rs;
  inv_wait : (∃ i, workers s !! i = Some WWait) →
    shutting_down (qu s) = false ∧ (length l ≤ ready (workers s))%nat;
  inv_full : ∀ p, prod s = PWait p → shutting_down (qu s) = false ∧ Z.of_nat (length l) = queue_max;
  inv_exit : (∃ i, workers s !! i = Some WExit) → shutting_down (qu s) = true ∧ l = [];
}.

Lemma busy_insert ws i w j p :
  (∀ r, w ≠ WBusy p r) → busy (<[i := w]> ws) j p → i ≠ j ∧ busy ws j p.
Proof.
  intros Hw [r Hr]. destruct (decide (i = j)) as [->|].
  - rewrite lookup_insert_eq in Hr. simplify_eq. by destruct (Hw r).
  - rewrite lookup_insert_ne in Hr by done. split; [done|by exists r].
Qed.

(** A worker that holds no task changes to another such state. *)
Lemma inv_workers queue_max s l rs ws :
  inv queue_max s l rs →
  (∀ i p r, ws !! i = Some (WBusy p r) ↔ workers s !! i = Some (WBusy p r)) →
  ((∃ i, ws !! i = Some WWait) → shutting_down (qu s) = false ∧ (length l ≤ ready ws)%nat) →
  ((∃ i, ws !! i = Some WExit) → shutting_down (qu s) = true ∧ l = []) →
  inv queue_max {| qu := qu s; prod := prod s; workers := ws; queued := queued s; taken := taken s |} l rs.
Proof.
  intros [] Hb Hw He. assert (∀ i p, busy ws i p ↔ busy (workers s) i p) as Hbusy.
  { intros i p. split; intros [r Hr]; exists r; by apply Hb. }
  constructor; simpl; try done.
  - intros p Hp. destruct (inv_prod0 p Hp) as (? & Hn & ?). split_and!; [done| |done].
    intros i Hi. by apply (Hn i), Hbusy.
  - intros i p r Hi%Hb. destruct (inv_busy0 _ _ _ Hi) as (? & ? & Hu). split_and!; [done..|].
    intros j Hj%Hbusy. by apply Hu.
  - intros p Hp. destruct (inv_heap0 p Hp) as [|[|[i Hi]]]; [by left|right; by left|].
    right. right. exists i. by apply Hbusy.
Qed.

Lemma dequeue_inv queue_max s l rs :
  inv queue_max s l rs →
  match dequeue_check (qu s) with
  | (DWait, q) => q = qu s ∧ l = [] ∧ shutting_down (qu s) = false
  | (DExit, q) => q = qu s ∧ l = [] ∧ shutting_down (qu s) = true
  | (DTask p r, q) => ∃ l' rs', l = p :: l' ∧ rs = r :: rs' ∧ heap q = heap (qu s) ∧
      chain (heap q) (queue_head q) l' rs' ∧ queue_tail q = last l' ∧
      queue_len q = Z.of_nat (length l') ∧ shutting_down q = shutting_down (qu s)
  end.
Proof.
  intros []. unfold dequeue_check. destruct l as [|p l], rs as [|r rs]; try done; simpl in inv_chain0.
  - rewrite inv_chain0. destruct (shutting_down (qu s)); done.
  - destruct inv_chain0 as (-> & n & Hn & Hr & Hc). rewrite Hn. exists l, rs. simpl.
    split_and!; [done|by rewrite Hr|done|done| |rewrite inv_len0; simpl; lia|done].
    destruct l as [|p' l], rs as [|r' rs]; try done; simpl in Hc.
    + by rewrite Hc.
    + destruct Hc as (-> & _). rewrite inv_tail0. done.
Qed.


Lemma holds_wake pr p : holds (wake_producer pr) p ↔ holds pr p.
Proof. unfold holds. destruct pr; simpl; split; intros [[=]|[=]]; subst; auto. Qed.

Lemma wake_not_wait pr p : wake_producer pr ≠ PWait p.
Proof. by destruct pr. Qed.

Section steps.
Context (queue_max : Z) (s : sys) (l : list nat) (rs : list request) (Hinv : inv queue_max s l rs).

Lemma not_in_heap p : heap (qu s) !! p = None → (p ∉ l) ∧ (∀ i, ¬ busy (workers s) i p) ∧ ¬ holds (prod s) p.
Proof using Hinv.
  destruct Hinv. intros Hp. split_and!.
  - intros Hl. by destruct (chain_in _ _ _ _ _ inv_chain0 Hl) as [? ?]; congruence.
  - intros i [r Hr]. destruct (inv_busy0 _ _ _ Hr) as (_ & (n & Hn & _) & _). congruence.
  - intros Hh. destruct (inv_prod0 _ Hh) as (_ & _ & n & Hn & _). congruence.
Qed.

Lemma malloc_inv p r :
  prod s = PIdle → heap (qu s) !! p = None →
  inv queue_max {| qu := set_heap (<[p := {| next := None; task := r |}]> (heap (qu s))) (qu s);
    prod := PCheck p; workers := workers s; queued := queued s; taken := taken s |} l rs.
Proof using Hinv.
  intros Hp Hh. destruct (not_in_heap p Hh) as (Hl & Hb & _). destruct Hinv. constructor; simpl; try done.
  - eapply chain_frame; [|done]. intros q Hq. rewrite lookup_insert_ne; [done|]. by intros ->.
  - intros q [[= <-]|?]; [|done]. split_and!; [done..|]. eexists. by rewrite lookup_insert_eq.
  - intros i q r' Hi. destruct (inv_busy0 _ _ _ Hi) as (? & ? & ?). split_and!; [done| |done].
    rewrite lookup_insert_ne; [done|]. intros ->. apply (Hb i). by exists r'.
  - intros q Hq. destruct (decide (p = q)) as [->|]; [right; left; by left|].
    rewrite lookup_insert_ne in Hq by done.
    destruct (inv_heap0 _ Hq) as [|[[?|?]|?]]; [by left|congruence|congruence|by right; right].
Qed.

Lemma full_inv p q :
  prod s = PCheck p → enqueue_check queue_max p (qu s) = (EWait, q) →
  inv queue_max {| qu := q; prod := PWait p; workers := workers s; queued := queued s;
    taken := taken s |} l rs.
Proof using Hinv.
  unfold enqueue_check. intros Hp He.
  destruct (Z.leb_spec queue_max (queue_len (qu s))) as [Hlen|]; simpl in He;
    destruct (shutting_down (qu s)) eqn:Hsh; simplify_eq/=.
  destruct Hinv. constructor; simpl; try done.
  - intros p' [|[= <-]]; [done|]. apply inv_prod0. by left.
  - intros p' Hp'. destruct (inv_heap0 _ Hp') as [|[[Hh|Hh]|?]]; [by left| |congruence|by right; right].
    right. left. right. congruence.
  - intros p' _. split; [done|]. rewrite inv_len0 in Hlen. lia.
Qed.

Lemma refused_inv p q :
  prod s = PCheck p → enqueue_check queue_max p (qu s) = (ERefused, q) →
  inv queue_max {| qu := q; prod := PIdle; workers := workers s; queued := queued s;
    taken := taken s |} l rs.
Proof using Hinv.
  unfold enqueue_check. intros Hp He.
  destruct (_ && _) in He; [done|]. destruct (shutting_down (qu s)) eqn:Hsh; [|done]. simplify_eq.
  destruct Hinv. destruct (inv_prod0 p) as (Hl & Hb & _); [by left|]. constructor; simpl; try done.
  - eapply chain_frame; [|done]. intros q Hq. rewrite lookup_delete_ne; [done|]. by intros ->.
  - by intros p' [?|?].
  - intros i q r Hi. destruct (inv_busy0 _ _ _ Hi) as (? & ? & ?). split_and!; [done| |done].
    rewrite lookup_delete_ne; [done|]. intros ->. apply (Hb i). by exists r.
  - intros q Hq. destruct (decide (p = q)) as [->|]; [by rewrite lookup_delete_eq in Hq; destruct Hq|].
    rewrite lookup_delete_ne in Hq by done.
    destruct (inv_heap0 _ Hq) as [|[[?|?]|?]]; [by left|congruence|congruence|by right; right].
Qed.

Lemma taken_inv i p r q :
  workers s !! i = Some WCheck → dequeue_check (qu s) = (DTask p r, q) →
  ∃ l' rs', inv queue_max {| qu := q; prod := wake_producer (prod s);
    workers := <[i := WBusy p r]> (workers s); queued := queued s; taken := taken s ++ [r] |} l' rs'.
Proof using Hinv.
  intros Hi Hd. pose proof (dequeue_inv _ _ _ _ Hinv) as Hq. rewrite Hd in Hq.
  destruct Hq as (l' & rs' & Hl & Hrs & Hh & Hc & Ht & Hlen & Hsh).
  exists l', rs'. destruct Hinv. subst l rs.
  apply NoDup_cons in inv_nodup0 as [Hpl Hnd].
  assert (heap (qu s) !! p = heap q !! p) as Hhp by (by rewrite Hh).
  assert (∃ n, heap q !! p = Some n ∧ task n = r) as Hn.
  { rewrite Hh. simpl in inv_chain0. destruct inv_chain0 as (_ & n & Hn & Hr & _). eauto. }
  assert (∀ j, ¬ busy (workers s) j p) as Hnb.
  { intros j [r' Hj]. destruct (inv_busy0 _ _ _ Hj) as [Hnot _]. apply Hnot. by left. }
  constructor; simpl; try done.
  - simpl in inv_bound0. lia.
  - intros p' Hp'. rewrite holds_wake in Hp'. destruct (inv_prod0 _ Hp') as (Hnl & Hb & Hpn). rewrite Hh.
    apply not_elem_of_cons in Hnl as [Hne Hnl]. split_and!; [done| |done].
    intros j [r' Hj]. destruct (decide (i = j)) as [->|].
    + rewrite lookup_insert_eq in Hj. by simplify_eq.
    + rewrite lookup_insert_ne in Hj by done. apply (Hb j). by exists r'.
  - intros j p' r' Hj. destruct (decide (i = j)) as [->|Hij].
    + rewrite lookup_insert_eq in Hj. simplify_eq. split_and!; [done..|].
      intros j' [r'' Hj']. destruct (decide (j = j')) as [|Hne]; [done|].
      rewrite lookup_insert_ne in Hj' by done. destruct (Hnb j'). by exists r''.
    + rewrite lookup_insert_ne in Hj by done. destruct (inv_busy0 _ _ _ Hj) as (Hnl & Hpn & Hu).
      apply not_elem_of_cons in Hnl as [Hne Hnl]. rewrite Hh. split_and!; [done..|].
      intros j' [r'' Hj']. destruct (decide (i = j')) as [->|].
      * rewrite lookup_insert_eq in Hj'. by simplify_eq.
      * rewrite lookup_insert_ne in Hj' by done. apply Hu. by exists r''.
  - intros p' Hp'. rewrite Hh in Hp'. destruct (inv_heap0 _ Hp') as [Hin|[Hin|[j [r' Hj]]]].
    + apply elem_of_cons in Hin as [->|]; [|by left]. right. right. exists i, r. apply lookup_insert_eq.
    + right. left. by rewrite holds_wake.
    + right. right. exists j, r'. rewrite lookup_insert_ne; [done|]. intros ->. congruence.
  - by rewrite inv_fifo0, <- (assoc_L (++)).
  - intros [j Hj]. rewrite Hsh.
    assert (workers s !! j = Some WWait) as Hj'.
    { destruct (decide (i = j)) as [->|]; [by rewrite lookup_insert_eq in Hj|].
      by rewrite lookup_insert_ne in Hj. }
    destruct inv_wait0 as [? Hw]; [by exists j|]. split; [done|].
    pose proof (ready_uncheck (workers s) i (WBusy p r) Hi ltac:(done)) as Hr. simpl in Hw. lia.
  - intros p' Hp'. by apply wake_not_wait in Hp'.
  - intros [j Hj]. destruct inv_exit0 as [_ ?]; [|done]. exists j.
    destruct (decide (i = j)) as [->|]; [by rewrite lookup_insert_eq in Hj|].
    by rewrite lookup_insert_ne in Hj.
Qed.

Lemma done_inv i p r :
  workers s !! i = Some (WBusy p r) →
  inv queue_max {| qu := set_heap (delete p (heap (qu s))) (qu s); prod := prod s;
    workers := <[i := WCheck]> (workers s); queued := queued s; taken := taken s |} l rs.
Proof using Hinv.
  intros Hi. destruct Hinv. destruct (inv_busy0 _ _ _ Hi) as (Hl & _ & Hu).
  assert (∀ p', holds (prod s) p' → p' ≠ p) as Hpp.
  { intros p' Hp' ->. destruct (inv_prod0 _ Hp') as (_ & Hb & _). apply (Hb i). by exists r. }
  constructor; simpl; try done.
  - eapply chain_frame; [|done]. intros q Hq. rewrite lookup_delete_ne; [done|]. by intros ->.
  - intros p' Hp'. destruct (inv_prod0 _ Hp') as (? & Hb & ?). split_and!; [done| |].
    + intros j [_ Hj]%busy_insert; [|done]. by apply (Hb j).
    + rewrite lookup_delete_ne; [done|]. by apply not_eq_sym, Hpp.
  - intros j p' r' Hj. destruct (decide (i = j)) as [->|Hij]; [by rewrite lookup_insert_eq in Hj|].
    rewrite lookup_insert_ne in Hj by done. destruct (inv_busy0 _ _ _ Hj) as (? & ? & Hu').
    assert (p ≠ p') as Hne by (intros <-; destruct Hij; symmetry; apply Hu; by exists r').
    rewrite lookup_delete_ne by done. split_and!; [done..|].
    intros j' [_ Hj']%busy_insert; [|done]. by apply Hu'.
  - intros q Hq. destruct (decide (p = q)) as [->|Hne]; [by rewrite lookup_delete_eq in Hq; destruct Hq|].
    rewrite lookup_delete_ne in Hq by done.
    destruct (inv_heap0 _ Hq) as [|[|[j [r' Hj]]]]; [by left|right; by left|]. right. right.
    exists j, r'. rewrite lookup_insert_ne; [done|]. intros ->. congruence.
  - intros [j Hj]. destruct (decide (i = j)) as [->|]; [by rewrite lookup_insert_eq in Hj|].
    rewrite lookup_insert_ne in Hj by done. destruct inv_wait0 as [? Hw]; [by exists j|].
    split; [done|]. rewrite (ready_check _ _ _ Hi) by done. lia.
  - intros [j Hj]. destruct (decide (i = j)) as [->|]; [by rewrite lookup_insert_eq in Hj|].
    rewrite lookup_insert_ne in Hj by done. apply inv_exit0. by exists j.
Qed.

Lemma enqueue_spec p n q :
  holds (prod s) p → heap (qu s) !! p = Some n → enqueue_check queue_max p (qu s) = (EQueued, q) →
  queue_len (qu s) < queue_max ∧ shutting_down (qu s) = false ∧ shutting_down q = false ∧
  chain (heap q) (queue_head q) (l ++ [p]) (rs ++ [task n]) ∧ queue_tail q = Some p ∧
  queue_len q = queue_len (qu s) + 1 ∧
  (∀ p', p' ∉ l → heap q !! p' = heap (qu s) !! p') ∧
  (∀ p', is_Some (heap q !! p') ↔ is_Some (heap (qu s) !! p')).
Proof using Hinv.
  unfold enqueue_check. intros Hp Hn He. destruct Hinv.
  destruct (inv_prod0 _ Hp) as (Hpl & _ & n' & Hn' & Hnx). simplify_eq.
  destruct (Z.leb_spec queue_max (queue_len (qu s))), (shutting_down (qu s)) eqn:Hsh; simplify_eq/=.
  split; [done|]. split; [done|]. split; [done|]. rewrite inv_tail0.
  destruct l as [|t l0 _] using rev_ind.
  - destruct rs; [|done]. simpl. split_and!; try done. exists n. by rewrite Hnx.
  - rewrite last_snoc. split_and!; [by apply chain_snoc|done|done| |].
    + intros p' Hp'. rewrite lookup_alter_ne; [done|]. intros ->. apply Hp', elem_of_app.
      right. by left.
    + intros p'. destruct (decide (t = p')) as [->|]; [|by rewrite lookup_alter_ne].
      rewrite lookup_alter_eq. by rewrite fmap_is_Some.
Qed.

Lemma queued_inv p n q ws :
  prod s = PCheck p → heap (qu s) !! p = Some n →
  enqueue_check queue_max p (qu s) = (EQueued, q) → signals (workers s) ws →
  inv queue_max {| qu := q; prod := PIdle; workers := ws; queued := queued s ++ [task n];
    taken := taken s |} (l ++ [p]) (rs ++ [task n]).
Proof using Hinv.
  intros Hp Hn He Hsig. assert (holds (prod s) p) as Hh by (by left).
  destruct (enqueue_spec p n q Hh Hn He) as (Hlt & Hsh & Hsh' & Hc & Ht & Hlen & Hother & Hsome).
  destruct Hinv. destruct (inv_prod0 _ Hh) as (Hpl & Hpb & _).
  assert (∀ i p' r, ws !! i = Some (WBusy p' r) ↔ workers s !! i = Some (WBusy p' r)) as Hb.
  { destruct Hsig as [(i & Hi & ->)|[_ ->]]; [|done]. intros j p' r.
    destruct (decide (i = j)) as [->|]; [|by rewrite lookup_insert_ne].
    rewrite lookup_insert_eq, Hi. done. }
  assert (∀ i p', busy ws i p' ↔ busy (workers s) i p') as Hbusy
    by (intros i p'; split; intros [r Hr]; exists r; by apply Hb).
  constructor; simpl; try done.
  - by rewrite last_snoc.
  - apply NoDup_app. split_and!; [done| |apply NoDup_singleton].
    by intros x Hx ->%list_elem_of_singleton.
  - rewrite Hlen, inv_len0, length_app. simpl. lia.
  - rewrite length_app. simpl. lia.
  - by intros p' [|].
  - intros i p' r Hi%Hb. destruct (inv_busy0 _ _ _ Hi) as (Hnl & Hpn & Hu).
    rewrite Hother by done. split_and!; [|done|by intros j Hj%Hbusy; apply Hu].
    intros [?| ->%list_elem_of_singleton]%elem_of_app; [done|]. apply (Hpb i). by exists r.
  - intros p' Hp'%Hsome. rewrite elem_of_app.
    destruct (inv_heap0 _ Hp') as [|[Hh'|[i Hi]]]; [by left; left| |right; right; exists i; by apply Hbusy].
    left. right. apply list_elem_of_singleton. destruct Hh'; congruence.
  - by rewrite inv_fifo0, (assoc_L (++)).
  - intros [i Hi]. split; [done|]. rewrite length_app. simpl.
    destruct Hsig as [(j & Hj & ->)|[Hno ->]]; [|by destruct (Hno i)].
    rewrite (ready_check _ _ _ Hj) by done. destruct inv_wait0 as [_ ?]; [by exists j|]. lia.
  - intros [i Hi]. destruct inv_exit0 as [? _]; [|congruence]. exists i.
    destruct Hsig as [(j & Hj & ->)|[_ ->]]; [|done].
    destruct (decide (i = j)) as [->|]; [by rewrite lookup_insert_eq in Hi|].
    by rewrite lookup_insert_ne in Hi.
Qed.

Lemma shutdown_inv :
  inv queue_max
    {| qu := queue_shutdown (qu s);
       prod := wake_producer (prod s); workers := wake_worker <$> workers s;
       queued := queued s; taken := taken s |} l rs.
Proof using Hinv.
  destruct Hinv.
  assert (∀ i w, (wake_worker <$> workers s) !! i = Some w → w ≠ WCheck → workers s !! i = Some w ∧ w ≠ WWait)
    as Hw.
  { intros i w Hi Hw. rewrite lookup_fmap in Hi. destruct (workers s !! i) as [[]|]; by simplify_eq/=. }
  assert (∀ i p, busy (wake_worker <$> workers s) i p → busy (workers s) i p) as Hb.
  { intros i p [r Hr]. exists r. by apply Hw in Hr as [? _]. }
  constructor; simpl; try done.
  - intros p Hp. rewrite holds_wake in Hp. destruct (inv_prod0 _ Hp) as (? & Hn & ?).
    split_and!; [done| |done]. intros i Hi. by apply (Hn i), Hb.
  - intros i p r Hi. apply Hw in Hi as [Hi _]; [|done]. destruct (inv_busy0 _ _ _ Hi) as (? & ? & Hu).
    split_and!; [done..|]. intros j Hj. by apply Hu, Hb.
  - intros p Hp. destruct (inv_heap0 _ Hp) as [|[|[i [r Hi]]]]; [by left|right; left; by rewrite holds_wake|].
    right. right. exists i, r. by rewrite lookup_fmap, Hi.
  - intros [i Hi]. apply Hw in Hi as [_ []]; done.
  - intros p Hp. by apply wake_not_wait in Hp.
  - intros [i Hi]. apply Hw in Hi as [Hi _]; [|done]. split; [done|]. apply inv_exit0. by exists i.
Qed.

Lemma wake_producer_inv :
  inv queue_max {| qu := qu s; prod := wake_producer (prod s); workers := workers s;
    queued := queued s; taken := taken s |} l rs.
Proof using Hinv.
  destruct Hinv. constructor; simpl; try done.
  - intros p Hp. rewrite holds_wake in Hp. by apply inv_prod0.
  - intros p Hp. destruct (inv_heap0 _ Hp) as [|[|]]; [by left|right; left; by rewrite holds_wake|by right; right].
  - intros p Hp. by apply wake_not_wait in Hp.
Qed.

(** A worker that was checking or waiting waits, exits or checks again. *)
Lemma idle_inv i w w' :
  workers s !! i = Some w → (w = WCheck ∨ w = WWait) →
  (w' = WWait → l = [] ∧ shutting_down (qu s) = false) →
  (w' = WExit → l = [] ∧ shutting_down (qu s) = true) → (w' = WCheck → w = WWait) →
  (∀ p r, w' ≠ WBusy p r) →
  inv queue_max {| qu := qu s; prod := prod s; workers := <[i := w']> (workers s);
    queued := queued s; taken := taken s |} l rs.
Proof using Hinv.
  intros Hi Hw Hwait Hexit Hcheck Hnb. apply inv_workers; [done|..].
  - intros j p r. destruct (decide (i = j)) as [->|]; [|by rewrite lookup_insert_ne].
    rewrite lookup_insert_eq, Hi. split; intros Hs; simplify_eq; [by destruct (Hnb p r)|by destruct Hw].
  - intros [j Hj]. destruct (decide (i = j)) as [->|Hne].
    + rewrite lookup_insert_eq in Hj. simplify_eq. destruct Hwait as [-> ?]; [done|]. simpl. split; [done|lia].
    + rewrite lookup_insert_ne in Hj by done. destruct (inv_wait _ _ _ _ Hinv) as [? Hr]; [by exists j|].
      split; [done|]. destruct w'.
      * rewrite Hcheck in Hi by done. rewrite (ready_check _ _ _ Hi) by done. lia.
      * destruct Hwait as [-> _]; [done|]. simpl. lia.
      * by destruct (Hnb p r).
      * destruct Hexit as [-> _]; [done|]. simpl. lia.
  - intros [j Hj]. destruct (decide (i = j)) as [->|Hne].
    + rewrite lookup_insert_eq in Hj. simplify_eq. by destruct Hexit.
    + rewrite lookup_insert_ne in Hj by done. apply (inv_exit _ _ _ _ Hinv). by exists j.
Qed.

End steps.

Lemma worker_step_inv queue_max s s' l rs :
  inv queue_max s l rs → worker_step s s' → ∃ l' rs', inv queue_max s' l' rs'.
Proof.
  intros Hinv Hs. pose proof (dequeue_inv _ _ _ _ Hinv) as Hd.
  destruct Hs as [i q Hi He|i q Hi He|i p r q Hi He|i p r Hi].
  - rewrite He in Hd. destruct Hd as (-> & Hl & Hsh). eexists _, _.
    eapply idle_inv; [done|done|by left|done..].
  - rewrite He in Hd. destruct Hd as (-> & Hl & Hsh). eexists _, _.
    eapply idle_inv; [done|done|by left|done..].
  - by eapply taken_inv.
  - eexists _, _. by eapply done_inv.
Qed.

Lemma queue_step_inv queue_max s s' l rs :
  inv queue_max s l rs → step queue_max s s' → ∃ l' rs', inv queue_max s' l' rs'.
Proof.
  intros Hinv Hs. destruct Hs as
    [s' Hs|p r Hp Hh|p q Hp He|p q Hp He|p n q ws Hp Hn He Hsig| |i Hi|].
  - by eapply worker_step_inv.
  - eexists _, _. by eapply malloc_inv.
  - eexists _, _. by eapply full_inv.
  - eexists _, _. by eapply refused_inv.
  - eexists _, _. by eapply queued_inv.
  - eexists _, _. by eapply shutdown_inv.
  - eexists _, _. eapply idle_inv; [done|done|by right|done..].
  - eexists _, _. by eapply wake_producer_inv.
Qed.

Lemma init_workers spawned i w : workers (sys_init spawned) !! i = Some w → w = WCheck.
Proof.
  simpl. intros Hw%elem_of_list_to_map_2. by apply list_elem_of_fmap in Hw as (j & [= _ ->] & _).
Qed.

Lemma queue_reachable_inv queue_max spawned s :
  1 ≤ queue_max → reachable queue_max spawned s → ∃ l rs, inv queue_max s l rs.
Proof.
  intros Hm. induction 1 as [|s s' _ (l & rs & Hinv) Hs]; [|by eapply queue_step_inv].
  exists [], []. assert (∀ i p, ¬ busy (workers (sys_init spawned)) i p) as Hnb.
  { intros i p [r Hr]. by apply init_workers in Hr. }
  constructor; try done.
  - apply NoDup_nil_2.
  - simpl. lia.
  - by intros p [|].
  - intros i p r Hr. by apply init_workers in Hr.
  - intros p [? Hp]. done.
  - intros [i Hi]. by apply init_workers in Hi.
  - intros [i Hi]. by apply init_workers in Hi.
Qed.

(** No worker is lost. *)
Lemma reachable_workers queue_max spawned s :
  reachable queue_max spawned s → (1 ≤ spawned)%nat → is_Some (workers s !! 0%nat).
Proof.
  induction 1 as [|s s' _ IH Hs]; intros Hsp.
  - destruct spawned as [|n]; [lia|]. simpl. by rewrite lookup_insert_eq.
  - specialize (IH Hsp). assert (∀ i w, is_Some (<[i := w]> (workers s) !! 0%nat)) as Hi.
    { intros i w. destruct (decide (i = 0%nat)) as [->|]; [by rewrite lookup_insert_eq|].
      by rewrite lookup_insert_ne. }
    destruct Hs as [s' []| | | |p n q ws Hp Hn He [(i & Hi' & ->)|[_ ->]]| | |]; simpl; try done.
    by rewrite lookup_fmap, fmap_is_Some.
Qed.

Lemma ready_some ws : (1 ≤ ready ws)%nat → ∃ i, ws !! i = Some WCheck.
Proof.
  unfold ready. intros Hs.
  destruct (map_choose (filter (λ x, x.2 = WCheck) ws)) as (i & w & Hi).
  { intros He. rewrite He in Hs. rewrite map_size_empty in Hs. lia. }
  exists i. apply map_lookup_filter_Some in Hi as [Hi Hw]. by simpl in Hw; subst w.
Qed.

(** ** Termination of the workers *)

(** What a worker has to do yet. *)
Definition worker_weight (w : worker) : nat :=
  match w with WBusy _ _ => 2 | WCheck => 1 | WWait | WExit => 0 end.

Definition workers_weight (ws : gmap nat worker) : nat :=
  map_fold (λ _ w n, (worker_weight w + n)%nat) 0%nat ws.

(** A bound on what the workers do before they all wait or have exited. *)
Definition work (s : sys) : nat := (2 * Z.to_nat (queue_len (qu s)) + workers_weight (workers s))%nat.

Lemma workers_weight_insert ws i w w' :
  ws !! i = Some w →
  (workers_weight (<[i := w']> ws) + worker_weight w = workers_weight ws + worker_weight w')%nat.
Proof.
  intros Hi. unfold workers_weight. rewrite <- insert_delete_eq.
  rewrite map_fold_insert_L; [|intros; lia|apply lookup_delete_eq].
  rewrite (map_fold_delete_L _ _ i w ws); [|intros; lia|done]. lia.
Qed.

Lemma worker_step_work queue_max s s' l rs :
  inv queue_max s l rs → worker_step s s' → S (work s') = work s.
Proof.
  intros Hinv Hs. pose proof (dequeue_inv _ _ _ _ Hinv) as Hd. pose proof (inv_len _ _ _ _ Hinv) as Hlen.
  unfold work. destruct Hs as [i q Hi He|i q Hi He|i p r q Hi He|i p r Hi]; simpl;
    pose proof (λ w', workers_weight_insert _ _ _ w' Hi) as Hw; simpl in Hw.
  - rewrite He in Hd. destruct Hd as (-> & _). specialize (Hw WWait). simpl in Hw. lia.
  - rewrite He in Hd. destruct Hd as (-> & _). specialize (Hw WExit). simpl in Hw. lia.
  - rewrite He in Hd. destruct Hd as (l' & rs' & -> & _ & _ & _ & _ & Hlen' & _).
    specialize (Hw (WBusy p r)). simpl in *. lia.
  - specialize (Hw WCheck). simpl in Hw. lia.
Qed.

Lemma worker_step_keeps queue_max s s' l rs :
  inv queue_max s l rs → worker_step s s' →
  queued s' = queued s ∧ shutting_down (qu s') = shutting_down (qu s).
Proof.
  intros Hinv Hs. pose proof (dequeue_inv _ _ _ _ Hinv) as Hd.
  destruct Hs as [i q Hi He|i q Hi He|i p r q Hi He|i p r Hi]; simpl; try rewrite He in Hd; [..|done].
  - by destruct Hd as (-> & _).
  - by destruct Hd as (-> & _).
  - by destruct Hd as (l' & rs' & _ & _ & _ & _ & _ & _ & ->).
Qed.

Lemma worker_steps_inv queue_max n s s' l rs :
  inv queue_max s l rs → nsteps worker_step n s s' →
  (n + work s' = work s)%nat ∧ queued s' = queued s ∧ shutting_down (qu s') = shutting_down (qu s) ∧
  ∃ l' rs', inv queue_max s' l' rs'.
Proof.
  intros Hinv Hs. revert l rs Hinv. induction Hs as [s|n s s1 s' Hs _ IH]; intros l rs Hinv; [eauto 10|].
  destruct (worker_step_inv _ _ _ _ _ Hinv Hs) as (l1 & rs1 & Hinv1).
  pose proof (worker_step_work _ _ _ _ _ Hinv Hs). destruct (IH _ _ Hinv1) as (? & -> & -> & ?).
  split; [lia|]. destruct (worker_step_keeps _ _ _ _ _ Hinv Hs) as [-> ->]. done.
Qed.

(** ** The parsing of the environment *)

Lemma digit_is_digit a : digit_of 10 a ↔ is_digit a = true.
Proof. unfold digit_of, is_digit. split; intros; to_prop; nat_tests; lia. Qed.

Lemma digit_start x : digit_of 10 x → isspace_c x = false ∧ code x ≠ 45 ∧ code x ≠ 43.
Proof.
  intros Hx. unfold digit_of in Hx. unfold isspace_c.
  rewrite (proj2 (Z.leb_gt (code x) 13)), (proj2 (Z.eqb_neq (code x) 32)) by lia.
  rewrite andb_false_r. split_and!; [done|lia..].
Qed.

Lemma strtol_print n :
  0 ≤ n < 2 ^ 63 → strtol (print_unsigned 10 n) = (n, false, []).
Proof.
  intros Hn. destruct (print_unsigned_spec 10 n) as (a & ds & -> & Hds & _ & Hv); [lia..|].
  destruct (digit_start a) as (Hsp & Hm & Hp); [by inversion Hds|].
  unfold strtol. cbn [skip_space]. rewrite Hsp.
  rewrite (proj2 (Z.eqb_neq _ _) Hm), (proj2 (Z.eqb_neq _ _) Hp).
  rewrite take_while_all.
  - rewrite drop_all, Hv. cbv zeta.
    rewrite (proj2 (Z.ltb_ge n _)), (proj2 (Z.ltb_ge _ n)), Z.min_r, Z.max_r by lia. done.
  - eapply Forall_impl; [exact Hds|]. intros x. apply digit_is_digit.
Qed.

Lemma strtol_print_more n c s :
  0 ≤ n < 2 ^ 63 → is_digit c = false →
  ∃ v e, strtol (print_unsigned 10 n ++ c :: s) = (v, e, c :: s).
Proof.
  intros Hn Hc. destruct (print_unsigned_spec 10 n) as (a & ds & -> & Hds & _ & _); [lia..|].
  destruct (digit_start a) as (Hsp & Hm & Hp); [by inversion Hds|].
  unfold strtol. cbn [app skip_space]. rewrite Hsp.
  rewrite (proj2 (Z.eqb_neq _ _) Hm), (proj2 (Z.eqb_neq _ _) Hp).
  assert (take_while is_digit ((a :: ds) ++ c :: s) = a :: ds) as Htw.
  { assert (Forall (λ x, is_digit x = true) (a :: ds)) as Hf
      by (eapply Forall_impl; [exact Hds|]; intros x; apply digit_is_digit).
    clear -Hf Hc. induction Hf as [|x l Hx _ IH]; simpl; [by rewrite Hc|]. by rewrite Hx, IH. }
  cbn [app] in Htw. rewrite Htw. eexists _, _. f_equal.
  change (a :: ds ++ c :: s) with ((a :: ds) ++ c :: s). apply drop_app_length.
Qed.

(** ** The properties *)

(** C25: the queue is a bounded FIFO and the tasks do not leak: in every reachable state the list
    from [queue_head] on, which ends in [queue_tail], holds [queue_len] ≤ [queue_max] distinct
    tasks; the requests that were accepted are, in order, those the workers took and then those
    in the list; an allocated task is either in the list or held by exactly one thread; and a
    worker has exited only after the shutdown and with every accepted request taken. *)
Theorem queue_fifo queue_max spawned s :
  1 ≤ queue_max → reachable queue_max spawned s →
  ∃ l rs,
    chain (heap (qu s)) (queue_head (qu s)) l rs ∧ queue_tail (qu s) = last l ∧ NoDup l ∧
    queue_len (qu s) = Z.of_nat (length l) ∧ queue_len (qu s) ≤ queue_max ∧
    queued s = taken s ++ rs ∧
    (∀ p, is_Some (heap (qu s) !! p) ↔ p ∈ l ∨ holds (prod s) p ∨ ∃ i, busy (workers s) i p) ∧
    (∀ p, p ∈ l → ¬ holds (prod s) p ∧ ∀ i, ¬ busy (workers s) i p) ∧
    (∀ p i, busy (workers s) i p → ¬ holds (prod s) p ∧ ∀ j, busy (workers s) j p → i = j) ∧
    (∀ i, workers s !! i = Some WExit → shutting_down (qu s) = true ∧ queued s = taken s).
Proof.
  intros Hm Hr. destruct (queue_reachable_inv _ _ _ Hm Hr) as (l & rs & Hinv). exists l, rs.
  destruct Hinv. split_and!; try done; [lia|..].
  - intros p. split; [apply inv_heap0|]. intros [Hl|[Hh|[i [r Hi]]]].
    + by eapply chain_in.
    + destruct (inv_prod0 _ Hh) as (_ & _ & n & Hn & _). by exists n.
    + destruct (inv_busy0 _ _ _ Hi) as (_ & (n & Hn & _) & _). by exists n.
  - intros p Hp. split; [intros Hh; by apply inv_prod0 in Hh as [? _]|].
    intros i [r Hi]. by apply inv_busy0 in Hi as [? _].
  - intros p i Hi. split.
    + intros Hh. apply inv_prod0 in Hh as (_ & Hn & _). by destruct (Hn i).
    + intros j Hj. destruct Hi as [r Hi]. destruct (inv_busy0 _ _ _ Hi) as (_ & _ & Hu).
      symmetry. by apply Hu.
  - intros i Hi. destruct inv_exit0 as [? ->]; [by exists i|]. split; [done|].
    apply chain_length in inv_chain0. destruct rs; [|done]. by rewrite inv_fifo0, app_nil_r.
Qed.

(** C26: no wake-up is lost: whenever a request is in the queue, or the producer waits for room,
    some worker is scanning or about to look at the queue; more, as many workers as there are
    requests are about to look whenever one still waits; and once the daemon shuts down nobody
    waits. *)
Theorem queue_no_lost_wakeup queue_max spawned s :
  1 ≤ queue_max → (1 ≤ spawned)%nat → reachable queue_max spawned s →
  (queue_head (qu s) ≠ None ∨ (∃ p, prod s = PWait p) →
   ∃ i w, workers s !! i = Some w ∧ (w = WCheck ∨ ∃ p r, w = WBusy p r)) ∧
  ((∃ i, workers s !! i = Some WWait) → queue_len (qu s) ≤ Z.of_nat (ready (workers s))) ∧
  (shutting_down (qu s) = true →
   (∀ i, workers s !! i ≠ Some WWait) ∧ ∀ p, prod s ≠ PWait p).
Proof.
  intros Hm Hsp Hr. destruct (queue_reachable_inv _ _ _ Hm Hr) as (l & rs & Hinv).
  pose proof (reachable_workers _ _ _ Hr Hsp) as [w Hw]. destruct Hinv. split_and!.
  - intros Hq. assert (l ≠ []) as Hl.
    { destruct Hq as [Hq|[p Hp]]; intros ->; [by destruct rs|].
      destruct (inv_full0 _ Hp) as [_ Hlen]. simpl in Hlen. lia. }
    destruct w; [by eexists _, _; eauto| |by eexists _, _; eauto 10|].
    + destruct inv_wait0 as [_ Hlen]; [by eexists|].
      destruct (ready_some (workers s)) as [i Hi]; [destruct l; [done|simpl in Hlen; lia]|].
      eexists i, _. eauto.
    + destruct inv_exit0 as [_ ->]; [by eexists|done].
  - intros Hwait. destruct inv_wait0; [done|]. lia.
  - intros Hsh. split.
    + intros i Hi. destruct inv_wait0 as [? _]; [by exists i|congruence].
    + intros p Hp. destruct (inv_full0 _ Hp). congruence.
Qed.

(** C27: the shutdown drains the queue and ends: from any reachable state the workers' own steps
    are at most [work] many, and when, after the shutdown began, they can do no more, every
    worker has exited and every accepted request has been taken. *)
Theorem shutdown_drains queue_max spawned s n s' :
  1 ≤ queue_max → (1 ≤ spawned)%nat → reachable queue_max spawned s →
  nsteps worker_step n s s' →
  (n ≤ work s)%nat ∧ queued s' = queued s ∧
  (shutting_down (qu s) = true → (∀ s'', ¬ worker_step s' s'') →
   (∀ i w, workers s' !! i = Some w → w = WExit) ∧ taken s' = queued s).
Proof.
  intros Hm Hsp Hr Hn. destruct (queue_reachable_inv _ _ _ Hm Hr) as (l & rs & Hinv).
  destruct (worker_steps_inv _ _ _ _ _ _ Hinv Hn) as (Hw & Hq & Hsh & l' & rs' & Hinv').
  split_and!; [lia|done|]. intros Hdown Hstuck. rewrite <- Hsh in Hdown.
  assert (∀ i w, workers s' !! i = Some w → w = WExit) as Hexit.
  { intros i w Hi. destruct w.
    - destruct (dequeue_check (qu s')) as [[]q] eqn:Hd; edestruct Hstuck; by econstructor.
    - destruct (inv_wait _ _ _ _ Hinv') as [? _]; [by exists i|congruence].
    - edestruct Hstuck. by eapply step_done.
    - done. }
  split; [done|].
  assert (reachable queue_max spawned s') as Hr'.
  { clear -Hr Hn. induction Hn as [|n s s1 s' Hs _ IH]; [done|]. apply IH. eapply reach_step; [done|].
    by apply step_worker. }
  destruct (reachable_workers _ _ _ Hr' Hsp) as [w Hw']. pose proof (Hexit _ _ Hw') as ->.
  destruct Hinv'. destruct inv_exit0 as [_ ->]; [by eexists|].
  destruct rs'; [|done]. by rewrite <- Hq, inv_fifo0, app_nil_r.
Qed.

(** [parse_tunable_env] never leaves the range, whatever the environment holds, takes a
    decimal number of the range as it is written, and rejects any other. *)
Theorem parse_tunable_env_spec default_val min_val max_val :
  0 ≤ min_val ≤ default_val → default_val ≤ max_val < 2 ^ 31 →
  (∀ val, min_val ≤ parse_tunable_env val default_val min_val max_val ≤ max_val) ∧
  ∀ n, 0 ≤ n < 2 ^ 63 →
    parse_tunable_env (Some (print_unsigned 10 n)) default_val min_val max_val =
      (if (min_val <=? n) && (n <=? max_val) then n else default_val) ∧
    ∀ c s, is_digit c = false →
      parse_tunable_env (Some (print_unsigned 10 n ++ c :: s)) default_val min_val max_val = default_val.
Proof.
  intros Hmin Hmax. split.
  - intros [[|a val]|]; simpl; [lia| |lia]. destruct (strtol (a :: val)) as [[v e] rest].
    destruct e; simpl; [lia|]. do 2 (case_match; simpl; try lia).
  - intros n Hn. destruct (print_unsigned_spec 10 n) as (a & ds & Ha & _); [lia..|].
    split.
    + unfold parse_tunable_env. pose proof (strtol_print n Hn) as Hs. rewrite Ha in *. rewrite Hs.
      simpl. destruct (Z.ltb_spec n min_val), (Z.leb_spec min_val n); try lia; simpl; [done|].
      destruct (Z.ltb_spec max_val n), (Z.leb_spec n max_val); try lia; done.
    + intros c s Hc. destruct (strtol_print_more n c s Hn Hc) as (v & e & Hs).
      rewrite Ha in *. unfold parse_tunable_env. cbn [app] in *. rewrite Hs. simpl.
      by rewrite orb_true_r.
Qed.

(** ** Concrete runs *)

Module QueueExamples.

Definition r1 : request := task_of 7 42 (Some (cs "/tmp/a")) None.

Definition with_qu (q : queue) (pr : producer) (ws : gmap nat worker) (qd tk : list request) : sys :=
  {| qu := q; prod := pr; workers := ws; queued := qd; taken := tk |}.

Definition s0 : sys := sys_init 1.
Definition q1 : queue := set_heap (<[0%nat := {| next := None; task := r1 |}]> ∅) queue_init.
Definition s1 : sys := with_qu q1 (PCheck 0) (workers s0) [] [].
Definition q2 : queue := (enqueue_check 1 0 q1).2.
Definition s2 : sys := with_qu q2 PIdle (workers s0) [r1] [].
(** The queue is full: the next request has to wait. *)
Definition q3 : queue := set_heap (<[1%nat := {| next := None; task := r1 |}]> (heap q2)) q2.
Definition s3 : sys := with_qu q3 (PCheck 1) (workers s0) [r1] [].
Definition s4 : sys := with_qu q3 (PWait 1) (workers s0) [r1] [].
Definition s5 : sys := with_qu (queue_shutdown q3) (PCheck 1) (workers s0) [r1] [].

Lemma s4_reachable : reachable 1 1 s4.
Proof.
  apply (reach_step _ _ s3). 2: { apply (step_full 1 s3 1%nat); vm_compute; reflexivity. }
  apply (reach_step _ _ s2).
  2: { apply (step_malloc 1 s2 1%nat r1); vm_compute; reflexivity. }
  apply (reach_step _ _ s1).
  2: { apply (step_queued 1 s1 0%nat {| next := None; task := r1 |}); [done..|].
       right. split; [|done]. intros i Hi. apply (init_workers 1) in Hi. done. }
  apply (reach_step _ _ s0); [apply reach_init|]. apply (step_malloc 1 s0 0%nat r1); done.
Qed.

Lemma s5_reachable : reachable 1 1 s5.
Proof.
  apply (reach_step _ _ s4); [apply s4_reachable|].
  assert (s5 = {| qu := queue_shutdown (qu s4); prod := wake_producer (prod s4);
    workers := wake_worker <$> workers s4; queued := queued s4; taken := taken s4 |}) as ->
    by (vm_compute; reflexivity).
  apply step_shutdown.
Qed.

Lemma queue_fifo_witness :
  (1 ≤ 1 ∧ reachable 1 1 s4 ∧ queued s4 = [r1]) ∧
  ∃ l rs, chain (heap (qu s4)) (queue_head (qu s4)) l rs ∧ queued s4 = taken s4 ++ rs.
Proof.
  split; [split; [lia|split; [apply s4_reachable|reflexivity]]|].
  destruct (queue_fifo 1 1 s4) as (l & rs & Hc & _ & _ & _ & _ & Hq & _);
    [lia|apply s4_reachable|]. exists l, rs. split; [exact Hc|exact Hq].
Defined.

Lemma queue_no_lost_wakeup_witness :
  (reachable 1 1 s4 ∧ prod s4 = PWait 1) ∧
  ∃ i w, workers s4 !! i = Some w ∧ (w = WCheck ∨ ∃ p r, w = WBusy p r).
Proof.
  split; [split; [apply s4_reachable|reflexivity]|].
  apply (queue_no_lost_wakeup 1 1 s4); [lia|lia|apply s4_reachable|right; by exists 1%nat].
Defined.

(** The worker takes the request, scans, and exits. *)
Definition s6 : sys :=
  with_qu (dequeue_check (qu s5)).2 (PCheck 1) (<[0%nat := WBusy 0 r1]> (workers s0)) [r1] [r1].
Definition s7 : sys :=
  with_qu (set_heap (delete 0%nat (heap (qu s6))) (qu s6)) (PCheck 1)
    (<[0%nat := WCheck]> (workers s6)) [r1] [r1].
Definition s8 : sys := with_qu (qu s7) (PCheck 1) (<[0%nat := WExit]> (workers s7)) [r1] [r1].

Lemma s8_steps : nsteps worker_step 3 s5 s8.
Proof.
  apply (nsteps_l _ _ _ s6). { apply (step_taken s5 0%nat 0%nat r1 (qu s6)); done. }
  apply (nsteps_l _ _ _ s7). { apply (step_done s6 0%nat 0%nat r1); done. }
  apply (nsteps_l _ _ _ s8). { apply (step_exit s7 0%nat (qu s7)); done. }
  constructor.
Qed.

Lemma s8_workers i w : workers s8 !! i = Some w → w = WExit.
Proof.
  simpl. destruct (decide (i = 0%nat)) as [->|]; [rewrite lookup_insert_eq; congruence|].
  rewrite !lookup_insert_ne by done. by rewrite lookup_empty.
Qed.

Lemma shutdown_drains_witness :
  (reachable 1 1 s5 ∧ nsteps worker_step 3 s5 s8 ∧ shutting_down (qu s5) = true) ∧
  (3 ≤ work s5)%nat ∧ taken s8 = [r1].
Proof.
  split; [split; [apply s5_reachable|split; [apply s8_steps|reflexivity]]|].
  destruct (shutdown_drains 1 1 s5 3 s8) as (Hn & _ & Hd); [lia|lia|apply s5_reachable|apply s8_steps|].
  split; [exact Hn|]. destruct Hd as [_ Ht]; [reflexivity| |exact Ht].
  intros s'' Hs. destruct Hs as [i q Hi _|i q Hi _|i p r q Hi _|i p r Hi];
    apply s8_workers in Hi; discriminate Hi.
Defined.

Lemma parse_tunable_env_spec_witness :
  (0 ≤ AVD_SCAN_QUEUE_MIN ≤ AVD_SCAN_QUEUE_MAX_DEFAULT ∧
   AVD_SCAN_QUEUE_MAX_DEFAULT ≤ AVD_SCAN_QUEUE_MAX_MAX < 2 ^ 31) ∧
  parse_tunable_env (Some (cs "65536")) AVD_SCAN_QUEUE_MAX_DEFAULT AVD_SCAN_QUEUE_MIN
    AVD_SCAN_QUEUE_MAX_MAX = 65536.
Proof.
  assert (print_unsigned 10 65536 = cs "65536") as Hp by (vm_compute; reflexivity).
  split; [vm_compute; repeat split; discriminate|].
  destruct (parse_tunable_env_spec AVD_SCAN_QUEUE_MAX_DEFAULT AVD_SCAN_QUEUE_MIN
    AVD_SCAN_QUEUE_MAX_MAX) as [_ H]; [vm_compute; split; discriminate|vm_compute; split; [discriminate|reflexivity]|].
  destruct (H 65536) as [Hn _]; [lia|]. rewrite Hp in Hn. exact Hn.
Defined.

(** Neither trailing text nor a number out of range is taken; a sign and leading
    space are. *)
Example tunable_examples :
  parse_tunable_env (Some (cs "12x")) 8 1 256 = 8 ∧ parse_tunable_env (Some (cs "0")) 8 1 256 = 8 ∧
  parse_tunable_env (Some (cs "99999999999999999999")) 8 1 256 = 8 ∧
  parse_tunable_env (Some (cs " +16")) 8 1 256 = 16 ∧ parse_tunable_env None 8 1 256 = 8.
Proof. split_and!; vm_compute; reflexivity. Qed.

End QueueExamples.
