(* ===== verification/Corpus.v ===== *)
(** * The similarity corpora: userspace/avd/avd.c

    The "<hash>,<name>" files of known samples ([parse_corpus_line],
    [load_fuzzy_corpus], [load_tlsh_corpus]), the comparison of an open file
    with them ([check_fuzzy_corpus], [check_tlsh_corpus]) and the start-up test
    of the TLSH port ([av_tlsh_selftest]).  libfuzzy is a parameter. *)

From Stdlib Require Import ZArith Lia Ascii String.
From stdpp Require Import prelude list.
From S2P Require Import Prelude CString CText Sock Tlsh.

Local Open Scope Z_scope.

Definition MAX_FUZZY_TLSH_FILE_SIZE : Z := 256 * 1024 * 1024.
Definition FUZZY_MATCH_THRESHOLD : Z := 60.
Definition TLSH_MATCH_MAX_DIFF : Z := 30.
Definition AV_TLSH_HASH_BUFSZ : nat := 200.
Definition NAME_SIZE : nat := 128.

(** libfuzzy (fuzzy.h): a rolling state fed in pieces, its digest, and the
    similarity of two digests from 0 to 100, -1 for a malformed one. *)
Class Fuzzy := {
  fuzzy_state : Type;
  FUZZY_MAX_RESULT : nat;
  fuzzy_new : fuzzy_state;
  fuzzy_update : fuzzy_state → list Z → option fuzzy_state;
  fuzzy_digest : fuzzy_state → option cstr;
  fuzzy_compare : cstr → cstr → Z;
  fuzzy_update_nil s : fuzzy_update s [] = Some s;
  fuzzy_update_app s a b : fuzzy_update s (a ++ b) = fuzzy_update s a ≫= λ s, fuzzy_update s b;
  fuzzy_compare_range a b : -1 ≤ fuzzy_compare a b ≤ 100;
}.

(** ** Loading *)

(** [struct fuzzy_corpus_entry] and [struct tlsh_corpus_entry]. *)
Record corpus_entry := { hash : cstr; name : cstr }.

Definition COMMA : ascii := chr 44.
Definition HASH : ascii := chr 35.

(** The hash and the name of a usable line. *)
Definition parse_corpus_line (line : cstr) : option (cstr * cstr) :=
  let line := take_while (λ a, negb (aeqb a CR || aeqb a LF)) line in
  match line with
  | [] => None
  | a :: _ =>
      if aeqb a HASH then None
      else match strsep line COMMA with
      | (_, None) => None
      | ([], Some _) => None
      | (_, Some []) => None
      | (hash_part, Some name_part) => Some (hash_part, name_part)
      end
  end.

(** The array: its entries, and how many it has room for. *)
Record corpus := { entries : list corpus_entry; capacity : nat }.

(** [realloc_ok]: whether [realloc] finds room for so many entries. *)
Section load.
Context (realloc_ok : nat → bool) (keep : cstr → bool) (hash_size : nat).

(** A line of the file; [None] if the array could not grow. *)
Definition load_line (line : cstr) (c : corpus) : option corpus :=
  match parse_corpus_line line with
  | None => Some c
  | Some (hash_part, name_part) =>
      if negb (keep hash_part) then Some c
      else
        let grown :=
          if (length (entries c) =? capacity c)%nat then
            if realloc_ok (capacity c * 2) then Some (capacity c * 2)%nat else None
          else Some (capacity c) in
        match grown with
        | None => None
        | Some capacity =>
            Some {| entries := entries c ++ [{| hash := strscpy hash_part hash_size;
                                                name := strscpy name_part NAME_SIZE |}];
                    capacity := capacity |}
        end
  end.

(** [fgets] into 512 bytes until the end of the file. *)
Fixpoint load_loop (fuel : nat) (text : cstr) (c : corpus) : option corpus :=
  match fuel, text with
  | S fuel, _ :: _ =>
      let '(line, text) := next_line 511 text in
      match load_line (buf_str line) c with
      | Some c => load_loop fuel text c
      | None => None
      end
  | _, _ => Some c
  end.

(** [contents]: [None] if the file cannot be opened.  [None] is the return of
    -1. *)
Definition load_corpus (contents : option cstr) (malloc_ok : bool) : option (list corpus_entry) :=
  match contents with
  | None => Some []
  | Some text =>
      if negb malloc_ok then None
      else entries <$> load_loop (length text) text {| entries := []; capacity := 16 |}
  end.
End load.

Definition load_fuzzy_corpus `{Fuzzy} (realloc_ok : nat → bool) (contents : option cstr)
    (malloc_ok : bool) : option (list corpus_entry) :=
  load_corpus realloc_ok (λ _, true) FUZZY_MAX_RESULT contents malloc_ok.

Definition load_tlsh_corpus (realloc_ok : nat → bool) (contents : option cstr) (malloc_ok : bool)
    : option (list corpus_entry) :=
  if (AV_TLSH_HASH_BUFSZ <? av_tlsh_hash_maxlen + 1)%nat then None
  else load_corpus realloc_ok (λ h, (length h <=? av_tlsh_hash_maxlen)%nat) AV_TLSH_HASH_BUFSZ contents
    malloc_ok.

(** ** Comparing a file *)

(** [st_size] of the file, if [fstat] succeeds. *)
Definition fuzzy_tlsh_size_ok (st_size : option Z) : bool :=
  match st_size with Some n => n <=? MAX_FUZZY_TLSH_FILE_SIZE | None => true end.

(** What the system calls of one check answer; with each [read], whether an
    allocation succeeds there. *)
Record hash_io := {
  io_size : option Z; io_dup : bool; io_lseek : bool; io_new : bool;
  io_reads : list (read_result * bool);
}.

(** The return values -1, 0 and 1. *)
Inductive check_result := CheckError | NoMatch | Match (name : cstr) (value : Z).

Section fuzzy.
Context `{!Fuzzy}.

Fixpoint fuzzy_loop (reads : list (read_result * bool)) (total : Z) (state : fuzzy_state)
    : option fuzzy_state :=
  match reads with
  | [] => Some state
  | (res, _) :: reads =>
      if negb (total <? MAX_FUZZY_TLSH_FILE_SIZE) then Some state
      else match res with
      | Data [] => Some state
      | Eintr => fuzzy_loop reads total state
      | ReadError => None
      | Data buf =>
          match fuzzy_update state buf with
          | None => None
          | Some state => fuzzy_loop reads (total + Z.of_nat (length buf)) state
          end
      end
  end.

(** [best_score] and [best_idx]. *)
Fixpoint best_fuzzy (file_hash : cstr) (l : list corpus_entry) (i : nat) (best : Z * nat) : Z * nat :=
  match l with
  | [] => best
  | e :: l =>
      let score := fuzzy_compare file_hash (hash e) in
      best_fuzzy file_hash l (S i) (if best.1 <? score then (score, i) else best)
  end.

Definition check_fuzzy_corpus (fuzzy_corpus : list corpus_entry) (io : hash_io) : check_result :=
  if (length fuzzy_corpus =? 0)%nat then NoMatch
  else if negb (fuzzy_tlsh_size_ok (io_size io)) then NoMatch
  else if negb (io_dup io) then CheckError
  else if negb (io_lseek io) then CheckError
  else if negb (io_new io) then CheckError
  else
    match fuzzy_loop (io_reads io) 0 fuzzy_new ≫= fuzzy_digest with
    | None => CheckError
    | Some file_hash =>
        let '(best_score, best_idx) := best_fuzzy file_hash fuzzy_corpus 0 (-1, 0%nat) in
        if FUZZY_MATCH_THRESHOLD <=? best_score
        then Match (strscpy (default [] (name <$> fuzzy_corpus !! best_idx)) NAME_SIZE) best_score
        else NoMatch
    end.
End fuzzy.

(** [best_diff] and [best_idx]. *)
Fixpoint best_tlsh (file_hash : cstr) (l : list corpus_entry) (i : nat) (best : Z * nat) : Z * nat :=
  match l with
  | [] => best
  | e :: l =>
      let diff := av_tlsh_diff file_hash (hash e) in
      best_tlsh file_hash l (S i)
        (if diff <? 0 then best
         else if (best.1 <? 0) || (diff <? best.1) then (diff, i) else best)
  end.

Definition check_tlsh_corpus (tlsh_corpus : list corpus_entry) (io : hash_io) : check_result :=
  if (length tlsh_corpus =? 0)%nat then NoMatch
  else if negb (fuzzy_tlsh_size_ok (io_size io)) then NoMatch
  else if negb (io_dup io) then CheckError
  else
    match av_tlsh_hash_fd (io_lseek io) (io_reads io) (Z.of_nat AV_TLSH_HASH_BUFSZ)
            MAX_FUZZY_TLSH_FILE_SIZE with
    | Some (0, Some file_hash) =>
        let '(best_diff, best_idx) := best_tlsh file_hash tlsh_corpus 0 (-1, 0%nat) in
        if (0 <=? best_diff) && (best_diff <=? TLSH_MATCH_MAX_DIFF)
        then Match (strscpy (default [] (name <$> tlsh_corpus !! best_idx)) NAME_SIZE) best_diff
        else NoMatch
    | Some (ret, _) => if ret =? -2 then NoMatch else CheckError
    | None => CheckError    (* the loops run out of fuel: they do not *)
    end.

(** ** The start-up test *)

Definition pangrams : cstr :=
  cs "The quick brown fox jumps over the lazy dog. Pack my box with five dozen liquor jugs. How vexingly quick daft zebras jump! The five boxing wizards jump quickly. Sphinx of black quartz, judge my vow."
  ++ [LF].
Definition vector : cstr := pangrams ++ pangrams ++ pangrams.
Definition expected_hash : cstr :=
  cs "6DF023C4F665119516E9040C435E7572D1EC8A045313F63050745183205C1734CF06B5".

(** The writes into the memfd; [None] if one fails. *)
Fixpoint selftest_write (script : list write_result) (buf out : cstr) : option cstr :=
  match buf with
  | [] => Some out
  | _ =>
      match script with
      | [] => Some (out ++ buf)
      | WEintr :: script => selftest_write script buf out
      | WError :: script => None
      | WCount n :: script => selftest_write script (drop n buf) (out ++ take n buf)
      end
  end.

(** 0 or -1; [reads]: how the memfd is read back, given what it holds. *)
Definition av_tlsh_selftest (memfd_ok : bool) (script : list write_result)
    (lseek_ok : bool) (reads : cstr → list (read_result * bool)) : Z :=
  if negb memfd_ok then -1
  else match selftest_write script vector [] with
  | None => -1
  | Some contents =>
      match av_tlsh_hash_fd lseek_ok (reads contents) (Z.of_nat AV_TLSH_HASH_BUFSZ) (2 ^ 64 - 1) with
      | Some (0, Some h) => if strcmp_eq h expected_hash then 0 else -1
      | _ => -1
      end
  end.

Example vector_hash :
  av_tlsh_selftest true [] true (λ c, [(Data (code <$> c), true)]) = 0.
Proof. vm_compute. reflexivity. Qed.

(** ** Reading a corpus back *)

(** A line of a corpus file: a sample, with a Windows line ending or not, or
    another line. *)
Inductive corpus_line := Sample (e : corpus_entry) (crlf : bool) | Other (l : cstr).

Definition line_text (l : corpus_line) : cstr :=
  match l with
  | Sample e crlf => hash e ++ COMMA :: name e ++ (if crlf then [CR] else [])
  | Other l => l
  end.

Definition text_of (ls : list corpus_line) : cstr := mjoin ((λ l, line_text l ++ [LF]) <$> ls).

Definition samples (ls : list corpus_line) : list corpus_entry :=
  ls ≫= λ l, match l with Sample e _ => [e] | Other _ => [] end.

Definition printable (s : cstr) : Prop := clean s ∧ CR ∉ s.

Definition line_ok (keep : cstr → bool) (hash_size : nat) (l : corpus_line) : Prop :=
  (length (line_text l) < 511)%nat ∧
  match l with
  | Sample e _ =>
      printable (hash e) ∧ printable (name e) ∧ (COMMA ∉ hash e) ∧ hash e ≠ [] ∧
      head (hash e) ≠ Some HASH ∧ name e ≠ [] ∧ keep (hash e) = true ∧
      (length (hash e) < hash_size)%nat ∧ (length (name e) < NAME_SIZE)%nat
  | Other l => clean l ∧ (head l = Some HASH ∨ l = [] ∨ l = [CR] ∨ COMMA ∉ l)
  end.

Lemma take_while_stop p s a r :
  Forall (λ x, p x = true) s → p a = false → take_while p (s ++ a :: r) = s.
Proof. induction 1 as [|x s Hx _ IH]; simpl; intros Ha; [by rewrite Ha|]. by rewrite Hx, IH. Qed.

Lemma printable_line s : printable s → Forall (λ a, negb (aeqb a CR || aeqb a LF) = true) s.
Proof.
  intros [Hc Hr]. apply Forall_forall. intros a Ha. unfold clean in Hc. rewrite Forall_forall in Hc.
  destruct (Hc a Ha) as [Hl _].
  destruct (aeqb a CR) eqn:E1; [apply aeqb_eq in E1; by subst|].
  destruct (aeqb a LF) eqn:E2; [apply aeqb_eq in E2; by subst|]. done.
Qed.

Lemma printable_app s t : printable (s ++ t) ↔ printable s ∧ printable t.
Proof. unfold printable. rewrite clean_app, elem_of_app. tauto. Qed.

Lemma strsep_first s d r : d ∉ s → strsep (s ++ d :: r) d = (s, Some r).
Proof.
  induction s as [|a s IH]; intros Hd; simpl.
  - by rewrite aeqb_refl.
  - apply not_elem_of_cons in Hd as [Hne Hd]. destruct (aeqb a d) eqn:E; [apply aeqb_eq in E; by subst|].
    by rewrite IH.
Qed.

Lemma strsep_none s d : d ∉ s → (strsep s d).2 = None.
Proof.
  induction s as [|a s IH]; intros Hd; simpl; [done|].
  apply not_elem_of_cons in Hd as [Hne Hd]. destruct (aeqb a d) eqn:E; [apply aeqb_eq in E; by subst|].
  specialize (IH Hd). by destruct (strsep s d).
Qed.

(** What is cut off a line. *)
Lemma parse_sample e crlf :
  printable (hash e) → printable (name e) → COMMA ∉ hash e → hash e ≠ [] →
  head (hash e) ≠ Some HASH → name e ≠ [] →
  parse_corpus_line (line_text (Sample e crlf) ++ [LF]) = Some (hash e, name e).
Proof.
  intros Hh Hn Hc Hhe Hhash Hne. unfold parse_corpus_line.
  assert (take_while (λ a, negb (aeqb a CR || aeqb a LF)) (line_text (Sample e crlf) ++ [LF]) =
    hash e ++ COMMA :: name e) as ->.
  { assert (Forall (λ a, negb (aeqb a CR || aeqb a LF) = true) (hash e ++ COMMA :: name e)) as Hp.
    { apply printable_line, printable_app. split; [done|]. apply (printable_app [COMMA]). split; [|done].
      split; [by repeat constructor|]. by intros ?%list_elem_of_singleton. }
    unfold line_text. destruct crlf.
    - replace ((hash e ++ COMMA :: name e ++ [CR]) ++ [LF]) with ((hash e ++ COMMA :: name e) ++ CR :: [LF])
        by (by rewrite <- !(assoc_L (++)), <- !app_comm_cons, <- (assoc_L (++))).
      by apply take_while_stop.
    - rewrite app_nil_r. by apply take_while_stop. }
  rewrite strsep_first by done. destruct (hash e) as [|a h] eqn:Hhe'; [done|]. cbn [app].
  destruct (aeqb a HASH) eqn:E; [apply aeqb_eq in E; subst; done|]. by destruct (name e).
Qed.

Lemma take_while_notin p s a : a ∉ s → a ∉ take_while p s.
Proof.
  induction s as [|x s IH]; simpl; [done|]. intros [Hne Hs]%not_elem_of_cons.
  destruct (p x); [|apply not_elem_of_nil]. apply not_elem_of_cons. auto.
Qed.

Lemma parse_other l :
  head l = Some HASH ∨ l = [] ∨ l = [CR] ∨ COMMA ∉ l → parse_corpus_line (l ++ [LF]) = None.
Proof.
  intros Hl. unfold parse_corpus_line. destruct Hl as [Hl|[->|[->|Hl]]]; [|done..|].
  - destruct l as [|a l]; [done|]. simpl in Hl. simplify_eq. done.
  - assert (COMMA ∉ take_while (λ a, negb (aeqb a CR || aeqb a LF)) (l ++ [LF])) as Hn.
    { apply take_while_notin. rewrite elem_of_app. intros [|?%list_elem_of_singleton]; done. }
    apply strsep_none in Hn. revert Hn. generalize (take_while (λ a, negb (aeqb a CR || aeqb a LF)) (l ++ [LF])).
    intros [|a s] Hn; [done|]. destruct (aeqb a HASH); [done|].
    destruct (strsep (a :: s) COMMA) as [[|] [|]]; done.
Qed.

Section load_text.
Context (realloc_ok : nat → bool) (keep : cstr → bool) (hash_size : nat).
Hypothesis Hgrow : ∀ n, realloc_ok n = true.

Lemma load_line_ok l c :
  line_ok keep hash_size l →
  ∃ cap, load_line realloc_ok keep hash_size (line_text l ++ [LF]) c =
    Some {| entries := entries c ++ samples [l]; capacity := cap |}.
Proof using Hgrow.
  intros [_ Hl]. unfold load_line. destruct l as [e crlf|l].
  - destruct Hl as (Hh & Hn & Hc & Hhe & Hhash & Hne & Hk & Hhs & Hns).
    rewrite parse_sample by done. rewrite Hk, Hgrow. cbn [negb].
    exists (if (length (entries c) =? capacity c)%nat then (capacity c * 2)%nat else capacity c).
    rewrite !strscpy_fit by done. destruct e. by destruct (length (entries c) =? capacity c)%nat.
  - destruct Hl as [_ Hl]. rewrite parse_other by done. exists (capacity c). destruct c.
    by rewrite app_nil_r.
Qed.

Lemma clean_line l : line_ok keep hash_size l → clean (line_text l).
Proof.
  intros [_ Hl]. destruct l as [e crlf|l]; [|by destruct Hl]. destruct Hl as ([Hh _] & [Hn _] & _).
  unfold line_text. apply clean_app. split; [done|]. apply (clean_app [COMMA]).
  split; [by repeat constructor|]. apply clean_app. split; [done|]. destruct crlf; by repeat constructor.
Qed.

Lemma load_loop_ok ls fuel c :
  Forall (line_ok keep hash_size) ls → (length (text_of ls) ≤ fuel)%nat →
  ∃ cap, load_loop realloc_ok keep hash_size fuel (text_of ls) c =
    Some {| entries := entries c ++ samples ls; capacity := cap |}.
Proof using Hgrow.
  intros Hok. revert fuel c. induction Hok as [|l ls Hl _ IH]; intros fuel c Hf.
  - exists (capacity c). rewrite app_nil_r. destruct c. by destruct fuel.
  - unfold text_of in *. cbn [fmap list_fmap mjoin list_join] in *. rewrite <- (assoc_L (++)) in *.
    rewrite !length_app in Hf. cbn [length app] in Hf. destruct fuel as [|fuel]; [lia|].
    destruct (load_line_ok l c Hl) as [cap Hc].
    set (rest := mjoin ((λ l, line_text l ++ [LF]) <$> ls)) in *.
    assert (next_line 511 (line_text l ++ [LF] ++ rest) = (line_text l ++ [LF], rest)) as Hnl
      by (apply next_line_clean; [by apply clean_line|by destruct Hl]).
    cbn [load_loop].
    destruct (line_text l ++ [LF] ++ rest) as [|a t] eqn:Ht; [by destruct (line_text l)|].
    rewrite Hnl. unfold buf_str. rewrite take_while_all.
    + rewrite Hc. destruct (IH fuel {| entries := entries c ++ samples [l]; capacity := cap |}) as [cap' ->];
        [lia|]. exists cap'. cbn [entries]. do 2 f_equal. unfold samples. cbn [mbind list_bind].
      by rewrite app_nil_r, <- (assoc_L (++)).
    + apply Forall_app. split; [|by repeat constructor].
      eapply Forall_impl; [apply (clean_line l Hl)|]. intros x [_ Hx]. cbv beta.
      destruct (aeqb x NUL) eqn:E; [by apply aeqb_eq in E|done].
Qed.
End load_text.

(** A corpus file reads back to exactly its samples, in order: each "<hash>,<name>" line
    whose parts fit is loaded unchanged, with a Unix or a Windows line ending, and comments, blank
    lines and lines without a comma are skipped, whatever stands between the samples. *)
Theorem corpus_roundtrip realloc_ok keep hash_size ls :
  (∀ n, realloc_ok n = true) → Forall (line_ok keep hash_size) ls →
  load_corpus realloc_ok keep hash_size (Some (text_of ls)) true = Some (samples ls).
Proof.
  intros Hg Hok. unfold load_corpus. cbn [negb].
  destruct (load_loop_ok realloc_ok keep hash_size Hg ls (length (text_of ls))
    {| entries := []; capacity := 16 |} Hok) as [cap ->]; done.
Qed.

(** ** The array *)

Record corpus_ok (hash_size : nat) (c : corpus) : Prop := {
  co_room : (length (entries c) ≤ capacity c)%nat;
  co_capacity : (1 ≤ capacity c)%nat;
  co_entries : Forall (λ e, hash e ≠ [] ∧ name e ≠ [] ∧ (length (hash e) < hash_size)%nat ∧
    (length (name e) < NAME_SIZE)%nat) (entries c);
}.

Lemma strscpy_nonempty s n : (1 < n)%nat → s ≠ [] → strscpy s n ≠ [].
Proof. intros Hn Hs. destruct s as [|a s]; [done|]. unfold strscpy. by destruct n as [|[|n]]; [lia|lia|]. Qed.

Lemma parse_nonempty line h n : parse_corpus_line line = Some (h, n) → h ≠ [] ∧ n ≠ [].
Proof.
  unfold parse_corpus_line. destruct (take_while _ line) as [|a l]; [done|].
  destruct (aeqb a HASH); [done|]. destruct (strsep (a :: l) COMMA) as [[|] [[|]|]]; try done.
  intros [= <- <-]. done.
Qed.

Lemma load_line_bounds realloc_ok keep hash_size line c c' :
  (1 < hash_size)%nat → corpus_ok hash_size c →
  load_line realloc_ok keep hash_size line c = Some c' → corpus_ok hash_size c'.
Proof.
  intros Hs [Hroom Hcap He]. unfold load_line.
  destruct (parse_corpus_line line) as [[h n]|] eqn:Hp; [|by intros [= <-]].
  apply parse_nonempty in Hp as [Hh Hn]. destruct (keep h); cbn [negb]; [|by intros [= <-]].
  destruct (Nat.eqb_spec (length (entries c)) (capacity c)) as [Hfull|Hroom'].
  1: destruct (realloc_ok _); [|done].
  all: intros [= <-]; split; cbn [entries capacity]; [rewrite length_app; simpl; lia|lia|].
  all: apply Forall_app; split; [done|]; apply Forall_singleton; cbn [hash name];
    pose proof (strscpy_length h hash_size ltac:(lia)); pose proof (strscpy_length n NAME_SIZE ltac:(unfold NAME_SIZE; lia));
    split_and!; [apply strscpy_nonempty; done|apply strscpy_nonempty; [unfold NAME_SIZE; lia|done]|done|done].
Qed.

(** More fuel than text changes nothing. *)
Lemma load_loop_fuel realloc_ok keep hash_size text n m c :
  (length text ≤ n)%nat → (length text ≤ m)%nat →
  load_loop realloc_ok keep hash_size n text c = load_loop realloc_ok keep hash_size m text c.
Proof.
  revert m text c. induction n as [|n IH]; intros m text c Hn Hm.
  { destruct text; [by destruct m|simpl in Hn; lia]. }
  destruct text as [|a text]; [by destruct m|]. destruct m as [|m]; [simpl in Hm; lia|].
  cbn [load_loop]. pose proof (next_line_length 510 a text) as Hlt.
  destruct (next_line 511 (a :: text)) as [line rest]. cbn [snd length] in Hlt, Hn, Hm.
  destruct (load_line _ _ _ _ c); [|done]. apply IH; lia.
Qed.

Lemma load_loop_bounds realloc_ok keep hash_size fuel text c c' :
  (1 < hash_size)%nat → corpus_ok hash_size c →
  load_loop realloc_ok keep hash_size fuel text c = Some c' → corpus_ok hash_size c'.
Proof.
  intros Hs. revert text c. induction fuel as [|fuel IH]; intros text c Hc; cbn [load_loop].
  { destruct text; by intros [= <-]. }
  destruct text as [|a text]; [by intros [= <-]|].
  destruct (next_line 511 (a :: text)) as [line rest].
  destruct (load_line _ _ _ _ c) as [c1|] eqn:Hl; [|done]. apply IH. by eapply load_line_bounds.
Qed.

(** Loading a corpus file, whatever it holds, never stores outside the array: the entries fit
    the room that was allocated, hashes and names are cut to their fields and none is empty; and
    the loop ends having read the whole file: no number of further rounds changes the outcome. *)
Theorem corpus_load_bounds realloc_ok keep hash_size text fuel :
  (1 < hash_size)%nat → (length text ≤ fuel)%nat →
  let c0 := {| entries := []; capacity := 16 |} in
  load_loop realloc_ok keep hash_size fuel text c0 =
    load_loop realloc_ok keep hash_size (length text) text c0 ∧
  ∀ c, load_loop realloc_ok keep hash_size fuel text c0 = Some c → corpus_ok hash_size c.
Proof.
  intros Hs Hf c0. split; [by apply load_loop_fuel|]. intros c. apply load_loop_bounds; [done|].
  split; simpl; [lia|lia|done].
Qed.

(** ** The best match *)

Section best.
Context (f : corpus_entry → Z).

(** Entry [i] is the first with the highest value. *)
Definition leads (l : list corpus_entry) (v : Z) (i : nat) : Prop :=
  ∃ e, l !! i = Some e ∧ f e = v ∧
    ∀ j e', l !! j = Some e' → f e' ≤ v ∧ ((j < i)%nat → f e' < v).

(** Entry [i] is the first with the lowest value, the negative ones aside. *)
Definition trails (l : list corpus_entry) (v : Z) (i : nat) : Prop :=
  ∃ e, l !! i = Some e ∧ f e = v ∧ 0 ≤ v ∧
    ∀ j e', l !! j = Some e' → 0 ≤ f e' → v ≤ f e' ∧ ((j < i)%nat → v < f e').

Lemma leads_unique l v i v' i' : leads l v i → leads l v' i' → v = v' ∧ i = i'.
Proof.
  intros (e & He & <- & Hm) (e' & He' & <- & Hm').
  destruct (Hm _ _ He') as [Hle Hlt]. destruct (Hm' _ _ He) as [Hle' Hlt']. split; [lia|].
  destruct (Nat.lt_total i i') as [Hl|[|Hl]]; [|done|]; [specialize (Hlt' Hl)|specialize (Hlt Hl)]; lia.
Qed.

Lemma trails_unique l v i v' i' : trails l v i → trails l v' i' → v = v' ∧ i = i'.
Proof.
  intros (e & He & <- & Hp & Hm) (e' & He' & <- & Hp' & Hm').
  destruct (Hm _ _ He') as [Hle Hlt]; [done|]. destruct (Hm' _ _ He) as [Hle' Hlt']; [done|]. split; [lia|].
  destruct (Nat.lt_total i i') as [Hl|[|Hl]]; [|done|]; [specialize (Hlt' Hl)|specialize (Hlt Hl)]; lia.
Qed.

Lemma lookup_snoc_cases (l : list corpus_entry) e j e' :
  (l ++ [e]) !! j = Some e' → l !! j = Some e' ∧ (j < length l)%nat ∨ j = length l ∧ e' = e.
Proof.
  intros Hj. destruct (decide (j < length l)%nat) as [Hl|Hl].
  - rewrite lookup_app_l in Hj by done. by left.
  - rewrite lookup_app_r in Hj by lia. apply list_lookup_singleton_Some in Hj as [? ->]. right.
    split; [lia|done].
Qed.

Lemma leads_keep l v i e : leads l v i → f e ≤ v → leads (l ++ [e]) v i.
Proof.
  intros (e0 & He0 & <- & Hm) Hle. exists e0. split; [by apply lookup_app_l_Some|]. split; [done|].
  intros j e' [[Hj Hlt]|[-> ->]]%lookup_snoc_cases; [by apply Hm|]. split; [done|].
  apply lookup_lt_Some in He0. lia.
Qed.

Lemma leads_new l e : (∀ e', e' ∈ l → f e' < f e) → leads (l ++ [e]) (f e) (length l).
Proof.
  intros Hall. exists e. split; [by rewrite list_lookup_middle|]. split; [done|].
  intros j e' [[Hj Hlt]|[-> ->]]%lookup_snoc_cases; [|split; lia].
  apply list_elem_of_lookup_2, Hall in Hj. lia.
Qed.

Lemma trails_keep l v i e : trails l v i → f e < 0 ∨ v ≤ f e → trails (l ++ [e]) v i.
Proof.
  intros (e0 & He0 & <- & Hp & Hm) Hle. exists e0. split; [by apply lookup_app_l_Some|].
  split; [done|]. split; [done|].
  intros j e' [[Hj Hlt]|[-> ->]]%lookup_snoc_cases Hpos; [by apply Hm|]. split; [lia|].
  apply lookup_lt_Some in He0. lia.
Qed.

Lemma trails_new l e :
  0 ≤ f e → (∀ e', e' ∈ l → 0 ≤ f e' → f e < f e') → trails (l ++ [e]) (f e) (length l).
Proof.
  intros Hp Hall. exists e. split; [by rewrite list_lookup_middle|]. split; [done|]. split; [done|].
  intros j e' [[Hj Hlt]|[-> ->]]%lookup_snoc_cases Hpos; [|split; lia].
  apply list_elem_of_lookup_2, Hall in Hj; lia.
Qed.

Lemma leads_max l v i e : leads l v i → e ∈ l → f e ≤ v.
Proof. intros (_ & _ & _ & Hm) He. apply list_elem_of_lookup_1 in He as [j Hj]. by apply Hm in Hj as [? _]. Qed.

Lemma trails_min l v i e : trails l v i → e ∈ l → 0 ≤ f e → v ≤ f e.
Proof.
  intros (_ & _ & _ & _ & Hm) He Hp. apply list_elem_of_lookup_1 in He as [j Hj]. by apply Hm in Hj as [? _].
Qed.
End best.

Section fuzzy_spec.
Context `{!Fuzzy} (h : cstr).
Let score (e : corpus_entry) : Z := fuzzy_compare h (hash e).

Definition fuzzy_best (pre : list corpus_entry) (best : Z * nat) : Prop :=
  best.1 = -1 ∧ (∀ e, e ∈ pre → score e ≤ -1) ∨ 0 ≤ best.1 ∧ leads score pre best.1 best.2.

Lemma best_fuzzy_spec l pre best :
  fuzzy_best pre best → fuzzy_best (pre ++ l) (best_fuzzy h l (length pre) best).
Proof.
  revert pre best. induction l as [|e l IH]; intros pre best Hb; [by rewrite app_nil_r|].
  cbn [best_fuzzy]. fold (score e).
  replace (pre ++ e :: l) with ((pre ++ [e]) ++ l) by (by rewrite <- (assoc_L (++))).
  replace (S (length pre)) with (length (pre ++ [e])) by (rewrite length_app; simpl; lia).
  apply IH. destruct (Z.ltb_spec best.1 (score e)) as [Hlt|Hge].
  - right. destruct Hb as [[H1 Hall]|[H0 Hl]]; cbn [fst snd].
    + split; [lia|]. apply leads_new. intros e' He'. specialize (Hall _ He'). lia.
    + split; [lia|]. apply leads_new. intros e' He'. pose proof (leads_max _ _ _ _ _ Hl He'). lia.
  - destruct Hb as [[H1 Hall]|[H0 Hl]].
    + left. split; [done|]. intros e' [He'| ->%list_elem_of_singleton]%elem_of_app; [by apply Hall|lia].
    + right. split; [done|]. by apply leads_keep.
Qed.
End fuzzy_spec.

Section tlsh_spec.
Context (h : cstr).
Let diff (e : corpus_entry) : Z := av_tlsh_diff h (hash e).

Definition tlsh_best (pre : list corpus_entry) (best : Z * nat) : Prop :=
  best.1 = -1 ∧ (∀ e, e ∈ pre → diff e < 0) ∨ trails diff pre best.1 best.2.

Lemma best_tlsh_spec l pre best :
  tlsh_best pre best → tlsh_best (pre ++ l) (best_tlsh h l (length pre) best).
Proof.
  revert pre best. induction l as [|e l IH]; intros pre best Hb; [by rewrite app_nil_r|].
  cbn [best_tlsh]. fold (diff e).
  replace (pre ++ e :: l) with ((pre ++ [e]) ++ l) by (by rewrite <- (assoc_L (++))).
  replace (S (length pre)) with (length (pre ++ [e])) by (rewrite length_app; simpl; lia).
  apply IH. destruct (Z.ltb_spec (diff e) 0) as [Hneg|Hpos].
  - destruct Hb as [[H1 Hall]|Hl].
    + left. split; [done|]. intros e' [He'| ->%list_elem_of_singleton]%elem_of_app; [by apply Hall|lia].
    + right. apply trails_keep; [done|by left].
  - destruct Hb as [[H1 Hall]|Hl].
    + rewrite (proj2 (Z.ltb_lt best.1 0)) by lia. right. apply trails_new; [done|].
      intros e' He'. specialize (Hall _ He'). lia.
    + assert (0 ≤ best.1) by (by destruct Hl as (? & _ & _ & ? & _)).
      rewrite (proj2 (Z.ltb_ge best.1 0)) by lia. cbn [orb]. right.
      destruct (Z.ltb_spec (diff e) best.1) as [Hlt|Hge]; cbn [fst snd].
      * apply trails_new; [done|]. intros e' He' Hp. pose proof (trails_min _ _ _ _ _ Hl He' Hp). lia.
      * apply trails_keep; [done|by right].
Qed.
End tlsh_spec.

(** The calls of the check all succeed, and the file is not too large. *)
Definition io_ok (io : hash_io) : Prop :=
  fuzzy_tlsh_size_ok (io_size io) = true ∧ io_dup io = true ∧ io_lseek io = true ∧ io_new io = true ∧
  read_error (io_reads io) MAX_FUZZY_TLSH_FILE_SIZE 0 = false.

(** The bytes the check reads. *)
Definition io_bytes (io : hash_io) : list Z :=
  mjoin (bytes_read (io_reads io) MAX_FUZZY_TLSH_FILE_SIZE 0).*1.

Lemma fuzzy_loop_bytes `{!Fuzzy} reads total st :
  read_error reads MAX_FUZZY_TLSH_FILE_SIZE total = false →
  fuzzy_loop reads total st =
    fuzzy_update st (mjoin (bytes_read reads MAX_FUZZY_TLSH_FILE_SIZE total).*1).
Proof.
  revert total st. induction reads as [|[res ok] reads IH]; intros total st; cbn [fuzzy_loop bytes_read read_error].
  - by rewrite fuzzy_update_nil.
  - destruct (total <? MAX_FUZZY_TLSH_FILE_SIZE); cbn [negb andb]; [|by rewrite fuzzy_update_nil].
    destruct res as [| |[|x buf]]; [by apply IH|done|by rewrite fuzzy_update_nil|].
    intros He. change (mjoin (((x :: buf, ok) :: ?r).*1)) with ((x :: buf) ++ mjoin (r.*1)).
    rewrite fuzzy_update_app.
    destruct (fuzzy_update st (x :: buf)) as [st'|]; [|done]. by apply IH.
Qed.

(** [check_fuzzy_corpus] of a readable file is a function of its bytes, up to the 256 MB cap
    and however they are read: it matches exactly when some entry scores at least 60 against the
    file's digest, and then reports the first entry with the highest score, and that score, which
    is at most 100. *)
Theorem check_fuzzy_spec `{!Fuzzy} l io h :
  io_ok io → l ≠ [] → fuzzy_update fuzzy_new (io_bytes io) ≫= fuzzy_digest = Some h →
  let score e := fuzzy_compare h (hash e) in
  (∀ nm v, check_fuzzy_corpus l io = Match nm v ↔
    ∃ i e, l !! i = Some e ∧ leads score l v i ∧ nm = strscpy (name e) NAME_SIZE ∧ 60 ≤ v ≤ 100) ∧
  (check_fuzzy_corpus l io = NoMatch ↔ ∀ e, e ∈ l → score e < 60) ∧
  check_fuzzy_corpus l io ≠ CheckError.
Proof.
  intros (Hsz & Hd & Hls & Hnew & Her) Hl Hh score. unfold check_fuzzy_corpus.
  destruct (Nat.eqb_spec (length l) 0) as [|_]; [by destruct l|].
  rewrite Hsz, Hd, Hls, Hnew, fuzzy_loop_bytes by done. cbn [negb]. unfold io_bytes in Hh. rewrite Hh.
  assert (fuzzy_best h l (best_fuzzy h l 0 (-1, 0%nat))) as Hb.
  { apply (best_fuzzy_spec h l [] (-1, 0%nat)). left. split; [done|]. by intros e ?%elem_of_nil. }
  destruct (best_fuzzy h l 0 (-1, 0%nat)) as [v i]. unfold FUZZY_MATCH_THRESHOLD.
  destruct Hb as [[Hv Hall]|[Hv Hlead]]; cbn [fst snd] in *.
  - subst v. cbn. split_and!; [|split; [|done]|done].
    + intros nm v. split; [done|]. intros (i' & e & He & Hle & _ & Hr).
      apply list_elem_of_lookup_2, Hall in He as Hs. destruct Hle as (e' & He' & <- & _).
      apply list_elem_of_lookup_2, Hall in He'. unfold score in *. lia.
    + intros _ e He. apply Hall in He. unfold score. lia.
  - pose proof Hlead as (e & He & Hve & _). pose proof (fuzzy_compare_range h (hash e)) as Hr.
    destruct (Z.leb_spec 60 v) as [H60|H60]; (split_and!; [|split|]); try done.
    + intros nm v'. split.
      * intros [= <- <-]. exists i, e. rewrite He. split_and!; [done..|lia|lia].
      * intros (i' & e' & He' & Hle & -> & _).
        destruct (leads_unique _ _ _ _ _ _ Hlead Hle) as [-> ->]. by rewrite He'.
    + intros Hall. apply list_elem_of_lookup_2 in He. specialize (Hall _ He). unfold score in Hall. lia.
    + intros nm v'. split; [done|]. intros (i' & e' & He' & Hle & _ & Hr').
      destruct (leads_unique _ _ _ _ _ _ Hlead Hle) as [-> _]. lia.
    + intros _ e' He'. eapply Z.le_lt_trans; [exact (leads_max _ _ _ _ _ Hlead He')|done].
Qed.

(** What is needed of the allocation in [tlsh_update]. *)
Definition calloc_ok (io : hash_io) : Prop :=
  ∀ piece, head (bytes_read (io_reads io) MAX_FUZZY_TLSH_FILE_SIZE 0) = Some piece → piece.2 = true.

Lemma hash_answer_cases io :
  as_asked (io_reads io) MAX_FUZZY_TLSH_FILE_SIZE 0 → io_ok io → calloc_ok io →
  av_tlsh_hash_fd (io_lseek io) (io_reads io) (Z.of_nat AV_TLSH_HASH_BUFSZ) MAX_FUZZY_TLSH_FILE_SIZE =
    Some (match digest_of (io_bytes io) with
          | Some d => (0, Some (tlsh_to_hex d)) | None => (-2, None) end).
Proof.
  intros Ha (_ & _ & -> & _ & Her) Hc.
  pose proof (bytes_read_bound _ MAX_FUZZY_TLSH_FILE_SIZE 0 ltac:(done) Ha) as Hb.
  rewrite hash_fd_content, Her; [|eapply Z.le_lt_trans; [exact Hb|done]|exact Hc].
  unfold hash_answer. fold (io_bytes io). by destruct (digest_of (io_bytes io)).
Qed.

(** The distance of an entry from a digest; negative for a malformed entry. *)
Definition distance_to (d : tlsh_digest) (e : corpus_entry) : Z :=
  av_tlsh_diff (tlsh_to_hex d) (hash e).

(** C37: [check_tlsh_corpus] of a readable file is a function of its bytes, up to the 256 MB cap
    and however they are read: with no digest there is no match; else it matches exactly when
    some entry is a digest within a distance of 30 of the file's, and reports the first nearest
    and its distance; malformed entries never count; and a file with the content of a sample
    in the corpus is always found, at distance 0. *)
Theorem check_tlsh_spec l io :
  as_asked (io_reads io) MAX_FUZZY_TLSH_FILE_SIZE 0 → io_ok io → calloc_ok io → l ≠ [] →
  match digest_of (io_bytes io) with
  | None => check_tlsh_corpus l io = NoMatch
  | Some d =>
      (∀ nm v, check_tlsh_corpus l io = Match nm v ↔
        ∃ i e, l !! i = Some e ∧ trails (distance_to d) l v i ∧ nm = strscpy (name e) NAME_SIZE ∧ v ≤ 30) ∧
      (check_tlsh_corpus l io = NoMatch ↔ ∀ e, e ∈ l → distance_to d e < 0 ∨ 30 < distance_to d e) ∧
      check_tlsh_corpus l io ≠ CheckError ∧
      ((∃ e, e ∈ l ∧ hash e = tlsh_to_hex d) → ∃ nm, check_tlsh_corpus l io = Match nm 0)
  end.
Proof.
  intros Ha Hio Hc Hl. pose proof (hash_answer_cases io Ha Hio Hc) as Hh.
  destruct Hio as (Hsz & Hd & _). unfold check_tlsh_corpus.
  destruct (Nat.eqb_spec (length l) 0) as [|_]; [by destruct l|]. rewrite Hsz, Hd, Hh. lazy beta iota delta [negb].
  destruct (digest_of (io_bytes io)) as [d|] eqn:Hdig; [|done].
  assert (tlsh_best (tlsh_to_hex d) l (best_tlsh (tlsh_to_hex d) l 0 (-1, 0%nat))) as Hb.
  { apply (best_tlsh_spec (tlsh_to_hex d) l [] (-1, 0%nat)). left. split; [done|]. by intros e ?%elem_of_nil. }
  destruct (best_tlsh (tlsh_to_hex d) l 0 (-1, 0%nat)) as [v i]. unfold TLSH_MATCH_MAX_DIFF.
  assert (∀ e, hash e = tlsh_to_hex d → distance_to d e = 0) as Hsame.
  { intros e He. unfold distance_to. rewrite He. apply tlsh_diff_self. by eapply digest_of_wf. }
  destruct Hb as [[Hv Hall]|Hlead]; cbn [fst snd] in *.
  - subst v. cbn. split_and!; [|split; [|done]|done|].
    + intros nm v. split; [done|]. intros (i' & e & He & Hle & _).
      destruct Hle as (e' & He' & <- & Hp & _). apply list_elem_of_lookup_2, Hall in He'. unfold distance_to in *. lia.
    + intros _ e He. left. by apply Hall.
    + intros (e & He & Hs). apply Hall in He. specialize (Hsame _ Hs). unfold distance_to in *. lia.
  - pose proof Hlead as (e & He & Hve & Hp & _). rewrite (proj2 (Z.leb_le 0 v)) by lia. cbn [andb].
    destruct (Z.leb_spec v 30) as [H30|H30]; (split_and!; [|split|..]); try done.
    + intros nm v'. split.
      * intros [= <- <-]. exists i, e. rewrite He. split_and!; [done..|lia].
      * intros (i' & e' & He' & Hle & -> & _).
        destruct (trails_unique _ _ _ _ _ _ Hlead Hle) as [-> ->]. by rewrite He'.
    + intros Hall. apply list_elem_of_lookup_2 in He. specialize (Hall _ He). unfold distance_to in *. lia.
    + intros (e' & He' & Hs). specialize (Hsame _ Hs). pose proof (trails_min _ _ _ _ _ Hlead He').
      assert (v = 0) as -> by (unfold distance_to in *; lia). by eexists.
    + intros nm v'. split; [done|]. intros (i' & e' & He' & Hle & _ & Hr').
      destruct (trails_unique _ _ _ _ _ _ Hlead Hle) as [-> _]. lia.
    + intros _ e' He'. pose proof (trails_min _ _ _ _ _ Hlead He').
      destruct (Z.lt_ge_cases (distance_to d e') 0); [by left|]. right. unfold distance_to in *. lia.
    + intros (e' & He' & Hs). specialize (Hsame _ Hs). pose proof (trails_min _ _ _ _ _ Hlead He').
      unfold distance_to in *. lia.
Qed.

(** ** The start-up test passes *)

Lemma selftest_write_all script buf out :
  WError ∉ script → selftest_write script buf out = Some (out ++ buf).
Proof.
  revert buf out. induction script as [|w script IH]; intros buf out Hw.
  { destruct buf; [by rewrite app_nil_r|done]. }
  destruct buf as [|a buf]; [by rewrite app_nil_r|]. apply not_elem_of_cons in Hw as [Hne Hw].
  destruct w as [| |n]; cbn [selftest_write]; [by apply IH|done|]. rewrite IH by done.
  by rewrite <- (assoc_L (++)), take_drop.
Qed.

Lemma strcmp_refl s : strcmp_eq s s = true.
Proof. by apply strcmp_eq_spec. Qed.

(** The digest of the vector, from one run. *)
Lemma vector_digest : hash_answer (code <$> vector) (Z.of_nat AV_TLSH_HASH_BUFSZ) = (0, Some expected_hash).
Proof.
  pose proof (hash_fd_content [(Data (code <$> vector), true)] (Z.of_nat AV_TLSH_HASH_BUFSZ) (2 ^ 64 - 1)) as Hf.
  assert (mjoin (bytes_read [(Data (code <$> vector), true)] (2 ^ 64 - 1) 0).*1 = code <$> vector) as Hb
    by (vm_compute; reflexivity).
  assert (read_error [(Data (code <$> vector), true)] (2 ^ 64 - 1) 0 = false) as He
    by (vm_compute; reflexivity).
  assert (av_tlsh_hash_fd true [(Data (code <$> vector), true)] (Z.of_nat AV_TLSH_HASH_BUFSZ) (2 ^ 64 - 1) =
    Some (0, Some expected_hash)) as Hv by (vm_compute; reflexivity).
  cbv zeta in Hf. rewrite Hb, He, Hv in Hf.
  assert (∀ x y : Z * option cstr, Some x = Some y → y = x) as Hinj by congruence.
  apply Hinj, Hf.
  - vm_compute. reflexivity.
  - intros piece. vm_compute. by intros [= <-].
Qed.

(** The start-up test accepts this port of TLSH: whenever the memfd can be made, written and
    read back, in whatever pieces and with whatever interruptions, [av_tlsh_selftest] returns 0,
    that is, the port gives the digest the reference implementation gave for the test vector; if
    the memfd or a write fails it returns -1. *)
Theorem selftest_passes memfd_ok script reads :
  let rs := reads vector in
  read_error rs (2 ^ 64 - 1) 0 = false → mjoin (bytes_read rs (2 ^ 64 - 1) 0).*1 = code <$> vector →
  (∀ piece, head (bytes_read rs (2 ^ 64 - 1) 0) = Some piece → piece.2 = true) →
  (WError ∉ script → memfd_ok = true → av_tlsh_selftest memfd_ok script true reads = 0) ∧
  (memfd_ok = false ∨ selftest_write script vector [] = None →
   av_tlsh_selftest memfd_ok script true reads = -1).
Proof.
  intros rs He Hb Hc. split.
  - intros Hw ->. unfold av_tlsh_selftest. rewrite selftest_write_all by done. cbn [negb app].
    rewrite hash_fd_content; fold rs; [|by rewrite Hb; vm_compute|done].
    rewrite He, Hb, vector_digest. by rewrite strcmp_refl.
  - unfold av_tlsh_selftest. intros [->| ->]; [done|]. by destruct memfd_ok.
Qed.

(** ** Examples *)

Module CorpusExamples.

(** A similarity that only knows equality. *)
#[local] Program Instance toy_fuzzy : Fuzzy := {|
  fuzzy_state := list Z; FUZZY_MAX_RESULT := 148; fuzzy_new := [];
  fuzzy_update s b := Some (s ++ b); fuzzy_digest s := Some (chr <$> s);
  fuzzy_compare a b := if strcmp_eq a b then 100 else 0;
|}.
Next Obligation. intros s. simpl. by rewrite app_nil_r. Qed.
Next Obligation. intros s a b. simpl. by rewrite (assoc_L (++)). Qed.
Next Obligation. intros a b. simpl. destruct (strcmp_eq a b); lia. Qed.

Definition entry (h n : cstr) : corpus_entry := {| hash := h; name := n |}.
Definition read_io (rs : list (read_result * bool)) : hash_io :=
  {| io_size := None; io_dup := true; io_lseek := true; io_new := true; io_reads := rs |}.

Definition lines : list corpus_line := [
  Other (cs "# samples"); Sample (entry (cs "3:abc:def") (cs "Worm, variant A")) true; Other [];
  Other (cs "no comma here"); Sample (entry (cs "6:x:y") (cs "Dropper")) false ].

Definition line_check (keep : cstr → bool) (hash_size : nat) (l : corpus_line) : bool :=
  bool_decide (length (line_text l) < 511)%nat &&
  match l with
  | Sample e _ =>
      clean_check (hash e) && clean_check (name e) && bool_decide (CR ∉ hash e) &&
      bool_decide (CR ∉ name e) && bool_decide (COMMA ∉ hash e) && bool_decide (hash e ≠ []) &&
      bool_decide (head (hash e) ≠ Some HASH) && bool_decide (name e ≠ []) && keep (hash e) &&
      bool_decide (length (hash e) < hash_size)%nat && bool_decide (length (name e) < NAME_SIZE)%nat
  | Other l =>
      clean_check l && bool_decide (head l = Some HASH ∨ l = [] ∨ l = [CR] ∨ COMMA ∉ l)
  end.

Lemma line_check_sound keep hash_size l : line_check keep hash_size l = true → line_ok keep hash_size l.
Proof.
  unfold line_check, line_ok, printable. intros Hl. destruct l as [e crlf|l]; to_prop;
    repeat match goal with H : bool_decide _ = true |- _ => apply bool_decide_eq_true in H end;
    split_and!; auto using clean_check_sound.
Qed.

Lemma corpus_roundtrip_witness :
  (∀ n : nat, (λ _ : nat, true) n = true) ∧
  load_corpus (λ _, true) (λ _, true) 148 (Some (text_of lines)) true =
    Some [entry (cs "3:abc:def") (cs "Worm, variant A"); entry (cs "6:x:y") (cs "Dropper")].
Proof.
  split; [reflexivity|]. rewrite (corpus_roundtrip (λ _, true) (λ _, true) 148 lines).
  - reflexivity.
  - reflexivity.
  - unfold lines. do 5 (constructor; [apply line_check_sound; vm_compute; reflexivity|]). constructor.
Defined.

Lemma corpus_load_bounds_witness :
  ∃ c, load_loop (λ _, true) (λ _, true) 4 400 (text_of lines) {| entries := []; capacity := 16 |} = Some c ∧
    corpus_ok 4 c ∧ hash <$> entries c = [cs "3:a"; cs "6:x"].
Proof.
  destruct (corpus_load_bounds (λ _, true) (λ _, true) 4 (text_of lines) 400) as [_ H].
  - lia.
  - apply Nat.leb_le. vm_compute. reflexivity.
  - assert (∃ c, load_loop (λ _, true) (λ _, true) 4 400 (text_of lines) {| entries := []; capacity := 16 |}
      = Some c ∧ hash <$> entries c = [cs "3:a"; cs "6:x"]) as (c & Hc & He)
      by (eexists; split; vm_compute; reflexivity).
    exists c. split; [exact Hc|]. split; [apply H, Hc|exact He].
Defined.

Definition sample_io : hash_io := read_io [(Data [65; 66], false); (Eintr, false); (Data [67], false)].
Definition fuzzy_entries : list corpus_entry :=
  [entry (cs "zzz") (cs "other"); entry (cs "ABC") (cs "worm"); entry (cs "ABC") (cs "again")].

Lemma check_fuzzy_spec_witness :
  io_ok sample_io ∧ check_fuzzy_corpus fuzzy_entries sample_io = Match (cs "worm") 100.
Proof.
  assert (io_ok sample_io) as Hio by (vm_compute; repeat split).
  split; [exact Hio|].
  destruct (check_fuzzy_spec fuzzy_entries sample_io (cs "ABC")) as [Hm _].
  - exact Hio.
  - discriminate.
  - vm_compute. reflexivity.
  - apply (proj2 (Hm (cs "worm") 100)).
    exists 1%nat, (entry (cs "ABC") (cs "worm")). split; [reflexivity|]. split; [|split; [reflexivity|lia]].
    exists (entry (cs "ABC") (cs "worm")). split; [reflexivity|]. split; [reflexivity|].
    intros [|[|[|j]]] e' He'; [..|discriminate He']; injection He' as <-; vm_compute;
      (split; [discriminate|intros Hj; (reflexivity || lia)]).
Defined.

Definition file_io : hash_io := read_io [(Data TlshExamples.data1, true)].
Definition hex_of (r : option (Z * option cstr)) : cstr :=
  match r with Some (0, Some h) => h | _ => [] end.
Definition file_hash : cstr :=
  hex_of (av_tlsh_hash_fd true (io_reads file_io) 200 MAX_FUZZY_TLSH_FILE_SIZE).
Definition tlsh_entries : list corpus_entry :=
  [entry (cs "not a digest") (cs "broken"); entry file_hash (cs "sample")].

Lemma check_tlsh_spec_witness :
  (io_ok file_io ∧ calloc_ok file_io) ∧ ∃ nm, check_tlsh_corpus tlsh_entries file_io = Match nm 0.
Proof.
  assert (io_ok file_io) as Hio by (vm_compute; repeat split).
  assert (calloc_ok file_io) as Hc by (intros piece; vm_compute; by intros [= <-]).
  assert (as_asked (io_reads file_io) MAX_FUZZY_TLSH_FILE_SIZE 0) as Ha
    by (vm_compute; repeat split; discriminate).
  split; [split; [exact Hio|exact Hc]|].
  pose proof (hash_answer_cases file_io Ha Hio Hc) as Hh.
  pose proof (check_tlsh_spec tlsh_entries file_io Ha Hio Hc ltac:(discriminate)) as Hs.
  assert (av_tlsh_hash_fd (io_lseek file_io) (io_reads file_io) (Z.of_nat AV_TLSH_HASH_BUFSZ)
    MAX_FUZZY_TLSH_FILE_SIZE = Some (0, Some file_hash)) as Hv by (vm_compute; reflexivity).
  rewrite Hv in Hh. destruct (digest_of (io_bytes file_io)) as [d|]; [|discriminate Hh].
  assert (file_hash = tlsh_to_hex d) as Hd by congruence.
  destruct Hs as (_ & _ & _ & Hf). apply Hf. exists (entry file_hash (cs "sample")).
  split; [right; left|exact Hd].
Defined.

Lemma selftest_passes_witness :
  av_tlsh_selftest true [WEintr; WCount 100] true
    (λ c, [(Data (code <$> take 300 c), true); (Eintr, true); (Data (code <$> drop 300 c), true)]) = 0.
Proof.
  destruct (selftest_passes true [WEintr; WCount 100]
    (λ c, [(Data (code <$> take 300 c), true); (Eintr, true); (Data (code <$> drop 300 c), true)])) as [Hp _].
  - vm_compute. reflexivity.
  - vm_compute. reflexivity.
  - intros piece. vm_compute. by intros [= <-].
  - apply Hp; [|reflexivity]. intros Hw. do 2 (apply elem_of_cons in Hw as [|Hw]; [discriminate|]). by apply elem_of_nil in Hw.
Defined.

(** A comment over 511 bytes is cut by [fgets], and its rest, if it has a
    comma, is taken for a sample. *)
Example long_comment :
  load_corpus (λ _, true) (λ _, true) 148
    (Some (HASH :: replicate 510 (chr 45) ++ cs "see notes,2024" ++ [LF])) true =
  Some [entry (cs "see notes") (cs "2024")].
Proof. vm_compute. reflexivity. Qed.

End CorpusExamples.
