(* ===== verification/Scan.v ===== *)
(** * The scan engine: userspace/avd/avd.c

    One scan from the kernel's request to the verdict: [msg_handler],
    [handle_scan_request], [perform_scan] with YARA's callback, the similarity
    checks and the quarantine, [send_verdict].  YARA is a parameter: the code
    of [yr_rules_scan_fd] and the messages it delivered.  libnl's parsing
    gives the attributes. *)

From Stdlib Require Import ZArith Lia Ascii String.
From stdpp Require Import prelude list gmap.
From S2P Require Import Prelude CString CText Netlink Sha256 Tlsh Corpus.
From S2P Require Import Sock Posix Quarantine Trust QuarantineOps History ScanQueue.

Local Open Scope Z_scope.

Definition MALICIOUS_SCORE_THRESHOLD : Z := 100.

(** ** YARA's matches *)

Inductive meta_value := MetaInteger (n : Z) | MetaBoolean (n : Z) | MetaString.
Record yr_meta := { identifier : cstr; value : meta_value }.
Record yr_rule := { rule_identifier : cstr; metas : list yr_meta }.
Inductive yr_message := RuleMatching (rule : yr_rule) | OtherMessage.

Record yara_match_ctx := {
  matched : bool; match_count : Z; score : Z; override_matched : bool; ctx_rule_name : cstr;
}.

Definition ctx_init : yara_match_ctx :=
  {| matched := false; match_count := 0; score := 0; override_matched := false; ctx_rule_name := [] |}.

(** One meta of a rule: the score, an [int], and the override. *)
Definition meta_step (acc : Z * bool) (meta : yr_meta) : Z * bool :=
  match value meta with
  | MetaInteger n =>
      if strcmp_eq (identifier meta) (cs "weight") then (to_int (acc.1 + to_int n), acc.2) else acc
  | MetaBoolean n =>
      if negb (n =? 0) && strcmp_eq (identifier meta) (cs "override") then (acc.1, true) else acc
  | MetaString => acc
  end.

Definition yara_callback (ctx : yara_match_ctx) (message : yr_message) : yara_match_ctx :=
  match message with
  | OtherMessage => ctx
  | RuleMatching rule =>
      let used := length (ctx_rule_name ctx) in
      let remaining := (AV_RULE_NAME_MAXLEN + 1 - used)%nat in
      let '(score, override_matched) :=
        foldl meta_step (score ctx, override_matched ctx) (metas rule) in
      {| matched := true; match_count := match_count ctx + 1; score := score;
         override_matched := override_matched;
         ctx_rule_name :=
           if (1 <? remaining)%nat then
             ctx_rule_name ctx ++
               strscpy ((if (0 <? used)%nat then cs "," else []) ++ rule_identifier rule) remaining
           else ctx_rule_name ctx |}
  end.

(** ** A scan *)

(** The environment's answers to [sha256_fd]. *)
Record sha_io := {
  sha_junk : list Z; sha_dup : bool; sha_fdopen : bool; sha_fseek : bool;
  sha_reads : list (list Z); sha_ferror : bool;
}.

Definition sha256_of (io : sha_io) : option (Z * option cstr) :=
  sha256_fd (sha_junk io) (sha_dup io) (sha_fdopen io) (sha_fseek io) (sha_reads io) (sha_ferror io).

(** The hash given, or that of the file, or none. *)
Definition scan_hash (sha256_hex : option cstr) (io : sha_io) : cstr :=
  match sha256_hex with
  | Some ((_ :: _) as hex) => hex
  | _ => match sha256_of io with Some (0, Some hex) => hex | _ => [] end
  end.

(** [yr_rules_scan_fd]: ERROR_SUCCESS is 0. *)
Record scan_io := {
  si_sha : sha_io;
  si_yara_ret : Z; si_yara : list yr_message;
  si_fuzzy : hash_io; si_tlsh : hash_io;
  si_time : Z;
}.

(** What the start-up loaded. *)
Record engine := {
  compiled_rules : bool; fuzzy_corpus : list corpus_entry; tlsh_corpus : list corpus_entry;
}.

Record scan_result := { res_verdict : Z; res_rule_name : cstr; res_score : Z; res_sha256_hex : cstr }.

Definition clean (sc : Z) : Z * cstr * Z := (AV_VERDICT_CLEAN, [], sc).

(** "Fuzzy:%.40s(%d)" and "TLSH:%.40s(%d)" into 64 bytes. *)
Definition similar (tag name : cstr) (n : Z) : cstr :=
  strscpy (tag ++ take 40 name ++ cs "(" ++ print_signed n ++ cs ")") 64.

Section scan.
Context `{!Fuzzy} {W : Type} `{!Posix W}.

(** The verdict, the rule and the score: YARA, then the two corpora. *)
Definition analyse (g : engine) (rewound : bool) (io : scan_io) : Z * cstr * Z :=
  if negb (compiled_rules g) then clean 0
  else if negb rewound then clean 0
  else if negb (si_yara_ret io =? 0) then clean 0
  else
    let ctx := foldl yara_callback ctx_init (si_yara io) in
    if matched ctx && (override_matched ctx || (MALICIOUS_SCORE_THRESHOLD <=? score ctx))
    then (AV_VERDICT_MALICIOUS, strscpy (ctx_rule_name ctx) 64, score ctx)
    else
      let sc := if matched ctx then score ctx else 0 in
      match check_fuzzy_corpus (fuzzy_corpus g) (si_fuzzy io) with
      | Match fuzzy_name fuzzy_score =>
          (AV_VERDICT_MALICIOUS,
           similar (cs "Fuzzy:") fuzzy_name (Z.min 100 (Z.max 0 fuzzy_score)), sc)
      | _ =>
          match check_tlsh_corpus (tlsh_corpus g) (si_tlsh io) with
          | Match tlsh_name tlsh_diff =>
              (AV_VERDICT_MALICIOUS, similar (cs "TLSH:") tlsh_name tlsh_diff, sc)
          | _ => clean sc
          end
      end.

(** The result, the outcome of the quarantine if there was one, the file
    system and the history. *)
Definition perform_scan (e : env) (g : engine) (fd : inum) (path : cstr) (sha256_hex : option cstr)
    (pid : Z) (on_demand : bool) (io : scan_io) (w : W) (h : history)
    : scan_result * option (quarantine_log * bool) * W * history :=
  let owner_uid := match fstat fd w with Some st => st_uid st | None => UID_UNKNOWN end in
  let hash := scan_hash sha256_hex (si_sha io) in
  let '(verdict, rule_name, sc) := analyse g (lseek fd w) io in
  let '(q, w) :=
    if verdict =? AV_VERDICT_MALICIOUS then
      let '(log, meta, w) := quarantine_file e fd path (Some rule_name) (Some hash) w in
      (Some (log, meta), w)
    else (None, w) in
  let out := {| res_verdict := verdict; res_rule_name := rule_name; res_score := sc;
                res_sha256_hex := strscpy hash 65 |} in
  let h := record_verdict_history
    {| sc_time := si_time io; sc_pid := pid; sc_uid := owner_uid; sc_path := path;
       sc_sha256_hex := res_sha256_hex out; sc_verdict := verdict; sc_rule_name := rule_name;
       sc_score := sc; sc_on_demand := on_demand |} h in
  (out, q, w, h).

(** ** The netlink side *)

(** The outcomes of the libnl calls. *)
Record send_io := { alloc_ok : bool; put_ok : bool; attrs_ok : bool; send_ok : bool }.

(** 0 or -1, and the message the kernel receives from [portid]. *)
Definition send_verdict (io : send_io) (portid reqid verdict : Z) (rule_name : option cstr)
    : Z * option verdict_msg :=
  if negb (alloc_ok io) then (-1, None)
  else if negb (put_ok io) then (-1, None)
  else if negb (attrs_ok io) then (-1, None)
  else if negb (send_ok io) then (-1, None)
  else (0, Some {| vm_portid := portid; vm_reqid := Some reqid; vm_verdict := Some verdict;
                   vm_rule_name := match rule_name with Some ((_ :: _) as r) => Some r | _ => None end |}).

(** The request a worker took; the message sent, if it was. *)
Definition handle_scan_request (e : env) (g : engine) (portid : Z) (r : request) (io : scan_io)
    (sio : send_io) (w : W) (h : history) : option verdict_msg * W * history :=
  match open_rdonly (ScanQueue.rq_path r) w with
  | None => ((send_verdict sio portid (ScanQueue.rq_reqid r) AV_VERDICT_CLEAN None).2, w, h)
  | Some fd =>
      let '(result, _, w, h) :=
        perform_scan e g fd (ScanQueue.rq_path r) (Some (rq_sha256_hex r)) (ScanQueue.rq_pid r) false
          io w h in
      ((send_verdict sio portid (ScanQueue.rq_reqid r) (res_verdict result)
          (Some (res_rule_name result))).2, w, h)
  end.
End scan.

(** A generic netlink message: the kernel-given port of its sender, the
    command, and the attributes if [genlmsg_parse] accepts them. *)
Record scan_attrs := {
  at_reqid : option Z; at_pid : option Z; at_path : option cstr; at_sha256 : option cstr;
}.
Record nl_msg := { nm_src : option Z; nm_cmd : av_genl_command; nm_attrs : option scan_attrs }.

Inductive nl_cb_action := NL_OK | NL_SKIP.

(** What is handed to [enqueue_scan_task]. *)
Definition msg_handler (msg : nl_msg) : nl_cb_action * option request :=
  match nm_attrs msg with
  | None => (NL_SKIP, None)
  | Some attrs =>
      match nm_cmd msg with
      | AV_C_SCAN_REQUEST =>
          if match nm_src msg with Some nl_pid => negb (nl_pid =? 0) | None => true end
          then (NL_SKIP, None)
          else match at_reqid attrs, at_path attrs with
          | Some reqid, Some path =>
              (NL_OK, Some (task_of reqid (default 0 (at_pid attrs)) (Some path)
                              (Some (default [] (at_sha256 attrs)))))
          | _, _ => (NL_SKIP, None)
          end
      | _ => (NL_OK, None)
      end
  end.

(** ** What the callback collects *)

Definition rules_of (l : list yr_message) : list yr_rule :=
  omap (λ m, match m with RuleMatching r => Some r | OtherMessage => None end) l.

(** The weights a rule carries. *)
Definition weights (r : yr_rule) : list Z :=
  omap (λ m, match value m with
             | MetaInteger n => if strcmp_eq (identifier m) (cs "weight") then Some n else None
             | _ => None
             end) (metas r).

Definition overrides (r : yr_rule) : bool :=
  existsb (λ m, match value m with
                | MetaBoolean n => negb (n =? 0) && strcmp_eq (identifier m) (cs "override")
                | _ => false
                end) (metas r).

Definition sum (l : list Z) : Z := foldr Z.add 0 l.

(** Names with commas between them. *)
Definition joined (names : list cstr) : cstr :=
  match names with [] => [] | n :: names => n ++ (names ≫= λ m, cs "," ++ m) end.

Lemma to_int_u32 x y : u32 x = u32 y → to_int x = to_int y.
Proof. unfold to_int. by intros ->. Qed.

Lemma to_int_add a n : to_int (to_int a + to_int n) = to_int (a + n).
Proof.
  apply to_int_u32. unfold wrap. rewrite Z.add_mod by done. fold (u32 (to_int a)) (u32 (to_int n)).
  rewrite !u32_to_int. unfold wrap. by rewrite <- Z.add_mod.
Qed.

Lemma metas_fold l a o :
  foldl meta_step (to_int a, o) l =
    (to_int (a + sum (weights {| rule_identifier := []; metas := l |})),
     o || overrides {| rule_identifier := []; metas := l |}).
Proof.
  unfold weights, overrides. cbn [metas]. revert a o.
  induction l as [|m l IH]; intros a o; cbn [foldl omap list_omap existsb].
  { by rewrite Z.add_0_r, orb_false_r. }
  unfold meta_step at 2. cbn [fst snd]. destruct (value m) as [n|n|].
  - destruct (strcmp_eq (identifier m) (cs "weight")).
    + rewrite to_int_add, IH. cbn [sum foldr orb]. do 2 f_equal. unfold sum. lia.
    + by rewrite IH.
  - destruct (negb (n =? 0) && strcmp_eq (identifier m) (cs "override")).
    + rewrite IH. cbn [orb]. by rewrite orb_true_r.
    + by rewrite IH.
  - by rewrite IH.
Qed.

(** The context after some messages. *)
Lemma sum_app l l' : sum (l ++ l') = sum l + sum l'.
Proof. unfold sum. induction l as [|x l IH]; simpl; lia. Qed.

Lemma joined_snoc names n :
  Forall (λ s, s ≠ []) names →
  joined (names ++ [n]) = joined names ++ (if (0 <? length (joined names))%nat then cs "," else []) ++ n.
Proof.
  destruct names as [|m names]; [intros _; cbn; by rewrite app_nil_r|]. intros Hm. inversion Hm as [|? ? Hne _]; subst.
  destruct m as [|a m]; [done|]. cbn [joined app length Nat.ltb Nat.leb].
  rewrite bind_app. cbn [mbind list_bind]. by rewrite app_nil_r, <- (assoc_L (++)).
Qed.

Lemma name_step (s t : cstr) :
  let used := length (take AV_RULE_NAME_MAXLEN s) in
  let remaining := (AV_RULE_NAME_MAXLEN + 1 - used)%nat in
  (if (1 <? remaining)%nat
   then take AV_RULE_NAME_MAXLEN s ++ strscpy t remaining else take AV_RULE_NAME_MAXLEN s) =
  take AV_RULE_NAME_MAXLEN (s ++ t).
Proof.
  cbv zeta. rewrite length_take, take_app. unfold strscpy, AV_RULE_NAME_MAXLEN.
  destruct (Nat.ltb_spec 1 (63 + 1 - 63 `min` length s)) as [Hl|Hl].
  - do 2 f_equal. lia.
  - replace (63 - length s)%nat with 0%nat by lia. by rewrite take_0, app_nil_r.
Qed.

Lemma yara_fold l :
  Forall (λ r, rule_identifier r ≠ []) (rules_of l) →
  let ctx := foldl yara_callback ctx_init l in
  matched ctx = negb (length (rules_of l) =? 0)%nat ∧
  match_count ctx = Z.of_nat (length (rules_of l)) ∧
  score ctx = to_int (sum (rules_of l ≫= weights)) ∧
  override_matched ctx = existsb overrides (rules_of l) ∧
  ctx_rule_name ctx = take AV_RULE_NAME_MAXLEN (joined (rule_identifier <$> rules_of l)).
Proof.
  induction l as [|m l IH] using rev_ind; intros Hne; [done|]. cbv zeta. rewrite foldl_snoc.
  unfold rules_of in *. rewrite omap_app in Hne |- *. fold (rules_of l) in *.
  apply Forall_app in Hne as [Hne Hm]. destruct (IH Hne) as (Hma & Hc & Hs & Ho & Hn).
  destruct m as [r|]; cbn [omap list_omap] in *; [|rewrite app_nil_r; done].
  cbn [yara_callback]. rewrite Hc, Hs, Ho, Hn.
  pose proof (metas_fold (metas r) (sum (rules_of l ≫= weights)) (existsb overrides (rules_of l))) as Hf.
  change (weights {| rule_identifier := []; metas := metas r |}) with (weights r) in Hf.
  change (overrides {| rule_identifier := []; metas := metas r |}) with (overrides r) in Hf.
  rewrite Hf. cbn [matched match_count score override_matched ctx_rule_name]. split_and!.
  - rewrite length_app. simpl. by rewrite Nat.add_1_r.
  - rewrite length_app. simpl. lia.
  - rewrite bind_app. cbn [mbind list_bind]. by rewrite app_nil_r, sum_app.
  - rewrite existsb_app. cbn [existsb]. by rewrite orb_false_r.
  - rewrite fmap_app. cbn [fmap list_fmap]. rewrite joined_snoc by (by apply Forall_fmap).
    rewrite name_step. do 4 f_equal.
    rewrite length_take. unfold AV_RULE_NAME_MAXLEN.
    destruct (Nat.ltb_spec 0 (63 `min` length (joined (rule_identifier <$> rules_of l)))),
      (Nat.ltb_spec 0 (length (joined (rule_identifier <$> rules_of l)))); done || lia.
Qed.

Section verdicts.
Context `{!Fuzzy} {W : Type} `{!Posix W}.

(** The weights of the matched rules, as an [int]. *)
Definition aggregate (io : scan_io) : Z := to_int (sum (rules_of (si_yara io) ≫= weights)).

(** YARA convicts: a rule that overrides, or enough weight. *)
Definition yara_convicts (io : scan_io) : Prop :=
  rules_of (si_yara io) ≠ [] ∧
  (existsb overrides (rules_of (si_yara io)) = true ∨ 100 ≤ aggregate io).

(** A file that is scanned to the end of the YARA pass. *)
Definition scannable (g : engine) (fd : inum) (io : scan_io) (w : W) : Prop :=
  compiled_rules g = true ∧ lseek fd w = true ∧ si_yara_ret io = 0.

Definition guilty (g : engine) (io : scan_io) : Prop :=
  yara_convicts io ∨ (∃ nm v, check_fuzzy_corpus (fuzzy_corpus g) (si_fuzzy io) = Match nm v) ∨
  ∃ nm v, check_tlsh_corpus (tlsh_corpus g) (si_tlsh io) = Match nm v.

Definition named (io : scan_io) : Prop :=
  Forall (λ r, rule_identifier r ≠ []) (rules_of (si_yara io)).

Lemma strscpy_le s n : (length (strscpy s (S n)) ≤ n)%nat.
Proof. unfold strscpy. rewrite length_take. lia. Qed.

Lemma similar_length tag nm n : (length (similar tag nm n) ≤ 63)%nat.
Proof. apply strscpy_le. Qed.

#[local] Instance yara_convicts_dec io : Decision (yara_convicts io).
Proof. unfold yara_convicts. apply _. Defined.

(** [analyse] where YARA ran. *)
Lemma analyse_scanned g io :
  named io → compiled_rules g = true → si_yara_ret io = 0 →
  analyse g true io =
    if decide (yara_convicts io) then
      (AV_VERDICT_MALICIOUS, take AV_RULE_NAME_MAXLEN (joined (rule_identifier <$> rules_of (si_yara io))),
       aggregate io)
    else
      match check_fuzzy_corpus (fuzzy_corpus g) (si_fuzzy io) with
      | Match nm v =>
          (AV_VERDICT_MALICIOUS, similar (cs "Fuzzy:") nm (Z.min 100 (Z.max 0 v)), aggregate io)
      | _ =>
          match check_tlsh_corpus (tlsh_corpus g) (si_tlsh io) with
          | Match nm v => (AV_VERDICT_MALICIOUS, similar (cs "TLSH:") nm v, aggregate io)
          | _ => clean (aggregate io)
          end
      end.
Proof.
  intros Hn Hc Hret. destruct (yara_fold _ Hn) as (Hma & _ & Hs & Ho & Hr). unfold analyse.
  rewrite Hc, Hret, Hma, Hs, Ho, Hr. cbn [negb Z.eqb]. fold (aggregate io).
  assert ((if negb (length (rules_of (si_yara io)) =? 0)%nat then aggregate io else 0) = aggregate io) as ->
    by (unfold aggregate; by destruct (rules_of (si_yara io))).
  assert (negb (length (rules_of (si_yara io)) =? 0)%nat &&
    (existsb overrides (rules_of (si_yara io)) || (MALICIOUS_SCORE_THRESHOLD <=? aggregate io)) =
    bool_decide (yara_convicts io)) as ->.
  { apply eq_true_iff_eq. rewrite bool_decide_eq_true, andb_true_iff, orb_true_iff, Z.leb_le.
    unfold yara_convicts, MALICIOUS_SCORE_THRESHOLD.
    destruct (rules_of (si_yara io)); simpl.
    - split; [by intros [? _]|by intros [? _]].
    - split; intros [_ ?]; by split. }
  destruct (decide (yara_convicts io)) as [Hy|Hy]; [rewrite bool_decide_true by done|by rewrite bool_decide_false].
  do 2 f_equal. unfold strscpy, AV_RULE_NAME_MAXLEN. by rewrite take_take.
Qed.

Lemma analyse_unscanned g rewound io :
  ¬ (compiled_rules g = true ∧ rewound = true ∧ si_yara_ret io = 0) → analyse g rewound io = clean 0.
Proof.
  intros Hn. unfold analyse. destruct (compiled_rules g), rewound; cbn [negb]; try done.
  destruct (Z.eqb_spec (si_yara_ret io) 0); [|done]. by destruct Hn.
Qed.

(** The outcome of [analyse], on every branch. *)
Lemma analyse_spec g rewound io verdict rule sc :
  named io → analyse g rewound io = (verdict, rule, sc) →
  let scanned := compiled_rules g = true ∧ rewound = true ∧ si_yara_ret io = 0 in
  (verdict = AV_VERDICT_MALICIOUS ↔ scanned ∧ guilty g io) ∧
  (verdict = AV_VERDICT_CLEAN ∧ rule = [] ∨ verdict = AV_VERDICT_MALICIOUS) ∧
  (length rule ≤ AV_RULE_NAME_MAXLEN)%nat ∧
  (scanned → yara_convicts io →
   rule = take AV_RULE_NAME_MAXLEN (joined (rule_identifier <$> rules_of (si_yara io)))) ∧
  (scanned → sc = aggregate io).
Proof.
  intros Hn Ha scanned. unfold guilty.
  destruct (decide (compiled_rules g = true ∧ rewound = true ∧ si_yara_ret io = 0)) as [Hs|Hs].
  2: { rewrite (analyse_unscanned _ _ _ Hs) in Ha. injection Ha as <- <- <-.
       split_and!; [|by left|simpl; lia|by intros ?|by intros ?].
       split; [done|]. by intros [? _]. }
  pose proof Hs as (Hc & -> & Hret). rewrite analyse_scanned in Ha by done.
  destruct (decide (yara_convicts io)) as [Hy|Hy].
  { injection Ha as <- <- <-. split_and!; try done; [|by right|]. 2: { rewrite length_take. lia. }
    split; [|done]. intros _. split; [done|by left]. }
  destruct (check_fuzzy_corpus (fuzzy_corpus g) (si_fuzzy io)) as [| |nm v] eqn:Hf.
  3: { injection Ha as <- <- <-. split_and!; try done; [|by right|apply similar_length].
       split; [|done]. intros _. split; [done|right; left; eauto]. }
  all: destruct (check_tlsh_corpus (tlsh_corpus g) (si_tlsh io)) as [| |nm v] eqn:Ht.
  all: injection Ha as <- <- <-.
  all: split_and!; try done;
    try (by left); try (by right); try apply similar_length; try (simpl; lia).
  all: split; [try done|try done].
  all: try (intros _; split; [done|right; right; eauto]).
  all: intros (_ & [?|[(?&?&?)|(?&?&?)]]); done.
Qed.

(** The result of [perform_scan], apart from what it does. *)
Lemma perform_scan_verdict e g fd path sha256_hex pid on_demand io w h out q w' h' :
  named io → perform_scan e g fd path sha256_hex pid on_demand io w h = (out, q, w', h') →
  (res_verdict out = AV_VERDICT_MALICIOUS ↔ scannable g fd io w ∧ guilty g io) ∧
  (res_verdict out = AV_VERDICT_CLEAN ∨ res_verdict out = AV_VERDICT_MALICIOUS) ∧
  (length (res_rule_name out) ≤ AV_RULE_NAME_MAXLEN)%nat.
Proof.
  intros Hn Hp. unfold perform_scan in Hp.
  destruct (analyse g (lseek fd w) io) as [[verdict rule] sc] eqn:Ha.
  destruct (analyse_spec _ _ _ _ _ _ Hn Ha) as (Hv & Hcases & Hlen & _).
  destruct (if verdict =? AV_VERDICT_MALICIOUS then _ else _) as [q1 w1] in Hp.
  injection Hp as <- <- <- <-. cbn [res_verdict res_rule_name]. split_and!; [done| |done].
  destruct Hcases as [[? _]|?]; auto.
Qed.

(** C8: the verdict of a scan, and what follows from it.  A file is found malicious exactly when
    the rules are loaded, the file can be rewound and YARA scans it without an error, and: a
    matching rule overrides, or the weights of the matching rules reach 100, or the fuzzy-hash or
    the TLSH corpus matches.  Only then is it quarantined, under the rule reported; a YARA
    conviction reports the matching rules in order, cut at 63 bytes.  Whatever the outcome,
    exactly one row is added to the history, with the verdict, and owned by the file's owner, or
    by nobody if [fstat] fails. *)
Theorem scan_verdict e g fd path sha256_hex pid on_demand io w h out q w' h' :
  named io → perform_scan e g fd path sha256_hex pid on_demand io w h = (out, q, w', h') →
  (res_verdict out = AV_VERDICT_MALICIOUS ↔ scannable g fd io w ∧ guilty g io) ∧
  (res_verdict out = AV_VERDICT_CLEAN ∧ res_rule_name out = [] ∧ q = None ∧ w' = w ∨
   res_verdict out = AV_VERDICT_MALICIOUS ∧ ∃ hash log meta, q = Some (log, meta) ∧
     quarantine_file e fd path (Some (res_rule_name out)) (Some hash) w = (log, meta, w') ∧
     res_sha256_hex out = strscpy hash 65) ∧
  (length (res_rule_name out) ≤ AV_RULE_NAME_MAXLEN)%nat ∧
  (scannable g fd io w → yara_convicts io → res_rule_name out =
     take AV_RULE_NAME_MAXLEN (joined (rule_identifier <$> rules_of (si_yara io)))) ∧
  (scannable g fd io w → res_score out = aggregate io) ∧
  (∀ hex, sha256_hex = Some hex → hex ≠ [] → res_sha256_hex out = strscpy hex 65) ∧
  ∃ sc, h' = record_verdict_history sc h ∧ sc_verdict sc = res_verdict out ∧
    sc_rule_name sc = res_rule_name out ∧ sc_path sc = path ∧ sc_pid sc = pid ∧
    sc_sha256_hex sc = res_sha256_hex out ∧ sc_score sc = res_score out ∧
    sc_uid sc = match fstat fd w with Some st => st_uid st | None => UID_UNKNOWN end ∧
    sc_on_demand sc = on_demand.
Proof.
  intros Hn Hp. unfold perform_scan in Hp. set (hash := scan_hash sha256_hex (si_sha io)) in Hp.
  destruct (analyse g (lseek fd w) io) as [[verdict rule] sc] eqn:Ha.
  destruct (analyse_spec _ _ _ _ _ _ Hn Ha) as (Hv & Hcases & Hlen & Hrule & Hsc).
  assert (∀ hex, sha256_hex = Some hex → hex ≠ [] → strscpy hash 65 = strscpy hex 65) as Hhash.
  { intros hex He Hne. unfold hash. rewrite He. destruct hex as [|a hex]; [by destruct Hne|done]. }
  destruct Hcases as [[-> ->]| ->]; cbn [Z.eqb] in Hp.
  - injection Hp as <- <- <- <-. cbn [res_verdict res_rule_name res_score res_sha256_hex].
    split_and!; try done; [by left|eexists; by split_and!].
  - change (AV_VERDICT_MALICIOUS =? AV_VERDICT_MALICIOUS) with true in Hp. cbv iota in Hp.
    destruct (quarantine_file e fd path (Some rule) (Some hash) w) as [[log meta] w1] eqn:Hq.
    injection Hp as <- <- <- <-. cbn [res_verdict res_rule_name res_score res_sha256_hex].
    split_and!; try done; [|eexists; by split_and!].
    right. split; [done|]. by exists hash, log, meta.
Qed.

(** What a request of the kernel carries, as the daemon's libnl hands it over. *)
Definition request_msg (r : scan_request) : nl_msg :=
  {| nm_src := Some 0; nm_cmd := AV_C_SCAN_REQUEST;
     nm_attrs := Some {| at_reqid := Some (Netlink.rq_reqid r); at_pid := Some (Netlink.rq_pid r);
                         at_path := Some (Netlink.rq_path r); at_sha256 := Some (rq_sha256 r) |} |}.

Definition all_sent (sio : send_io) : Prop :=
  alloc_ok sio = true ∧ put_ok sio = true ∧ attrs_ok sio = true ∧ send_ok sio = true.

Lemma task_of_fit reqid pid path sha :
  (length path < PATH_MAX)%nat → (length sha < 65)%nat →
  task_of reqid pid (Some path) (Some sha) =
    {| ScanQueue.rq_reqid := reqid; ScanQueue.rq_pid := pid; ScanQueue.rq_path := path;
       rq_sha256_hex := sha |}.
Proof. intros Hp Hs. unfold task_of. cbn [default from_option id]. by rewrite !strscpy_fit. Qed.

(** C10: from the kernel and back: a request delivered by the kernel is queued with the request
    id, the pid, the path and the hash it was sent with; handling it sends at most one message,
    and one whenever libnl lets it; and the kernel that has this daemon registered takes that
    message, with the id of the request, the verdict of the scan (clean if the file cannot be
    opened) and the rule's name unshortened. *)
Theorem verdict_delivered e g portid kr io sio w h c :
  named io → (length (Netlink.rq_path kr) < PATH_MAX)%nat → (length (rq_sha256 kr) < 65)%nat →
  daemon_registered c = true → daemon_portid c = portid →
  ∃ r, msg_handler (request_msg kr) = (NL_OK, Some r) ∧
    ScanQueue.rq_reqid r = Netlink.rq_reqid kr ∧ ScanQueue.rq_pid r = Netlink.rq_pid kr ∧
    ScanQueue.rq_path r = Netlink.rq_path kr ∧ rq_sha256_hex r = rq_sha256 kr ∧
    let '(m, w', h') := handle_scan_request e g portid r io sio w h in
    (is_Some m ↔ all_sent sio) ∧
    ∀ msg, m = Some msg → ∃ verdict rule,
      verdict_check msg c = inr (Netlink.rq_reqid kr, verdict, rule) ∧
      match open_rdonly (Netlink.rq_path kr) w with
      | None => verdict = AV_VERDICT_CLEAN ∧ rule = [] ∧ w' = w ∧ h' = h
      | Some fd =>
          (verdict = AV_VERDICT_MALICIOUS ↔ scannable g fd io w ∧ guilty g io) ∧
          ∃ out q, perform_scan e g fd (Netlink.rq_path kr) (Some (rq_sha256 kr)) (Netlink.rq_pid kr)
                     false io w h = (out, q, w', h') ∧
            verdict = res_verdict out ∧ rule = res_rule_name out
      end.
Proof.
  intros Hn Hpath Hsha Hreg Hport.
  exists {| ScanQueue.rq_reqid := Netlink.rq_reqid kr; ScanQueue.rq_pid := Netlink.rq_pid kr;
    ScanQueue.rq_path := Netlink.rq_path kr; rq_sha256_hex := rq_sha256 kr |}.
  split; [by rewrite <- (task_of_fit _ _ (Netlink.rq_path kr) (rq_sha256 kr)) by done|].
  split_and!; [done..|]. unfold handle_scan_request.
  cbn [ScanQueue.rq_reqid ScanQueue.rq_pid ScanQueue.rq_path rq_sha256_hex].
  assert (∀ v r, is_Some (send_verdict sio portid (Netlink.rq_reqid kr) v r).2 ↔ all_sent sio) as Hsent.
  { intros v r. unfold send_verdict, all_sent.
    destruct (alloc_ok sio), (put_ok sio), (attrs_ok sio), (send_ok sio); cbn [negb snd];
      split; intros Hs; try (by eexists); try (by destruct Hs as [? ?]);
      destruct Hs as (? & ? & ? & ?); done. }
  assert (∀ v r msg, (v = AV_VERDICT_CLEAN ∨ v = AV_VERDICT_MALICIOUS) →
    (length (default [] r) ≤ AV_RULE_NAME_MAXLEN)%nat →
    (send_verdict sio portid (Netlink.rq_reqid kr) v r).2 = Some msg →
    verdict_check msg c = inr (Netlink.rq_reqid kr, v, default [] r)) as Htaken.
  { intros v r msg Hv Hr Hm. unfold send_verdict in Hm.
    destruct (alloc_ok sio), (put_ok sio), (attrs_ok sio), (send_ok sio); cbn [negb snd] in Hm; try done.
    injection Hm as <-. unfold verdict_check. cbn [vm_reqid vm_verdict vm_portid vm_rule_name].
    rewrite Hreg, Hport, Z.eqb_refl. cbn [negb orb].
    assert (negb (v =? Netlink.AV_VERDICT_CLEAN) && negb (v =? Netlink.AV_VERDICT_MALICIOUS) = false) as ->
      by (by destruct Hv as [-> | ->]).
    do 2 f_equal. destruct r as [[|a r]|]; [done| |done]. apply strscpy_fit.
    simpl in *. unfold AV_RULE_NAME_MAXLEN in *. lia. }
  destruct (open_rdonly (Netlink.rq_path kr) w) as [fd|].
  - destruct (perform_scan e g fd (Netlink.rq_path kr) (Some (rq_sha256 kr)) (Netlink.rq_pid kr) false io w h)
      as [[[out q] w'] h'] eqn:Hp.
    split; [apply Hsent|]. intros msg Hm. exists (res_verdict out), (res_rule_name out).
    destruct (perform_scan_verdict _ _ _ _ _ _ _ _ _ _ _ _ _ _ Hn Hp) as (Hiff & Hcases & Hlen).
    split_and!; [by apply (Htaken _ (Some (res_rule_name out)))|done|eauto].
  - split; [apply Hsent|]. intros msg Hm. exists AV_VERDICT_CLEAN, [].
    split; [|done]. apply (Htaken _ None); [by left|simpl; lia|done].
Qed.
End verdicts.

(** ** Examples *)

Module ScanExamples.
Import ToyFs OpsExamples CorpusExamples.
#[local] Existing Instance toy_fuzzy.

Definition rule (nm : cstr) (l : list (cstr * meta_value)) : yr_message :=
  RuleMatching {| rule_identifier := nm; metas := (λ p, {| identifier := p.1; value := p.2 |}) <$> l |}.

Definition no_sha : sha_io :=
  {| sha_junk := replicate 64 0; sha_dup := false; sha_fdopen := true; sha_fseek := true;
     sha_reads := []; sha_ferror := false |}.

Definition scanned (l : list yr_message) : scan_io :=
  {| si_sha := no_sha; si_yara_ret := 0; si_yara := l; si_fuzzy := sample_io; si_tlsh := sample_io;
     si_time := 1700000001 |}.

Definition eng : engine := {| compiled_rules := true; fuzzy_corpus := []; tlsh_corpus := [] |}.

Definition packed : list yr_message :=
  [rule (cs "No_Section_Headers") [(cs "weight", MetaInteger 55)]; OtherMessage;
   rule (cs "High_Overall_Entropy") [(cs "author", MetaString); (cs "weight", MetaInteger 45)]].

Definition request1 : scan_request :=
  {| rq_portid := 812; Netlink.rq_reqid := 7; Netlink.rq_pid := 42;
     Netlink.rq_path := cs "/home/u/x"; rq_sha256 := cs "00ff" |}.

Definition result1 :=
  perform_scan daemon eng fd (cs "/home/u/x") (Some (cs "00ff")) 42 false (scanned packed) (disk 493)
    history_init.

Lemma packed_named : named (scanned packed).
Proof. repeat constructor; discriminate. Qed.

Lemma scan_verdict_witness :
  named (scanned packed) ∧ res_verdict result1.1.1.1 = AV_VERDICT_MALICIOUS ∧
  res_rule_name result1.1.1.1 = cs "No_Section_Headers,High_Overall_Entropy".
Proof.
  split; [exact packed_named|].
  destruct (scan_verdict daemon eng fd (cs "/home/u/x") (Some (cs "00ff")) 42 false (scanned packed)
    (disk 493) history_init result1.1.1.1 result1.1.1.2 result1.1.2 result1.2)
    as (Hv & _ & _ & Hr & _).
  - exact packed_named.
  - unfold result1. destruct (perform_scan _ _ _ _ _ _ _ _ _ _) as [[[o q] w] h]. reflexivity.
  - assert (scannable eng fd (scanned packed) (disk 493)) as Hs by (vm_compute; repeat split).
    assert (yara_convicts (scanned packed)) as Hy.
    { split; [discriminate|]. right. vm_compute. discriminate. }
    split; [apply Hv; split; [exact Hs|left; exact Hy]|].
    rewrite (Hr Hs Hy). vm_compute. reflexivity.
Defined.

Lemma verdict_delivered_witness :
  ∃ r m w' h', msg_handler (request_msg request1) = (NL_OK, Some r) ∧
    handle_scan_request daemon eng 812 r (scanned packed)
      {| alloc_ok := true; put_ok := true; attrs_ok := true; send_ok := true |} (disk 493) history_init =
      (Some m, w', h') ∧
    ∃ rule, verdict_check m (av_nl_register_doit 812 init_chan) = inr (7, AV_VERDICT_MALICIOUS, rule).
Proof.
  destruct (verdict_delivered daemon eng 812 request1 (scanned packed)
    {| alloc_ok := true; put_ok := true; attrs_ok := true; send_ok := true |} (disk 493) history_init
    (av_nl_register_doit 812 init_chan)) as (r & Hr & _ & _ & _ & _ & Hh).
  - exact packed_named.
  - apply Nat.ltb_lt. vm_compute. reflexivity.
  - apply Nat.ltb_lt. vm_compute. reflexivity.
  - reflexivity.
  - reflexivity.
  - destruct (handle_scan_request _ _ _ _ _ _ _ _) as [[m w'] h'] eqn:He.
    destruct Hh as [Hsent Hm]. destruct (proj2 Hsent) as [msg ->]; [repeat split|].
    exists r, msg, w', h'. split; [exact Hr|]. split; [exact He|].
    destruct (Hm msg eq_refl) as (verdict & rl & Hc & Ho).
    assert (open_rdonly (Netlink.rq_path request1) (disk 493) = Some fd) as Hop by (vm_compute; reflexivity).
    rewrite Hop in Ho. destruct Ho as (Hv & _).
    assert (verdict = AV_VERDICT_MALICIOUS) as ->.
    { apply Hv. split; [vm_compute; repeat split|]. left. split; [discriminate|]. right. vm_compute.
      discriminate. }
    exists rl. exact Hc.
Defined.

(** One heuristic alone does not convict, an override does, and negative
    weights count. *)
Example one_rule :
  (analyse eng true (scanned [rule (cs "A") [(cs "weight", MetaInteger 55)]])).1.1 = 0 ∧
  (analyse eng true (scanned [rule (cs "A") [(cs "override", MetaBoolean 1)]])).1.1 = 1 ∧
  (analyse eng true (scanned [rule (cs "A") [(cs "weight", MetaInteger 120)];
                              rule (cs "B") [(cs "weight", MetaInteger (-30))]])).1.1 = 0.
Proof. vm_compute. auto. Qed.

(** Without rules nothing is checked, not even the corpora. *)
Example no_rules :
  analyse {| compiled_rules := false; fuzzy_corpus := fuzzy_entries; tlsh_corpus := [] |} true
    (scanned packed) = clean 0.
Proof. reflexivity. Qed.

(** A message that does not come from the kernel is not queued. *)
Example spoofed :
  msg_handler {| nm_src := Some 4242; nm_cmd := AV_C_SCAN_REQUEST;
                 nm_attrs := nm_attrs (request_msg request1) |} = (NL_SKIP, None).
Proof. reflexivity. Qed.

End ScanExamples.
