(* ===== verification/Control.v ===== *)
(** * The commands of the control socket: userspace/avd/avd.c

    [handle_control_line] and the commands it calls, on a peer that is a
    [sock].  Restoring and deleting are QuarantineOps', recent verdicts
    History's, a scan Scan's; here are the status, the listing of the
    quarantine, the scan on demand, and the gate in front of them. *)

From Stdlib Require Import ZArith Lia Ascii String.
From stdpp Require Import prelude list gmap.
From S2P Require Import Prelude CString CText Netlink Tlsh Corpus.
From S2P Require Import Sock Posix Quarantine Trust QuarantineOps History Scan.

Local Open Scope Z_scope.

Definition AVD_ROW_MAX : nat := (PATH_MAX * 2 + 256)%nat.

(** ** What the commands meet *)

(** The daemon's counters. *)
Record status := { st_uptime : Z; st_queue_len : Z; st_scan_threads : Z }.

(** The environment of one command: the names in the quarantine directory in
    [alphasort]'s order, if it can be read, and the outcomes of [malloc] and
    [fcntl]. *)
Record conn_env := {
  ce_env : env; ce_engine : engine; ce_status : status; ce_dir : option (list cstr);
  ce_malloc : bool; ce_fcntl : bool; ce_scan : scan_io;
}.

Definition OK_LINE : cstr := cs "OK" ++ [LF].
Definition END_LINE : cstr := cs "END" ++ [LF].
Definition count_line (n : Z) : cstr := cs "COUNT " ++ print_signed n ++ [LF].

Definition status_row (g : engine) (st : status) : cstr :=
  print_signed (st_uptime st) ++ [TAB] ++ (if compiled_rules g then cs "1" else cs "0") ++ [TAB] ++
  print_unsigned 10 (Z.of_nat (length (fuzzy_corpus g))) ++ [TAB] ++
  print_unsigned 10 (Z.of_nat (length (tlsh_corpus g))) ++ [TAB] ++
  print_unsigned 10 (st_queue_len st) ++ [TAB] ++ print_signed (st_scan_threads st) ++ [LF].

Definition cmd_status (g : engine) (st : status) (s : sock) : sock :=
  send END_LINE (send (strscpy (status_row g st) 256) (send (count_line 1) (send OK_LINE s))).

Definition SUFFIX : cstr := cs ".quarantined".

Definition filter_quarantined (d_name : cstr) : bool :=
  (length SUFFIX <? length d_name)%nat &&
  strcmp_eq (drop (length d_name - length SUFFIX) d_name) SUFFIX.

Definition permission_denied (what : cstr) : cstr :=
  cs "permission denied (use: pkexec avctl " ++ what ++ cs ")".

Section control.
Context `{!Fuzzy} {W : Type} `{!Posix W}.

(** The sidecar of a directory entry. *)
Definition entry_meta (e : env) (d_name : cstr) (w : W) : option quarantine_meta :=
  read_quarantine_meta
    (fopen (strscpy (quarantine_dir e ++ cs "/" ++ d_name ++ cs ".meta") (PATH_MAX + 72)) w).

Definition entry_visible (e : env) (peer_uid : Z) (is_root : bool) (w : W) (d_name : cstr) : bool :=
  is_root || match entry_meta e d_name w with
             | Some meta => original_uid meta =? peer_uid
             | None => false
             end.

Definition entry_row (e : env) (w : W) (d_name : cstr) : cstr :=
  let id := strscpy (take (length d_name - length SUFFIX) d_name) PATH_MAX in
  strscpy
    (match entry_meta e d_name w with
     | Some meta =>
         id ++ [TAB] ++ original_path meta ++ [TAB] ++ print_signed (timestamp meta) ++ [TAB] ++
         rule_name meta ++ [TAB] ++ sha256_hex meta ++ [LF]
     | None => id ++ [TAB] ++ cs "?" ++ [TAB] ++ cs "0" ++ [TAB] ++ cs "?" ++ [TAB] ++ cs "?" ++ [LF]
     end) AVD_ROW_MAX.

(** The rows of the visible entries; [false] when a write failed. *)
Fixpoint list_rows (e : env) (w : W) (namelist : list (cstr * bool)) (s : sock) : bool * sock :=
  match namelist with
  | [] => (true, s)
  | (d_name, visible) :: namelist =>
      if negb visible then list_rows e w namelist s
      else
        let '(ok, s) := write_all s (entry_row e w d_name) in
        if ok then list_rows e w namelist s else (false, s)
  end.

Definition cmd_quarantine_list (ce : conn_env) (peer_uid : Z) (is_root : bool) (w : W) (s : sock)
    : sock :=
  match List.filter filter_quarantined <$> ce_dir ce with
  | None => send_err (cs "could not read quarantine directory") s
  | Some namelist =>
      if negb (length namelist =? 0)%nat && negb (ce_malloc ce)
      then send_err (cs "out of memory") s
      else
        let visible := entry_visible (ce_env ce) peer_uid is_root w <$> namelist in
        let visible_count := Z.of_nat (length (List.filter id visible)) in
        let s := send (count_line visible_count) (send OK_LINE s) in
        let '(ok, s) := list_rows (ce_env ce) w (zip namelist visible) s in
        if ok then send END_LINE s else s
  end.

Definition scan_row (result : scan_result) : cstr :=
  strscpy ((if res_verdict result =? AV_VERDICT_MALICIOUS then cs "MALICIOUS" else cs "CLEAN") ++
           [TAB] ++ res_rule_name result ++ [TAB] ++ print_signed (res_score result) ++ [TAB] ++
           res_sha256_hex result ++ [LF]) (PATH_MAX + 256).

(** [open_rdonly] here is the open with O_NONBLOCK. *)
Definition cmd_scan (ce : conn_env) (path : cstr) (w : W) (h : history) (s : sock)
    : W * history * sock :=
  if negb (match path with a :: _ => aeqb a SLASH | [] => false end)
  then (w, h, send_err (cs "path must be absolute") s)
  else match open_rdonly path w with
  | None => (w, h, send_err (cs "could not open path for scanning") s)
  | Some sfd =>
      if negb (match fstat sfd w with Some st => S_ISREG (st_mode st) | None => false end)
      then (w, h, send_err (cs "path is not a regular file") s)
      else if negb (ce_fcntl ce)
      then (w, h, send_err (cs "could not prepare file for scanning") s)
      else
        let '(result, _, w, h) :=
          perform_scan (ce_env ce) (ce_engine ce) sfd path None 0 true (ce_scan ce) w h in
        (w, h, send END_LINE (send (scan_row result) (send (count_line 1) (send OK_LINE s))))
  end.

Definition send_reply (r : reply) (s : sock) : sock :=
  match r with ReplyOk => send OK_LINE s | ReplyErr msg => send_err msg s end.

(** [strncmp] with the length of the literal. *)
Definition PREFIX_MATCH (line literal : cstr) : bool := strncmp_eq (length literal) line literal.
Definition argument (line literal : cstr) : cstr := drop (length literal) line.

(** [strtoul] converted nothing. *)
Definition no_number (arg : cstr) : bool :=
  match skip_space arg with
  | a :: rest =>
      match (if (code a =? 45) || (code a =? 43) then rest else a :: rest) with
      | d :: _ => negb (is_digit d)
      | [] => true
      end
  | [] => true
  end.

Definition VERDICTS_RECENT : cstr := cs "VERDICTS RECENT ".
Definition QUARANTINE_RESTORE : cstr := cs "QUARANTINE RESTORE ".
Definition QUARANTINE_DELETE : cstr := cs "QUARANTINE DELETE ".
Definition SCAN : cstr := cs "SCAN ".

Definition handle_control_line (ce : conn_env) (line : cstr) (peer_uid : Z) (is_root : bool)
    (w : W) (h : history) (s : sock) : W * history * sock :=
  if strcmp_eq line (cs "STATUS") then (w, h, cmd_status (ce_engine ce) (ce_status ce) s)
  else if PREFIX_MATCH line VERDICTS_RECENT then
    let arg := argument line VERDICTS_RECENT in
    if no_number arg
    then (w, h, send_err (cs "malformed VERDICTS RECENT (expected a count)") s)
    else (w, h, cmd_verdicts_recent (ce_malloc ce) (Z.to_nat (strtoul arg 10)) peer_uid is_root h s)
  else if strcmp_eq line (cs "QUARANTINE LIST")
  then (w, h, cmd_quarantine_list ce peer_uid is_root w s)
  else if PREFIX_MATCH line QUARANTINE_RESTORE then
    if negb is_root then (w, h, send_err (permission_denied (cs "quarantine restore <id>")) s)
    else
      let '(r, _, w) := cmd_quarantine_restore (ce_env ce) (argument line QUARANTINE_RESTORE) w in
      (w, h, send_reply r s)
  else if PREFIX_MATCH line QUARANTINE_DELETE then
    if negb is_root then (w, h, send_err (permission_denied (cs "quarantine delete <id>")) s)
    else
      let '(r, w) := cmd_quarantine_delete (ce_env ce) (argument line QUARANTINE_DELETE) w in
      (w, h, send_reply r s)
  else if PREFIX_MATCH line SCAN then
    if negb is_root then (w, h, send_err (permission_denied (cs "scan <path>")) s)
    else cmd_scan ce (argument line SCAN) w h s
  else (w, h, send_err (cs "unknown command") s).

(** One connection: the peer's uid, if the kernel gives it, and what it
    sends.  [None] while it is still awaited. *)
Definition control_conn_main (ce : conn_env) (peercred : option Z) (start_sec start_nsec : Z)
    (events : list read_event) (w : W) (h : history) (s : sock) : option (W * history * sock) :=
  let uid := default UID_UNKNOWN peercred in
  let is_root := match peercred with Some uid => uid =? 0 | None => false end in
  match read_line start_sec start_nsec AVD_SOCK_LINE_MAX events with
  | LineError =>
      Some (w, h, send_err (cs "malformed request (missing newline, line too long, or timed out)") s)
  | LineEof | Line [] => Some (w, h, s)
  | Line line => Some (handle_control_line ce (buf_str line) uid is_root w h s)
  | LineWait => None
  end.
End control.

Section properties.
Context `{!Fuzzy} {W : Type} `{!Posix W}.

(** Only root's commands change anything. *)
Lemma handle_unprivileged ce line peer_uid (w : W) h s :
  let '(w', h', _) := handle_control_line ce line peer_uid false w h s in w' = w ∧ h' = h.
Proof.
  unfold handle_control_line. cbn [negb].
  destruct (strcmp_eq line (cs "STATUS")); [done|].
  destruct (PREFIX_MATCH line VERDICTS_RECENT); [by destruct (no_number _)|].
  destruct (strcmp_eq line (cs "QUARANTINE LIST")); [done|].
  destruct (PREFIX_MATCH line QUARANTINE_RESTORE); [done|].
  destruct (PREFIX_MATCH line QUARANTINE_DELETE); [done|].
  by destruct (PREFIX_MATCH line SCAN).
Qed.

(** C14: the socket gives unprivileged users no power: whatever a peer sends, unless the kernel
    says that it is root, the file system and the verdict history are after the connection what
    they were before; a peer whose credentials cannot be read has none. *)
Theorem unprivileged_readonly ce peercred start_sec start_nsec events (w : W) h s w' h' s' :
  peercred ≠ Some 0 →
  control_conn_main ce peercred start_sec start_nsec events w h s = Some (w', h', s') →
  w' = w ∧ h' = h.
Proof.
  intros Hp. unfold control_conn_main.
  assert (match peercred with Some uid => uid =? 0 | None => false end = false) as ->.
  { destruct peercred as [uid|]; [|done]. apply Z.eqb_neq. congruence. }
  destruct (read_line _ _ _ _) as [| |[|a line]|]; try (by intros [= <- <- _]).
  pose proof (handle_unprivileged ce (buf_str (a :: line)) (default UID_UNKNOWN peercred) w h s) as Hh.
  intros [= He]. by rewrite He in Hh.
Qed.

(** ** What is sent *)

Definition open_sock (out : cstr) : sock := {| sk_script := []; sk_out := out |}.

Lemma send_err_open msg out :
  send_err msg (open_sock out) = open_sock (out ++ take 255 (cs "ERR " ++ msg ++ [LF])).
Proof. unfold send_err, open_sock. by rewrite send_open. Qed.

Lemma list_rows_open e (w : W) names out :
  list_rows e w names (open_sock out) =
    (true, open_sock (out ++ mjoin (entry_row e w <$> (List.filter snd names).*1))).
Proof.
  revert out. induction names as [|[d [|]] names IH]; intros out; cbn [list_rows List.filter negb snd].
  - by rewrite app_nil_r.
  - unfold open_sock in *. rewrite write_all_open, IH. cbn [fmap list_fmap fst mjoin list_join].
    by rewrite <- (assoc_L (++)).
  - apply IH.
Qed.

Lemma filter_zip (l : list cstr) (p : cstr → bool) :
  (List.filter snd (zip l (p <$> l))).*1 = List.filter p l ∧
  length (List.filter id (p <$> l)) = length (List.filter p l).
Proof.
  induction l as [|x l [IH1 IH2]]; [done|]. cbn [fmap list_fmap zip zip_with List.filter snd].
  unfold id at 1. destruct (p x); cbn [fmap list_fmap fst length]; by rewrite ?IH1, ?IH2.
Qed.

Lemma filter_sublist {A} (p : A → bool) (l : list A) : List.filter p l `sublist_of` l.
Proof. induction l as [|x l IH]; simpl; [done|]. destruct (p x); by constructor. Qed.

Lemma filter_sound {A} (p : A → bool) (l : list A) :
  (∀ x, x ∈ l → p x = true) → List.filter p l = l.
Proof.
  induction l as [|x l IH]; intros Hl; simpl; [done|]. rewrite (Hl x) by left.
  rewrite IH; [done|]. intros y Hy. apply Hl. by right.
Qed.

(** What a listing sends. *)
Lemma quarantine_list_open ce peer_uid is_root (w : W) out names :
  ce_dir ce = Some names → ce_malloc ce = true →
  let rows := entry_row (ce_env ce) w <$>
    List.filter (entry_visible (ce_env ce) peer_uid is_root w) (List.filter filter_quarantined names) in
  cmd_quarantine_list ce peer_uid is_root w (open_sock out) =
    open_sock ((((out ++ OK_LINE) ++ count_line (Z.of_nat (length rows))) ++ mjoin rows) ++ END_LINE).
Proof.
  intros Hd Hm rows. unfold cmd_quarantine_list. rewrite Hd, Hm. cbn [fmap option_fmap option_map].
  rewrite andb_false_r. unfold open_sock. rewrite !send_open. fold (open_sock (out ++ OK_LINE)).
  destruct (filter_zip (List.filter filter_quarantined names) (entry_visible (ce_env ce) peer_uid is_root w))
    as [Hz Hl].
  match goal with |- context [list_rows _ _ _ ?s] => change s with (open_sock (sk_out s)) end.
  rewrite list_rows_open, Hz, Hl. unfold open_sock. rewrite send_open. unfold rows. by rewrite length_fmap.
Qed.

(** A user sees its own files in the quarantine and no others: the listing a non-root peer
    reads consists of the rows, in the directory's order and under a COUNT that is their number,
    of exactly the entries whose sidecar names the peer as the owner; root's of all; and it is the
    same whatever other entries there are. *)
Theorem quarantine_list_spec ce peer_uid is_root (w : W) out names :
  ce_dir ce = Some names → ce_malloc ce = true →
  ∃ shown,
    sk_out (cmd_quarantine_list ce peer_uid is_root w (open_sock out)) =
      out ++ OK_LINE ++ count_line (Z.of_nat (length shown)) ++ mjoin (entry_row (ce_env ce) w <$> shown) ++
      END_LINE ∧
    (∀ d, d ∈ shown ↔ (d ∈ names) ∧ filter_quarantined d = true ∧
      (is_root = true ∨
       ∃ meta, entry_meta (ce_env ce) d w = Some meta ∧ original_uid meta = peer_uid)) ∧
    shown `sublist_of` names ∧
    (∀ ce', ce_env ce' = ce_env ce → ce_malloc ce' = true → ce_dir ce' = Some shown →
      cmd_quarantine_list ce' peer_uid is_root w (open_sock out) =
      cmd_quarantine_list ce peer_uid is_root w (open_sock out)).
Proof.
  intros Hd Hm. set (vis := entry_visible (ce_env ce) peer_uid is_root w).
  exists (List.filter vis (List.filter filter_quarantined names)).
  pose proof (quarantine_list_open ce peer_uid is_root w out names Hd Hm) as Ho. cbv zeta in Ho.
  split_and!.
  - rewrite Ho. unfold open_sock. cbn [sk_out]. rewrite length_fmap. by rewrite <- !(assoc_L (++)).
  - intros d. rewrite !list_elem_of_In, !filter_In. unfold vis, entry_visible.
    rewrite orb_true_iff. destruct (entry_meta (ce_env ce) d w) as [meta|]; rewrite ?Z.eqb_eq.
    + split; [intros [[? ?] [?|?]]; eauto 10|intros (? & ? & [?|(? & [= <-] & ?)]); auto].
    + split; [intros [[? ?] [?|?]]; [eauto 10|done]|intros (? & ? & [?|(? & [=] & _)]); auto].
  - etrans; apply filter_sublist.
  - intros ce' He Hm' Hd'. rewrite Ho, (quarantine_list_open ce' _ _ _ _ _ Hd' Hm'), He. fold vis.
    assert (∀ x, x ∈ List.filter vis (List.filter filter_quarantined names) →
      filter_quarantined x = true ∧ vis x = true) as Hin.
    { intros x. rewrite !list_elem_of_In, !filter_In. tauto. }
    rewrite (filter_sound filter_quarantined) by (intros x Hx; by apply Hin).
    rewrite (filter_sound vis) by (intros x Hx; by apply Hin). done.
Qed.

Lemma prefix_argument literal arg :
  PREFIX_MATCH (literal ++ arg) literal = true ∧ argument (literal ++ arg) literal = arg.
Proof.
  split; [|apply drop_app_length]. unfold PREFIX_MATCH. rewrite strncmp_eq_prefix.
  apply is_prefix_spec. by exists arg.
Qed.

Lemma number_argument n :
  0 ≤ n < 2 ^ 64 →
  no_number (print_unsigned 10 n) = false ∧ strtoul (print_unsigned 10 n) 10 = n.
Proof.
  intros Hn. split; [|apply strtoul_print; lia].
  destruct (print_unsigned_spec 10 n) as (a & ds & -> & Hds & _); [lia..|].
  apply Forall_cons in Hds as [Ha _]. unfold digit_of in Ha. unfold no_number. cbn [skip_space].
  assert (isspace_c a = false) as -> by (unfold isspace_c;
    rewrite (proj2 (Z.leb_gt (code a) 13)), (proj2 (Z.eqb_neq (code a) 32)) by lia; by rewrite andb_false_r).
  rewrite (proj2 (Z.eqb_neq (code a) 45)), (proj2 (Z.eqb_neq (code a) 43)) by lia. cbn [orb].
  unfold is_digit. by rewrite (proj2 (Z.leb_le 48 (code a))), (proj2 (Z.leb_le (code a) 57)) by lia.
Qed.

(** Every documented command reaches its handler with its whole argument: the count of
    VERDICTS RECENT as the number that was written, the id of QUARANTINE RESTORE and DELETE and
    the path of SCAN byte for byte, whatever they contain, for root; for anyone else these three
    are refused; and a line that is none of them is an unknown command. *)
Theorem control_dispatch ce uid is_root (w : W) h s :
  let handle line is_root := handle_control_line ce line uid is_root w h s in
  handle (cs "STATUS") is_root = (w, h, cmd_status (ce_engine ce) (ce_status ce) s) ∧
  handle (cs "QUARANTINE LIST") is_root = (w, h, cmd_quarantine_list ce uid is_root w s) ∧
  (∀ n, 0 ≤ n < 2 ^ 64 → handle (VERDICTS_RECENT ++ print_unsigned 10 n) is_root =
    (w, h, cmd_verdicts_recent (ce_malloc ce) (Z.to_nat n) uid is_root h s)) ∧
  (∀ arg, handle (QUARANTINE_RESTORE ++ arg) true =
    let '(r, _, w') := cmd_quarantine_restore (ce_env ce) arg w in (w', h, send_reply r s)) ∧
  (∀ arg, handle (QUARANTINE_DELETE ++ arg) true =
    let '(r, w') := cmd_quarantine_delete (ce_env ce) arg w in (w', h, send_reply r s)) ∧
  (∀ arg, handle (SCAN ++ arg) true = cmd_scan ce arg w h s) ∧
  (∀ arg verb, verb ∈ [QUARANTINE_RESTORE; QUARANTINE_DELETE; SCAN] →
    ∃ what, handle (verb ++ arg) false = (w, h, send_err (permission_denied what) s)) ∧
  (∀ line, line ∉ [cs "STATUS"; cs "QUARANTINE LIST"] →
    (∀ verb, verb ∈ [VERDICTS_RECENT; QUARANTINE_RESTORE; QUARANTINE_DELETE; SCAN] →
      ¬ verb `prefix_of` line) →
    handle line is_root = (w, h, send_err (cs "unknown command") s)).
Proof.
  intros handle. unfold handle. split_and!.
  - done.
  - done.
  - intros n Hn. unfold handle_control_line. cbn [VERDICTS_RECENT].
    destruct (prefix_argument VERDICTS_RECENT (print_unsigned 10 n)) as [-> ->].
    destruct (number_argument n Hn) as [-> ->]. done.
  - intros arg. destruct (prefix_argument QUARANTINE_RESTORE arg) as [Hp Ha].
    unfold handle_control_line. rewrite Hp, Ha. done.
  - intros arg. destruct (prefix_argument QUARANTINE_DELETE arg) as [Hp Ha].
    unfold handle_control_line. rewrite Hp, Ha. done.
  - intros arg. destruct (prefix_argument SCAN arg) as [Hp Ha].
    unfold handle_control_line. rewrite Hp, Ha. done.
  - intros arg verb. rewrite !elem_of_cons, elem_of_nil. intros [->|[->|[->|[]]]].
    + destruct (prefix_argument QUARANTINE_RESTORE arg) as [Hp Ha]. eexists.
      unfold handle_control_line. rewrite Hp. done.
    + destruct (prefix_argument QUARANTINE_DELETE arg) as [Hp Ha]. eexists.
      unfold handle_control_line. rewrite Hp. done.
    + destruct (prefix_argument SCAN arg) as [Hp Ha]. eexists.
      unfold handle_control_line. rewrite Hp. done.
  - intros line Hl Hv. unfold handle_control_line.
    assert (∀ verb, verb ∈ [VERDICTS_RECENT; QUARANTINE_RESTORE; QUARANTINE_DELETE; SCAN] →
      PREFIX_MATCH line verb = false) as Hno.
    { intros verb Hverb. unfold PREFIX_MATCH. rewrite strncmp_eq_prefix. apply not_true_is_false.
      rewrite is_prefix_spec. by apply Hv. }
    assert (∀ c, c ∈ [cs "STATUS"; cs "QUARANTINE LIST"] → strcmp_eq line c = false) as Hne.
    { intros c Hc. apply not_true_is_false. rewrite strcmp_eq_spec. by intros ->. }
    rewrite !Hne, !Hno by (rewrite !elem_of_cons; tauto). done.
Qed.
End properties.

(** ** Examples *)

Module ControlExamples.
Import ToyFs OpsExamples CorpusExamples ScanExamples SockExamples.
#[local] Existing Instance toy_fuzzy.

Definition ce1 (names : list cstr) : conn_env :=
  {| ce_env := daemon; ce_engine := eng; ce_status := {| st_uptime := 9; st_queue_len := 0; st_scan_threads := 8 |};
     ce_dir := Some names; ce_malloc := true; ce_fcntl := true; ce_scan := scanned packed |}.

(** A peer that sends a line at once. *)
Definition typed (line : cstr) : list read_event := (λ c, at_time 0 (RByte c)) <$> line ++ [LF].

Definition ask (uid : Z) (line : cstr) : option (toy * history * sock) :=
  control_conn_main (ce1 []) (Some uid) 0 0 (typed line) (disk 493) history_init (open_sock []).

Definition heard (r : option (toy * history * sock)) : option cstr := (λ x, sk_out x.2) <$> r.

Example ask_status :
  heard (ask 1000 (cs "STATUS")) =
  Some (cs "OK" ++ [LF] ++ cs "COUNT 1" ++ [LF] ++ cs "9" ++ [TAB] ++ cs "1" ++ [TAB] ++ cs "0" ++ [TAB] ++
        cs "0" ++ [TAB] ++ cs "0" ++ [TAB] ++ cs "8" ++ [LF] ++ cs "END" ++ [LF]).
Proof. vm_compute. reflexivity. Qed.

(** An empty line is not answered. *)
Example ask_nothing : heard (ask 1000 []) = Some [].
Proof. vm_compute. reflexivity. Qed.

Example ask_scan :
  heard (ask 1000 (cs "SCAN /home/u/x")) =
  Some (cs "ERR permission denied (use: pkexec avctl scan <path>)" ++ [LF]).
Proof. vm_compute. reflexivity. Qed.

Lemma unprivileged_readonly_witness :
  ∃ w' h' s', control_conn_main (ce1 []) (Some 1000) 0 0 (typed (cs "SCAN /home/u/x")) (disk 493)
    history_init (open_sock []) = Some (w', h', s') ∧ w' = disk 493 ∧ h' = history_init.
Proof.
  assert (is_Some (control_conn_main (ce1 []) (Some 1000) 0 0 (typed (cs "SCAN /home/u/x")) (disk 493)
    history_init (open_sock []))) as [[[w' h'] s'] He] by (vm_compute; eexists; reflexivity).
  exists w', h', s'. split; [exact He|].
  apply (unprivileged_readonly (ce1 []) (Some 1000) 0 0 (typed (cs "SCAN /home/u/x")) (disk 493)
    history_init (open_sock []) w' h' s'); [discriminate|exact He].
Defined.

(** Two files in quarantine, one of the user 1000 and one without a sidecar. *)
Definition names1 : list cstr := [cs "1_2_x.quarantined"; cs "1_2_x.quarantined.meta"; cs "3_4_y.quarantined"].
Definition disk1 : toy := boot [
  (cs "/var/lib/av-quarantine/1_2_x.quarantined.meta",
   ((0, 30), {| i_mode := Z.lor S_IFREG 384; i_uid := 0; i_gid := 0;
      i_data := cs "ORIGINAL_UID=1000" ++ [LF] ++ cs "ORIGINAL_PATH=/home/u/x" ++ [LF] |}))].

Example list_own :
  sk_out (cmd_quarantine_list (ce1 names1) 1000 false disk1 (open_sock [])) =
  cs "OK" ++ [LF] ++ cs "COUNT 1" ++ [LF] ++ cs "1_2_x" ++ [TAB] ++ cs "/home/u/x" ++ [TAB] ++ cs "0" ++ [TAB] ++
  [TAB] ++ [LF] ++ cs "END" ++ [LF] ∧
  sk_out (cmd_quarantine_list (ce1 names1) 1001 false disk1 (open_sock [])) =
  cs "OK" ++ [LF] ++ cs "COUNT 0" ++ [LF] ++ cs "END" ++ [LF].
Proof. split; vm_compute; reflexivity. Qed.

Lemma quarantine_list_spec_witness :
  ∃ shown, (∀ d, d ∈ shown ↔ (d ∈ names1) ∧ filter_quarantined d = true ∧
    (false = true ∨ ∃ meta, entry_meta daemon d disk1 = Some meta ∧ original_uid meta = 1000)) ∧
    sk_out (cmd_quarantine_list (ce1 names1) 1000 false disk1 (open_sock [])) =
      [] ++ OK_LINE ++ count_line (Z.of_nat (length shown)) ++ mjoin (entry_row daemon disk1 <$> shown) ++
      END_LINE.
Proof.
  destruct (quarantine_list_spec (ce1 names1) 1000 false disk1 [] names1) as (shown & Ho & Hs & _).
  - reflexivity.
  - reflexivity.
  - exists shown. split; [exact Hs|exact Ho].
Defined.
End ControlExamples.
