(* ===== verification/Server.v ===== *)
(** * The control socket's server: userspace/avd/avd.c

    [start_control_socket], which puts the socket in place, and
    [control_accept_main] with the connection threads it starts, as a
    transition system of the counter that bounds them. *)

From Stdlib Require Import ZArith Lia Ascii String.
From stdpp Require Import prelude list gmap.
From S2P Require Import Prelude CString CText Posix Quarantine Trust QuarantineOps.

Local Open Scope Z_scope.

Definition AVD_CONTROL_MAX_CONNS : Z := 32.
(** [sizeof(addr.sun_path)] on Linux. *)
Definition SUN_PATH : nat := 108.

(** ** Start-up *)

Inductive start_result :=
  | Refused      (* -1 before the socket was bound *)
  | BindFailed | NotSocket | ChmodRefused | NotOurs | ListenFailed
  | Listening.   (* 0 *)

Section start.
Context {W : Type} `{!Posix W}.

(** From [bind] on. *)
Definition serve (path : cstr) (listen_ok : bool) (w : W) : start_result * W :=
  let '(r, w) := bind path w in
  if negb (r =? 0) then (BindFailed, w)
  else if match lstat path w with inr st => negb (S_ISSOCK (st_mode st)) | inl _ => true end
  then (NotSocket, w)
  else
    let '(r, w) := chmod path 438 w in
    if negb (r =? 0) then (ChmodRefused, w)
    else if match lstat path w with
            | inr st => negb (S_ISSOCK (st_mode st)) || negb (Z.land (st_mode st) 511 =? 438)
            | inl _ => true end
    then (NotOurs, w)
    else if negb listen_ok then (ListenFailed, (unlink path w).2)
    else (Listening, w).

(** [socket_ok], [listen_ok]: whether [socket] and [listen] succeed. *)
Definition start_control_socket (euid : Z) (control_sock_path : cstr) (socket_ok listen_ok : bool)
    (w : W) : start_result * W :=
  if negb (match control_sock_path with a :: _ => aeqb a SLASH | [] => false end) then (Refused, w)
  else
    let '(ok, w) := ensure_parent_dir euid control_sock_path 493 w in
    if negb ok then (Refused, w)
    else if (SUN_PATH <=? length control_sock_path)%nat then (Refused, w)
    else
      let '(proceed, w) :=
        match lstat control_sock_path w with
        | inr st =>
            if S_ISLNK (st_mode st) then (false, w)
            else if negb (S_ISSOCK (st_mode st)) then (false, w)
            else (true, (unlink control_sock_path w).2)
        | inl errno => (errno =? ENOENT, w)
        end in
      if negb proceed then (Refused, w)
      else if negb socket_ok then (Refused, w)
      else serve control_sock_path listen_ok w.

(** Every entry but the one at [k] is kept, with its inode. *)
Definition keeps_others (k : cstr) (f f' : fs) : Prop :=
  ∀ k' i n, k' ≠ k → entries f !! k' = Some i → nodes f !! i = Some n →
    entries f' !! k' = Some i ∧ nodes f' !! i = Some n.
End start.

(** ** The accept loop *)

(** [control_conn_count], what the accept thread holds a slot for, and the
    connection threads that have not ended. *)
Record server := { control_conn_count : Z; reserved : bool; threads : nat }.

Definition server_init : server := {| control_conn_count := 0; reserved := false; threads := 0 |}.

(** The section that reserves a slot; [false] if there is none. *)
Definition reserve (s : server) : bool * server :=
  if control_conn_count s <? AVD_CONTROL_MAX_CONNS
  then (true, {| control_conn_count := control_conn_count s + 1; reserved := true; threads := threads s |})
  else (false, s).

(** [malloc] or [pthread_create] failed. *)
Definition unreserve (s : server) : server :=
  {| control_conn_count := control_conn_count s - 1; reserved := false; threads := threads s |}.

Inductive server_step (s : server) : server → Prop :=
  | accept_reserve s' : reserved s = false → reserve s = (true, s') → server_step s s'
  | accept_reject : reserved s = false → reserve s = (false, s) → server_step s s
  | accept_fail : reserved s = true → server_step s (unreserve s)
  | accept_spawn :
      reserved s = true →
      server_step s {| control_conn_count := control_conn_count s; reserved := false;
                       threads := S (threads s) |}
  | conn_end n :
      threads s = S n →
      server_step s {| control_conn_count := control_conn_count s - 1; reserved := reserved s;
                       threads := n |}.

Lemma server_inv s :
  rtc server_step server_init s →
  control_conn_count s = Z.of_nat (threads s) + Z.b2z (reserved s) ∧ 0 ≤ control_conn_count s ≤ 32.
Proof.
  revert s. apply rtc_ind_r; [done|]. intros s s' _ Hs [Hc Hr].
  destruct Hs as [s' Hres He| |Hres|Hres|n Hn]; simpl.
  - unfold reserve, AVD_CONTROL_MAX_CONNS in He.
    destruct (Z.ltb_spec (control_conn_count s) 32); [|done]. injection He as <-. simpl.
    rewrite Hres in Hc. simpl in Hc. lia.
  - done.
  - rewrite Hres in Hc. simpl in Hc. lia.
  - rewrite Hres in Hc. simpl in Hc. lia.
  - rewrite Hn in Hc. destruct (reserved s); simpl in *; lia.
Qed.

(** C40: the connection threads are bounded and accounted for: in every state the server can reach
    at most 32 connections are served, the counter is their number (and the slot just reserved,
    if any), so it never drifts; a connection is refused exactly when all 32 slots are taken; and
    the threads alone give every slot back. *)
Theorem connections_bounded s :
  rtc server_step server_init s →
  control_conn_count s = Z.of_nat (threads s) + Z.b2z (reserved s) ∧
  0 ≤ control_conn_count s ≤ 32 ∧ (threads s ≤ 32)%nat ∧
  ((reserve s).1 = false ↔ control_conn_count s = 32) ∧
  (reserved s = false → rtc server_step s server_init).
Proof.
  intros Hs. destruct (server_inv s Hs) as [Hc Hr].
  assert (0 ≤ Z.b2z (reserved s) ≤ 1) by (destruct (reserved s); simpl; lia).
  split_and!; [done|lia|lia|lia| |].
  - unfold reserve, AVD_CONTROL_MAX_CONNS. destruct (Z.ltb_spec (control_conn_count s) 32); simpl; [|lia].
    split; [done|lia].
  - clear Hs. intros Hres. destruct s as [c r n]. simpl in *. subst r. simpl in Hc.
    rewrite Z.add_0_r in Hc. subst c. clear. induction n as [|n IH]; [done|].
    eapply rtc_l; [by apply (conn_end _ n)|]. simpl.
    replace (Z.of_nat (S n) - 1) with (Z.of_nat n) by lia. exact IH.
Qed.

(** ** What the start-up touches *)

Section start_safe.
Context {W : Type} `{!Posix W}.

Lemma frame_others k f f' : frame f f' → keeps_others k f f'.
Proof. intros Hf k' i n _. apply Hf. Qed.

Lemma others_trans k f g h : keeps_others k f g → keeps_others k g h → keeps_others k f h.
Proof. intros H1 H2 k' i n Hk He Hn. destruct (H1 _ _ _ Hk He Hn). by apply H2. Qed.

Lemma unlink_others p (w : W) : keeps_others (key p) (view w) (view (unlink p w).2).
Proof.
  destruct (unlink p w) as [r w'] eqn:Hu. simpl. apply unlink_ok in Hu as [_ Hu].
  destruct (r =? 0); [|rewrite Hu; by intros k i n _].
  destruct Hu as (_ & He & Hk). intros k i n Hne Hki Hn.
  assert (entries (view w') !! k = Some i) as Hki' by (by rewrite He, lookup_delete_ne).
  split; [done|]. by rewrite (Hk k i).
Qed.

Lemma parent_dir_frame euid path m (w : W) ok w' :
  ensure_parent_dir euid path m w = (ok, w') →
  frame (view w) (view w') ∧
  (ok = true → w' = (mkdir (dirname path) m w).2 ∧
               dir_hierarchy_trusted euid (dirname path) true w' = true).
Proof.
  unfold ensure_parent_dir. destruct (_ <=? _)%nat; [intros [= <- <-]; by split; [intros k i n|]|].
  destruct (mkdir (dirname path) m w) as [r w1] eqn:Hm. intros He. split.
  - assert (w' = w1) as -> by (destruct (_ && _) in He; by simplify_eq).
    apply mkdir_ok in Hm as [->|(_ & Hk & i & n & Hi & ->)]; [by intros k i n|by apply frame_fresh].
  - intros ->. destruct (_ && _) in He; [done|]. by simplify_eq/=.
Qed.

Lemma frame_fresh_node f k i n n' :
  entries f !! k = None → nodes f !! i = None →
  frame f (set_node i n' (set_entry k i (set_node i n f))).
Proof.
  intros Hk Hi k' i' m Hk' Hm. unfold set_node, set_entry. simpl.
  rewrite lookup_insert_ne by congruence. split; [done|]. by rewrite !lookup_insert_ne by congruence.
Qed.

Lemma serve_spec path listen_ok (w : W) r w' :
  serve path listen_ok w = (r, w') →
  frame (view w) (view w') ∧ r ≠ Refused ∧
  (r = Listening → ∃ i n, entries (view w') !! key path = Some i ∧ nodes (view w') !! i = Some n ∧
     S_ISSOCK (i_mode n) = true ∧ Z.land (i_mode n) 511 = 438).
Proof.
  unfold serve. destruct (bind path w) as [b w1] eqn:Hb. apply bind_ok in Hb.
  destruct (b =? 0); cbn [negb].
  2: { intros [= <- <-]. rewrite Hb. by split; [intros k i n|]. }
  destruct Hb as (Hfree & i & n & Hi & Hsock & Hv).
  assert (frame (view w) (view w1)) as Hf1 by (rewrite Hv; by apply frame_fresh).
  destruct (match lstat path w1 with inr st => negb (S_ISSOCK (st_mode st)) | inl _ => true end);
    [by intros [= <- <-]|].
  destruct (chmod path 438 w1) as [c w2] eqn:Hc.
  assert (frame (view w) (view w2)) as Hf2.
  { rewrite (chmod_ok path 438 w1 c w2 i n Hc).
    - destruct (c =? 0); [|done]. rewrite Hv. by apply frame_fresh_node.
    - rewrite Hv. apply lookup_insert_eq.
    - rewrite Hv. apply lookup_insert_eq.
    - unfold S_ISSOCK in Hsock. unfold S_ISLNK. apply Z.eqb_eq in Hsock. by rewrite Hsock. }
  destruct (c =? 0); cbn [negb]; [|by intros [= <- <-]].
  destruct (lstat path w2) as [e|st] eqn:Hl; [by intros [= <- <-]|].
  destruct (S_ISSOCK (st_mode st)) eqn:Hs; cbn [negb orb]; [|by intros [= <- <-]].
  destruct (Z.eqb_spec (Z.land (st_mode st) 511) 438) as [Hm|]; cbn [negb]; [|by intros [= <- <-]].
  destruct listen_ok; cbn [negb]; intros [= <- <-].
  - split; [done|]. split; [done|]. intros _. apply lstat_ok in Hl as (j & m & Hj & Hn & ->). by exists j, m.
  - split; [|done]. destruct (unlink path w2) as [u w3] eqn:Hu. by eapply unlink_frame.
Qed.

Lemma head_slash path : match path with a :: _ => aeqb a SLASH | [] => false end = true → head path = Some SLASH.
Proof. destruct path as [|a path]; [done|]. by intros ->%aeqb_eq. Qed.

(** C39: starting the control socket is safe in a place others can reach: whatever happens, no file
    but a stale socket at the path is removed, replaced or changed, and what is at the path and is
    not a socket, a link included, stays too and stops the start-up; and the daemon listens only
    on an absolute path in a directory nobody else can tamper with, where there is now a socket
    of mode 0666. *)
Theorem start_control_socket_safe euid path socket_ok listen_ok (w : W) r w' :
  start_control_socket euid path socket_ok listen_ok w = (r, w') →
  keeps_others (key path) (view w) (view w') ∧
  (∀ i n, entries (view w) !! key path = Some i → nodes (view w) !! i = Some n →
    S_ISSOCK (i_mode n) = false → r = Refused ∧ frame (view w) (view w')) ∧
  (r = Listening →
    head path = Some SLASH ∧ (length path < SUN_PATH)%nat ∧
    dir_hierarchy_trusted euid (dirname path) true (mkdir (dirname path) 493 w).2 = true ∧
    ∃ i n, entries (view w') !! key path = Some i ∧ nodes (view w') !! i = Some n ∧
      S_ISSOCK (i_mode n) = true ∧ Z.land (i_mode n) 511 = 438).
Proof.
  assert (∀ w : W, frame (view w) (view w)) as Hrefl by (by intros w0 k i n).
  unfold start_control_socket. destruct (match path with a :: _ => aeqb a SLASH | [] => false end) eqn:Habs;
    cbn [negb]; [|intros [= <- <-]; split; [by apply frame_others|by split]].
  destruct (ensure_parent_dir euid path 493 w) as [ok w1] eqn:Hp.
  apply parent_dir_frame in Hp as [Hf Hok].
  destruct ok; cbn [negb]; [|intros [= <- <-]; split; [by apply frame_others|by split]].
  destruct Hok as [Hw1 Htrust]; [done|].
  destruct (Nat.leb_spec SUN_PATH (length path)) as [|Hlen];
    [intros [= <- <-]; split; [by apply frame_others|by split]|].
  destruct (lstat path w1) as [errno|st] eqn:Hl.
  - destruct (Z.eqb_spec errno ENOENT) as [->|Herr]; cbn [negb].
    2: { intros [= <- <-]. split; [by apply frame_others|]. by split. }
    apply lstat_noent in Hl as Hnone.
    destruct socket_ok; cbn [negb]; [|intros [= <- <-]; split; [by apply frame_others|by split]].
    intros Hs. apply serve_spec in Hs as (Hf' & _ & Hlisten). split_and!.
    + eapply others_trans; by apply frame_others.
    + intros i n Hi Hn. destruct (Hf _ _ _ Hi Hn). congruence.
    + intros Hr. rewrite <- Hw1. split_and!; [by apply head_slash|done|done|by apply Hlisten].
  - destruct (S_ISLNK (st_mode st)) eqn:Hlnk; cbn [negb].
    { intros [= <- <-]. split; [by apply frame_others|by split]. }
    destruct (S_ISSOCK (st_mode st)) eqn:Hsock; cbn [negb].
    2: { intros [= <- <-]. split; [by apply frame_others|by split]. }
    assert (∀ i n, entries (view w) !! key path = Some i → nodes (view w) !! i = Some n →
      S_ISSOCK (i_mode n) = false → False) as Hno.
    { intros i n Hi Hn Hns. destruct (Hf _ _ _ Hi Hn) as [Hi1 Hn1].
      apply lstat_ok in Hl as (j & m & Hj & Hm & ->). simplify_eq/=. congruence. }
    pose proof (unlink_others path w1) as Hu.
    destruct socket_ok; cbn [negb].
    2: { intros [= <- <-]. split_and!; [|by intros i n Hi Hn []%(Hno i n)|done].
         eapply others_trans; [by apply frame_others|done]. }
    intros Hs. apply serve_spec in Hs as (Hf' & _ & Hlisten). split_and!.
    + eapply others_trans; [by apply frame_others|]. eapply others_trans; [done|by apply frame_others].
    + by intros i n Hi Hn []%(Hno i n).
    + intros Hr. rewrite <- Hw1. split_and!; [by apply head_slash|done|done|by apply Hlisten].
Qed.
End start_safe.

(** ** Examples *)

Module ServerExamples.
Import ToyFs.

Definition dir (perm : Z) : inode :=
  {| i_mode := Z.lor S_IFDIR perm; i_uid := 0; i_gid := 0; i_data := [] |}.
Definition node (kind : Z) : inode :=
  {| i_mode := Z.lor kind 420; i_uid := 0; i_gid := 0; i_data := cs "/etc/shadow" |}.

Definition SOCK : cstr := cs "/run/avd/control.sock".

(** /run/avd with an entry of some kind at the path. *)
Definition run (perm : Z) (l : list (cstr * (inum * inode))) : toy := boot ([
  (cs "/", ((0, 1), dir 493)); (cs "/run", ((0, 2), dir 493)); (cs "/run/avd", ((0, 3), dir perm));
  (cs "/etc/shadow", ((0, 4), node S_IFREG))] ++ l).

Definition started (perm : Z) (l : list (cstr * (inum * inode))) : start_result * option (Z * inum) :=
  let '(r, w) := start_control_socket 0 SOCK true true (run perm l) in
  (r, ('(i, n) ← node_at SOCK (t_fs w); Some (i_mode n, i))).

(** A stale socket is replaced; a file and a link stay; a world-writable directory will not do. *)
Example start_cases :
  started 493 [] = (Listening, Some (Z.lor S_IFSOCK 438, (0, 1000))) ∧
  started 493 [(SOCK, ((0, 9), node S_IFSOCK))] = (Listening, Some (Z.lor S_IFSOCK 438, (0, 1000))) ∧
  started 493 [(SOCK, ((0, 9), node S_IFREG))] = (Refused, Some (Z.lor S_IFREG 420, (0, 9))) ∧
  started 493 [(SOCK, ((0, 9), node S_IFLNK))] = (Refused, Some (Z.lor S_IFLNK 420, (0, 9))) ∧
  started 511 [] = (Refused, None).
Proof. split_and!; vm_compute; reflexivity. Qed.

Lemma start_control_socket_safe_witness :
  ∃ w', start_control_socket 0 SOCK true true (run 493 []) = (Listening, w') ∧
    keeps_others (key SOCK) (view (run 493 [])) (view w') ∧
    dir_hierarchy_trusted 0 (dirname SOCK) true (mkdir (dirname SOCK) 493 (run 493 [])).2 = true.
Proof.
  assert ((start_control_socket 0 SOCK true true (run 493 [])).1 = Listening) as Hr by (vm_compute; reflexivity).
  destruct (start_control_socket 0 SOCK true true (run 493 [])) as [r w'] eqn:He. cbn [fst] in Hr. subst r.
  exists w'. split; [reflexivity|].
  destruct (start_control_socket_safe 0 SOCK true true (run 493 []) Listening w' He) as (Hk & _ & Hl).
  split; [exact Hk|]. destruct (Hl eq_refl) as (_ & _ & Ht & _). exact Ht.
Defined.

Lemma connections_bounded_witness :
  ∃ s, rtc server_step server_init s ∧ threads s = 1%nat ∧ control_conn_count s = 1.
Proof.
  assert (rtc server_step server_init
    {| control_conn_count := 1; reserved := false; threads := 1 |}) as Hs.
  { eapply rtc_l; [apply (accept_reserve server_init {| control_conn_count := 1; reserved := true; threads := 0 |});
      reflexivity|].
    eapply rtc_l; [apply accept_spawn; reflexivity|]. apply rtc_refl. }
  eexists. split; [exact Hs|]. split; [reflexivity|].
  destruct (connections_bounded _ Hs) as (Hc & _). exact Hc.
Defined.
End ServerExamples.
