(* ===== verification/Stdio.v ===== *)
(** * The rest of stdio: avctl's side

    [fgets] over a whole file, [sscanf] of the C library in the C locale, and
    [%-Ns]; with the lemmas that a line printed from fields is scanned back to
    them. *)

From Stdlib Require Import ZArith Lia Ascii String.
From stdpp Require Import prelude list.
From S2P Require Import Prelude CString CText.

Local Open Scope Z_scope.

(** ** Reading *)

(** The results of [fgets] with a buffer of [size] bytes, up to the end. *)
Fixpoint fgets_loop (fuel size : nat) (text : cstr) : list cstr :=
  match fuel, text with
  | S fuel, _ :: _ =>
      let '(line, rest) := next_line (size - 1) text in line :: fgets_loop fuel size rest
  | _, _ => []
  end.

Definition fgets_lines (size : nat) (text : cstr) : list cstr :=
  fgets_loop (length text) size text.

(** A file being read: the bytes that [read] gives, and whether it then fails instead of telling the
    end. *)
Record stream := { sm_text : cstr; sm_error : bool }.

Definition whole (text : cstr) : stream := {| sm_text := text; sm_error := false |}.

(** It ends in a newline, or fills the buffer. *)
Definition finished (size : nat) (line : cstr) : bool :=
  (length line =? size - 1)%nat || match last line with Some a => aeqb a LF | None => false end.

(** The results of [fgets] until it returns NULL, at the end or at an error; an error discards the
    line it interrupts. *)
Definition stream_lines (size : nat) (s : stream) : list cstr :=
  let lines := fgets_lines size (sm_text s) in
  if sm_error s then List.filter (finished size) lines else lines.

(** What a format is made of. *)
Inductive directive :=
  | DWord (w : nat)               (* %ws *)
  | DSet (w : nat) (stop : cstr)  (* %w[^stop] *)
  | DLong                         (* %ld *)
  | DBlank.                       (* white space *)

Inductive field := FStr (s : cstr) | FLong (z : Z).

Definition scan_long (s : cstr) : option (Z * cstr) :=
  let '(neg, ds) :=
    match s with
    | a :: s' => if code a =? 45 then (true, s') else if code a =? 43 then (false, s') else (false, s)
    | [] => (false, s)
    end in
  match ds with
  | d :: _ =>
      if is_digit d then Some (strtoll s 10, drop_while is_digit ds) else None
  | [] => None
  end.

(** The converted fields; their number is the result. *)
Fixpoint sscanf_c (fmt : list directive) (s : cstr) : list field :=
  match fmt with
  | [] => []
  | DBlank :: fmt => sscanf_c fmt (skip_space s)
  | DWord w :: fmt =>
      let '(tok, rest) := scan_field (λ a, negb (isspace_c a)) w (skip_space s) in
      match tok with [] => [] | _ => FStr tok :: sscanf_c fmt rest end
  | DSet w stop :: fmt =>
      let '(tok, rest) := scan_field (λ a, negb (existsb (aeqb a) stop)) w s in
      match tok with [] => [] | _ => FStr tok :: sscanf_c fmt rest end
  | DLong :: fmt =>
      match scan_long (skip_space s) with
      | Some (z, rest) => FLong z :: sscanf_c fmt rest
      | None => []
      end
  end.

(** ** Printing *)

(** "%-Ns". *)
Definition pad (n : nat) (s : cstr) : cstr := s ++ replicate (n - length s) SPACE.

(** ** Lemmas *)

Definition line_of (l : cstr) : cstr := l ++ [LF].

Lemma fgets_loop_lines fuel size ls :
  (length ls ≤ fuel)%nat → Forall (λ l, clean l ∧ (length l < size - 1)%nat) ls →
  fgets_loop fuel size (mjoin (line_of <$> ls)) = line_of <$> ls.
Proof.
  intros Hf Hls. revert fuel Hf. induction Hls as [|l ls [Hc Hl] _ IH]; intros fuel Hf; csimpl.
  { by destruct fuel. }
  destruct fuel as [|fuel]; [simpl in Hf; lia|]. unfold line_of at 1.
  rewrite <- (assoc_L (++)). cbn [app fgets_loop].
  destruct (l ++ LF :: mjoin (line_of <$> ls)) as [|a s] eqn:Hs; [by destruct l|]. rewrite <- Hs.
  rewrite next_line_clean by done. rewrite IH by (simpl in Hf; lia). done.
Qed.

Lemma lines_length ls : (length ls ≤ length (mjoin (line_of <$> ls)))%nat.
Proof.
  induction ls as [|l ls IH]; csimpl; [lia|]. unfold line_of at 1. rewrite !length_app. simpl. lia.
Qed.

(** Short lines are read back one by one. *)
Lemma fgets_lines_spec size ls :
  Forall (λ l, clean l ∧ (length l < size - 1)%nat) ls →
  fgets_lines size (mjoin (line_of <$> ls)) = line_of <$> ls.
Proof. intros Hls. apply fgets_loop_lines; [apply lines_length|done]. Qed.

Lemma buf_str_line l : clean l → buf_str (line_of l) = line_of l.
Proof.
  intros Hc. apply take_while_all. apply Forall_app. split; [|by repeat constructor].
  eapply Forall_impl; [exact Hc|]. intros a [_ Ha]. apply negb_true_iff. by apply aeqb_neq.
Qed.

(** White space here is white space of the kernel too. *)
Lemma isspace_c_kernel a : isspace a = false → isspace_c a = false.
Proof. by destruct a as [[] [] [] [] [] [] [] []]. Qed.

Lemma skip_space_id s :
  match s with [] => True | a :: _ => isspace_c a = false end → skip_space s = s.
Proof. destruct s as [|a s]; [done|]. simpl. by intros ->. Qed.

Lemma scan_word w fmt tok s :
  tok ≠ [] → Forall (λ a, isspace_c a = false) tok → (length tok ≤ w)%nat →
  match s with [] => True | a :: _ => isspace_c a = true end →
  sscanf_c (DWord w :: fmt) (tok ++ s) = FStr tok :: sscanf_c fmt s.
Proof.
  intros Hne Hf Hw Hs. cbn [sscanf_c].
  rewrite skip_space_id by (destruct tok; [done|]; by apply Forall_cons in Hf as [? _]).
  rewrite scan_field_app; [by destruct tok| |done|].
  - eapply Forall_impl; [exact Hf|]. by intros a ->.
  - destruct s as [|a s]; [done|]. by rewrite Hs.
Qed.

Lemma scan_set w stop fmt tok s :
  tok ≠ [] → Forall (λ a, a ∉ stop) tok → (length tok ≤ w)%nat →
  match s with [] => True | a :: _ => a ∈ stop end →
  sscanf_c (DSet w stop :: fmt) (tok ++ s) = FStr tok :: sscanf_c fmt s.
Proof.
  assert (∀ a, existsb (aeqb a) stop = true ↔ a ∈ stop) as Hin.
  { intros a. rewrite existsb_exists. split.
    - intros (x & Hx & He). apply aeqb_eq in He as ->. by apply list_elem_of_In.
    - intros Ha. exists a. by rewrite <- list_elem_of_In, aeqb_refl. }
  intros Hne Hf Hw Hs. cbn [sscanf_c].
  rewrite scan_field_app; [by destruct tok| |done|].
  - eapply Forall_impl; [exact Hf|]. intros a Ha. apply negb_true_iff.
    destruct (existsb (aeqb a) stop) eqn:He; [|done]. by apply Hin in He.
  - destruct s as [|a s]; [done|]. by rewrite (proj2 (Hin a) Hs).
Qed.

Lemma scan_blank fmt s : sscanf_c (DBlank :: fmt) (SPACE :: s) = sscanf_c fmt (skip_space s).
Proof. done. Qed.

Lemma scan_long_print n s :
  - 2 ^ 63 ≤ n < 2 ^ 63 → match s with [] => True | a :: _ => is_digit a = false end →
  scan_long (print_signed n ++ s) = Some (n, s).
Proof.
  intros Hn Hs.
  assert (∀ m, 0 ≤ m < 2 ^ 64 → ∃ a ds, print_unsigned 10 m = a :: ds ∧
    Forall (digit_of 10) (a :: ds) ∧ digits_value 10 ((a :: ds) ++ s) 0 = m) as Hu.
  { intros m Hm. destruct (digits_loop_spec 63 10 m []) as (ds & He & Hne & Hds & _ & Hv); [lia|..].
    { change (Z.of_nat 64) with 64. split; [lia|]. eapply Z.lt_le_trans; [apply Hm|].
      apply Z.pow_le_mono_l. lia. }
    rewrite app_nil_r in He. destruct ds as [|a ds]; [done|]. exists a, ds.
    split_and!; [exact He|done|]. rewrite Hv. destruct s as [|b s]; cbn [digits_value]; [lia|].
    unfold is_digit in Hs. destruct (Z.leb_spec 0 (code b - 48)), (Z.ltb_spec (code b - 48) 10);
      cbn [andb]; lia. }
  assert (∀ ds, Forall (digit_of 10) ds → drop_while is_digit (ds ++ s) = s) as Hdrop.
  { intros ds Hds. apply drop_while_app; [|done]. eapply Forall_impl; [exact Hds|].
    unfold digit_of, is_digit. intros b Hb. by rewrite !(proj2 (Z.leb_le _ _)) by lia. }
  assert (∀ a, digit_of 10 a → is_digit a = true ∧ (code a =? 45) = false ∧ (code a =? 43) = false) as Hd.
  { unfold digit_of, is_digit. intros a Ha. rewrite !(proj2 (Z.leb_le _ _)), !(proj2 (Z.eqb_neq _ _)) by lia.
    done. }
  unfold print_signed, scan_long. destruct (Z.ltb_spec n 0).
  - destruct (Hu (- n)) as (a & ds & -> & Hds & Hv); [lia|]. cbn [app].
    change (code (chr 45) =? 45) with true. cbv iota.
    pose proof (Forall_inv Hds) as Ha. destruct (Hd a Ha) as (-> & _ & _). do 2 f_equal.
    + unfold strtoll. rewrite minus_scan. cbn [app] in Hv. rewrite Hv. lia.
    + by apply (Hdrop (a :: ds)).
  - destruct (Hu n) as (a & ds & -> & Hds & Hv); [lia|]. cbn [app].
    pose proof (Forall_inv Hds) as Ha. destruct (Hd a Ha) as (Hda & Hm & Hp). rewrite Hm, Hp, Hda.
    do 2 f_equal.
    + unfold strtoll. rewrite digit_scan by (done || lia). cbn [app] in Hv. rewrite Hv. lia.
    + by apply (Hdrop (a :: ds)).
Qed.

Lemma skip_space_print n s :
  - 2 ^ 63 ≤ n < 2 ^ 63 → skip_space (print_signed n ++ s) = print_signed n ++ s.
Proof.
  intros Hn. apply skip_space_id. unfold print_signed. destruct (Z.ltb_spec n 0); [done|].
  destruct (print_unsigned_spec 10 n) as (a & ds & -> & Hds & _); [lia..|].
  pose proof (Forall_inv Hds) as Ha. unfold digit_of in Ha. cbn [app]. unfold isspace_c.
  destruct (Z.leb_spec (code a) 13), (Z.eqb_spec (code a) 32); lia.
Qed.

Lemma scan_field_print fmt n s :
  - 2 ^ 63 ≤ n < 2 ^ 63 → match s with [] => True | a :: _ => is_digit a = false end →
  sscanf_c (DLong :: fmt) (print_signed n ++ s) = FLong n :: sscanf_c fmt s.
Proof. intros Hn Hs. cbn [sscanf_c]. by rewrite skip_space_print, scan_long_print. Qed.

(** Only digits and a minus sign are printed. *)
Lemma print_signed_chars n a : a ∈ print_signed n → a = chr 45 ∨ is_digit a = true.
Proof.
  assert (∀ m, a ∈ print_unsigned 10 m → is_digit a = true) as Hu.
  { intros m Ha. pose proof (print_unsigned_digits 10 m ltac:(lia)) as Hd. rewrite Forall_forall in Hd.
    specialize (Hd a Ha). unfold digit_of in Hd. unfold is_digit. lia. }
  unfold print_signed. destruct (n <? 0); [|by right; eapply Hu].
  intros [->|Ha]%elem_of_cons; [by left|right; by eapply Hu].
Qed.
