(* ===== verification/Replies.v ===== *)
(** * The form of the daemon's replies: userspace/avd/avd.c

    docs/avd-socket-protocol.md: what a reply of the control socket is, down to
    the fields of each row, and that every request gets one ([one_reply]).  A
    row is a line of its own only if the fields put into it hold no tabs and
    no newlines, which the document names as a limitation; what that asks of
    the history, the sidecars and the scans is [scan_plain] and [plain_world]. *)

From Stdlib Require Import ZArith Lia Ascii String.
From stdpp Require Import prelude list gmap.
From S2P Require Import Prelude CString CText Stdio Netlink Sha256 Corpus Sock Posix Quarantine Trust.
From S2P Require Import QuarantineOps History Scan Control.

Local Open Scope Z_scope.

(** ** Fields *)

Lemma tab_not_printed n : TAB ∉ print_signed n.
Proof. intros Hin. by apply print_signed_chars in Hin as [[=]|?]. Qed.
Lemma lf_not_printed n : LF ∉ print_signed n.
Proof. intros Hin. by apply print_signed_chars in Hin as [[=]|?]. Qed.

(** A text that is one field of a row. *)
Definition plain (s : cstr) : Prop := (TAB ∉ s) ∧ (LF ∉ s) ∧ (NUL ∉ s).

#[export] Instance plain_dec s : Decision (plain s).
Proof. unfold plain. apply _. Defined.

Lemma plain_app s t : plain (s ++ t) ↔ plain s ∧ plain t.
Proof. unfold plain. rewrite !elem_of_app. tauto. Qed.

(** A result that the row can carry. *)
Record tellable (r : scan_result) : Prop := {
  tl_rule : plain (res_rule_name r); tl_sha : plain (res_sha256_hex r);
  tl_score : - 2 ^ 31 ≤ res_score r < 2 ^ 31;
  tl_rule_length : (length (res_rule_name r) < 64)%nat;
  tl_sha_length : (length (res_sha256_hex r) < 65)%nat;
}.

Definition verdict_word (r : scan_result) : cstr :=
  if res_verdict r =? AV_VERDICT_MALICIOUS then cs "MALICIOUS" else cs "CLEAN".

Definition row_text (r : scan_result) : cstr :=
  verdict_word r ++ TAB :: res_rule_name r ++ TAB :: print_signed (res_score r) ++ TAB :: res_sha256_hex r.

Lemma verdict_plain r : plain (verdict_word r).
Proof.
  unfold verdict_word, plain.
  destruct (_ =? _); by apply (bool_decide_unpack _).
Qed.

Lemma plain_print n : plain (print_signed n).
Proof. split_and!; intros Hin; by apply print_signed_chars in Hin as [[=]|?]. Qed.

(** The row as it is sent and read. *)
Lemma row_sent r : tellable r → scan_row r = row_text r ++ [LF].
Proof.
  intros [_ _ Hz Hrl Hsl]. unfold scan_row.
  assert ((if res_verdict r =? AV_VERDICT_MALICIOUS then cs "MALICIOUS" else cs "CLEAN") = verdict_word r)
    as -> by done.
  assert (length (verdict_word r) ≤ 9)%nat by (unfold verdict_word; destruct (_ =? _); simpl; lia).
  pose proof (print_signed_length (res_score r) 10) as Hp.
  rewrite strscpy_fit.
  - unfold row_text. cbn [app]. repeat (rewrite <- (assoc_L (++)); cbn [app]). done.
  - unfold PATH_MAX. rewrite !length_app. simpl length. lia.
Qed.

(** ** The hash of a file that is read *)

(** What the reads give are bytes, in an array of the size of a block. *)
Definition sane (io : sha_io) : Prop :=
  length (sha_junk io) = 64%nat ∧ Forall is_byte (read_bytes (sha_reads io)).

(** Nothing fails. *)
Definition hashable (io : sha_io) : bool :=
  sha_dup io && sha_fdopen io && sha_fseek io && negb (sha_ferror io).

Lemma hex_value_plain x y v : hex_value [x; y] = Some v → plain [x; y].
Proof.
  unfold hex_value, plain. intros Hv.
  assert (∀ z (k : Z → option Z), (if (48 <=? code z) && (code z <=? 57) then Some (code z - 48)
    else if (97 <=? code z) && (code z <=? 102) then Some (code z - 87) else None) ≫= k = Some v →
    z ≠ TAB ∧ z ≠ LF ∧ z ≠ NUL) as Hz by (intros z k Hk; split_and!; intros ->; by vm_compute in Hk).
  pose proof (Hz _ _ Hv) as (? & ? & ?). cbv zeta in Hv.
  destruct (if (48 <=? code x) && _ then _ else _) as [p|]; [|done]. cbn [mbind option_bind] in Hv.
  pose proof (Hz _ _ Hv) as (? & ? & ?).
  rewrite !not_elem_of_cons. split_and!; (congruence || apply not_elem_of_nil).
Qed.

Lemma unhex_plain s l : unhex s = Some l → plain s.
Proof.
  revert l. induction s as [s IH] using (induction_ltof1 _ (@length ascii)). unfold ltof in IH.
  destruct s as [|x [|y s]]; intros l Hu; [|done|].
  { split_and!; apply not_elem_of_nil. }
  cbn [unhex] in Hu. destruct (hex_value [x; y]) as [v|] eqn:Hv; [|done]. cbn [mbind option_bind] in Hu.
  destruct (unhex s) as [l'|] eqn:Hs; [|done].
  apply (plain_app [x; y]). split; [by eapply hex_value_plain|]. by apply (IH s ltac:(simpl; lia) l').
Qed.

Lemma sane_hash io :
  sane io → plain (scan_hash None io) ∧ length (scan_hash None io) = (if hashable io then 64 else 0)%nat.
Proof.
  intros (Hj & Hb).
  destruct (sha256_fd_spec (sha_junk io) (sha_dup io) (sha_fdopen io) (sha_fseek io) (sha_reads io)
    (sha_ferror io) Hj Hb) as (ret & out & Hr & Hc).
  unfold scan_hash, sha256_of, hashable. rewrite Hr. destruct (_ && negb _).
  - destruct Hc as (-> & hex & bytes & -> & Hl & Hu & _). split; [by eapply unhex_plain|done].
  - destruct Hc as [-> ->]. split; [|done]. split_and!; apply not_elem_of_nil.
Qed.

Section scans.
Context `{!Fuzzy} {W : Type} `{!Posix W}.

Lemma scan_tellable e g fd path io (w : W) h out q w' h' :
  named io → sane (si_sha io) → plain (res_rule_name out) →
  perform_scan e g fd path None 0 true io w h = (out, q, w', h') → tellable out.
Proof.
  intros Hn Hs Hr Hp. destruct (perform_scan_verdict _ _ _ _ _ _ _ _ _ _ _ _ _ _ Hn Hp) as (_ & _ & Hl).
  destruct (sane_hash _ Hs) as [Hh Hhl]. unfold perform_scan in Hp.
  assert (length (scan_hash None (si_sha io)) < 65)%nat as Hhl' by (rewrite Hhl; destruct (hashable _); lia). clear Hhl.
  set (hash := scan_hash None (si_sha io)) in *. clearbody hash.
  destruct (analyse g (lseek fd w) io) as [[verdict rule] sc] eqn:Ha.
  assert (- 2 ^ 31 ≤ sc < 2 ^ 31) as Hsc.
  { destruct (analyse_spec _ _ _ _ _ _ Hn Ha) as (_ & _ & _ & _ & Hagg).
    destruct (decide (compiled_rules g = true ∧ lseek fd w = true ∧ si_yara_ret io = 0)) as [Hd|Hd].
    - rewrite (Hagg Hd). apply to_int_range.
    - rewrite (analyse_unscanned _ _ _ Hd) in Ha. by injection Ha as <- <- <-. }
  destruct (if verdict =? AV_VERDICT_MALICIOUS then _ else _) as [q1 w1] in Hp.
  injection Hp as <- _ _ _. cbn [res_rule_name res_sha256_hex res_score] in *.
  rewrite strscpy_fit by lia. unfold AV_RULE_NAME_MAXLEN in Hl.
  constructor; cbn [res_rule_name res_sha256_hex res_score]; try done; lia.
Qed.

(** The rule that is reported is the one the analysis found. *)
Lemma scan_rule e g fd path sha pid on_demand io (w : W) h out q w' h' :
  perform_scan e g fd path sha pid on_demand io w h = (out, q, w', h') →
  res_rule_name out = (analyse g (lseek fd w) io).1.2.
Proof.
  unfold perform_scan. destruct (analyse g (lseek fd w) io) as [[verdict rule] sc].
  destruct (if verdict =? AV_VERDICT_MALICIOUS then _ else _) as [q1 w1]. by intros [= <- _ _ _].
Qed.

End scans.

Lemma in_take {A} n (l : list A) x : x ∈ take n l → x ∈ l.
Proof. rewrite <- (take_drop n l) at 2. rewrite elem_of_app. by left. Qed.

Lemma plain_take n s : plain s → plain (take n s).
Proof.
  intros (Ht & Hl & Hn). split_and!; intros Hin; by apply (in_take n s) in Hin.
Qed.

Lemma plain_strscpy s n : plain s → plain (strscpy s n).
Proof. apply plain_take. Qed.

Lemma plain_unsigned n : plain (print_unsigned 10 n).
Proof.
  pose proof (print_unsigned_digits 10 n ltac:(lia)) as Hd. rewrite Forall_forall in Hd.
  split_and!; intros Hin; specialize (Hd _ Hin); destruct Hd as [Hd%Z.leb_le _]; by vm_compute in Hd.
Qed.

(** ** Rows and replies *)

(** The fields of a row between tabs, and its newline. *)
Definition row_line (fields : list cstr) : cstr :=
  match fields with [] => [LF] | f :: fs => f ++ mjoin (cons TAB <$> fs) ++ [LF] end.

Definition row_of (k : nat) (row : cstr) : Prop :=
  ∃ fields, length fields = k ∧ Forall plain fields ∧ row = row_line fields.

(** docs/avd-socket-protocol.md: an error line; or OK, alone for the commands without rows ([k] is 0)
    and otherwise with a COUNT, that many rows of [k] fields, each a line, and END. *)
Inductive reply_text (k : nat) : cstr → Prop :=
  | reply_err msg : LF ∉ msg → (length msg ≤ 250)%nat → reply_text k (cs "ERR " ++ msg ++ [LF])
  | reply_ok : k = 0%nat → reply_text k OK_LINE
  | reply_rows rows :
      k ≠ 0%nat → Forall (row_of k) rows →
      reply_text k (OK_LINE ++ count_line (Z.of_nat (length rows)) ++ mjoin rows ++ END_LINE).

(** The fields of a command's rows. *)
Definition columns (line : cstr) : nat :=
  if strcmp_eq line (cs "STATUS") then 6
  else if PREFIX_MATCH line VERDICTS_RECENT then 9
  else if strcmp_eq line (cs "QUARANTINE LIST") then 5
  else if PREFIX_MATCH line QUARANTINE_RESTORE then 0
  else if PREFIX_MATCH line QUARANTINE_DELETE then 0
  else if PREFIX_MATCH line SCAN then 4 else 0.

(** A row is one line. *)
Lemma row_one_line k row : row_of k row → ∃ l, row = l ++ [LF] ∧ LF ∉ l.
Proof.
  intros (fields & _ & Hf & ->). destruct Hf as [|f fs (_ & Hf & _) Hfs].
  { exists []. split; [done|apply not_elem_of_nil]. }
  exists (f ++ mjoin (cons TAB <$> fs)). split; [by rewrite <- (assoc_L (++))|].
  rewrite elem_of_app. intros [?|Hin]; [done|]. apply list_elem_of_join in Hin as (g & Hg & Hin).
  apply list_elem_of_fmap in Hin as (x & -> & Hx). apply elem_of_cons in Hg as [[=]|Hg].
  rewrite Forall_forall in Hfs. by destruct (Hfs x Hx) as (_ & ? & _).
Qed.

(** ** What goes into the rows *)

(** A scan whose record is made of plain texts and of numbers of their types. *)
Record scan_plain (s : History.scan) : Prop := {
  sp_path : plain (sc_path s); sp_sha : plain (sc_sha256_hex s); sp_rule : plain (sc_rule_name s);
  sp_time : - 2 ^ 63 ≤ sc_time s < 2 ^ 63; sp_pid : 0 ≤ sc_pid s < 2 ^ 32;
  sp_score : - 2 ^ 31 ≤ sc_score s < 2 ^ 31;
}.

Lemma verdict_row_of id s :
  scan_plain s → 0 ≤ id < 2 ^ 64 → row_of 9 (strscpy (verdict_row (record_of id s)) (PATH_MAX + 256)).
Proof.
  intros [Hp Hs Hr Ht Hpid Hsc] Hid. rewrite verdict_row_fits by done.
  set (r := record_of id s). exists [print_unsigned 10 (vr_id r); print_signed (vr_timestamp r);
    print_unsigned 10 (vr_pid r); vr_path r; vr_sha256_hex r;
    (if vr_verdict r =? History.AV_VERDICT_MALICIOUS then cs "MALICIOUS" else cs "CLEAN"); vr_rule_name r;
    print_signed (vr_score r); (if vr_on_demand r then cs "1" else cs "0")].
  split_and!; [done| |].
  - unfold r, record_of. cbn [vr_id vr_timestamp vr_pid vr_path vr_sha256_hex vr_verdict vr_rule_name vr_score
      vr_on_demand]. repeat apply Forall_cons_2; try apply Forall_nil_2; try apply plain_unsigned; try apply plain_print; try by apply plain_strscpy.
    + destruct (_ =? _); by apply (bool_decide_unpack _).
    + destruct (sc_on_demand s); by apply (bool_decide_unpack _).
  - unfold verdict_row, row_line. cbn [fmap list_fmap mjoin list_join app].
    repeat (rewrite <- (assoc_L (++)); cbn [app]). by rewrite ?app_nil_l.
Qed.

(** Every row of the log is one. *)
Lemma log_rows scans id :
  Forall scan_plain scans → 0 ≤ id < 2 ^ 64 →
  Forall (λ r, row_of 9 (strscpy (verdict_row r) (PATH_MAX + 256))) (log_of scans id).
Proof.
  intros Hs. revert id. induction Hs as [|s scans Hp Hs IH]; intros id Hid; [constructor|]. cbn [log_of].
  apply Forall_app. split; [apply IH, wrap_range; lia|]. constructor; [by apply verdict_row_of|constructor].
Qed.

(** The fields that a sidecar is parsed into fit their buffers. *)
Record meta_bounded (m : quarantine_meta) : Prop := {
  mb_path : (length (original_path m) < PATH_MAX)%nat;
  mb_rule : (length (rule_name m) < RULE_NAME_LEN)%nat;
  mb_sha : (length (sha256_hex m) < SHA256_LEN)%nat;
  mb_time : - 2 ^ 63 ≤ timestamp m < 2 ^ 63;
}.

Lemma digits_value_nonneg base s acc : 0 ≤ acc → 0 ≤ digits_value base s acc.
Proof.
  revert acc. induction s as [|a s IH]; intros acc Ha; [done|]. cbn [digits_value].
  destruct (_ && _) eqn:Hv; [|done]. apply andb_true_iff in Hv as [?%Z.leb_le ?%Z.ltb_lt]. apply IH. nia.
Qed.

Lemma strtoll_range s base : - 2 ^ 63 ≤ strtoll s base < 2 ^ 63.
Proof.
  unfold strtoll. destruct (scan_number base s) as [neg v] eqn:Hs.
  assert (0 ≤ v) by (unfold scan_number in Hs; repeat case_match; simplify_eq; try done;
    by apply digits_value_nonneg). destruct neg; lia.
Qed.

Lemma meta_line_bounded line m : meta_bounded m → meta_bounded (meta_line line m).
Proof.
  intros [Hp Hr Hs Ht]. pose proof (λ s, strscpy_length s PATH_MAX ltac:(unfold PATH_MAX; lia)).
  pose proof (λ s, strscpy_length s RULE_NAME_LEN ltac:(unfold RULE_NAME_LEN; lia)).
  pose proof (λ s, strscpy_length s SHA256_LEN ltac:(unfold SHA256_LEN; lia)).
  pose proof strtoll_range. unfold meta_line, set_path. repeat case_match; by constructor; cbn.
Qed.

Lemma meta_loop_bounded fuel s m : meta_bounded m → meta_bounded (meta_loop fuel s m).
Proof.
  revert s m. induction fuel as [|fuel IH]; intros s m Hm; [done|]. destruct s as [|a s]; [done|].
  cbn [meta_loop]. destruct (next_line _ _) as [line rest]. by apply IH, meta_line_bounded.
Qed.

Lemma read_meta_bounded s m : read_quarantine_meta s = Some m → meta_bounded m.
Proof.
  unfold read_quarantine_meta. destruct s as [s|]; [|done].
  assert (meta_bounded (meta_loop (length s) s meta_zero)) as Hb.
  { apply meta_loop_bounded. constructor; cbn; unfold PATH_MAX, RULE_NAME_LEN, SHA256_LEN; lia. }
  destruct (original_path _); [done|]. by intros [= <-].
Qed.

Lemma short_reply msg : LF ∉ msg → (length msg ≤ 250)%nat → take 255 (cs "ERR " ++ msg ++ [LF]) = cs "ERR " ++ msg ++ [LF].
Proof. intros _ Hl. apply take_ge. rewrite !length_app. simpl. lia. Qed.

Section replies.
Context `{!Fuzzy} {W : Type} `{!Posix W}.

(** The names in the quarantine and what their sidecars say are plain, the status is made of numbers
    of their types, and so is what a scan finds. *)
Record plain_world (ce : conn_env) (w : W) : Prop := {
  pw_names : ∀ names d, ce_dir ce = Some names → d ∈ names → plain d;
  pw_metas : ∀ names d m, ce_dir ce = Some names → d ∈ names → entry_meta (ce_env ce) d w = Some m →
    plain (original_path m) ∧ plain (rule_name m) ∧ plain (sha256_hex m);
  pw_uptime : - 2 ^ 63 ≤ st_uptime (ce_status ce) < 2 ^ 63;
  pw_queue : 0 ≤ st_queue_len (ce_status ce) < 2 ^ 64;
  pw_threads : - 2 ^ 31 ≤ st_scan_threads (ce_status ce) < 2 ^ 31;
  pw_corpora : Z.of_nat (length (fuzzy_corpus (ce_engine ce))) < 2 ^ 64 ∧
    Z.of_nat (length (tlsh_corpus (ce_engine ce))) < 2 ^ 64;
  pw_scan : named (ce_scan ce) ∧ sane (si_sha (ce_scan ce));
  pw_rule : plain (analyse (ce_engine ce) true (ce_scan ce)).1.2;
}.

Lemma entry_row_of ce (w : W) names d :
  plain_world ce w → ce_dir ce = Some names → d ∈ names → row_of 5 (entry_row (ce_env ce) w d).
Proof.
  intros Hw Hn Hd. pose proof (pw_names _ _ Hw _ _ Hn Hd) as Hpd. unfold entry_row.
  set (id := strscpy (take (length d - length SUFFIX) d) PATH_MAX).
  assert (plain id) as Hid by (by apply plain_strscpy, plain_take).
  pose proof (strscpy_length (take (length d - length SUFFIX) d) PATH_MAX ltac:(unfold PATH_MAX; lia)) as Hl.
  fold id in Hl. clearbody id.
  assert (∀ path ts rule sha, plain path → plain ts → plain rule → plain sha →
    (length path < PATH_MAX)%nat → (length ts ≤ 20)%nat → (length rule < RULE_NAME_LEN)%nat →
    (length sha < SHA256_LEN)%nat →
    row_of 5 (strscpy (id ++ [TAB] ++ path ++ [TAB] ++ ts ++ [TAB] ++ rule ++ [TAB] ++ sha ++ [LF]) AVD_ROW_MAX))
    as Hrow.
  { intros path ts rule sha Hp Ht Hr Hs Lp Lt Lr Ls. rewrite strscpy_fit.
    - exists [id; path; ts; rule; sha]. split_and!; [done|by repeat apply Forall_cons_2; try apply Forall_nil_2|].
      unfold row_line. cbn [fmap list_fmap mjoin list_join app].
      repeat (rewrite <- (assoc_L (++)); cbn [app]). by rewrite ?app_nil_l.
    - unfold AVD_ROW_MAX. unfold RULE_NAME_LEN, SHA256_LEN in *. rewrite !length_app. cbn [length]. lia. }
  destruct (entry_meta (ce_env ce) d w) as [m|] eqn:Hm.
  - destruct (pw_metas _ _ Hw _ _ _ Hn Hd Hm) as (? & ? & ?). unfold entry_meta in Hm.
    destruct (read_meta_bounded _ _ Hm) as [? ? ? ?]. apply Hrow; try done; [apply plain_print|].
    apply (print_signed_length _ 18). simpl. lia.
  - apply (Hrow (cs "?") (cs "0") (cs "?") (cs "?")); try by apply (bool_decide_unpack _).
Qed.

Lemma status_row_of ce (w : W) :
  plain_world ce w → row_of 6 (strscpy (status_row (ce_engine ce) (ce_status ce)) 256).
Proof.
  intros [_ _ Hu Hq Ht [Hf Hg] _ _]. unfold status_row. rewrite strscpy_fit.
  - match goal with |- row_of _ (?a ++ _ ++ ?b ++ _ ++ ?c ++ _ ++ ?d ++ _ ++ ?e ++ _ ++ ?f ++ _) =>
      exists [a; b; c; d; e; f] end.
    split_and!; [done| |].
    + repeat apply Forall_cons_2; try apply Forall_nil_2; try apply plain_print; try apply plain_unsigned.
      destruct (compiled_rules _); by apply (bool_decide_unpack _).
    + unfold row_line. cbn [fmap list_fmap mjoin list_join app].
      repeat (rewrite <- (assoc_L (++)); cbn [app]). by rewrite ?app_nil_l.
  - pose proof (print_signed_length (st_uptime (ce_status ce)) 18 ltac:(simpl; lia)).
    pose proof (print_unsigned_length (Z.of_nat (length (fuzzy_corpus (ce_engine ce)))) 19 ltac:(simpl; lia)).
    pose proof (print_unsigned_length (Z.of_nat (length (tlsh_corpus (ce_engine ce)))) 19 ltac:(simpl; lia)).
    pose proof (print_unsigned_length (st_queue_len (ce_status ce)) 19 ltac:(simpl; lia)).
    pose proof (print_signed_length (st_scan_threads (ce_status ce)) 9 ltac:(simpl; lia)).
    assert (length (if compiled_rules (ce_engine ce) then cs "1" else cs "0") = 1)%nat
      by (by destruct (compiled_rules _)).
    rewrite !length_app. cbn [length]. lia.
Qed.

Lemma scan_row_of r : tellable r → row_of 4 (scan_row r).
Proof.
  intros Ht. rewrite row_sent by done. destruct Ht as [Hr Hs _ _ _].
  exists [verdict_word r; res_rule_name r; print_signed (res_score r); res_sha256_hex r]. split_and!; [done| |].
  - repeat apply Forall_cons_2; try apply Forall_nil_2; try done; [apply verdict_plain|apply plain_print].
  - unfold row_text, row_line. cbn [fmap list_fmap mjoin list_join app].
    repeat (rewrite <- (assoc_L (++)); cbn [app]). by rewrite ?app_nil_l.
Qed.

(** *** One reply *)

Definition replies (k : nat) (out : cstr) (s : sock) : Prop := ∃ r, reply_text k r ∧ sk_out s = out ++ r.

(** The text of an error message: one short line. *)
Definition brief (msg : cstr) : bool := bool_decide (LF ∉ msg) && (length msg <=? 250)%nat.

Lemma replies_err k msg out : brief msg = true → replies k out (send_err msg (open_sock out)).
Proof.
  intros [Hlf%bool_decide_eq_true Hl%Nat.leb_le]%andb_true_iff. rewrite send_err_open, short_reply by done.
  eexists. split; [by apply reply_err|done].
Qed.

Lemma replies_rows k rows out :
  k ≠ 0%nat → Forall (row_of k) rows →
  replies k out (open_sock ((((out ++ OK_LINE) ++ count_line (Z.of_nat (length rows))) ++ mjoin rows) ++ END_LINE)).
Proof. intros Hk Hr. eexists. split; [by apply (reply_rows k rows)|]. by rewrite <- !(assoc_L (++)). Qed.

Lemma replies_row k row out :
  k ≠ 0%nat → row_of k row →
  replies k out (send END_LINE (send row (send (count_line 1) (send OK_LINE (open_sock out))))).
Proof.
  intros Hk Hrow. unfold open_sock. rewrite !send_open.
  pose proof (replies_rows k [row] out Hk (Forall_cons_2 _ _ _ Hrow (Forall_nil_2 _))) as Hr.
  cbn [mjoin list_join length] in Hr. by rewrite app_nil_r in Hr.
Qed.

(** The answers of the two quarantine commands are brief. *)
Definition brief_reply (r : reply) : bool := match r with ReplyErr msg => brief msg | ReplyOk => true end.

Lemma replies_reply r out :
  brief_reply r = true → replies 0 out (send_reply r (open_sock out)).
Proof.
  destruct r as [|msg]; simpl; intros Hb; [|by apply replies_err]. unfold open_sock. rewrite send_open.
  eexists. split; [by apply reply_ok|done].
Qed.

Lemma restore_brief e id (w : W) : brief_reply (cmd_quarantine_restore e id w).1.1 = true.
Proof.
  unfold cmd_quarantine_restore. cbv zeta. destruct (negb _); [done|]. do 2 (destruct (_ <=? _)%nat; [done|]).
  destruct (read_quarantine_meta _) as [m|]; [|done]. destruct (open_nofollow _ w) as [q|]; [|done].
  destruct (negb _); [done|]. destruct (lstat _ w); [|done]. destruct (fchmod _ _ _) as [r w1].
  destruct (negb _); [done|]. destruct (fchown _ _ _ _) as [c w2]. destruct (rename _ _ _) as [r' w3].
  by destruct (negb _).
Qed.

Lemma delete_brief e id (w : W) : brief_reply (cmd_quarantine_delete e id w).1 = true.
Proof.
  unfold cmd_quarantine_delete. cbv zeta. destruct (negb _); [done|]. do 2 (destruct (_ <=? _)%nat; [done|]).
  destruct (unlink _ w) as [r w1]. by destruct (_ && _).
Qed.

(** The listing, whatever is in the directory. *)
Lemma replies_list ce uid is_root (w : W) out :
  plain_world ce w → replies 5 out (cmd_quarantine_list ce uid is_root w (open_sock out)).
Proof.
  intros Hw. destruct (ce_dir ce) as [names|] eqn:Hd.
  2: { unfold cmd_quarantine_list. rewrite Hd. by apply replies_err. }
  destruct (ce_malloc ce) eqn:Hm.
  { rewrite (quarantine_list_open _ _ _ _ _ _ Hd Hm). apply replies_rows; [done|]. apply Forall_fmap, Forall_forall.
    intros d Hin. apply (entry_row_of _ _ _ _ Hw Hd). apply list_elem_of_In in Hin.
    apply filter_In in Hin as [Hin _]. apply filter_In in Hin as [Hin _]. by apply list_elem_of_In. }
  unfold cmd_quarantine_list. rewrite Hd, Hm. cbn [fmap option_fmap option_map negb].
  destruct (List.filter filter_quarantined names); [|by apply replies_err].
  unfold open_sock. cbn -[send OK_LINE END_LINE count_line]. rewrite !send_open.
  pose proof (replies_rows 5 [] out ltac:(done) (Forall_nil_2 _)) as Hr. unfold open_sock in Hr.
  cbn [mjoin list_join length] in Hr. by rewrite app_nil_r in Hr.
Qed.

Lemma replies_recent ce scans n uid is_root out :
  Forall scan_plain scans →
  replies 9 out (cmd_verdicts_recent (ce_malloc ce) n uid is_root (history_of scans) (open_sock out)).
Proof.
  intros Hs. unfold replies, open_sock. rewrite verdicts_recent_open.
  destruct (_ && _); [by apply (replies_err 9 (cs "out of memory"))|].
  pose proof (foldl_ok scans history_init [] history_init_ok) as Hok.
  change (foldl _ history_init scans) with (history_of scans) in Hok. rewrite app_nil_r in Hok.
  rewrite (snapshot_ok _ _ Hok). eexists. split; [|done]. unfold verdicts_reply.
  match goal with |- context [take ?n ?x] => set (recs := take n x) end.
  pose proof (reply_rows 9 ((λ r, strscpy (verdict_row r) (PATH_MAX + 256)) <$> recs) ltac:(done)) as Hr.
  rewrite length_fmap in Hr. unfold count_line, print_signed in Hr.
  rewrite (proj2 (Z.ltb_ge _ 0)) in Hr by lia. unfold OK_LINE, END_LINE in Hr.
  rewrite <- (app_assoc (cs "OK") [LF]) in Hr. apply Hr. apply Forall_fmap, Forall_forall. intros r Hin.
  pose proof (log_rows scans 1 Hs ltac:(lia)) as Hrows. rewrite Forall_forall in Hrows. apply Hrows.
  assert (r ∈ List.filter (λ r, verdict_visible_to r uid is_root) (take AVD_VERDICT_HISTORY_MAX (log_of scans 1))) as Hf
    by exact (in_take _ _ _ Hin).
  apply list_elem_of_In, filter_In in Hf as [Hf _]. apply list_elem_of_In in Hf.
  exact (in_take _ _ _ Hf).
Qed.

Lemma replies_scan ce path (w : W) h out :
  plain_world ce w → replies 4 out (cmd_scan ce path w h (open_sock out)).2.
Proof.
  intros Hw. unfold cmd_scan. destruct (negb _); [by apply replies_err|].
  destruct (open_rdonly _ w) as [fd|]; [|by apply replies_err].
  destruct (negb _); [by apply replies_err|]. destruct (negb _); [by apply replies_err|].
  destruct (perform_scan _ _ _ _ _ _ _ _ _ _) as [[[r q] w'] h'] eqn:Hp. cbn [snd].
  apply replies_row; [done|]. apply scan_row_of. destruct (pw_scan _ _ Hw).
  eapply scan_tellable; [done|done| |exact Hp]. rewrite (scan_rule _ _ _ _ _ _ _ _ _ _ _ _ _ _ Hp).
  destruct (lseek fd w); [exact (pw_rule _ _ Hw)|]. unfold analyse.
  by destruct (negb (compiled_rules _)); apply (bool_decide_unpack _).
Qed.

(** C32: every request gets exactly one reply of the documented form.  A peer that takes what it is
    sent reads, for each line it sends that is not empty, either one line that begins with ERR, or,
    after RESTORE and DELETE, the line OK, or, after the other commands, OK, a COUNT, exactly that
    many lines, each of the fields the document lists for the command (6 for STATUS, 9 for VERDICTS
    RECENT, 5 for QUARANTINE LIST, 4 for SCAN) between tabs, and END; and nothing for an empty line
    or when it closes the connection without a word.  This is for fields without tabs and newlines:
    with one in a path or a rule name a row is not one line, see
    [ReplyExamples.newline_breaks_count]. *)
Theorem one_reply ce peercred start_sec start_nsec events (w : W) scans out w' h' s' :
  plain_world ce w → Forall scan_plain scans →
  control_conn_main ce peercred start_sec start_nsec events w (history_of scans) (open_sock out) =
    Some (w', h', s') →
  match read_line start_sec start_nsec AVD_SOCK_LINE_MAX events with
  | LineEof | Line [] => sk_out s' = out
  | Line line => replies (columns (buf_str line)) out s'
  | _ => ∃ msg, brief msg = true ∧ sk_out s' = out ++ cs "ERR " ++ msg ++ [LF]
  end.
Proof.
  intros Hw Hs. unfold control_conn_main.
  destruct (read_line _ _ _ _) as [| |[|a line]|]; [|by intros [= _ _ <-]|by intros [= _ _ <-]| |done].
  { intros [= _ _ <-]. eexists. split; [|by rewrite send_err_open, short_reply by (by apply (bool_decide_unpack _))]. by vm_compute. }
  generalize (default UID_UNKNOWN peercred) (match peercred with Some uid => uid =? 0 | None => false end)
    (buf_str (a :: line)). intros uid is_root l [= He].
  assert (s' = (handle_control_line ce l uid is_root w (history_of scans) (open_sock out)).2) as -> by (by rewrite He).
  clear He. unfold handle_control_line, columns.
  destruct (strcmp_eq l (cs "STATUS")); [by apply replies_row; [|eapply status_row_of]|].
  destruct (PREFIX_MATCH l VERDICTS_RECENT).
  { destruct (no_number _); [by apply replies_err|by apply replies_recent]. }
  destruct (strcmp_eq l (cs "QUARANTINE LIST")); [by apply replies_list|].
  destruct (PREFIX_MATCH l QUARANTINE_RESTORE).
  { destruct is_root; [|by apply replies_err]. cbn [negb].
    pose proof (restore_brief (ce_env ce) (argument l QUARANTINE_RESTORE) w) as Hb.
    destruct (cmd_quarantine_restore _ _ _) as [[r ?] ?]. by apply replies_reply. }
  destruct (PREFIX_MATCH l QUARANTINE_DELETE).
  { destruct is_root; [|by apply replies_err]. cbn [negb].
    pose proof (delete_brief (ce_env ce) (argument l QUARANTINE_DELETE) w) as Hb.
    destruct (cmd_quarantine_delete _ _ _) as [r ?]. by apply replies_reply. }
  destruct (PREFIX_MATCH l SCAN); [|by apply replies_err]. destruct is_root; [|by apply replies_err].
  by apply replies_scan.
Qed.
End replies.

(** ** Examples *)

Module ReplyExamples.
Import ToyFs OpsExamples CorpusExamples ScanExamples SockExamples ControlExamples.
#[local] Existing Instance toy_fuzzy.

(** A file with a newline in its name was scanned: the reply says COUNT 1 and has two lines before END. *)
Definition odd_scan : History.scan :=
  {| sc_time := 7; sc_pid := 42; sc_uid := 1000; sc_path := cs "/tmp/a" ++ [LF] ++ cs "b"; sc_sha256_hex := cs "00ff";
     sc_verdict := 0; sc_rule_name := []; sc_score := 0; sc_on_demand := false |}.

Example newline_breaks_count :
  heard (control_conn_main (ce1 []) (Some 1000) 0 0 (typed (cs "VERDICTS RECENT 5")) (disk 493)
    (history_of [odd_scan]) (open_sock [])) =
  Some (cs "OK" ++ [LF] ++ cs "COUNT 1" ++ [LF] ++
    cs "1" ++ [TAB] ++ cs "7" ++ [TAB] ++ cs "42" ++ [TAB] ++ cs "/tmp/a" ++ [LF] ++
    cs "b" ++ [TAB] ++ cs "00ff" ++ [TAB] ++ cs "CLEAN" ++ [TAB] ++ [TAB] ++ cs "0" ++ [TAB] ++ cs "0" ++ [LF] ++
    cs "END" ++ [LF]).
Proof. vm_compute. reflexivity. Qed.

Definition plain_scan : History.scan :=
  {| sc_time := 7; sc_pid := 42; sc_uid := 1000; sc_path := cs "/tmp/a"; sc_sha256_hex := cs "00ff";
     sc_verdict := 0; sc_rule_name := []; sc_score := 0; sc_on_demand := false |}.

Definition meta_plain (o : option quarantine_meta) : bool :=
  match o with
  | Some m => bool_decide (plain (original_path m) ∧ plain (rule_name m) ∧ plain (sha256_hex m))
  | None => true
  end.

Lemma names1_plain : plain_world (ce1 names1) disk1.
Proof.
  constructor.
  - intros names d [= <-]. revert d. apply Forall_forall. by apply (bool_decide_unpack _).
  - intros names d m [= <-] Hd Hm.
    assert (forallb (λ d, meta_plain (entry_meta daemon d disk1)) names1 = true) as Hall by (vm_compute; reflexivity).
    rewrite forallb_forall in Hall. specialize (Hall d). rewrite <- list_elem_of_In in Hall. specialize (Hall Hd).
    cbn [ce_env ce1] in Hm. rewrite Hm in Hall. by apply bool_decide_eq_true in Hall.
  - cbn. lia.
  - cbn. lia.
  - cbn. lia.
  - cbn. lia.
  - split; [|split; [reflexivity|apply Forall_nil_2]].
    apply (Forall_impl (λ r, bool_decide (rule_identifier r ≠ []) = true)).
    + by apply (bool_decide_unpack _).
    + intros r Hr. by apply bool_decide_eq_true in Hr.
  - apply (bool_decide_unpack _). vm_compute. reflexivity.
Qed.

Lemma one_reply_witness :
  ∃ w' h' s', control_conn_main (ce1 names1) (Some 1000) 0 0 (typed (cs "VERDICTS RECENT 5")) disk1
      (history_of [plain_scan]) (open_sock []) = Some (w', h', s') ∧ replies 9 [] s'.
Proof.
  assert (is_Some (control_conn_main (ce1 names1) (Some 1000) 0 0 (typed (cs "VERDICTS RECENT 5")) disk1
      (history_of [plain_scan]) (open_sock []))) as [[[w' h'] s'] He] by (vm_compute; eexists; reflexivity).
  exists w', h', s'. split; [exact He|].
  assert (Forall scan_plain [plain_scan]) as Hs.
  { apply Forall_cons_2; [|apply Forall_nil_2]. constructor; try by apply (bool_decide_unpack _).
    all: cbn; lia. }
  pose proof (one_reply (ce1 names1) (Some 1000) 0 0 (typed (cs "VERDICTS RECENT 5")) disk1
    [plain_scan] [] w' h' s' names1_plain Hs He) as Hr.
  assert (read_line 0 0 AVD_SOCK_LINE_MAX (typed (cs "VERDICTS RECENT 5")) = Line (cs "VERDICTS RECENT 5")) as Hl
    by (vm_compute; reflexivity).
  rewrite Hl in Hr. exact Hr.
Defined.
End ReplyExamples.
