(* ===== verification/AvctlProc.v ===== *)
(** * avctl and the kernel's tables: userspace/avctl/avctl.c

    The commands that go through the four /proc files of the module: adding
    and deleting signatures, trusted hashes and protected paths, the policy,
    the listings, and the text that [save] writes and [load] replays.  The
    module's side of the files is SigTable's, AllowLists' and Exec's, unchanged.
    What is printed on the standard output is part of the result; the
    messages on the standard error are not. *)

From Stdlib Require Import ZArith Lia Ascii String.
From stdpp Require Import prelude list gmap.
From S2P Require Import Prelude CString Hashtable SigTable AllowLists Exec CText Stdio.

Local Open Scope Z_scope.

(** ** The module's files *)

Inductive proc_file := PROC_PATH | TRUST_PROC_PATH | PROTECTED_PROC_PATH | POLICY_PROC_PATH.

(** What is behind them. *)
Record kernel := {
  k_sigs : sigtable;
  k_trust : list (list Trust.av_trust_entry);
  k_protect : list (list Protect.av_protected_entry);
  k_fail_closed : bool;
}.

Definition with_sigs (st : sigtable) (k : kernel) : kernel :=
  {| k_sigs := st; k_trust := k_trust k; k_protect := k_protect k; k_fail_closed := k_fail_closed k |}.
Definition with_trust (t : list (list Trust.av_trust_entry)) (k : kernel) : kernel :=
  {| k_sigs := k_sigs k; k_trust := t; k_protect := k_protect k; k_fail_closed := k_fail_closed k |}.
Definition with_protect (t : list (list Protect.av_protected_entry)) (k : kernel) : kernel :=
  {| k_sigs := k_sigs k; k_trust := k_trust k; k_protect := t; k_fail_closed := k_fail_closed k |}.
Definition with_policy (b : bool) (k : kernel) : kernel :=
  {| k_sigs := k_sigs k; k_trust := k_trust k; k_protect := k_protect k; k_fail_closed := b |}.

(** What one write meets: the errno of [open], if it fails; avctl's [malloc];
    the caller's capability and the kernel's allocations. *)
Record write_env := {
  we_open : option Z; we_malloc : bool; we_capable : bool; we_kmalloc : bool;
}.

Section avctl.
Context `{KernelHash}.

Definition proc_read (p : proc_file) (k : kernel) : cstr :=
  match p with
  | PROC_PATH => sig_proc_show (k_sigs k)
  | TRUST_PROC_PATH => Trust.trust_proc_show (k_trust k)
  | PROTECTED_PROC_PATH => Protect.protected_proc_show (k_protect k)
  | POLICY_PROC_PATH => daemon_policy_proc_show (k_fail_closed k)
  end.

(** One [write] of a whole buffer at the start of the file. *)
Definition proc_write (e : write_env) (p : proc_file) (buf : cstr) (k : kernel) : Z * kernel :=
  let count := Z.of_nat (length buf) in
  match p with
  | PROC_PATH =>
      let '(r, t) := sig_proc_write (we_capable e) (we_kmalloc e) count (Some buf) (k_sigs k) in
      (r, with_sigs t k)
  | TRUST_PROC_PATH =>
      let '(r, t) := Trust.trust_proc_write (we_capable e) (we_kmalloc e) count (Some buf) (k_trust k) in
      (r, with_trust t k)
  | PROTECTED_PROC_PATH =>
      let '(r, t) := Protect.protected_proc_write (we_capable e) (we_kmalloc e) (we_kmalloc e)
                       (we_kmalloc e) 0 count (Some buf) (k_protect k) in
      (r, with_protect t k)
  | POLICY_PROC_PATH =>
      let '(r, b) := daemon_policy_proc_write 0 count (Some buf) (k_fail_closed k) in
      (r, with_policy b k)
  end.

(** ** Checks and writes *)

Definition AVCTL_HASH_HEX_MAXLEN : nat := 64.
Definition AVCTL_NAME_MAXLEN : nat := 63.

(** 0 is [true]. *)
Definition check_field_len (s : cstr) (max : nat) : bool :=
  match strchr s LF with
  | Some _ => false
  | None => negb (max <? length s)%nat
  end.

Definition check_algo (algo : cstr) : bool :=
  strcasecmp_eq algo (cs "md5") || strcasecmp_eq algo (cs "sha1") || strcasecmp_eq algo (cs "sha256").

Definition write_command_to (e : write_env) (path : proc_file) (cmd : cstr) (k : kernel) : Z * kernel :=
  match we_open e with
  | Some errno => (- errno, k)
  | None =>
      if negb (we_malloc e) then (- ENOMEM, k)
      else
        let '(written, k) := proc_write e path (cmd ++ [LF]) k in
        (if written <? 0 then written else 0, k)
  end.

Definition write_command (e : write_env) : cstr → kernel → Z * kernel := write_command_to e PROC_PATH.

(** [snprintf] into a buffer of [size] bytes, refused if cut short. *)
Definition fits (size : nat) (s : cstr) : bool := (length s <? size)%nat.

(** ** The listings *)

Definition list_line (header_algo : bool) (line : cstr) : cstr :=
  if header_algo then
    match sscanf_c [DWord 7; DBlank; DWord 64; DBlank; DSet 127 [LF]] (buf_str line) with
    | [FStr algo; FStr hex; FStr name] =>
        pad 8 algo ++ SPACE :: pad 64 hex ++ SPACE :: name ++ [LF]
    | _ => []
    end
  else
    match sscanf_c [DWord 64; DBlank; DSet 127 [LF]] (buf_str line) with
    | [FStr hex; FStr name] => pad 64 hex ++ SPACE :: name ++ [LF]
    | _ => []
    end.

(** [file]: what the file reads, if it can be opened.  No command asks [ferror]. *)
Definition do_list_generic (file : option stream) (header_algo : bool) : Z * cstr :=
  match file with
  | None => (1, [])
  | Some s =>
      let header :=
        if header_algo then pad 8 (cs "ALGO") ++ SPACE :: pad 64 (cs "HASH") ++ cs " NAME" ++ [LF]
        else pad 64 (cs "SHA256") ++ cs " NAME" ++ [LF] in
      (0, header ++ mjoin (list_line header_algo <$> stream_lines 512 s))
  end.

Definition protect_line (line : cstr) : cstr := chomp (buf_str line).

Definition do_protect_list (file : option stream) : Z * cstr :=
  match file with
  | None => (1, [])
  | Some s =>
      (0, cs "PROTECTED PATH" ++ [LF] ++
          mjoin ((λ line, match protect_line line with [] => [] | l => l ++ [LF] end) <$>
                   stream_lines (PATH_MAX + 8) s))
  end.

(** ** The commands that write *)

(** The exit status, what is printed, and the module after. *)
Definition said (r : Z * kernel) (text : cstr) : Z * cstr * kernel :=
  if negb (r.1 =? 0) then (1, [], r.2) else (0, text ++ [LF], r.2).

Definition refused (k : kernel) : Z * cstr * kernel := (1, [], k).

Definition do_add (e : write_env) (algo hex name : cstr) (k : kernel) : Z * cstr * kernel :=
  if negb (check_algo algo) then refused k
  else if negb (check_field_len hex AVCTL_HASH_HEX_MAXLEN) then refused k
  else if negb (check_field_len name AVCTL_NAME_MAXLEN) then refused k
  else
    let cmd := cs "add " ++ algo ++ SPACE :: hex ++ SPACE :: name in
    if negb (fits 256 cmd) then refused k
    else said (write_command e cmd k)
           (cs "added " ++ algo ++ cs " signature: " ++ hex ++ cs " (" ++ name ++ cs ")").

Definition do_del (e : write_env) (algo hex : cstr) (k : kernel) : Z * cstr * kernel :=
  if negb (check_algo algo) then refused k
  else if negb (check_field_len hex AVCTL_HASH_HEX_MAXLEN) then refused k
  else
    let cmd := cs "del " ++ algo ++ SPACE :: hex in
    if negb (fits 256 cmd) then refused k
    else said (write_command e cmd k) (cs "removed " ++ algo ++ cs " signature: " ++ hex).

(** The remaining arguments, joined by spaces in a buffer of 192 bytes. *)
Fixpoint join_name (first : bool) (args : list cstr) (name : cstr) : option cstr :=
  match args with
  | [] => Some name
  | arg :: args =>
      if (length name <? 191)%nat then
        let piece := (if first then [] else [SPACE]) ++ arg in
        if (192 - length name <=? length piece)%nat then None
        else join_name false args (name ++ piece)
      else Some name
  end.

Definition do_trust_add (e : write_env) (hex : cstr) (words : list cstr) (k : kernel)
    : Z * cstr * kernel :=
  if negb (check_field_len hex AVCTL_HASH_HEX_MAXLEN) then refused k
  else match join_name true words [] with
  | None => refused k
  | Some name =>
      if negb (check_field_len name AVCTL_NAME_MAXLEN) then refused k
      else
        let cmd := cs "add " ++ hex ++ SPACE :: name in
        if negb (fits 256 cmd) then refused k
        else said (write_command_to e TRUST_PROC_PATH cmd k)
               (cs "trusted: " ++ hex ++ cs " (" ++ name ++ cs ")")
  end.

Definition do_trust_del (e : write_env) (hex : cstr) (k : kernel) : Z * cstr * kernel :=
  if negb (check_field_len hex AVCTL_HASH_HEX_MAXLEN) then refused k
  else
    let cmd := cs "del " ++ hex in
    if negb (fits 256 cmd) then refused k
    else said (write_command_to e TRUST_PROC_PATH cmd k) (cs "untrusted: " ++ hex).

Definition do_protect_add (e : write_env) (path : cstr) (k : kernel) : Z * cstr * kernel :=
  if negb (match path with a :: _ => aeqb a SLASH | [] => false end) then refused k
  else if negb (check_field_len path (PATH_MAX - 1)) then refused k
  else
    let cmd := cs "add " ++ path in
    if negb (fits (PATH_MAX + 8) cmd) then refused k
    else said (write_command_to e PROTECTED_PROC_PATH cmd k) (cs "protected: " ++ path).

Definition do_protect_del (e : write_env) (path : cstr) (k : kernel) : Z * cstr * kernel :=
  if negb (check_field_len path (PATH_MAX - 1)) then refused k
  else
    let cmd := cs "del " ++ path in
    if negb (fits (PATH_MAX + 8) cmd) then refused k
    else said (write_command_to e PROTECTED_PROC_PATH cmd k) (cs "unprotected: " ++ path).

Definition do_policy_set (e : write_env) (value : cstr) (k : kernel) : Z * cstr * kernel :=
  if negb (strcmp_eq value (cs "fail-open")) && negb (strcmp_eq value (cs "fail-closed")) then refused k
  else said (write_command_to e POLICY_PROC_PATH value k) (cs "daemon-unavailable policy: " ++ value).

(** The first line, in a buffer of 32 bytes. *)
Definition do_policy_get (file : option stream) : Z * cstr :=
  match file with
  | None => (1, [])
  | Some s => (0, match stream_lines 32 s with line :: _ => buf_str line | [] => [] end)
  end.

(** ** What [save] writes *)

Definition SAVE_LINE : nat := (PATH_MAX + 16)%nat.

Definition save_header (path : cstr) : cstr :=
  cs "# kernel-av state dump - replay with: avctl load " ++ path ++ [LF].

Definition save_sig_line (line : cstr) : cstr :=
  match sscanf_c [DWord 7; DBlank; DWord 64; DBlank; DSet 127 [LF]] (buf_str line) with
  | [FStr algo; FStr hex; FStr name] =>
      cs "sig add " ++ algo ++ SPACE :: hex ++ SPACE :: name ++ [LF]
  | _ => []
  end.

Definition save_trust_line (line : cstr) : cstr :=
  match sscanf_c [DWord 64; DBlank; DSet 127 [LF]] (buf_str line) with
  | [FStr hex; FStr name] => cs "trust add " ++ hex ++ SPACE :: name ++ [LF]
  | _ => []
  end.

Definition save_protect_line (line : cstr) : cstr :=
  match protect_line line with [] => [] | l => cs "protect add " ++ l ++ [LF] end.

(** Only the first line. *)
Definition save_policy (lines : list cstr) : cstr :=
  match lines with
  | line :: _ => match protect_line line with [] => [] | l => cs "policy " ++ l ++ [LF] end
  | [] => []
  end.

(** Everything [do_save] prints into its stream, [out], if every file could
    be opened and read to its end. *)
Definition save_text (to_stdout : bool) (path : cstr) (k : kernel) : cstr :=
  (if to_stdout then [] else save_header path) ++
  mjoin (save_sig_line <$> fgets_lines SAVE_LINE (proc_read PROC_PATH k)) ++
  mjoin (save_trust_line <$> fgets_lines SAVE_LINE (proc_read TRUST_PROC_PATH k)) ++
  mjoin (save_protect_line <$> fgets_lines SAVE_LINE (proc_read PROTECTED_PROC_PATH k)) ++
  save_policy (fgets_lines SAVE_LINE (proc_read POLICY_PROC_PATH k)).

(** ** [load] *)

(** 0 is [true]. *)
Definition validate_sig_or_trust_fields (sig : bool) (rest : cstr) : bool :=
  if sig then
    match sscanf_c [DWord 7; DBlank; DWord 7; DBlank; DWord 511; DBlank; DSet 511 [LF]] rest with
    | FStr op :: FStr algo :: FStr field_a :: more =>
        check_algo algo && check_field_len field_a AVCTL_HASH_HEX_MAXLEN &&
        match more with FStr field_b :: _ => check_field_len field_b AVCTL_NAME_MAXLEN | _ => true end
    | _ => true
    end
  else
    match sscanf_c [DWord 7; DBlank; DWord 511; DBlank; DSet 511 [LF]] rest with
    | FStr op :: FStr field_a :: more =>
        check_field_len field_a AVCTL_HASH_HEX_MAXLEN &&
        match more with FStr field_b :: _ => check_field_len field_b AVCTL_NAME_MAXLEN | _ => true end
    | _ => true
    end.

(** The file a line is for, and what to write to it; [None]: an error. *)
Definition load_command (line : cstr) : option (proc_file * cstr) :=
  if strncmp_eq 4 line (cs "sig ") then
    let rest := drop 4 line in
    if validate_sig_or_trust_fields true rest then Some (PROC_PATH, rest) else None
  else if strncmp_eq 6 line (cs "trust ") then
    let rest := drop 6 line in
    if validate_sig_or_trust_fields false rest then Some (TRUST_PROC_PATH, rest) else None
  else if strncmp_eq 8 line (cs "protect ") then Some (PROTECTED_PROC_PATH, drop 8 line)
  else if strncmp_eq 7 line (cs "policy ") then Some (POLICY_PROC_PATH, drop 7 line)
  else None.

Record load_state := {
  ls_kernel : kernel; ls_out : cstr; ls_loaded : nat; ls_skipped : nat; ls_errors : nat;
}.

Definition load_error (s : load_state) : load_state :=
  {| ls_kernel := ls_kernel s; ls_out := ls_out s; ls_loaded := ls_loaded s;
     ls_skipped := ls_skipped s; ls_errors := S (ls_errors s) |}.

(** A command and its result. *)
Definition load_exec (e : write_env) (path : proc_file) (rest : cstr) (s : load_state) : load_state :=
  let '(ret, k) := write_command_to e path rest (ls_kernel s) in
  if ret =? - EEXIST then
    {| ls_kernel := k;
       ls_out := ls_out s ++ cs "already present, skipping: " ++ rest ++ [LF];
       ls_loaded := ls_loaded s; ls_skipped := S (ls_skipped s); ls_errors := ls_errors s |}
  else if negb (ret =? 0) then
    {| ls_kernel := k; ls_out := ls_out s; ls_loaded := ls_loaded s;
       ls_skipped := ls_skipped s; ls_errors := S (ls_errors s) |}
  else
    {| ls_kernel := k; ls_out := ls_out s; ls_loaded := S (ls_loaded s);
       ls_skipped := ls_skipped s; ls_errors := ls_errors s |}.

(** One complete line, without its newline. *)
Definition load_line (e : write_env) (line : cstr) (s : load_state) : load_state :=
  match line with
  | [] => s
  | a :: _ =>
      if aeqb a (chr 35) then s
      else match load_command line with
      | None => load_error s
      | Some (path, rest) => load_exec e path rest s
      end
  end.

(** The [fgets] loop; [env i] is what the write for the [i]th line meets. *)
Fixpoint load_loop (fuel : nat) (env : nat → write_env) (i : nat) (text : cstr) (s : load_state)
    : load_state :=
  match fuel, text with
  | S fuel, _ :: _ =>
      let '(raw, rest) := next_line (SAVE_LINE - 1) text in
      let line := buf_str raw in
      let split := match last line with Some c => negb (aeqb c LF) | None => false end in
      match split, rest with
      | true, _ :: _ =>
          (* drained up to the end of the line *)
          load_loop fuel env (S i) (default [] (strsep rest LF).2) (load_error s)
      | _, _ => load_loop fuel env (S i) rest (load_line (env i) (chomp line) s)
      end
  | _, _ => s
  end.

Definition print_nat (n : nat) : cstr := print_signed (Z.of_nat n).

(** [text]: the contents of the file, if it can be opened; after a read error, which [load] does not
    notice either, what came before it. *)
Definition do_load (env : nat → write_env) (text : option cstr) (k : kernel) : Z * cstr * kernel :=
  match text with
  | None => (1, [], k)
  | Some text =>
      let s := load_loop (length text) env 0 text
        {| ls_kernel := k; ls_out := []; ls_loaded := 0; ls_skipped := 0; ls_errors := 0 |} in
      (if (ls_errors s =? 0)%nat then 0 else 1,
       ls_out s ++ cs "loaded " ++ print_nat (ls_loaded s) ++ cs ", skipped " ++
         print_nat (ls_skipped s) ++ cs " (already present), " ++ print_nat (ls_errors s) ++
         cs " error" ++ (if (ls_errors s =? 1)%nat then [] else cs "s") ++ [LF],
       ls_kernel s)
  end.
End avctl.
