(* ===== verification/AvctlLoad.v ===== *)
(** * Saving and loading the module's state

    avctl's [save] and [load] (AvctlProc) against the module's own tables:
    what one writes, the other replays into any module that is running. *)

From Stdlib Require Import ZArith Lia Ascii String.
From stdpp Require Import prelude list gmap relations.
From S2P Require Import Prelude CString Hashtable SigTable AllowLists Exec Life CText Stdio AvctlProc.

Local Open Scope Z_scope.

Section load.
Context `{KernelHash}.

(** ** The module's state, abstractly *)

Definition kernel_ok (k : kernel) : Prop :=
  sig_inv (k_sigs k) ∧ Trust.trust_inv (k_trust k) ∧ Protect.protect_inv (k_protect k).

(** The trusted digests with their names, and the protected paths. *)
Definition trust_abs (k : kernel) : gmap cstr cstr :=
  Trust.te_name <$> ht_map Trust.te_hex (k_trust k).
Definition protect_abs (k : kernel) : gset cstr := dom (ht_map Protect.pe_path (k_protect k)).

Lemma protect_abs_elems k :
  protect_abs k = list_to_set (Protect.pe_path <$> hash_all (k_protect k)).
Proof. unfold protect_abs, ht_map. rewrite dom_list_to_map_L, <- list_fmap_compose. done. Qed.

(** A byte string without blanks. *)
Definition word (s : cstr) : Prop := s ≠ [] ∧ Forall (λ a, isspace a = false ∧ a ≠ NUL) s.

(** What the entries made through the /proc files look like. *)
Record texts (k : kernel) : Prop := {
  tx_sigs : map_Forall (λ _ n, name_line n) (sig_abs (k_sigs k));
  tx_trust : map_Forall (λ h n, word h ∧ name_line n ∧ (length n < 64)%nat) (trust_abs k);
  tx_protect : ∀ p, p ∈ protect_abs k →
    Protect.absolute p = true ∧ (length p < PATH_MAX)%nat ∧ (NUL ∉ p);
}.

(** A protected path that is a line of its own. *)
Definition path_line (p : cstr) : Prop := (LF ∉ p) ∧ last p ≠ Some CR.

(** ** Every state reached through the files is one *)

(** The tables as [av_init] leaves them. *)
Definition kernel_init (seeded : bool) : kernel :=
  {| k_sigs := (av_sigtable_add seeded AV_ALGO_SHA256 EICAR_SHA256 EICAR_NAME av_sigtable_init).2;
     k_trust := Trust.trust_table_init; k_protect := Protect.protected_table_init;
     k_fail_closed := false |}.

(** Somebody writes some bytes to one of the files. *)
Inductive kernel_step : kernel → kernel → Prop :=
  | step_write e p buf k : kernel_step k (proc_write e p buf k).2.

Lemma scan_field_spec p w s :
  let '(tok, rest) := scan_field p w s in
  s = tok ++ rest ∧ Forall (λ a, p a = true) tok ∧ (length tok ≤ w)%nat.
Proof.
  revert w. induction s as [|a s IH]; intros [|w]; simpl; try by (split_and!; [done|constructor|lia]).
  unfold scan_field. fold scan_field. destruct (p a) eqn:Hp; [|by (split_and!; [done|constructor|simpl; lia])].
  specialize (IH w). destruct (scan_field p w s) as [tok rest]. destruct IH as (-> & ? & ?).
  split_and!; [done|by constructor|simpl; lia].
Qed.

Lemma skip_spaces_spec s :
  ∃ pre, s = pre ++ skip_spaces s ∧
    match skip_spaces s with [] => True | a :: _ => isspace a = false end.
Proof.
  unfold skip_spaces. induction s as [|a s (pre & Hs & Hh)]; simpl; [by exists []|].
  destruct (isspace a) eqn:Ha; [|by exists []]. exists (a :: pre). split; [by rewrite Hs at 1|done].
Qed.

(** A word and a name out of the kernel's scan. *)
Lemma scan_word_fields w fmt s f fs :
  Forall (λ a, a ≠ NUL) s → sscanf (ConvS w :: fmt) s = f :: fs →
  Forall (λ a, isspace a = false ∧ a ≠ NUL) f ∧ (length f ≤ w)%nat ∧
  ∃ s', fs = sscanf fmt s' ∧ Forall (λ a, a ≠ NUL) s' ∧
    match s' with [] => True | a :: _ => isspace a = false end.
Proof.
  intros Hs. destruct s as [|a s]; [done|]. cbn [sscanf].
  destruct (skip_spaces_spec (a :: s)) as (pre & Hp & _). rewrite Hp in Hs.
  apply Forall_app in Hs as [_ Hs]. pose proof (scan_field_spec (λ a, negb (isspace a)) w (skip_spaces (a :: s))) as Hf.
  change (sscanf (ConvS w :: fmt) (a :: s)) with
    (let '(tok, rest) := scan_field (λ a, negb (isspace a)) w (skip_spaces (a :: s)) in
     tok :: sscanf fmt (skip_spaces rest)).
  destruct (scan_field _ w _) as [tok rest]. destruct Hf as (He & Htok & Hlen). rewrite He in Hs.
  apply Forall_app in Hs as [Ht Hr]. intros [= <- <-]. split_and!; [|done|].
  - apply Forall_and. split; [|done]. eapply Forall_impl; [exact Htok|]. by intros x ?%negb_true_iff.
  - exists (skip_spaces rest). destruct (skip_spaces_spec rest) as (pre' & Hp' & Hh).
    split_and!; [done| |done]. rewrite Hp' in Hr. by apply Forall_app in Hr as [_ ?].
Qed.

Lemma scan_name_fields w s f fs :
  (0 < w)%nat → Forall (λ a, a ≠ NUL) s → match s with [] => True | a :: _ => isspace a = false end →
  sscanf [ConvNotLf w] s = f :: fs → name_line f ∧ (length f ≤ w)%nat.
Proof.
  intros Hw Hs Hh. destruct s as [|a s]; [done|].
  change (sscanf [ConvNotLf w] (a :: s)) with
    (if aeqb a LF then [] else
     let '(tok, rest) := scan_field (λ a, negb (aeqb a LF)) w (a :: s) in
     tok :: sscanf [] (skip_spaces rest)).
  destruct (aeqb a LF) eqn:Ha; [done|].
  pose proof (scan_field_spec (λ a, negb (aeqb a LF)) w (a :: s)) as Hf.
  assert (∃ tok, (scan_field (λ a, negb (aeqb a LF)) w (a :: s)).1 = a :: tok) as [tok' Htok'].
  { destruct w as [|w]; [lia|]. unfold scan_field. fold scan_field. rewrite Ha. cbn [negb].
    destruct (scan_field _ w s) as [tok rest]. by exists tok. }
  destruct (scan_field _ w _) as [tok rest]. destruct Hf as (He & Htok & Hlen). simpl in Htok'. subst tok.
  intros [= <- _]. rewrite He in Hs. apply Forall_app in Hs as [Ht _]. split; [|done]. split; [done|].
  apply Forall_and. split; [|done]. eapply Forall_impl; [exact Htok|].
  intros x Hx. by apply negb_true_iff, aeqb_neq in Hx.
Qed.

Lemma buf_str_nul b : Forall (λ a, a ≠ NUL) (buf_str b).
Proof.
  eapply Forall_impl; [apply take_while_Forall|]. intros a Ha. by apply negb_true_iff, aeqb_neq in Ha.
Qed.

Lemma name_line_strscpy n size :
  name_line n → (length n < size)%nat → strscpy n size = n.
Proof. intros _. apply strscpy_fit. Qed.

Lemma sig_write_texts cap km count b st :
  sig_inv st → map_Forall (λ _ n, name_line n) (sig_abs st) →
  map_Forall (λ _ n, name_line n) (sig_abs (sig_proc_write cap km count (Some b) st).2).
Proof.
  intros Hinv Hn. unfold sig_proc_write.
  destruct cap; [|done]. cbn [negb]. destruct (256 <=? count); [done|].
  destruct (sscanf _ _) as [|cmd [|algo_str [|hex more]]] eqn:Hscan; try done.
  destruct (parse_algo algo_str) as [algo|]; [|done].
  apply scan_word_fields in Hscan as (_&_&s1&Hscan&Hs1&_); [|apply buf_str_nul].
  symmetry in Hscan. apply scan_word_fields in Hscan as (_&_&s2&Hscan&Hs2&_); [|done].
  symmetry in Hscan. apply scan_word_fields in Hscan as (_&_&s3&->&Hs3&Hh3); [|done].
  destruct (strcasecmp_eq cmd (cs "add")).
  - destruct (sscanf _ s3) as [|name more] eqn:Hname; [done|].
    apply scan_name_fields in Hname as [Hname Hlen]; [|lia|done|done].
    pose proof (sigtable_add_spec km algo hex name st Hinv) as Hadd.
    destruct (av_sigtable_add _ _ _ _ _) as [r st']. destruct Hadd as [_ Hadd]. cbn [snd].
    assert (sig_abs st' = (spec_add km algo hex name (sig_abs st)).2) as -> by (by rewrite Hadd).
    clear Hh3. unfold spec_add. repeat case_match; cbn [snd]; try done. apply map_Forall_insert_2; [|done].
    rewrite strscpy_fit; [done|]. unfold AV_SIG_NAME_LEN. lia.
  - destruct (strcasecmp_eq cmd (cs "del")); [|done].
    unfold av_sigtable_del. destruct (hash_del_first _ _ _) as [t|] eqn:Hdel; [|done]. cbn [snd].
    destruct (ht_del_any sig_key sig_bkt _ _ _ _ _ (si_ht _ Hinv) (hash_min_range _ _) Hdel)
      as (e&_&_&_&_&Hm&_).
    unfold sig_abs. cbn [sig_table]. rewrite Hm, fmap_delete. by apply map_Forall_delete.
Qed.

Lemma trust_write_texts cap km count b t :
  Trust.trust_inv t →
  let ok h n := word h ∧ name_line n ∧ (length n < 64)%nat in
  map_Forall ok (Trust.te_name <$> ht_map Trust.te_hex t) →
  let '(_, t') := Trust.trust_proc_write cap km count (Some b) t in
  Trust.trust_inv t' ∧ map_Forall ok (Trust.te_name <$> ht_map Trust.te_hex t').
Proof.
  intros Hinv ok Hn. unfold Trust.trust_proc_write.
  destruct cap; [|done]. cbn [negb]. destruct (192 <=? count); [done|].
  destruct (sscanf _ _) as [|cmd [|hex more]] eqn:Hscan; try done.
  apply scan_word_fields in Hscan as (_&_&s1&Hscan&Hs1&_); [|apply buf_str_nul].
  symmetry in Hscan. apply scan_word_fields in Hscan as (Hhex&_&s2&->&Hs2&Hh2); [|done].
  destruct (strcasecmp_eq cmd (cs "add")).
  - destruct (sscanf _ s2) as [|name more] eqn:Hname; [done|].
    apply scan_name_fields in Hname as [Hname Hlen]; [|lia|done|done].
    destruct (Trust.av_behavior_trust_add km hex name t) as [r t'] eqn:Hadd.
    pose proof (Trust.trust_add_law _ _ _ _ _ _ Hinv Hadd) as [Hinv' Hm]. split; [done|].
    rewrite Hm. case_decide as Hr; [|done]. subst r. rewrite fmap_insert.
    apply map_Forall_insert_2; [|done]. cbn [Trust.te_name].
    rewrite strscpy_fit by (unfold TRUST_NAME_LEN; lia).
    split_and!; [|done|lia].
    assert (length hex = SHA256_HEX_LEN) as Hl.
    { unfold Trust.av_behavior_trust_add in Hadd.
      by destruct (Nat.eqb_spec (length hex) SHA256_HEX_LEN). }
    split; [destruct hex; [done|by intros ?]|]. unfold Trust.hex_tolower. apply Forall_fmap.
    eapply Forall_impl; [exact Hhex|]. intros a [Ha Hz]. cbn [compose].
    by destruct a as [[] [] [] [] [] [] [] []].
  - destruct (strcasecmp_eq cmd (cs "del")); [|done].
    destruct (Trust.av_behavior_trust_del hex t) as [r t'] eqn:Hdel.
    pose proof (Trust.trust_del_law _ _ _ _ Hinv Hdel) as [Hinv' Hm]. split; [done|].
    rewrite Hm. case_decide; [|done]. rewrite fmap_delete. by apply map_Forall_delete.
Qed.

Lemma protect_write_texts cap a1 a2 a3 count b t :
  Protect.protect_inv t →
  let ok p := Protect.absolute p = true ∧ (length p < PATH_MAX)%nat ∧ NUL ∉ p in
  (∀ p, p ∈ dom (ht_map Protect.pe_path t) → ok p) →
  let '(_, t') := Protect.protected_proc_write cap a1 a2 a3 0 count (Some b) t in
  Protect.protect_inv t' ∧ ∀ p, p ∈ dom (ht_map Protect.pe_path t') → ok p.
Proof.
  intros Hinv ok Hn. unfold Protect.protected_proc_write.
  destruct cap; [|done]. cbn [negb]. change (negb (0 =? 0)) with false. cbv iota.
  destruct (Protect.PROTECTED_WRITE_MAXLEN <=? count); [done|].
  destruct (negb (a1 && a2)); [done|].
  destruct (sscanf _ _) as [|cmd more]; [done|].
  destruct (Protect.protected_operand (buf_str b)) as [path|] eqn:Hop; [|done].
  assert (NUL ∉ path) as Hnul.
  { unfold Protect.protected_operand in Hop. set (rest := drop_while Protect.is_blank _) in Hop.
    assert (rest `suffix_of` buf_str b) as [pre Hpre].
    { etrans; [apply drop_while_suffix|]. apply drop_while_suffix. }
    pose proof (buf_str_nul b) as Hb. rewrite Hpre in Hb. apply Forall_app in Hb as [_ Hb].
    rewrite <- Forall_reverse in Hb.
    destruct (reverse rest) as [|a r]; [done|]. apply Forall_cons in Hb as [_ Hb].
    destruct (negb (aeqb a LF)); [done|].
    set (r' := match r with [] => [] | b :: r' => if aeqb b CR then r' else r end) in Hop.
    assert (Forall (λ a, a ≠ NUL) r') as Hr.
    { unfold r'. destruct r as [|x r]; [done|]. destruct (aeqb x CR); [|done]. by apply Forall_cons in Hb as [_ ?]. }
    destruct (_ || _); [done|]. injection Hop as <-. unfold strscpy.
    intros (i & Hin & _)%elem_of_take. apply list_elem_of_lookup_2 in Hin.
    rewrite <- Forall_reverse, Forall_forall in Hr. by eapply Hr. }
  destruct (strcasecmp_eq cmd (cs "add")).
  - destruct (Protect.av_behavior_protect_add a3 path t) as [r t'] eqn:Hadd.
    pose proof (Protect.protect_add_law _ _ _ _ _ Hinv Hadd) as [Hinv' Hm]. split; [done|].
    rewrite Hm. case_decide as Hr; [|done]. subst r. intros p.
    rewrite dom_insert, elem_of_union, elem_of_singleton. intros [->|?]; [|by apply Hn].
    unfold Protect.av_behavior_protect_add in Hadd.
    destruct (Protect.absolute path) eqn:Habs; cbn [negb orb] in Hadd; [|done].
    destruct (Nat.leb_spec PROTECTED_PATH_LEN (length path)); [done|]. by split_and!.
  - destruct (strcasecmp_eq cmd (cs "del")); [|done].
    destruct (Protect.av_behavior_protect_del path t) as [r t'] eqn:Hdel.
    pose proof (Protect.protect_del_law _ _ _ _ Hinv Hdel) as [Hinv' Hm]. split; [done|].
    rewrite Hm. case_decide; [|done]. intros p. rewrite dom_delete, elem_of_difference.
    intros [? _]. by apply Hn.
Qed.

Lemma kernel_init_ok seeded : kernel_ok (kernel_init seeded) ∧ texts (kernel_init seeded).
Proof.
  pose proof (sigtable_add_spec seeded AV_ALGO_SHA256 EICAR_SHA256 EICAR_NAME av_sigtable_init
    sig_inv_init) as Hs.
  assert (∀ m, map_Forall (λ _ n, name_line n) m →
    map_Forall (λ _ n, name_line n) (spec_add seeded AV_ALGO_SHA256 EICAR_SHA256 EICAR_NAME m).2) as Hm.
  { intros m Hm. unfold spec_add. repeat case_match; try done. apply map_Forall_insert_2; [|done].
    split; [done|]. by repeat constructor. }
  specialize (Hm (sig_abs av_sigtable_init) ltac:(rewrite sig_abs_init; apply map_Forall_empty)).
  unfold kernel_init. destruct (av_sigtable_add _ _ _ _ _) as [r st]. destruct Hs as [Hinv Hspec].
  rewrite Hspec in Hm. split.
  - split_and!; [done|apply Trust.trust_inv_init|apply Protect.protect_inv_init].
  - split; [exact Hm| |].
    + unfold trust_abs. cbn [k_trust]. unfold Trust.trust_table_init. rewrite ht_init_map, fmap_empty.
      apply map_Forall_empty.
    + unfold protect_abs. cbn [k_protect]. unfold Protect.protected_table_init. rewrite ht_init_map, dom_empty_L.
      by intros p ?%elem_of_empty.
Qed.

(** The invariant of all the states that writes to the files reach. *)
Lemma reachable_texts seeded k :
  rtc kernel_step (kernel_init seeded) k → kernel_ok k ∧ texts k.
Proof.
  intros Hr. apply (rtc_ind_r (R := kernel_step) (λ k, kernel_ok k ∧ texts k) (kernel_init seeded));
    [apply kernel_init_ok| |done].
  intros ? ? _ [e p buf k'] [(Hs & Ht & Hp) [Xs Xt Xp]]. unfold proc_write. destruct p.
  - pose proof (sig_proc_write_inv (we_capable e) (we_kmalloc e) (Z.of_nat (length buf)) (Some buf) _ Hs) as Hi.
    pose proof (sig_write_texts (we_capable e) (we_kmalloc e) (Z.of_nat (length buf)) buf _ Hs Xs) as Hx.
    destruct (sig_proc_write _ _ _ _ _) as [r st]. by split; [split_and!|split].
  - pose proof (trust_write_texts (we_capable e) (we_kmalloc e) (Z.of_nat (length buf)) buf _ Ht Xt) as Hx.
    destruct (Trust.trust_proc_write _ _ _ _ _) as [r t]. destruct Hx. by split; [split_and!|split].
  - pose proof (protect_write_texts (we_capable e) (we_kmalloc e) (we_kmalloc e) (we_kmalloc e)
      (Z.of_nat (length buf)) buf _ Hp Xp) as Hx.
    destruct (Protect.protected_proc_write _ _ _ _ _ _ _ _) as [r t]. destruct Hx. by split; [split_and!|split].
  - destruct (daemon_policy_proc_write _ _ _ _) as [r b]. by split; [split_and!|split].
Qed.

(** ** The saved lines *)

Definition sig_text (e : av_sig_entry) : cstr :=
  algo_names (se_algo e) ++ SPACE :: se_hex e ++ SPACE :: se_name e.
Definition trust_text (e : Trust.av_trust_entry) : cstr := Trust.te_hex e ++ SPACE :: Trust.te_name e.
Definition policy_text (b : bool) : cstr := if b then cs "fail-closed" else cs "fail-open".

Definition saved_lines (k : kernel) : list cstr :=
  ((λ e, cs "sig add " ++ sig_text e) <$> hash_all (sig_table (k_sigs k))) ++
  ((λ e, cs "trust add " ++ trust_text e) <$> hash_all (k_trust k)) ++
  ((λ e, cs "protect add " ++ Protect.pe_path e) <$> hash_all (k_protect k)) ++
  [cs "policy " ++ policy_text (k_fail_closed k)].

(** What can be saved. *)
Record savable (k : kernel) : Prop := {
  sv_ok : kernel_ok k;
  sv_texts : texts k;
  sv_lines : ∀ p, p ∈ protect_abs k → path_line p;
}.

Record sig_saved (e : av_sig_entry) : Prop := {
  ss_wf : sig_entry_wf e; ss_name : name_line (se_name e); 
}.
Record trust_saved (e : Trust.av_trust_entry) : Prop := {
  ts_len : length (Trust.te_hex e) = SHA256_HEX_LEN;
  ts_lower : Trust.hex_tolower (Trust.te_hex e) = Trust.te_hex e;
  ts_word : word (Trust.te_hex e);
  ts_name : name_line (Trust.te_name e);
  ts_short : (length (Trust.te_name e) < 64)%nat;
}.
Record path_saved (p : cstr) : Prop := {
  ps_abs : Protect.absolute p = true;
  ps_len : (length p < PATH_MAX)%nat;
  ps_clean : clean p;
  ps_cr : last p ≠ Some CR;
}.

Lemma saved_sigs k e : savable k → e ∈ hash_all (sig_table (k_sigs k)) → sig_saved e.
Proof.
  intros [(Hs & _ & _) [Xs _ _] _] He. split; [by apply (si_wf _ Hs)|].
  apply (Xs (sig_key e)). unfold sig_abs. rewrite lookup_fmap.
  apply (ht_map_elem _ _ _ _ _ (si_ht _ Hs)) in He. by rewrite He.
Qed.

Lemma saved_trust k e : savable k → e ∈ hash_all (k_trust k) → trust_saved e.
Proof.
  intros [(_ & Ht & _) [_ Xt _] _] He. pose proof He as He'.
  apply (ht_map_elem _ _ _ _ _ (Trust.ti_ht _ Ht)) in He'.
  destruct (Xt (Trust.te_hex e) (Trust.te_name e)) as (Hw & Hn & Hl).
  { unfold trust_abs. by rewrite lookup_fmap, He'. }
  split; [by apply (Trust.ti_len _ Ht)|by apply (Trust.ti_lower _ Ht)|done..].
Qed.

Lemma saved_path k e : savable k → e ∈ hash_all (k_protect k) → path_saved (Protect.pe_path e).
Proof.
  intros [(_ & _ & Hp) [_ _ Xp] Hl] He.
  apply (ht_map_elem _ _ _ _ _ Hp) in He.
  assert (Protect.pe_path e ∈ protect_abs k) as Hin by (apply elem_of_dom; by eexists).
  destruct (Xp _ Hin) as (Habs & Hlen & Hnul), (Hl _ Hin) as [Hlf Hcr].
  split; [done..| |done]. apply Forall_forall. intros a Ha. split; by intros ->.
Qed.

Lemma join_concat (ls : list cstr) : mjoin ls = concat ls.
Proof. induction ls as [|l ls IH]; csimpl; [done|]. by rewrite IH. Qed.

Lemma clean_word s : word s → clean s.
Proof.
  intros [_ Hf]. eapply Forall_impl; [exact Hf|]. intros a [Hs Hn]. split; [by intros ->|done].
Qed.

Lemma clean_name n : name_line n → clean n.
Proof. by intros [_ ?]. Qed.

Lemma path_max_big : (200 < PATH_MAX)%nat.
Proof. apply Nat.ltb_lt. by vm_compute. Qed.

(** One listing, line by line. *)
Lemma save_part {A} (f : A → cstr) (g : cstr → cstr) pre (l : list A) :
  (∀ x, x ∈ l → clean (f x) ∧ (length (f x) < SAVE_LINE - 1)%nat ∧
    g (line_of (f x)) = line_of (pre ++ f x)) →
  mjoin (g <$> fgets_lines SAVE_LINE (mjoin (line_of <$> (f <$> l)))) =
  mjoin (line_of <$> ((λ x, pre ++ f x) <$> l)).
Proof.
  intros Hl. rewrite fgets_lines_spec.
  - induction l as [|x l IH]; csimpl; [done|].
    destruct (Hl x) as (_ & _ & Hg); [by left|]. rewrite Hg. f_equal. apply IH. intros y Hy. apply Hl. by right.
  - apply Forall_fmap, Forall_forall. intros x Hx. by destruct (Hl x Hx) as (? & ? & _).
Qed.

Lemma algo_word a : a ≠ AV_ALGO_COUNT → word (algo_names a).
Proof. destruct a; [..|done]; intros _; (split; [done|]); by repeat constructor. Qed.

Lemma word_space_c s : word s → Forall (λ a, isspace_c a = false) s.
Proof. intros [_ Hf]. eapply Forall_impl; [exact Hf|]. intros a [? _]. by apply isspace_c_kernel. Qed.

Lemma hex_word e : sig_entry_wf e → word (se_hex e) ∧ (length (se_hex e) ≤ 64)%nat ∧ se_algo e ≠ AV_ALGO_COUNT.
Proof.
  intros Hwf. destruct (hex_wf_word _ _ (sew_hex _ Hwf)) as (Ha & Hne & Hlen & Hf).
  split_and!; [split; [done|]|done|done]. eapply Forall_impl; [exact Hf|].
  intros a [? Hn]. split; [done|]. by apply aeqb_neq in Hn.
Qed.


Lemma skip_word s t : word s → skip_space (s ++ t) = s ++ t.
Proof.
  intros Hw. apply skip_space_id. pose proof (word_space_c _ Hw) as Hf. destruct Hw as [Hne _].
  destruct s as [|a s]; [done|]. by apply Forall_inv in Hf.
Qed.

Lemma skip_name s t : name_line s → skip_space (s ++ t) = s ++ t.
Proof.
  intros [Hh _]. apply skip_space_id. destruct s as [|a s]; [done|]. by apply isspace_c_kernel.
Qed.

Lemma scan_word_sp w fmt s t :
  word s → (length s ≤ w)%nat →
  sscanf_c (DWord w :: DBlank :: fmt) (s ++ SPACE :: t) = FStr s :: sscanf_c fmt (skip_space t).
Proof.
  intros Hw Hl. rewrite scan_word; [done|apply Hw|by apply word_space_c|done|done].
Qed.

Lemma scan_name_lf w s t :
  name_line s → (length s ≤ w)%nat → sscanf_c [DSet w [LF]] (s ++ LF :: t) = [FStr s].
Proof.
  intros [Hh Hf] Hl. rewrite scan_set; [done|by destruct s| |done|by left].
  eapply Forall_impl; [exact Hf|]. intros a [Ha _] Hin. by apply list_elem_of_singleton in Hin.
Qed.

Lemma save_sig_ok e : sig_saved e →
  clean (sig_text e) ∧ (length (sig_text e) < SAVE_LINE - 1)%nat ∧
  save_sig_line (line_of (sig_text e)) = line_of (cs "sig add " ++ sig_text e).
Proof.
  intros [Hwf Hn]. destruct (hex_word _ Hwf) as (Hw & Hlen & Ha). pose proof (algo_word _ Ha) as Haw.
  assert (length (algo_names (se_algo e)) ≤ 7)%nat as Hal by (destruct (se_algo e); vm_compute; lia).
  assert (clean (sig_text e)) as Hc.
  { unfold sig_text. apply clean_app. split; [by apply clean_word|]. apply Forall_cons. split; [done|].
    apply clean_app. split; [by apply clean_word|]. apply Forall_cons. split; [done|by apply clean_name]. }
  pose proof (sew_name _ Hwf) as Hnl. unfold AV_SIG_NAME_LEN in Hnl. pose proof path_max_big.
  split_and!; [done| |].
  - unfold sig_text, SAVE_LINE. rewrite !length_app. cbn [length]. rewrite length_app. cbn [length]. lia.
  - unfold save_sig_line. rewrite buf_str_line by done. unfold line_of, sig_text.
    rewrite <- !(assoc_L (++)). cbn [app]. rewrite <- !(assoc_L (++)). cbn [app].
    rewrite scan_word_sp, skip_word, scan_word_sp, skip_name, scan_name_lf by (done || lia). done.
Qed.

Lemma save_trust_ok e : trust_saved e →
  clean (trust_text e) ∧ (length (trust_text e) < SAVE_LINE - 1)%nat ∧
  save_trust_line (line_of (trust_text e)) = line_of (cs "trust add " ++ trust_text e).
Proof.
  intros [Hlen _ Hw Hn Hnl]. unfold SHA256_HEX_LEN in Hlen. pose proof path_max_big.
  assert (clean (trust_text e)) as Hc.
  { unfold trust_text. apply clean_app. split; [by apply clean_word|]. apply Forall_cons.
    split; [done|by apply clean_name]. }
  split_and!; [done| |].
  - unfold trust_text, SAVE_LINE. rewrite length_app. cbn [length]. lia.
  - unfold save_trust_line. rewrite buf_str_line by done. unfold line_of, trust_text.
    rewrite <- !(assoc_L (++)). cbn [app].
    rewrite scan_word_sp, skip_name, scan_name_lf by (done || lia). done.
Qed.

Lemma protect_line_ok p : clean p → protect_line (line_of p) = p.
Proof. intros Hc. by apply chomp_line. Qed.

Lemma save_protect_ok p : path_saved p →
  clean p ∧ (length p < SAVE_LINE - 1)%nat ∧
  save_protect_line (line_of p) = line_of (cs "protect add " ++ p).
Proof.
  intros [Habs Hlen Hc _]. split_and!; [done|unfold SAVE_LINE; lia|].
  unfold save_protect_line. rewrite protect_line_ok by done. by destruct p.
Qed.

(** What is saved, in full. *)
Lemma save_text_lines to_stdout path k :
  savable k →
  save_text to_stdout path k =
  (if to_stdout then [] else save_header path) ++ mjoin (line_of <$> saved_lines k).
Proof.
  intros Hk. unfold save_text, saved_lines. f_equal. rewrite !fmap_app, !join_app.
  unfold proc_read, sig_proc_show, Trust.trust_proc_show, Protect.protected_proc_show.
  rewrite <- !join_concat. f_equal; [|f_equal; [|f_equal]].
  - rewrite <- (save_part sig_text save_sig_line); [|intros; by eapply save_sig_ok, saved_sigs].
    do 4 f_equal. rewrite <- list_fmap_compose. apply list_fmap_ext. intros i e _. cbn [compose].
    unfold sig_line, sig_text, line_of. rewrite <- !(assoc_L (++)). cbn [app]. by rewrite <- (assoc_L (++)).
  - rewrite <- (save_part trust_text save_trust_line); [|intros; by eapply save_trust_ok, saved_trust].
    do 4 f_equal. rewrite <- list_fmap_compose. apply list_fmap_ext. intros i e _. cbn [compose].
    unfold trust_text, line_of. by rewrite <- !(assoc_L (++)).
  - rewrite <- (save_part Protect.pe_path save_protect_line); [|intros; by eapply save_protect_ok, saved_path].
    do 4 f_equal. rewrite <- list_fmap_compose. by apply list_fmap_ext.
  - unfold save_policy. by destruct (k_fail_closed k).
Qed.

(** ** Replaying lines *)

Fixpoint load_all (env : nat → write_env) (i : nat) (ls : list cstr) (s : load_state) : load_state :=
  match ls with [] => s | l :: ls => load_all env (S i) ls (load_line (env i) l s) end.

Lemma load_all_app env i ls1 ls2 s :
  load_all env i (ls1 ++ ls2) s = load_all env (i + length ls1) ls2 (load_all env i ls1 s).
Proof.
  revert i s. induction ls1 as [|l ls1 IH]; intros i s; simpl; [by rewrite Nat.add_0_r|].
  by rewrite IH, Nat.add_succ_r.
Qed.

Definition short_line (l : cstr) : Prop := clean l ∧ (length l < SAVE_LINE - 1)%nat.

Lemma load_loop_lines env ls fuel i s :
  Forall short_line ls → (length ls ≤ fuel)%nat →
  load_loop fuel env i (mjoin (line_of <$> ls)) s = load_all env i ls s.
Proof.
  intros Hls. revert fuel i s. induction Hls as [|l ls [Hc Hl] _ IH]; intros fuel i s Hf; csimpl.
  { by destruct fuel. }
  destruct fuel as [|fuel]; [simpl in Hf; lia|]. unfold line_of at 1.
  rewrite <- (assoc_L (++)). cbn [app load_loop].
  destruct (l ++ LF :: mjoin (line_of <$> ls)) as [|a t] eqn:Hs; [by destruct l|]. rewrite <- Hs.
  rewrite next_line_clean by done. change (l ++ [LF]) with (line_of l).
  assert (chomp (buf_str (line_of l)) = l) as -> by (by apply chomp_line).
  rewrite buf_str_line by done. unfold line_of at 1. rewrite last_snoc, aeqb_refl. cbn [negb]. apply IH. simpl in Hf. lia.
Qed.

(** Everything goes well. *)
Record env_fine (e : write_env) : Prop := {
  ef_open : we_open e = None; ef_malloc : we_malloc e = true; ef_capable : we_capable e = true;
  ef_kmalloc : we_kmalloc e = true;
}.

Lemma write_fine e p cmd k :
  env_fine e → write_command_to e p cmd k =
  let '(r, k') := proc_write e p (cmd ++ [LF]) k in (if r <? 0 then r else 0, k').
Proof. intros [Ho Hm _ _]. unfold write_command_to. by rewrite Ho, Hm. Qed.

Lemma strchr_notin s c : c ∉ s → strchr s c = None.
Proof.
  induction s as [|a s IH]; [done|]. rewrite not_elem_of_cons. intros [Hne Hs]. simpl.
  destruct (aeqb a c) eqn:Ha; [by apply aeqb_eq in Ha|auto].
Qed.

Lemma field_ok s max : clean s → (length s ≤ max)%nat → check_field_len s max = true.
Proof.
  intros Hc Hl. unfold check_field_len. rewrite strchr_notin.
  - by rewrite (proj2 (Nat.ltb_ge _ _)).
  - intros Hin. unfold clean in Hc. rewrite Forall_forall in Hc. by destruct (Hc LF Hin).
Qed.

Lemma scan_name_end w s :
  name_line s → (length s ≤ w)%nat → sscanf_c [DSet w [LF]] s = [FStr s].
Proof.
  intros [Hh Hf] Hl. rewrite <- (app_nil_r s) at 1. rewrite scan_set; [done|by destruct s| |done|done].
  eapply Forall_impl; [exact Hf|]. intros a [Ha _] Hin. by apply list_elem_of_singleton in Hin.
Qed.

Lemma skip_word_end s : word s → skip_space s = s.
Proof. intros. rewrite <- (app_nil_r s). by apply skip_word. Qed.
Lemma skip_name_end s : name_line s → skip_space s = s.
Proof. intros. rewrite <- (app_nil_r s). by apply skip_name. Qed.

Lemma add_word : word (cs "add").
Proof. split; [done|]. by repeat constructor. Qed.

Lemma load_command_sig e :
  sig_saved e → load_command (cs "sig add " ++ sig_text e) = Some (PROC_PATH, cs "add " ++ sig_text e).
Proof.
  intros [Hwf Hn]. destruct (hex_word _ Hwf) as (Hw & Hlen & Ha). pose proof (algo_word _ Ha) as Haw.
  pose proof (sew_name _ Hwf) as Hnl. unfold AV_SIG_NAME_LEN in Hnl.
  assert (length (algo_names (se_algo e)) ≤ 7)%nat as Hal by (destruct (se_algo e); vm_compute; lia).
  unfold load_command.
  change (strncmp_eq 4 (cs "sig add " ++ sig_text e) (cs "sig ")) with true. cbv iota zeta.
  change (drop 4 (cs "sig add " ++ sig_text e)) with (cs "add " ++ sig_text e).
  unfold validate_sig_or_trust_fields. change (cs "add " ++ sig_text e) with (cs "add" ++ SPACE :: sig_text e).
  pose proof add_word. unfold sig_text.
  rewrite scan_word_sp, skip_word, scan_word_sp, skip_word, scan_word_sp, skip_name_end, scan_name_end
    by (done || lia || (vm_compute; lia)).
  assert (check_algo (algo_names (se_algo e)) = true) as -> by (by destruct (se_algo e)).
  rewrite !field_ok; [done|by apply clean_name|unfold AVCTL_NAME_MAXLEN; lia|by apply clean_word|done].
Qed.

Lemma load_command_trust e :
  trust_saved e → load_command (cs "trust add " ++ trust_text e) = Some (TRUST_PROC_PATH, cs "add " ++ trust_text e).
Proof.
  intros [Hlen _ Hw Hn Hnl]. unfold SHA256_HEX_LEN in Hlen. unfold load_command.
  change (strncmp_eq 4 (cs "trust add " ++ trust_text e) (cs "sig ")) with false.
  change (strncmp_eq 6 (cs "trust add " ++ trust_text e) (cs "trust ")) with true. cbv iota zeta.
  change (drop 6 (cs "trust add " ++ trust_text e)) with (cs "add" ++ SPACE :: trust_text e).
  unfold validate_sig_or_trust_fields. pose proof add_word. unfold trust_text.
  rewrite scan_word_sp, skip_word, scan_word_sp, skip_name_end, scan_name_end by (done || lia || (vm_compute; lia)).
  rewrite !field_ok; [done|by apply clean_name|unfold AVCTL_NAME_MAXLEN; lia|by apply clean_word|].
  unfold AVCTL_HASH_HEX_MAXLEN. lia.
Qed.

Lemma union_singleton `{Countable K} {V} (m : gmap K V) k v :
  m ∪ {[k := v]} = match m !! k with Some _ => m | None => <[k := v]> m end.
Proof.
  destruct (m !! k) as [v'|] eqn:Hk.
  - apply map_eq. intros i. rewrite lookup_union. destruct (decide (k = i)) as [<-|Hne].
    + by rewrite Hk, lookup_singleton_eq.
    + rewrite lookup_singleton_ne by done. by rewrite (right_id_L None (∪)).
  - by rewrite insert_union_singleton_r.
Qed.

Lemma load_line_exec env line p rest s :
  load_command line = Some (p, rest) → load_line env line s = load_exec env p rest s.
Proof.
  intros Hc. unfold load_line. destruct line as [|a line]; [done|].
  destruct (aeqb a (chr 35)) eqn:Ha; [by apply aeqb_eq in Ha as ->|]. by rewrite Hc.
Qed.

(** One line of each kind. *)
Lemma load_sig env e s :
  env_fine env → sig_saved e → sig_inv (k_sigs (ls_kernel s)) →
  let m := sig_abs (k_sigs (ls_kernel s)) in
  Z.of_nat (size (m ∪ {[sig_key e := se_name e]})) ≤ MAX_SIG_ENTRIES →
  ∃ st', ls_kernel (load_line env (cs "sig add " ++ sig_text e) s) = with_sigs st' (ls_kernel s) ∧
    ls_errors (load_line env (cs "sig add " ++ sig_text e) s) = ls_errors s ∧
    sig_inv st' ∧ sig_abs st' = m ∪ {[sig_key e := se_name e]}.
Proof.
  intros He Hsaved Hinv m Hroom. pose proof (load_command_sig e Hsaved) as Hcmd. destruct Hsaved as [Hwf Hn].
  rewrite (load_line_exec _ _ _ _ _ Hcmd). unfold load_exec. rewrite write_fine by done. unfold proc_write.
  destruct He as [_ _ -> ->].
  assert ((cs "add " ++ sig_text e) ++ [LF] = sig_add_line e) as ->.
  { unfold sig_add_line, sig_line, sig_text. change (cs "add ") with (cs "add" ++ [SPACE]).
    repeat (rewrite <- !(assoc_L (++)); cbn [app]). done. }
  rewrite sig_write_add by done.
  pose proof (sigtable_add_spec true (se_algo e) (se_hex e) (se_name e) _ Hinv) as Hs.
  destruct (av_sigtable_add _ _ _ _ _) as [r st']. destruct Hs as [Hinv' Hs].
  unfold spec_add in Hs. rewrite (sew_hex _ Hwf), (sew_lower _ Hwf), strscpy_fit in Hs by apply Hwf.
  cbn [negb] in Hs. fold m in Hs. change (se_algo e, se_hex e) with (sig_key e) in Hs.
  rewrite union_singleton in *. exists st'.
  destruct (m !! sig_key e) as [n|] eqn:Hk.
  - injection Hs as <- Hm. by split_and!.
  - rewrite map_size_insert_None in Hroom by done.
    rewrite (proj2 (Z.leb_gt _ _)) in Hs by lia. injection Hs as <- Hm. change (0 =? 0) with true. cbv iota.
    rewrite (proj2 (Z.ltb_ge _ _)) by lia. by split_and!.
Qed.

Lemma load_trust env e s :
  env_fine env → trust_saved e → Trust.trust_inv (k_trust (ls_kernel s)) →
  let m := trust_abs (ls_kernel s) in
  ∃ t', ls_kernel (load_line env (cs "trust add " ++ trust_text e) s) = with_trust t' (ls_kernel s) ∧
    ls_errors (load_line env (cs "trust add " ++ trust_text e) s) =
      (ls_errors s + if decide (is_Some (m !! Trust.te_hex e)) then 1 else 0)%nat ∧
    Trust.trust_inv t' ∧
    trust_abs (with_trust t' (ls_kernel s)) = m ∪ {[Trust.te_hex e := Trust.te_name e]}.
Proof.
  intros He Hsaved Hinv m. pose proof (load_command_trust e Hsaved) as Hcmd.
  destruct Hsaved as [Hlen Hlow Hw Hn Hnl].
  rewrite (load_line_exec _ _ _ _ _ Hcmd). unfold load_exec. rewrite write_fine by done. unfold proc_write.
  destruct He as [_ _ -> ->].
  assert ((cs "add " ++ trust_text e) ++ [LF] = cs "add" ++ SPACE :: Trust.te_hex e ++ SPACE :: Trust.te_name e ++ [LF]) as ->.
  { unfold trust_text. change (cs "add ") with (cs "add" ++ [SPACE]).
    repeat (rewrite <- !(assoc_L (++)); cbn [app]). done. }
  unfold SHA256_HEX_LEN in Hlen.
  rewrite Trust.trust_write_add; [|apply Hw|lia|apply Hw|by destruct Hn, (Trust.te_name e)|lia|apply Hn|by destruct Hn, (Trust.te_name e)].
  destruct (Trust.av_behavior_trust_add _ _ _ _) as [r t'] eqn:Hadd.
  destruct (Trust.trust_add_law _ _ _ _ _ _ Hinv Hadd) as [Hinv' Hm].
  assert (r = if decide (is_Some (m !! Trust.te_hex e)) then - EEXIST else 0) as ->.
  { unfold Trust.av_behavior_trust_add in Hadd. unfold SHA256_HEX_LEN in Hadd. rewrite Hlen in Hadd.
    change (negb (64 =? 64)%nat) with false in Hadd. cbn [negb] in Hadd.
    rewrite (strscpy_fit (Trust.te_hex e)), Hlow in Hadd by lia.
    rewrite (Trust.trust_find_same _ _ Hinv) in Hadd by (done || unfold SHA256_HEX_LEN; lia).
    unfold m, trust_abs. rewrite lookup_fmap.
    destruct (ht_map Trust.te_hex (k_trust (ls_kernel s)) !! Trust.te_hex e) as [x|] eqn:Hx; simplify_eq.
    - by rewrite decide_True.
    - by rewrite decide_False by (by intros [? ?]). }
  exists t'. rewrite Hlow in Hm. rewrite union_singleton.
  unfold trust_abs at 1. cbn [k_trust with_trust]. rewrite Hm.
  destruct (decide (is_Some (m !! Trust.te_hex e))) as [[n Hk]|Hk].
  - rewrite Hk. cbn. rewrite Nat.add_1_r. by split_and!.
  - apply eq_None_not_Some in Hk. rewrite Hk, decide_True by done. change (0 =? 0) with true. cbv iota.
    rewrite (proj2 (Z.ltb_ge _ _)) by lia. rewrite fmap_insert. cbn [Trust.te_name].
    rewrite strscpy_fit by done. cbn. rewrite Nat.add_0_r. by split_and!.
Qed.

Lemma load_protect env p s :
  env_fine env → path_saved p → Protect.protect_inv (k_protect (ls_kernel s)) →
  ∃ t', ls_kernel (load_line env (cs "protect add " ++ p) s) = with_protect t' (ls_kernel s) ∧
    ls_errors (load_line env (cs "protect add " ++ p) s) = ls_errors s ∧
    Protect.protect_inv t' ∧
    protect_abs (with_protect t' (ls_kernel s)) = protect_abs (ls_kernel s) ∪ {[p]}.
Proof.
  intros He [Habs Hlen Hc Hcr] Hinv.
  rewrite (load_line_exec _ _ PROTECTED_PROC_PATH (cs "add " ++ p)) by done.
  unfold load_exec. rewrite write_fine by done. unfold proc_write. destruct He as [_ _ -> ->].
  change (cs "add ") with (cs "add" ++ [SPACE]). rewrite <- !(assoc_L (++)). cbn [app].
  rewrite Protect.protected_write_add; [|done..| |].
  2: { eapply Forall_impl; [exact Hc|]. by intros a [_ ?]. }
  2: { unfold Protect.PROTECTED_WRITE_MAXLEN. rewrite length_app. cbn [length]. rewrite length_app.
       change (length (cs "add")) with 3%nat. cbn [length]. lia. }
  destruct (Protect.av_behavior_protect_add true p _) as [r t'] eqn:Hadd.
  destruct (Protect.protect_add_law _ _ _ _ _ Hinv Hadd) as [Hinv' Hm].
  assert (r = if decide (p ∈ protect_abs (ls_kernel s)) then - EEXIST else 0) as ->.
  { unfold Protect.av_behavior_protect_add in Hadd. rewrite Habs in Hadd. cbn [negb orb] in Hadd.
    unfold PROTECTED_PATH_LEN in Hadd. rewrite (proj2 (Nat.leb_gt _ _)) in Hadd by done.
    cbn [negb orb] in Hadd. rewrite strscpy_fit in Hadd by done. cbn [Protect.pe_path] in Hadd.
    rewrite Protect.path_find_same in Hadd by done. unfold protect_abs.
    destruct (ht_map Protect.pe_path (k_protect (ls_kernel s)) !! p) as [x|] eqn:Hx; simplify_eq.
    - rewrite decide_True; [done|]. apply elem_of_dom. by eexists.
    - rewrite decide_False; [done|]. by apply not_elem_of_dom. }
  apply (f_equal dom) in Hm. change (dom (ht_map Protect.pe_path t')) with
    (protect_abs (with_protect t' (ls_kernel s))) in Hm.
  exists t'. rewrite Hm. destruct (decide (p ∈ protect_abs (ls_kernel s))) as [Hin|Hin].
  - split_and!; [done..|]. rewrite decide_False by done. fold (protect_abs (ls_kernel s)).
    rewrite (comm_L (∪)). symmetry. by apply subseteq_union_1_L, singleton_subseteq_l.
  - change (0 =? 0) with true. cbv iota. rewrite (proj2 (Z.ltb_ge _ _)) by lia.
    split_and!; [done..|]. rewrite decide_True by done. rewrite dom_insert_L.
    fold (protect_abs (ls_kernel s)). by rewrite (comm_L (∪)).
Qed.

Lemma load_policy env b s :
  env_fine env →
  ls_kernel (load_line env (cs "policy " ++ policy_text b) s) = with_policy b (ls_kernel s) ∧
  ls_errors (load_line env (cs "policy " ++ policy_text b) s) = ls_errors s.
Proof.
  intros He. rewrite (load_line_exec _ _ POLICY_PROC_PATH (policy_text b)) by (by destruct b).
  unfold load_exec. rewrite write_fine by done. unfold proc_write. by destruct b.
Qed.

(** ** All the lines of a kind *)

Lemma load_sigs env i l s :
  (∀ j, env_fine (env j)) → (∀ e, e ∈ l → sig_saved e) → sig_inv (k_sigs (ls_kernel s)) →
  let m := sig_abs (k_sigs (ls_kernel s)) in
  let add := list_to_map ((λ e, (sig_key e, se_name e)) <$> l) in
  NoDup (sig_key <$> l) → Z.of_nat (size (m ∪ add)) ≤ MAX_SIG_ENTRIES →
  let s' := load_all env i ((λ e, cs "sig add " ++ sig_text e) <$> l) s in
  ∃ st', ls_kernel s' = with_sigs st' (ls_kernel s) ∧ ls_errors s' = ls_errors s ∧
    sig_inv st' ∧ sig_abs st' = m ∪ add.
Proof.
  intros He. revert i s. induction l as [|e l IH]; intros i s Hl Hinv m add Hnd Hroom.
  { exists (k_sigs (ls_kernel s)). unfold add. csimpl. rewrite (right_id_L ∅ (∪)).
    split_and!; [by destruct (ls_kernel s)|done..]. }
  csimpl in Hnd. apply NoDup_cons in Hnd as [Hne Hnd].
  set (add' := list_to_map ((λ e, (sig_key e, se_name e)) <$> l) : gmap (av_algo * cstr) cstr).
  assert (add = {[sig_key e := se_name e]} ∪ add') as Hadd.
  { unfold add. csimpl. by rewrite insert_union_singleton_l. }
  assert (m ∪ add = m ∪ {[sig_key e := se_name e]} ∪ add') as Hma by (by rewrite Hadd, (assoc_L (∪))).
  destruct (load_sig (env i) e s) as (st1 & Hk1 & He1 & Hinv1 & Habs1); [done|by apply Hl; left|done| |].
  { fold m. rewrite Hma in Hroom. etrans; [|exact Hroom]. apply inj_le, map_subseteq_size, map_union_subseteq_l. }
  fold m in Habs1. rewrite fmap_cons. cbn [load_all]. set (s1 := load_line _ _ s) in *.
  assert (k_sigs (ls_kernel s1) = st1) as Hs1 by (by rewrite Hk1).
  destruct (IH (S i) s1) as (st' & Hk & Herr & Hinv' & Habs).
  - intros; apply Hl; by right.
  - by rewrite Hs1.
  - done.
  - rewrite Hs1, Habs1. fold add'. by rewrite <- Hma.
  - exists st'. rewrite Hk, Hk1, Herr, He1. split_and!; [done..|].
    rewrite Habs, Hs1, Habs1, Hma. done.
Qed.

Lemma load_trusts env i l s :
  (∀ j, env_fine (env j)) → (∀ e, e ∈ l → trust_saved e) → Trust.trust_inv (k_trust (ls_kernel s)) →
  let m := trust_abs (ls_kernel s) in
  let add := list_to_map ((λ e, (Trust.te_hex e, Trust.te_name e)) <$> l) in
  NoDup (Trust.te_hex <$> l) →
  let s' := load_all env i ((λ e, cs "trust add " ++ trust_text e) <$> l) s in
  ∃ t', ls_kernel s' = with_trust t' (ls_kernel s) ∧ (ls_errors s ≤ ls_errors s')%nat ∧
    (ls_errors s' = ls_errors s ↔ m ##ₘ add) ∧
    Trust.trust_inv t' ∧ trust_abs (ls_kernel s') = m ∪ add.
Proof.
  intros He. revert i s. induction l as [|e l IH]; intros i s Hl Hinv m add Hnd.
  { exists (k_trust (ls_kernel s)). unfold add. csimpl. rewrite (right_id_L ∅ (∪)).
    split_and!; [by destruct (ls_kernel s)|done| |done..]. split; [intros _; apply map_disjoint_empty_r|done]. }
  csimpl in Hnd. apply NoDup_cons in Hnd as [Hne Hnd].
  set (add' := list_to_map ((λ e, (Trust.te_hex e, Trust.te_name e)) <$> l) : gmap cstr cstr).
  assert (add' !! Trust.te_hex e = None) as Hnone.
  { apply not_elem_of_list_to_map_1. by rewrite <- list_fmap_compose. }
  assert (add = {[Trust.te_hex e := Trust.te_name e]} ∪ add') as Hadd.
  { unfold add. csimpl. by rewrite insert_union_singleton_l. }
  destruct (load_trust (env i) e s) as (t1 & Hk1 & He1 & Hinv1 & Habs1); [done|by apply Hl; left|done|].
  fold m in He1, Habs1. rewrite fmap_cons. cbn [load_all]. set (s1 := load_line _ _ s) in *. rewrite <- Hk1 in Habs1.
  destruct (IH (S i) s1) as (t' & Hk & Hle & Herr & Hinv' & Habs); [|by rewrite Hk1|done|].
  { intros; apply Hl; by right. }
  exists t'. rewrite Hk at 1. rewrite Hk1 at 1. split_and!; [done|lia| |done|].
  - fold add' in Herr. rewrite Habs1, map_disjoint_union_l in Herr. rewrite Hadd, map_disjoint_union_r.
    rewrite map_disjoint_singleton_l in Herr. rewrite map_disjoint_singleton_r.
    destruct (decide (is_Some (m !! Trust.te_hex e))) as [[n Hn]|Hn].
    + split; [lia|]. intros [Hx _]. congruence.
    + apply eq_None_not_Some in Hn. rewrite Nat.add_0_r in He1. rewrite <- He1, Herr. tauto.
  - rewrite Habs, Habs1. by rewrite Hadd, (assoc_L (∪)).
Qed.

Lemma load_protects env i l s :
  (∀ j, env_fine (env j)) → (∀ p, p ∈ l → path_saved p) → Protect.protect_inv (k_protect (ls_kernel s)) →
  let s' := load_all env i ((λ p, cs "protect add " ++ p) <$> l) s in
  ∃ t', ls_kernel s' = with_protect t' (ls_kernel s) ∧ ls_errors s' = ls_errors s ∧
    Protect.protect_inv t' ∧ protect_abs (ls_kernel s') = protect_abs (ls_kernel s) ∪ list_to_set l.
Proof.
  intros He. revert i s. induction l as [|p l IH]; intros i s Hl Hinv.
  { exists (k_protect (ls_kernel s)). csimpl. rewrite (right_id_L ∅ (∪)).
    split_and!; [by destruct (ls_kernel s)|done..]. }
  destruct (load_protect (env i) p s) as (t1 & Hk1 & He1 & Hinv1 & Habs1); [done|by apply Hl; left|done|].
  rewrite fmap_cons. cbn [load_all]. set (s1 := load_line _ _ s) in *. rewrite <- Hk1 in Habs1.
  destruct (IH (S i) s1) as (t' & Hk & Herr & Hinv' & Habs); [|by rewrite Hk1|].
  { intros; apply Hl; by right. }
  exists t'. rewrite Hk at 1. rewrite Hk1 at 1. split_and!; [done|by rewrite Herr|done|].
  rewrite Habs, Habs1. cbn [list_to_set]. by rewrite (assoc_L (∪)).
Qed.

(** ** The whole file *)

Definition HEADER : cstr := cs "# kernel-av state dump - replay with: avctl load ".

(** The path given to [save], which is written into the first line. *)
Definition header_fits (path : cstr) : Prop :=
  clean path ∧ (length HEADER + length path < SAVE_LINE - 1)%nat.

Lemma load_header env path s : load_line env (HEADER ++ path) s = s.
Proof. done. Qed.

Lemma clean_prefix p s : clean_check p = true → clean s → clean (p ++ s).
Proof. intros Hp Hs. apply clean_app. split; [by apply clean_check_sound|done]. Qed.

Lemma saved_lines_short k : savable k → Forall short_line (saved_lines k).
Proof.
  intros Hk. pose proof path_max_big as Hbig. unfold saved_lines. rewrite !Forall_app, !Forall_fmap, !Forall_forall.
  split_and!.
  - intros e He. destruct (save_sig_ok _ (saved_sigs _ _ Hk He)) as (Hc & _). split; [by apply clean_prefix|].
    destruct (saved_sigs _ _ Hk He) as [Hwf _]. destruct (hex_word _ Hwf) as (_ & Hh & _).
    pose proof (sew_name _ Hwf) as Hn. unfold AV_SIG_NAME_LEN in Hn.
    assert (length (algo_names (se_algo e)) ≤ 7)%nat as Hal by (destruct (se_algo e); vm_compute; lia).
    cbn [compose]. unfold sig_text, SAVE_LINE. repeat (rewrite length_app || cbn [length]).
    change (length (cs "sig add ")) with 8%nat. lia.
  - intros e He. pose proof (saved_trust _ _ Hk He) as Hs. destruct (save_trust_ok _ Hs) as (Hc & _).
    split; [by apply clean_prefix|]. destruct Hs as [Hl _ _ _ Hn]. unfold SHA256_HEX_LEN in Hl.
    cbn [compose]. unfold trust_text, SAVE_LINE. repeat (rewrite length_app || cbn [length]).
    change (length (cs "trust add ")) with 10%nat. lia.
  - intros e He. destruct (saved_path _ _ Hk He) as [_ Hl Hc _]. split; [by apply clean_prefix|].
    cbn [compose]. unfold SAVE_LINE. rewrite length_app. change (length (cs "protect add ")) with 12%nat. lia.
  - intros x ->%list_elem_of_singleton. split; [by destruct (k_fail_closed k); apply clean_check_sound|].
    apply Nat.ltb_lt. by destruct (k_fail_closed k); vm_compute.
Qed.

(** What replaying the saved lines does. *)
Lemma load_saved env i k s :
  (∀ j, env_fine (env j)) → savable k → kernel_ok (ls_kernel s) →
  let k0 := ls_kernel s in
  Z.of_nat (size (sig_abs (k_sigs k0) ∪ sig_abs (k_sigs k))) ≤ MAX_SIG_ENTRIES →
  let s' := load_all env i (saved_lines k) s in
  let k' := ls_kernel s' in
  kernel_ok k' ∧ sig_abs (k_sigs k') = sig_abs (k_sigs k0) ∪ sig_abs (k_sigs k) ∧
  trust_abs k' = trust_abs k0 ∪ trust_abs k ∧ protect_abs k' = protect_abs k0 ∪ protect_abs k ∧
  k_fail_closed k' = k_fail_closed k ∧
  (ls_errors s' = ls_errors s ↔ trust_abs k0 ##ₘ trust_abs k).
Proof.
  intros He Hk (Hs0 & Ht0 & Hp0) k0 Hroom. destruct (sv_ok _ Hk) as (Hs & Ht & Hp).
  assert (sig_abs (k_sigs k) = list_to_map ((λ e, (sig_key e, se_name e)) <$> hash_all (sig_table (k_sigs k)))) as Hsa.
  { unfold sig_abs, ht_map. by rewrite <- list_to_map_fmap, <- list_fmap_compose. }
  assert (trust_abs k = list_to_map ((λ e, (Trust.te_hex e, Trust.te_name e)) <$> hash_all (k_trust k))) as Hta.
  { unfold trust_abs, ht_map. by rewrite <- list_to_map_fmap, <- list_fmap_compose. }
  pose proof (protect_abs_elems k) as Hpa.
  unfold saved_lines. rewrite !load_all_app.
  destruct (load_sigs env i (hash_all (sig_table (k_sigs k))) s) as (t1 & Hk1 & He1 & Hi1 & Ha1);
    [done|intros; by eapply saved_sigs|done|apply (si_ht _ Hs)|by rewrite <- Hsa|].
  set (s1 := load_all _ _ _ s) in *.
  match goal with |- context [load_all env ?j _ s1] =>
    destruct (load_trusts env j (hash_all (k_trust k)) s1) as (t2 & Hk2 & _ & He2 & Hi2 & Ha2) end;
    [done|intros; by eapply saved_trust|by rewrite Hk1|apply (Trust.ti_ht _ Ht)|].
  set (s2 := load_all env _ _ s1) in *.
  rewrite (list_fmap_compose Protect.pe_path (λ p, cs "protect add " ++ p)).
  match goal with |- context [load_all env ?j _ s2] =>
    destruct (load_protects env j (Protect.pe_path <$> hash_all (k_protect k)) s2) as (t3 & Hk3 & He3 & Hi3 & Ha3) end;
    [done|intros ? (e & -> & ?)%list_elem_of_fmap; by eapply saved_path|by rewrite Hk2, Hk1|].
  set (s3 := load_all env _ _ s2) in *. cbn [load_all].
  match goal with |- context [load_line (env ?j) _ s3] =>
    destruct (load_policy (env j) (k_fail_closed k) s3) as [Hk4 He4] end; [done|].
  rewrite He4, He3, <- He1, He2, Hk4.
  assert (trust_abs (ls_kernel s1) = trust_abs k0) as Ht1 by (by rewrite Hk1).
  assert (protect_abs (ls_kernel s2) = protect_abs k0) as Hp2 by (by rewrite Hk2, Hk1).
  split_and!.
  - rewrite Hk3, Hk2, Hk1. by split_and!.
  - rewrite Hk3, Hk2, Hk1. cbn. by rewrite Ha1, Hsa.
  - rewrite Hk3. change (trust_abs (ls_kernel s2) = trust_abs k0 ∪ trust_abs k). by rewrite Ha2, Ht1, Hta.
  - change (protect_abs (ls_kernel s3) = protect_abs k0 ∪ protect_abs k). by rewrite Ha3, Hp2, Hpa.
  - done.
  - by rewrite Ht1, Hta.
Qed.

Lemma save_load_spec to_stdout env path k k0 :
  savable k → kernel_ok k0 → (∀ i, env_fine (env i)) → (to_stdout = false → header_fits path) →
  Z.of_nat (size (sig_abs (k_sigs k0) ∪ sig_abs (k_sigs k))) ≤ MAX_SIG_ENTRIES →
  ∃ s, do_load env (Some (save_text to_stdout path k)) k0 =
    (if (ls_errors s =? 0)%nat then 0 else 1, (do_load env (Some (save_text to_stdout path k)) k0).1.2,
     ls_kernel s) ∧
    (∃ i, s = load_all env i (saved_lines k)
      {| ls_kernel := k0; ls_out := []; ls_loaded := 0; ls_skipped := 0; ls_errors := 0 |}).
Proof.
  intros Hk Hk0 He Hpath Hroom. rewrite save_text_lines by done. unfold do_load.
  set (s0 := {| ls_kernel := k0; ls_out := []; ls_loaded := 0; ls_skipped := 0; ls_errors := 0 |}).
  pose proof (saved_lines_short k Hk) as Hshort.
  assert (∃ ls, (if to_stdout then [] else save_header path) ++ mjoin (line_of <$> saved_lines k) =
    mjoin (line_of <$> ls) ∧ Forall short_line ls ∧
    ∃ i, load_all env 0 ls s0 = load_all env i (saved_lines k) s0) as (ls & -> & Hls & i & Hi).
  { destruct to_stdout; [by exists (saved_lines k); eauto|].
    exists ((HEADER ++ path) :: saved_lines k). destruct (Hpath eq_refl) as [Hc Hl]. split_and!.
    - csimpl. by f_equal.
    - constructor; [|done]. split; [by apply clean_prefix|]. by rewrite length_app.
    - exists 1%nat. cbn [load_all]. by rewrite load_header. }
  rewrite load_loop_lines; [|done|apply lines_length]. rewrite Hi. eexists. split; [reflexivity|by exists i].
Qed.

(** C3: a saved state can be merged into any running module.  Whatever writes the module's files
    have seen, as long as no protected path contains a newline or ends in a carriage return: what
    [avctl save] writes, [avctl load] replays into the running module without losing or changing an
    entry, if the calls of avctl and of the module succeed ([env_fine]), the signature table has room
    for the entries of both and, for a file, the path fits the line of the header.  The tables then
    hold every signature, trusted digest and protected path of both, where both had a signature or a
    digest under the name the running module had it under, and the policy is the saved one; so a
    module without entries ends with the saved ones.  The exit status is 0 if and only if no saved
    trusted digest was there already.  Without those conditions entries are lost, see
    [LoadExamples.newline_path] and [LoadExamples.long_header]. *)
Theorem save_load_restores seeded seeded0 env path k k0 to_stdout :
  rtc kernel_step (kernel_init seeded) k → (∀ p, p ∈ protect_abs k → path_line p) →
  rtc kernel_step (kernel_init seeded0) k0 → (∀ i, env_fine (env i)) →
  (to_stdout = false → header_fits path) →
  Z.of_nat (size (sig_abs (k_sigs k0) ∪ sig_abs (k_sigs k))) ≤ MAX_SIG_ENTRIES →
  let '(ret, _, k') := do_load env (Some (save_text to_stdout path k)) k0 in
  kernel_ok k' ∧ sig_abs (k_sigs k') = sig_abs (k_sigs k0) ∪ sig_abs (k_sigs k) ∧
  trust_abs k' = trust_abs k0 ∪ trust_abs k ∧ protect_abs k' = protect_abs k0 ∪ protect_abs k ∧
  k_fail_closed k' = k_fail_closed k ∧
  (ret = 0 ↔ trust_abs k0 ##ₘ trust_abs k).
Proof.
  intros [Hok Htx]%reachable_texts Hlines [Hok0 _]%reachable_texts He Hpath Hroom.
  assert (savable k) as Hk by by split.
  destruct (save_load_spec to_stdout env path k k0) as (s & -> & i & ->); [done..|].
  destruct (load_saved env i k
    {| ls_kernel := k0; ls_out := []; ls_loaded := 0; ls_skipped := 0; ls_errors := 0 |})
    as (? & ? & ? & ? & ? & Herr); [done..|].
  split_and!; [done..|]. cbn [ls_errors ls_kernel] in Herr. rewrite <- Herr.
  destruct (Nat.eqb_spec (ls_errors (load_all env i (saved_lines k)
    {| ls_kernel := k0; ls_out := []; ls_loaded := 0; ls_skipped := 0; ls_errors := 0 |})) 0); done.
Qed.
End load.

(** ** Examples *)

Module LoadExamples.
Import ToyHash.

Definition fine : write_env := {| we_open := None; we_malloc := true; we_capable := true; we_kmalloc := true |}.
Definition do_writes (l : list (proc_file * cstr)) (k : kernel) : kernel :=
  foldl (λ k x, (proc_write fine x.1 (x.2 ++ [LF]) k).2) k l.

Definition digest : cstr := cs "275a021bbfb6489e54d471899f7db9d1663fc695ec2fe2a2c4538aabf651fd0e".
Definition saved : kernel :=
  do_writes [(PROC_PATH, cs "add md5 44D88612FEA8A8F36DE82E1278ABB02F old EICAR");
             (TRUST_PROC_PATH, cs "add " ++ digest ++ cs " My Program");
             (PROTECTED_PROC_PATH, cs "add /usr/bin/with space");
             (POLICY_PROC_PATH, cs "fail-closed")] (kernel_init true).

Lemma do_writes_reach l k0 k :
  rtc kernel_step k0 k → rtc kernel_step k0 (do_writes l k).
Proof.
  revert k. induction l as [|x l IH]; intros k Hr; [done|]. apply IH.
  eapply rtc_r; [done|]. constructor.
Qed.

Example saved_text : save_text false (cs "/root/s") saved =
  cs "# kernel-av state dump - replay with: avctl load /root/s" ++ [LF] ++
  cs "sig add md5 44d88612fea8a8f36de82e1278abb02f old EICAR" ++ [LF] ++
  cs "sig add sha256 275a021bbfb6489e54d471899f7db9d1663fc695ec2fe2a2c4538aabf651fd0f EICAR-Test-File" ++ [LF] ++
  cs "trust add 275a021bbfb6489e54d471899f7db9d1663fc695ec2fe2a2c4538aabf651fd0e My Program" ++ [LF] ++
  cs "protect add /usr/bin/with space" ++ [LF] ++ cs "policy fail-closed" ++ [LF].
Proof. vm_compute. reflexivity. Qed.

(** Into a module just loaded: one signature is there already. *)
Example loaded :
  (do_load (λ _, fine) (Some (save_text false (cs "/root/s") saved)) (kernel_init true)).1 =
  (0, cs "already present, skipping: add sha256 275a021bbfb6489e54d471899f7db9d1663fc695ec2fe2a2c4538aabf651fd0f EICAR-Test-File" ++
      [LF] ++ cs "loaded 4, skipped 1 (already present), 0 errors" ++ [LF]).
Proof. vm_compute. reflexivity. Qed.

(** Loading the same file twice fails: the kernel answers EINVAL, not EEXIST, for the trusted digest. *)
Example load_twice :
  let text := Some (save_text false (cs "/root/s") saved) in
  let k := (do_load (λ _, fine) text (kernel_init true)).2 in
  (do_load (λ _, fine) text k).1.1 = 1.
Proof. vm_compute. reflexivity. Qed.

(** A path with a newline is saved as two lines, and only its first part comes back. *)
Example newline_path :
  let k := (proc_write fine PROTECTED_PROC_PATH (cs "add /a" ++ [LF] ++ cs "b" ++ [LF]) (kernel_init true)).2 in
  let k' := (do_load (λ _, fine) (Some (save_text true [] k)) (kernel_init true)).2 in
  Protect.path_is_on_protected_list (k_protect k) (cs "/a" ++ [LF] ++ cs "b") = true ∧
  Protect.path_is_on_protected_list (k_protect k') (cs "/a" ++ [LF] ++ cs "b") = false ∧
  Protect.path_is_on_protected_list (k_protect k') (cs "/a") = true.
Proof. by vm_compute. Qed.

(** A save to a path of over 4061 bytes has a first line that [load] counts as an error. *)
Example long_header :
  (do_load (λ _, fine) (Some (save_text false (replicate 4062 SLASH) (kernel_init true))) (kernel_init true)).1.1 = 1 ∧
  (do_load (λ _, fine) (Some (save_text false (replicate 4061 SLASH) (kernel_init true))) (kernel_init true)).1.1 = 0.
Proof. by vm_compute. Qed.

Lemma save_load_restores_witness :
  let '(ret, _, k') := do_load (λ _, fine) (Some (save_text false (cs "/root/s") saved)) (kernel_init true) in
  trust_abs k' = trust_abs (kernel_init true) ∪ trust_abs saved ∧ k_fail_closed k' = true ∧
  (ret = 0 ↔ trust_abs (kernel_init true) ##ₘ trust_abs saved).
Proof.
  assert (hash_all (k_protect saved) = [{| Protect.pe_path := cs "/usr/bin/with space" |}]) as Hp
    by (vm_compute; reflexivity).
  assert (∀ p, p ∈ protect_abs saved → path_line p) as Hlines.
  { intros p. rewrite protect_abs_elems, Hp. csimpl. rewrite elem_of_union, elem_of_empty, elem_of_singleton.
    intros [->|[]]. split; [|by vm_compute]. by apply (bool_decide_unpack (LF ∉ cs "/usr/bin/with space")). }
  assert (∀ _ : nat, env_fine fine) as He by (intros _; by split).
  assert (false = false → header_fits (cs "/root/s")) as Hh.
  { intros _. split; [by apply clean_check_sound|]. apply Nat.ltb_lt. by vm_compute. }
  assert ((Z.of_nat (size (sig_abs (k_sigs (kernel_init true)) ∪ sig_abs (k_sigs saved))) <=? MAX_SIG_ENTRIES) = true) as Hz
    by (vm_compute; reflexivity).
  apply Z.leb_le in Hz.
  pose proof (save_load_restores true true (λ _, fine) (cs "/root/s") saved (kernel_init true) false
    (do_writes_reach _ _ _ (rtc_refl _ _)) Hlines (rtc_refl _ _) He Hh Hz) as Hs.
  destruct (do_load _ _ _) as [[ret out] k']. destruct Hs as (_ & _ & Ht & _ & Hf & Hr).
  split; [exact Ht|]. split; [|exact Hr]. rewrite Hf. vm_compute. reflexivity.
Defined.
End LoadExamples.
