(* ===== verification/AvctlCommands.v ===== *)
(** * What the commands of avctl do to the module

    The seven commands of AvctlProc that write one line: each changes the
    module's tables exactly as its arguments say, or fails and changes
    nothing. *)

From Stdlib Require Import ZArith Lia Ascii String.
From stdpp Require Import prelude list gmap.
From S2P Require Import Prelude CString Hashtable SigTable AllowLists Exec CText Stdio AvctlProc AvctlLoad.

Local Open Scope Z_scope.

Section commands.
Context `{KernelHash}.

(** ** Lines as the module scans them *)

Lemma sscanf_word_any w fmt tok s :
  word tok → (length tok ≤ w)%nat → match s with [] => True | a :: _ => isspace a = true end →
  sscanf (ConvS w :: fmt) (tok ++ s) = tok :: sscanf fmt (skip_spaces s).
Proof.
  intros [Hne Hf] Hw Hs. destruct tok as [|a tok]; [done|].
  change (sscanf (ConvS w :: fmt) ((a :: tok) ++ s)) with
    (let '(t, rest) := scan_field (λ a, negb (isspace a)) w (skip_spaces ((a :: tok) ++ s)) in
     t :: sscanf fmt (skip_spaces rest)).
  rewrite skip_spaces_id by (by apply Forall_cons in Hf as [[? _] _]).
  rewrite scan_field_app; [done| |done|].
  - eapply Forall_impl; [exact Hf|]. by intros x [-> _].
  - destruct s as [|b s]; [done|]. by rewrite Hs.
Qed.

Lemma skip_word_k s t : word s → skip_spaces (SPACE :: s ++ t) = s ++ t.
Proof.
  intros [Hne Hf]. change (skip_spaces (s ++ t) = s ++ t). apply skip_spaces_id.
  destruct s as [|a s]; [done|]. by apply Forall_cons in Hf as [[? _] _].
Qed.

Lemma buf_clean s : clean s → buf_str (s ++ [LF]) = s ++ [LF].
Proof. apply buf_str_line. Qed.

Lemma isspace_tolower a : isspace (tolower a) = isspace a ∧ (tolower a = NUL ↔ a = NUL).
Proof.
  destruct a as [[] [] [] [] [] [] [] []]; (split; [reflexivity|]); vm_compute; (split; congruence).
Qed.

Lemma word_tolower s t : tolower <$> s = tolower <$> t → word t → word s.
Proof.
  intros Heq [Hne Hf]. split; [by intros ->; destruct t|]. revert t Heq Hne Hf.
  induction s as [|a s IH]; intros [|b t] [=] Hne Hf; [constructor|].
  apply Forall_cons in Hf as [[Hb Hn] Hf]. constructor.
  - destruct (isspace_tolower a) as [Ha Hz], (isspace_tolower b) as [Hb' Hz']. split; [congruence|].
    intros Han. apply Hn, Hz'. apply Hz in Han. congruence.
  - destruct t as [|c t]; [by destruct s|]. by eapply IH.
Qed.

Lemma parse_algo_word algo a :
  parse_algo algo = Some a → word algo ∧ (length algo ≤ 7)%nat ∧ check_algo algo = true.
Proof.
  unfold parse_algo, check_algo.
  assert (∀ s, word s → (length s ≤ 7)%nat → strcasecmp_eq algo s = true →
    word algo ∧ (length algo ≤ 7)%nat) as Hw.
  { intros s Hs Hl Heq%strcasecmp_eq_spec. split; [by eapply word_tolower|].
    by rewrite <- (length_fmap tolower), Heq, length_fmap. }
  assert (∀ b, b ≠ AV_ALGO_COUNT → word (algo_names b) ∧ (length (algo_names b) ≤ 7)%nat) as Hn.
  { intros b Hb. split; [by apply algo_word|]. destruct b; vm_compute; lia. }
  destruct (Hn AV_ALGO_MD5) as [? ?], (Hn AV_ALGO_SHA1) as [? ?], (Hn AV_ALGO_SHA256) as [? ?]; try done.
  destruct (strcasecmp_eq algo (cs "md5")) eqn:Hmd5.
  { intros _. by destruct (Hw (cs "md5")). }
  destruct (strcasecmp_eq algo (cs "sha1")) eqn:Hsha1.
  { intros _. by destruct (Hw (cs "sha1")). }
  destruct (strcasecmp_eq algo (cs "sha256")) eqn:Hsha256; [|done].
  intros _. by destruct (Hw (cs "sha256")).
Qed.

Lemma check_algo_parse algo : check_algo algo = true → is_Some (parse_algo algo).
Proof.
  unfold check_algo, parse_algo. destruct (strcasecmp_eq algo (cs "md5")); [by eexists|].
  destruct (strcasecmp_eq algo (cs "sha1")); [by eexists|].
  destruct (strcasecmp_eq algo (cs "sha256")); [by eexists|done].
Qed.

Lemma scan_name_k name :
  name_line name → (length name ≤ 63)%nat →
  sscanf [ConvNotLf 63] (skip_spaces (SPACE :: name ++ [LF])) = [name].
Proof.
  intros [Hh Hf] Hl. change (skip_spaces (SPACE :: name ++ [LF])) with (skip_spaces (name ++ [LF])).
  rewrite skip_spaces_id by (by destruct name).
  rewrite sscanf_line; [done|by destruct name| |done].
  eapply Forall_impl; [exact Hf|]. by intros a [? _].
Qed.

Lemma scan_sig cmd algo hex t :
  word cmd → (length cmd ≤ 7)%nat → word algo → (length algo ≤ 7)%nat → word hex → (length hex ≤ 64)%nat →
  match t with [] => True | a :: _ => isspace a = true end →
  sscanf [ConvS 7; ConvS 7; ConvS 64; ConvNotLf 63] (cmd ++ SPACE :: algo ++ SPACE :: hex ++ t) =
  cmd :: algo :: hex :: sscanf [ConvNotLf 63] (skip_spaces t).
Proof.
  intros. rewrite sscanf_word_any, skip_word_k by done.
  rewrite sscanf_word_any, skip_word_k by done. by rewrite sscanf_word_any.
Qed.

Lemma scan_trust cmd hex t :
  word cmd → (length cmd ≤ 7)%nat → word hex → (length hex ≤ 64)%nat →
  match t with [] => True | a :: _ => isspace a = true end →
  sscanf [ConvS 7; ConvS 64; ConvNotLf 63] (cmd ++ SPACE :: hex ++ t) =
  cmd :: hex :: sscanf [ConvNotLf 63] (skip_spaces t).
Proof. intros. rewrite sscanf_word_any, skip_word_k by done. by rewrite sscanf_word_any. Qed.

Lemma del_word : word (cs "del") ∧ (length (cs "del") ≤ 7)%nat ∧ (length (cs "add") ≤ 7)%nat.
Proof. split_and!; [split; [done|]; by repeat constructor|vm_compute; lia|vm_compute; lia]. Qed.

(** What the module makes of the four lines. *)
Lemma sig_write_line_add algo a hex name k st :
  parse_algo algo = Some a → word hex → (length hex ≤ 64)%nat → name_line name → (length name ≤ 63)%nat →
  let line := cs "add" ++ SPACE :: algo ++ SPACE :: hex ++ SPACE :: name ++ [LF] in
  sig_proc_write true k (Z.of_nat (length line)) (Some line) st =
  let '(ret, st') := av_sigtable_add k a hex name st in
  (if ret =? 0 then Z.of_nat (length line) else ret, st').
Proof.
  intros Hp Hw Hl Hn Hnl line. destruct (parse_algo_word _ _ Hp) as (Hwa & Hla & _).
  destruct del_word as (_ & _ & Hadd). unfold sig_proc_write. cbn [negb].
  rewrite (proj2 (Z.leb_gt _ _)).
  2: { unfold line. repeat (rewrite length_app || cbn [length]). change (length (cs "add")) with 3%nat. lia. }
  assert (line = (cs "add" ++ SPACE :: algo ++ SPACE :: hex ++ SPACE :: name) ++ [LF]) as Hline.
  { unfold line. repeat (rewrite <- !(assoc_L (++)); cbn [app]). done. }
  assert (buf_str line = line) as ->.
  { rewrite Hline. apply buf_clean.
    apply clean_app; split; [by apply clean_word, add_word|]. apply Forall_cons. split; [done|].
    apply clean_app; split; [by apply clean_word|]. apply Forall_cons. split; [done|].
    apply clean_app; split; [by apply clean_word|]. apply Forall_cons. split; [done|by apply clean_name]. }
  unfold line at 1. rewrite scan_sig, scan_name_k, Hp by (done || apply add_word). done.
Qed.

Lemma sig_write_line_del algo a hex k st :
  parse_algo algo = Some a → word hex → (length hex ≤ 64)%nat →
  let line := cs "del" ++ SPACE :: algo ++ SPACE :: hex ++ [LF] in
  sig_proc_write true k (Z.of_nat (length line)) (Some line) st =
  let '(ret, st') := av_sigtable_del a hex st in
  (if ret =? 0 then Z.of_nat (length line) else - ENOENT, st').
Proof.
  intros Hp Hw Hl line. destruct (parse_algo_word _ _ Hp) as (Hwa & Hla & _).
  destruct del_word as (Hd & Hdl & _). unfold sig_proc_write. cbn [negb].
  rewrite (proj2 (Z.leb_gt _ _)).
  2: { unfold line. repeat (rewrite length_app || cbn [length]). change (length (cs "del")) with 3%nat. lia. }
  assert (line = (cs "del" ++ SPACE :: algo ++ SPACE :: hex) ++ [LF]) as Hline.
  { unfold line. repeat (rewrite <- !(assoc_L (++)); cbn [app]). done. }
  assert (buf_str line = line) as ->.
  { rewrite Hline. apply buf_clean.
    apply clean_app; split; [by apply clean_word|]. apply Forall_cons. split; [done|].
    apply clean_app; split; [by apply clean_word|]. apply Forall_cons. split; [done|by apply clean_word]. }
  unfold line at 1. rewrite scan_sig, Hp by done. done.
Qed.

Lemma trust_write_line_del hex k t :
  word hex → (length hex ≤ 64)%nat →
  let line := cs "del" ++ SPACE :: hex ++ [LF] in
  Trust.trust_proc_write true k (Z.of_nat (length line)) (Some line) t =
  let '(ret, t') := Trust.av_behavior_trust_del hex t in
  (if ret =? 0 then Z.of_nat (length line) else - ENOENT, t').
Proof.
  intros Hw Hl line. destruct del_word as (Hd & Hdl & _). unfold Trust.trust_proc_write. cbn [negb].
  rewrite (proj2 (Z.leb_gt _ _)).
  2: { unfold line. repeat (rewrite length_app || cbn [length]). change (length (cs "del")) with 3%nat. lia. }
  assert (line = (cs "del" ++ SPACE :: hex) ++ [LF]) as Hline.
  { unfold line. repeat (rewrite <- !(assoc_L (++)); cbn [app]). done. }
  assert (buf_str line = line) as ->.
  { rewrite Hline. apply buf_clean.
    apply clean_app; split; [by apply clean_word|]. apply Forall_cons. split; [done|by apply clean_word]. }
  unfold line at 1. rewrite scan_trust by done. done.
Qed.

Lemma protect_write_line_del path count t :
  Protect.absolute path = true → (length path < PATH_MAX)%nat → last path ≠ Some CR →
  Forall (λ a, a ≠ NUL) path → count < Protect.PROTECTED_WRITE_MAXLEN →
  Protect.protected_proc_write true true true true 0 count (Some (cs "del" ++ SPACE :: path ++ [LF])) t =
  let '(ret, t') := Protect.av_behavior_protect_del path t in
  (if ret =? 0 then count else - ENOENT, t').
Proof.
  intros Habs Hlen Hcr Hnul Hcount.
  assert (buf_str (cs "del" ++ SPACE :: path ++ [LF]) = cs "del" ++ SPACE :: path ++ [LF]) as Hb.
  { apply take_while_all. rewrite Forall_app, Forall_cons, Forall_app.
    split_and!; try by repeat constructor.
    eapply Forall_impl; [exact Hnul|]. intros a Ha. apply negb_true_iff. by apply aeqb_neq. }
  unfold Protect.protected_proc_write. cbn [negb andb]. change (negb (0 =? 0)) with false. cbv iota.
  rewrite (proj2 (Z.leb_gt _ _)), Hb by done. destruct del_word as (Hd & Hdl & _).
  rewrite sscanf_word_any by done. rewrite Protect.operand_line; [|by repeat constructor|done..]. done.
Qed.

(** ** Exactly what was asked, or nothing *)

(** The command succeeds if and only if [ok], and then the module is as
    [post] says; else it fails with status 1 and nothing has changed. *)
Definition exactly (k : kernel) (res : Z * cstr * kernel) (ok : Prop) (post : kernel → Prop) : Prop :=
  let '(ret, out, k') := res in
  (ret = 0 ∧ ok ∧ kernel_ok k' ∧ post k') ∨ (ret = 1 ∧ ¬ ok ∧ out = [] ∧ k' = k).

Lemma refused_exactly k (ok : Prop) post : ¬ ok → exactly k (refused k) ok post.
Proof. intros. by right. Qed.

Lemma said_exactly e p cmd k text (ok : Prop) post :
  env_fine e →
  (let '(r, k') := proc_write e p (cmd ++ [LF]) k in
   (ok ∧ 0 ≤ r ∧ kernel_ok k' ∧ post k') ∨ (¬ ok ∧ r < 0 ∧ k' = k)) →
  exactly k (said (write_command_to e p cmd k) text) ok post.
Proof.
  intros He. rewrite write_fine by done. destruct (proc_write e p (cmd ++ [LF]) k) as [r k'].
  unfold said. cbn [fst snd]. intros [(Hok & Hr & Hk & Hp)|(Hok & Hr & ->)].
  - rewrite (proj2 (Z.ltb_ge _ _)) by done. by left.
  - rewrite (proj2 (Z.ltb_lt _ _)), (proj2 (Z.eqb_neq _ _)) by lia. by right.
Qed.

Lemma with_same_sigs k : with_sigs (k_sigs k) k = k.
Proof. by destruct k. Qed.
Lemma with_same_trust k : with_trust (k_trust k) k = k.
Proof. by destruct k. Qed.
Lemma with_same_protect k : with_protect (k_protect k) k = k.
Proof. by destruct k. Qed.

Lemma field_len_cases s max :
  check_field_len s max = false → LF ∈ s ∨ (max < length s)%nat.
Proof.
  unfold check_field_len. destruct (strchr s LF) as [t|] eqn:Hs.
  - intros _. left. destruct (decide (LF ∈ s)) as [|Hn]; [done|]. by rewrite strchr_notin in Hs.
  - intros Hl%negb_false_iff%Nat.ltb_lt. by right.
Qed.

Lemma field_len_true s max :
  check_field_len s max = true → (LF ∉ s) ∧ (length s ≤ max)%nat.
Proof.
  unfold check_field_len. destruct (strchr s LF) as [t|] eqn:Hs; [done|].
  intros Hl%negb_true_iff%Nat.ltb_ge. split; [|done]. clear Hl. induction s as [|a s IH]; [set_solver|].
  simpl in Hs. destruct (aeqb a LF) eqn:Ha; [done|]. apply aeqb_neq in Ha. specialize (IH Hs).
  rewrite not_elem_of_cons. by split.
Qed.

Lemma name_no_lf n : name_line n → LF ∉ n.
Proof. intros [_ Hf] Hin. rewrite Forall_forall in Hf. by destruct (Hf LF Hin). Qed.

Lemma name_head n :
  name_line n → n ≠ [] ∧ match n with [] => True | a :: _ => isspace a = false end.
Proof. intros [Hh _]. by destruct n. Qed.

Lemma word_no_lf s : word s → LF ∉ s.
Proof. intros [_ Hf] Hin. rewrite Forall_forall in Hf. by destruct (Hf LF Hin). Qed.

Lemma add_exact e k algo hex name :
  env_fine e → kernel_ok k → word hex → name_line name →
  let m := sig_abs (k_sigs k) in
  exactly k (do_add e algo hex name k)
    (∃ a, parse_algo algo = Some a ∧ hex_wf a hex = true ∧ (length name ≤ 63)%nat ∧
       m !! (a, hex_tolower hex) = None ∧ Z.of_nat (size m) < MAX_SIG_ENTRIES)
    (λ k', ∃ a, parse_algo algo = Some a ∧ k' = with_sigs (k_sigs k') k ∧
       sig_abs (k_sigs k') = <[(a, hex_tolower hex) := name]> m).
Proof.
  intros He (Hs & Ht & Hp) Hw Hn m. unfold do_add.
  destruct (check_algo algo) eqn:Hca; cbn [negb].
  2: { apply refused_exactly. intros (a & Ha & _). apply parse_algo_word in Ha as (_ & _ & ?). congruence. }
  destruct (check_algo_parse _ Hca) as [a Ha].
  destruct (check_field_len hex _) eqn:Hfh; cbn [negb].
  2: { apply refused_exactly. intros (a' & _ & Hwf & _). apply hex_wf_length in Hwf.
       pose proof (algo_hexlen_bound a'). unfold AV_HASH_HEX_MAXLEN, AVCTL_HASH_HEX_MAXLEN in *.
       apply field_len_cases in Hfh as [Hin|?]; [by apply (word_no_lf hex)|lia]. }
  apply field_len_true in Hfh as [_ Hhl]. unfold AVCTL_HASH_HEX_MAXLEN in Hhl.
  destruct (check_field_len name _) eqn:Hfn; cbn [negb].
  2: { apply refused_exactly. intros (_ & _ & _ & Hl & _). unfold AVCTL_NAME_MAXLEN in Hfn.
       apply field_len_cases in Hfn as [Hin|?]; [by apply (name_no_lf name)|lia]. }
  apply field_len_true in Hfn as [_ Hnl]. unfold AVCTL_NAME_MAXLEN in Hnl.
  destruct (parse_algo_word _ _ Ha) as (_ & Hal & _).
  assert (fits 256 (cs "add " ++ algo ++ SPACE :: hex ++ SPACE :: name) = true) as ->.
  { apply Nat.ltb_lt. repeat (rewrite length_app || cbn [length]). change (length (cs "add ")) with 4%nat. lia. }
  cbn [negb]. apply said_exactly; [done|]. unfold proc_write. destruct He as [_ _ -> ->].
  assert ((cs "add " ++ algo ++ SPACE :: hex ++ SPACE :: name) ++ [LF] =
    cs "add" ++ SPACE :: algo ++ SPACE :: hex ++ SPACE :: name ++ [LF]) as ->.
  { change (cs "add ") with (cs "add" ++ [SPACE]). repeat (rewrite <- !(assoc_L (++)); cbn [app]). done. }
  rewrite (sig_write_line_add algo a) by done.
  pose proof (sigtable_add_spec true a hex name _ Hs) as Hspec.
  destruct (av_sigtable_add true a hex name (k_sigs k)) as [r st'] eqn:Hadd. destruct Hspec as [Hinv Hspec].
  unfold spec_add in Hspec. cbn [negb] in Hspec. fold m in Hspec.
  assert (r ≠ 0 → st' = k_sigs k ∧ r < 0) as Hsame.
  { intros Hr. by destruct (av_sigtable_add_failed _ _ _ _ _ _ _ Hadd) as [?|[? ?]]. }
  assert (∀ Q : Prop, r ≠ 0 → ¬ Q → ∀ P : Prop,
    P ∨ (¬ Q ∧ (if r =? 0 then Z.of_nat (length (cs "add" ++ SPACE :: algo ++ SPACE :: hex ++ SPACE :: name ++ [LF])) else r) < 0
         ∧ with_sigs st' k = k)) as Hfail.
  { intros Q Hr HQ P. right. destruct (Hsame Hr) as [-> ?]. rewrite (proj2 (Z.eqb_neq _ _)) by done.
    by rewrite with_same_sigs. }
  destruct (hex_wf a hex) eqn:Hwf; cbn [negb] in Hspec.
  2: { injection Hspec as <- _. apply Hfail; [done|]. intros (a' & Ha' & ? & _). congruence. }
  destruct (m !! (a, hex_tolower hex)) as [n|] eqn:Hm.
  { injection Hspec as <- _. apply Hfail; [done|]. intros (a' & Ha' & _ & _ & ? & _). congruence. }
  destruct (Z.leb_spec MAX_SIG_ENTRIES (Z.of_nat (size m))) as [Hsz|Hsz].
  { injection Hspec as <- _. apply Hfail; [done|]. intros (_ & _ & _ & _ & _ & ?). lia. }
  injection Hspec as <- Habs. left. change (0 =? 0) with true. cbv iota. split_and!; [|lia|by split_and!|].
  - exists a. by split_and!.
  - exists a. split_and!; [done..|]. cbn [k_sigs with_sigs]. rewrite <- Habs.
    rewrite strscpy_fit; [done|]. unfold AV_SIG_NAME_LEN. lia.
Qed.

Lemma del_exact e k algo hex :
  env_fine e → kernel_ok k → word hex →
  (∀ a, parse_algo algo = Some a → (length hex ≤ algo_hexlen a)%nat) →
  let m := sig_abs (k_sigs k) in
  exactly k (do_del e algo hex k)
    (∃ a, parse_algo algo = Some a ∧ is_Some (m !! (a, hex_tolower hex)))
    (λ k', ∃ a, parse_algo algo = Some a ∧ k' = with_sigs (k_sigs k') k ∧
       sig_abs (k_sigs k') = delete (a, hex_tolower hex) m).
Proof.
  intros He (Hs & Ht & Hp) Hw Hlen m. unfold do_del.
  destruct (check_algo algo) eqn:Hca; cbn [negb].
  2: { apply refused_exactly. intros (a & Ha & _). apply parse_algo_word in Ha as (_ & _ & ?). congruence. }
  destruct (check_algo_parse _ Hca) as [a Ha]. specialize (Hlen _ Ha). pose proof (algo_hexlen_bound a) as Hb.
  unfold AV_HASH_HEX_MAXLEN in Hb.
  rewrite field_ok by (by apply clean_word || (unfold AVCTL_HASH_HEX_MAXLEN; lia)). cbn [negb].
  destruct (parse_algo_word _ _ Ha) as (_ & Hal & _).
  assert (fits 256 (cs "del " ++ algo ++ SPACE :: hex) = true) as ->.
  { apply Nat.ltb_lt. repeat (rewrite length_app || cbn [length]). change (length (cs "del ")) with 4%nat. lia. }
  cbn [negb]. apply said_exactly; [done|]. unfold proc_write. destruct He as [_ _ -> ->].
  assert ((cs "del " ++ algo ++ SPACE :: hex) ++ [LF] = cs "del" ++ SPACE :: algo ++ SPACE :: hex ++ [LF]) as ->.
  { change (cs "del ") with (cs "del" ++ [SPACE]). repeat (rewrite <- !(assoc_L (++)); cbn [app]). done. }
  rewrite (sig_write_line_del algo a) by (done || lia).
  pose proof (sigtable_del_spec a hex _ Hs Hlen) as Hspec.
  destruct (av_sigtable_del a hex (k_sigs k)) as [r st'] eqn:Hdel. destruct Hspec as [Hinv Hspec].
  unfold spec_del in Hspec. fold m in Hspec. destruct (m !! (a, hex_tolower hex)) as [n|] eqn:Hm.
  - injection Hspec as <- Habs. left. change (0 =? 0) with true. cbv iota. split_and!; [|lia|by split_and!|].
    + exists a. rewrite Hm. by split.
    + by exists a.
  - injection Hspec as <- Habs. right. split_and!; [|done|].
    + intros (a' & Ha' & [? ?]). congruence.
    + unfold av_sigtable_del in Hdel. destruct (hash_del_first _ _ _); simplify_eq. by rewrite with_same_sigs.
Qed.

Definition spaced (w : cstr) : cstr := SPACE :: w.

(** The words of a name on the command line. *)
Definition words_text (words : list cstr) : cstr :=
  match words with [] => [] | w :: ws => w ++ mjoin (spaced <$> ws) end.

Lemma join_name_spec (first : bool) (words : list cstr) (name : cstr) :
  (length name ≤ 191)%nat →
  let full := name ++ (if first then words_text words else mjoin (spaced <$> words)) in
  match join_name first words name with
  | Some n => n = full ∨ (191 ≤ length n ∧ 191 ≤ length full)%nat
  | None => (191 < length full)%nat
  end.
Proof.
  revert first name. induction words as [|w words IH]; intros first name Hl full; simpl.
  { left. unfold full. by destruct first; rewrite app_nil_r. }
  destruct (Nat.ltb_spec (length name) 191).
  2: { right. split; [done|]. unfold full. rewrite length_app. lia. }
  set (piece := (if first then [] else [SPACE]) ++ w).
  assert (full = (name ++ piece) ++ mjoin (spaced <$> words)) as Hfull.
  { unfold full, piece. destruct first; csimpl; by rewrite <- !(assoc_L (++)). }
  destruct (Nat.leb_spec (192 - length name) (length piece)).
  { rewrite Hfull, !length_app. lia. }
  specialize (IH false (name ++ piece)). rewrite Hfull. apply IH. rewrite length_app. lia.
Qed.

Lemma trust_add_exact e k hex words :
  env_fine e → kernel_ok k → word hex → name_line (words_text words) →
  let m := trust_abs k in
  let name := words_text words in
  exactly k (do_trust_add e hex words k)
    (length hex = SHA256_HEX_LEN ∧ (length name ≤ 63)%nat ∧ m !! Trust.hex_tolower hex = None)
    (λ k', k' = with_trust (k_trust k') k ∧ trust_abs k' = <[Trust.hex_tolower hex := name]> m).
Proof.
  intros He (Hs & Ht & Hp) Hw Hn m name. unfold do_trust_add.
  destruct (check_field_len hex _) eqn:Hfh; cbn [negb].
  2: { apply refused_exactly. intros (Hl & _). unfold SHA256_HEX_LEN, AVCTL_HASH_HEX_MAXLEN in *.
       apply field_len_cases in Hfh as [Hin|?]; [by apply (word_no_lf hex)|lia]. }
  apply field_len_true in Hfh as [_ Hhl]. unfold AVCTL_HASH_HEX_MAXLEN in Hhl.
  pose proof (join_name_spec true words [] ltac:(simpl; lia)) as Hj. cbn [app] in Hj. fold name in Hj.
  destruct (join_name true words []) as [n|]; [|apply refused_exactly; intros (_ & ? & _); lia].
  destruct (check_field_len n _) eqn:Hfn; cbn [negb]; unfold AVCTL_NAME_MAXLEN in Hfn.
  2: { apply refused_exactly. intros (_ & Hl & _).
       apply field_len_cases in Hfn as [Hin|?]; destruct Hj as [->|?]; try lia. by apply (name_no_lf name). }
  apply field_len_true in Hfn as [_ Hnl]. destruct Hj as [->|?]; [|lia].
  assert (fits 256 (cs "add " ++ hex ++ SPACE :: name) = true) as ->.
  { apply Nat.ltb_lt. repeat (rewrite length_app || cbn [length]). change (length (cs "add ")) with 4%nat. lia. }
  cbn [negb]. apply said_exactly; [done|]. unfold proc_write. destruct He as [_ _ -> ->].
  assert ((cs "add " ++ hex ++ SPACE :: name) ++ [LF] = cs "add" ++ SPACE :: hex ++ SPACE :: name ++ [LF]) as ->.
  { change (cs "add ") with (cs "add" ++ [SPACE]). repeat (rewrite <- !(assoc_L (++)); cbn [app]). done. }
  rewrite Trust.trust_write_add; [|apply Hw|done|apply Hw|by apply name_head|done|apply Hn|by apply name_head].
  destruct (Trust.av_behavior_trust_add true hex name (k_trust k)) as [r t'] eqn:Hadd.
  destruct (Trust.trust_add_law _ _ _ _ _ _ Ht Hadd) as [Hinv Hm].
  assert ((r = 0 ↔ length hex = SHA256_HEX_LEN ∧ m !! Trust.hex_tolower hex = None) ∧
    (r ≠ 0 → t' = k_trust k)) as [Hr Hsame].
  { unfold Trust.av_behavior_trust_add in Hadd.
    destruct (Nat.eqb_spec (length hex) SHA256_HEX_LEN) as [Hl|Hl]; cbn [negb] in Hadd.
    2: { injection Hadd as <- <-. split; [|done]. split; [done|]. by intros [? _]. }
    destruct (Trust.canonical_lower hex Hl) as [Hll Hlow].
    rewrite (strscpy_fit hex), (strscpy_fit (Trust.hex_tolower hex)) in Hadd by (unfold SHA256_HEX_LEN in *; lia).
    rewrite Trust.trust_find_same in Hadd by (done || lia). unfold m, trust_abs. rewrite lookup_fmap.
    destruct (ht_map Trust.te_hex (k_trust k) !! Trust.hex_tolower hex); injection Hadd as <- <-;
      (split; [|done]); (split; [done|]); [by intros [_ ?]|done]. }
  destruct (decide (r = 0)) as [->|Hne].
  - change (0 =? 0) with true. cbv iota. left. destruct (proj1 Hr eq_refl) as [Hl Hnone].
    split_and!; [done..|lia|by split_and!|done|]. unfold trust_abs. cbn [k_trust with_trust].
    rewrite Hm, fmap_insert. cbn [Trust.te_name]. rewrite strscpy_fit by (unfold TRUST_NAME_LEN; lia). done.
  - right. rewrite (proj2 (Z.eqb_neq _ _)) by done. split_and!; [|done|].
    + intros (? & _ & ?). by apply Hne, Hr.
    + rewrite Hsame by done. by rewrite with_same_trust.
Qed.

Lemma trust_del_exact e k hex :
  env_fine e → kernel_ok k → word hex →
  let m := trust_abs k in
  exactly k (do_trust_del e hex k)
    (length hex = SHA256_HEX_LEN ∧ is_Some (m !! Trust.hex_tolower hex))
    (λ k', k' = with_trust (k_trust k') k ∧ trust_abs k' = delete (Trust.hex_tolower hex) m).
Proof.
  intros He (Hs & Ht & Hp) Hw m. unfold do_trust_del.
  destruct (check_field_len hex _) eqn:Hfh; cbn [negb].
  2: { apply refused_exactly. intros (Hl & _). unfold SHA256_HEX_LEN, AVCTL_HASH_HEX_MAXLEN in *.
       apply field_len_cases in Hfh as [Hin|?]; [by apply (word_no_lf hex)|lia]. }
  apply field_len_true in Hfh as [_ Hhl]. unfold AVCTL_HASH_HEX_MAXLEN in Hhl.
  assert (fits 256 (cs "del " ++ hex) = true) as ->.
  { apply Nat.ltb_lt. rewrite length_app. change (length (cs "del ")) with 4%nat. lia. }
  cbn [negb]. apply said_exactly; [done|]. unfold proc_write. destruct He as [_ _ -> ->].
  assert ((cs "del " ++ hex) ++ [LF] = cs "del" ++ SPACE :: hex ++ [LF]) as ->.
  { change (cs "del ") with (cs "del" ++ [SPACE]). repeat (rewrite <- !(assoc_L (++)); cbn [app]). done. }
  rewrite trust_write_line_del by done.
  destruct (Trust.av_behavior_trust_del hex (k_trust k)) as [r t'] eqn:Hdel.
  destruct (Trust.trust_del_law _ _ _ _ Ht Hdel) as [Hinv Hm].
  assert ((r = 0 ↔ length hex = SHA256_HEX_LEN ∧ is_Some (m !! Trust.hex_tolower hex)) ∧
    (r ≠ 0 → t' = k_trust k)) as [Hr Hsame].
  { unfold Trust.av_behavior_trust_del in Hdel.
    destruct (Nat.eqb_spec (length hex) SHA256_HEX_LEN) as [Hl|Hl]; cbn [negb] in Hdel.
    2: { injection Hdel as <- <-. split; [|done]. split; [done|]. by intros [? _]. }
    rewrite (strscpy_fit hex) in Hdel by (unfold SHA256_HEX_LEN in *; lia).
    destruct (Trust.trust_del_present _ _ Ht Hl) as [Hpres Hmiss].
    rewrite Hpres in Hdel. unfold m, trust_abs. rewrite lookup_fmap, fmap_is_Some.
    case_bool_decide as Hd; injection Hdel as <- <-; (split; [|done || (intros _; by apply Hmiss)]).
    - by split.
    - split; [done|]. by intros [_ ?]. }
  destruct (decide (r = 0)) as [->|Hne].
  - change (0 =? 0) with true. cbv iota. left. destruct (proj1 Hr eq_refl) as [Hl Hsome].
    split_and!; [done..|lia|by split_and!|done|]. unfold trust_abs. cbn [k_trust with_trust].
    by rewrite Hm, fmap_delete.
  - right. rewrite (proj2 (Z.eqb_neq _ _)) by done. split_and!; [|done|].
    + intros [? ?]. by apply Hne, Hr.
    + rewrite Hsame by done. by rewrite with_same_trust.
Qed.

(** A path that goes to the module as it is. *)
Definition plain_path (p : cstr) : Prop := Protect.absolute p = true ∧ last p ≠ Some CR ∧ (NUL ∉ p).

Lemma plain_nul p : NUL ∉ p → Forall (λ a, a ≠ NUL) p.
Proof. intros Hn. apply Forall_forall. intros a Ha ->. done. Qed.

Lemma protect_field_ok path :
  check_field_len path (PATH_MAX - 1) = true ↔ (LF ∉ path) ∧ (length path < PATH_MAX)%nat.
Proof.
  pose proof path_max_big. split.
  - intros [? ?]%field_len_true. split; [done|lia].
  - intros [Hlf Hl]. unfold check_field_len. rewrite strchr_notin by done.
    by rewrite (proj2 (Nat.ltb_ge _ _)) by lia.
Qed.

Lemma path_write_short (verb path : cstr) :
  length verb = 3%nat → (length path < PATH_MAX)%nat →
  Z.of_nat (length (verb ++ SPACE :: path ++ [LF])) < Protect.PROTECTED_WRITE_MAXLEN.
Proof.
  intros Hv Hl. unfold Protect.PROTECTED_WRITE_MAXLEN. repeat (rewrite length_app || cbn [length]). lia.
Qed.

Lemma protect_add_exact e k path :
  env_fine e → kernel_ok k → plain_path path →
  exactly k (do_protect_add e path k)
    ((LF ∉ path) ∧ (length path < PATH_MAX)%nat ∧ (path ∉ protect_abs k))
    (λ k', k' = with_protect (k_protect k') k ∧ protect_abs k' = protect_abs k ∪ {[path]}).
Proof.
  intros He (Hs & Ht & Hp) (Habs & Hcr & Hnul). unfold do_protect_add.
  change (match path with a :: _ => aeqb a SLASH | [] => false end) with (Protect.absolute path).
  rewrite Habs. cbn [negb].
  destruct (check_field_len path _) eqn:Hf; cbn [negb].
  2: { apply refused_exactly. intros (? & ? & _). by rewrite (proj2 (protect_field_ok path)) in Hf. }
  apply protect_field_ok in Hf as [Hlf Hlen].
  assert (fits (PATH_MAX + 8) (cs "add " ++ path) = true) as ->.
  { apply Nat.ltb_lt. rewrite length_app. change (length (cs "add ")) with 4%nat. lia. }
  cbn [negb]. apply said_exactly; [done|]. unfold proc_write. destruct He as [_ _ -> ->].
  change (cs "add ") with (cs "add" ++ [SPACE]). rewrite <- !(assoc_L (++)). cbn [app].
  rewrite Protect.protected_write_add by (done || (by apply plain_nul) || (by apply path_write_short)).
  destruct (Protect.av_behavior_protect_add true path (k_protect k)) as [r t'] eqn:Hadd.
  destruct (Protect.protect_add_law _ _ _ _ _ Hp Hadd) as [Hinv Hm].
  assert ((r = 0 ∧ path ∉ protect_abs k) ∨ (r = - EEXIST ∧ t' = k_protect k ∧ path ∈ protect_abs k)) as Hr.
  { unfold Protect.av_behavior_protect_add in Hadd. rewrite Habs in Hadd. cbn [negb orb] in Hadd.
    unfold PROTECTED_PATH_LEN in Hadd. rewrite (proj2 (Nat.leb_gt _ _)) in Hadd by done.
    cbn [negb orb] in Hadd. rewrite strscpy_fit in Hadd by done. cbn [Protect.pe_path] in Hadd.
    rewrite Protect.path_find_same in Hadd by done. unfold protect_abs.
    destruct (ht_map Protect.pe_path (k_protect k) !! path) as [x|] eqn:Hx; injection Hadd as <- <-.
    - right. split_and!; [done..|]. apply elem_of_dom. by eexists.
    - left. split; [done|]. by apply not_elem_of_dom. }
  destruct Hr as [[-> Hn]|(-> & -> & Hin)].
  - change (0 =? 0) with true. cbv iota. left. split_and!; [done..|lia|by split_and!|done|].
    unfold protect_abs. cbn [k_protect with_protect]. rewrite Hm, decide_True, dom_insert_L by done.
    by rewrite (comm_L (∪)).
  - right. split_and!; [|done|by rewrite with_same_protect]. by intros (_ & _ & ?).
Qed.

Lemma protect_del_exact e k path :
  env_fine e → kernel_ok k → plain_path path →
  exactly k (do_protect_del e path k)
    ((LF ∉ path) ∧ (length path < PATH_MAX)%nat ∧ path ∈ protect_abs k)
    (λ k', k' = with_protect (k_protect k') k ∧ protect_abs k' = protect_abs k ∖ {[path]}).
Proof.
  intros He (Hs & Ht & Hp) (Habs & Hcr & Hnul). unfold do_protect_del.
  destruct (check_field_len path _) eqn:Hf; cbn [negb].
  2: { apply refused_exactly. intros (? & ? & _). by rewrite (proj2 (protect_field_ok path)) in Hf. }
  apply protect_field_ok in Hf as [Hlf Hlen].
  assert (fits (PATH_MAX + 8) (cs "del " ++ path) = true) as ->.
  { apply Nat.ltb_lt. rewrite length_app. change (length (cs "del ")) with 4%nat. lia. }
  cbn [negb]. apply said_exactly; [done|]. unfold proc_write. destruct He as [_ _ -> ->].
  change (cs "del ") with (cs "del" ++ [SPACE]). rewrite <- !(assoc_L (++)). cbn [app].
  rewrite protect_write_line_del by (done || (by apply plain_nul) || (by apply path_write_short)).
  destruct (Protect.av_behavior_protect_del path (k_protect k)) as [r t'] eqn:Hdel.
  destruct (Protect.protect_del_law _ _ _ _ Hp Hdel) as [Hinv Hm].
  assert ((r = 0 ∧ path ∈ protect_abs k) ∨ (r = - ENOENT ∧ t' = k_protect k ∧ path ∉ protect_abs k)) as Hr.
  { unfold Protect.av_behavior_protect_del in Hdel. unfold hash_del_first in Hdel.
    rewrite (del_first_ext _ (keyb Protect.pe_path path)) in Hdel by (intros; apply Protect.path_same_keyb).
    fold (hash_del_first (k_protect k) (Protect.bucket path) (keyb Protect.pe_path path)) in Hdel.
    pose proof (ht_del Protect.pe_path Protect.bucket _ _ path Hp (hash_min_range _ _)) as Hd.
    unfold protect_abs. rewrite elem_of_dom, <- eq_None_not_Some.
    destruct (ht_map Protect.pe_path (k_protect k) !! path), (hash_del_first _ _ _); try done;
      injection Hdel as <- <-; eauto. }
  destruct Hr as [[-> Hn]|(-> & -> & Hin)].
  - change (0 =? 0) with true. cbv iota. left. split_and!; [done..|lia|by split_and!|done|].
    unfold protect_abs. cbn [k_protect with_protect]. by rewrite Hm, decide_True, dom_delete_L by done.
  - right. split_and!; [|done|by rewrite with_same_protect]. by intros (_ & _ & ?).
Qed.

Lemma policy_exact e k value :
  env_fine e → kernel_ok k →
  exactly k (do_policy_set e value k) (value = cs "fail-open" ∨ value = cs "fail-closed")
    (λ k', k' = with_policy (bool_decide (value = cs "fail-closed")) k).
Proof.
  intros He Hk. unfold do_policy_set.
  destruct (strcmp_eq value (cs "fail-open")) eqn:Ho; cbn [negb andb].
  - apply strcmp_eq_spec in Ho as ->. apply said_exactly; [done|].
    left. split_and!; [by left|done|by destruct Hk as (?&?&?)|done].
  - destruct (strcmp_eq value (cs "fail-closed")) eqn:Hc; cbn [negb].
    + apply strcmp_eq_spec in Hc as ->. apply said_exactly; [done|].
      left. split_and!; [by right|done|by destruct Hk as (?&?&?)|done].
    + apply refused_exactly. intros [->| ->]; [by rewrite (proj2 (strcmp_eq_spec _ _)) in Ho|].
      by rewrite (proj2 (strcmp_eq_spec _ _)) in Hc.
Qed.

End commands.

(** ** Examples *)

Module CommandExamples.
Import ToyHash LoadExamples.

Definition md5hex : cstr := cs "44d88612fea8a8f36de82e1278abb02f".

(** What follows a blank in the digest argument becomes part of the name that is stored, not of the
    digest as avctl reports. *)
Example blank_in_hash :
  let '(ret, out, k) := do_add fine (cs "md5") (md5hex ++ cs " and more") (cs "name") (kernel_init true) in
  ret = 0 ∧ out = cs "added md5 signature: " ++ md5hex ++ cs " and more (name)" ++ [LF] ∧
  sig_abs (k_sigs k) !! (AV_ALGO_MD5, md5hex) = Some (cs "and more name").
Proof. by vm_compute. Qed.

(** The path that is protected is not the one reported. *)
Example cr_path :
  let '(ret, out, k) := do_protect_add fine (cs "/bin/x" ++ [CR]) (kernel_init true) in
  ret = 0 ∧ out = cs "protected: /bin/x" ++ [CR; LF] ∧
  Protect.path_is_on_protected_list (k_protect k) (cs "/bin/x" ++ [CR]) = false ∧
  Protect.path_is_on_protected_list (k_protect k) (cs "/bin/x") = true.
Proof. by vm_compute. Qed.

Example three_words :
  let '(ret, out, k) := do_trust_add fine digest [cs "My"; cs "Own"; cs "Program"] (kernel_init true) in
  ret = 0 ∧ out = cs "trusted: " ++ digest ++ cs " (My Own Program)" ++ [LF].
Proof. by vm_compute. Qed.

End CommandExamples.
