(* ===== verification/AvctlClient.v ===== *)
(** * avctl as a client of the daemon: userspace/avctl/avctl.c

    The half of avctl that talks to the control socket: one request line, the
    whole reply, and what is made of it.  What the daemon answers is the
    daemon's own code (Control), so that the theorems are about the two
    programs together.  What is printed on the standard output is part of the
    result; the messages on the standard error are not. *)

From Stdlib Require Import ZArith Lia Ascii String.
From stdpp Require Import prelude list gmap.
From S2P Require Import Prelude CString CText Stdio Netlink Sha256 Corpus Sock Posix Quarantine Trust.
From S2P Require Import QuarantineOps History Scan Control Replies AvctlProc AvctlLoad.

Local Open Scope Z_scope.

(** ** One request *)

(** What comes from the daemon: bytes, a signal, an error; then the end. *)
Inductive recv := RecvBytes (bytes : cstr) | RecvEintr | RecvError.

(** One [read] of up to [n] bytes, what it gives and what is left;
    [None] is -1 with another errno than EINTR. *)
Definition sock_read (n : nat) (pending : list recv) : option cstr * list recv :=
  match pending with
  | RecvBytes b :: rest =>
      if (n <? length b)%nat then (Some (take n b), RecvBytes (drop n b) :: rest) else (Some b, rest)
  | _ :: rest => (None, rest)
  | [] => (Some [], [])
  end.

(** The outer [None]: out of fuel.  The inner one: an error.  [grow cap]: the
    [realloc] to [cap] bytes succeeds. *)
Fixpoint read_response (fuel : nat) (grow : Z → bool) (pending : list recv) (cap : Z) (buf : cstr)
    : option (option cstr) :=
  match fuel with
  | O => None
  | S fuel =>
      match pending with
      | RecvEintr :: pending => read_response fuel grow pending cap buf
      | _ =>
          match sock_read (Z.to_nat (cap - Z.of_nat (length buf) - 1)) pending with
          | (None, _) => Some None
          | (Some [], _) => Some (Some (buf_str buf))
          | (Some bytes, pending) =>
              let buf := buf ++ bytes in
              if cap - 1 <=? Z.of_nat (length buf) then
                if grow (cap * 2) then read_response fuel grow pending (cap * 2) buf else Some None
              else read_response fuel grow pending cap buf
          end
      end
  end.

Definition RESPONSE_CAP : Z := 65536.

(** The path of the socket, and the outcomes of [socket], [connect], the two
    [malloc]s, [write] and [realloc]. *)
Record client_env := {
  cl_path : cstr; cl_socket : bool; cl_connect : bool; cl_malloc_req : bool; cl_written : Z;
  cl_malloc : bool; cl_grow : Z → bool;
}.

Definition SUN_PATH : nat := 108.

(** The bytes the daemon gets, and the response. *)
Definition control_request (fuel : nat) (ce : client_env) (cmd : cstr) (pending : list recv)
    : cstr * option (option cstr) :=
  if negb (cl_socket ce) then ([], Some None)
  else if (SUN_PATH <=? length (cl_path ce))%nat then ([], Some None)
  else if negb (cl_connect ce) then ([], Some None)
  else if negb (cl_malloc_req ce) then ([], Some None)
  else
    let req := cmd ++ [LF] in
    let sent := take (Z.to_nat (cl_written ce)) req in
    if negb (cl_written ce =? Z.of_nat (length req)) then (sent, Some None)
    else if negb (cl_malloc ce) then (sent, Some None)
    else (sent, read_response fuel (cl_grow ce) pending RESPONSE_CAP []).

(** ** Reading a response *)

(** The line consumed and the rest. *)
Definition next_line (cursor : cstr) : option (cstr * cstr) :=
  match cursor with
  | [] => None
  | _ => let '(line, rest) := strsep cursor LF in Some (line, default [] rest)
  end.

(** What follows "OK", if that is the first line. *)
Definition expect_ok (cursor : cstr) : option cstr :=
  match next_line cursor with
  | Some (line, rest) => if strcmp_eq line (cs "OK") then Some rest else None
  | None => None
  end.

(** The rest after a line that is not looked at. *)
Definition skip_line (cursor : cstr) : cstr :=
  match next_line cursor with Some (_, rest) => rest | None => cursor end.

(** ** The commands

    A command is the request it makes, if its arguments pass, and what it
    does with the response: the exit status and the output. *)

Definition failed : Z * cstr := (1, []).

Definition scan_request (path : cstr) : option cstr :=
  if negb (match path with a :: _ => aeqb a SLASH | [] => false end) then None
  else if negb (check_field_len path (PATH_MAX - 1)) then None
  else
    let cmd := cs "SCAN " ++ path in
    if negb (fits (PATH_MAX + 8) cmd) then None else Some cmd.

(** The four fields of a row, in their sizes. *)
Definition scan_fields (line : cstr) : option (cstr * cstr * Z * cstr) :=
  match strsep line TAB with
  | (verdict, Some r1) =>
      match strsep r1 TAB with
      | (rule, Some r2) =>
          match strsep r2 TAB with
          | (score, Some sha) =>
              match strchr sha TAB with
              | Some _ => None
              | None =>
                  if (length verdict =? 0)%nat || negb (fits 16 verdict) || negb (fits 128 rule) ||
                     (length sha =? 0)%nat || negb (fits 128 sha) then None
                  else match scan_long (skip_space score) with
                  | Some (z, []) =>
                      if (z <? - 2 ^ 31) || (2 ^ 31 - 1 <? z) then None else Some (verdict, rule, z, sha)
                  | _ => None
                  end
              end
          | _ => None
          end
      | _ => None
      end
  | _ => None
  end.

Definition scan_report (path : cstr) (fields : cstr * cstr * Z * cstr) : Z * cstr :=
  let '(verdict, rule, score, sha) := fields in
  if negb (strcmp_eq verdict (cs "MALICIOUS")) && negb (strcmp_eq verdict (cs "CLEAN")) then failed
  else if strcmp_eq verdict (cs "MALICIOUS") then
    (0, cs "MALICIOUS: " ++ path ++ (match rule with [] => [] | _ => cs " - " end) ++ rule ++
        cs " (score=" ++ print_signed score ++ cs ")" ++ [LF] ++ cs "sha256: " ++ sha ++ [LF])
  else (0, cs "CLEAN: " ++ path ++ [LF] ++ cs "sha256: " ++ sha ++ [LF]).

(** [do_scan] after a successful request. *)
Definition scan_response (path resp : cstr) : Z * cstr :=
  match expect_ok resp with
  | None => failed
  | Some cursor =>
      match next_line (skip_line cursor) with
      | None => failed
      | Some (line, _) =>
          match scan_fields line with
          | None => failed
          | Some fields => scan_report path fields
          end
      end
  end.

(** One row of the listing; a malformed one is skipped. *)
Definition quarantine_row (line : cstr) : cstr :=
  match sscanf_c [DSet 255 [TAB]; DBlank; DSet (PATH_MAX - 1) [TAB]; DBlank; DLong; DBlank;
                  DSet 127 [TAB]; DBlank; DSet 127 [TAB; LF]] line with
  | [FStr id; FStr path; FLong ts; FStr rule; FStr sha] =>
      pad 40 id ++ SPACE :: pad 6 rule ++ SPACE :: pad 20 (print_signed ts) ++ SPACE :: path ++ [LF]
  | _ => []
  end.

Fixpoint quarantine_rows (fuel : nat) (cursor : cstr) : cstr :=
  match fuel with
  | O => []
  | S fuel =>
      match next_line cursor with
      | Some (line, rest) =>
          if strcmp_eq line (cs "END") then [] else quarantine_row line ++ quarantine_rows fuel rest
      | None => []
      end
  end.

Definition LIST_HEADER : cstr :=
  pad 40 (cs "ID") ++ SPACE :: pad 6 (cs "RULE") ++ SPACE :: pad 20 (cs "TIMESTAMP") ++ SPACE ::
  cs "ORIGINAL PATH" ++ [LF].

(** [do_quarantine_list] after a successful request. *)
Definition list_response (resp : cstr) : Z * cstr :=
  match expect_ok resp with
  | None => failed
  | Some cursor => (0, LIST_HEADER ++ quarantine_rows (length cursor) (skip_line cursor))
  end.

Definition AVCTL_ID_MAXLEN : nat := 255.

Definition restore_request (id : cstr) : option cstr :=
  if negb (check_field_len id AVCTL_ID_MAXLEN) then None
  else
    let cmd := cs "QUARANTINE RESTORE " ++ id in
    if negb (fits 300 cmd) then None else Some cmd.

Definition delete_request (id : cstr) : option cstr :=
  if negb (check_field_len id AVCTL_ID_MAXLEN) then None
  else
    let cmd := cs "QUARANTINE DELETE " ++ id in
    if negb (fits 300 cmd) then None else Some cmd.

(** The rest of [do_quarantine_restore] and [do_quarantine_delete]. *)
Definition done_response (verb id resp : cstr) : Z * cstr :=
  match expect_ok resp with
  | None => failed
  | Some _ => (0, verb ++ cs ": " ++ id ++ [LF])
  end.

(** A request and its response; [None] out of fuel. *)
Definition run_request (fuel : nat) (ce : client_env) (cmd : option cstr) (pending : list recv)
    (k : cstr → Z * cstr) : cstr * option (Z * cstr) :=
  match cmd with
  | None => ([], Some failed)
  | Some cmd =>
      let '(sent, resp) := control_request fuel ce cmd pending in
      (sent, match resp with
             | None => None
             | Some None => Some failed
             | Some (Some resp) => Some (k resp)
             end)
  end.

Definition do_scan (fuel : nat) (ce : client_env) (path : cstr) (pending : list recv) :=
  run_request fuel ce (scan_request path) pending (scan_response path).
Definition do_quarantine_list (fuel : nat) (ce : client_env) (pending : list recv) :=
  run_request fuel ce (Some (cs "QUARANTINE LIST")) pending list_response.
Definition do_quarantine_restore (fuel : nat) (ce : client_env) (id : cstr) (pending : list recv) :=
  run_request fuel ce (restore_request id) pending (done_response (cs "restored") id).
Definition do_quarantine_delete (fuel : nat) (ce : client_env) (id : cstr) (pending : list recv) :=
  run_request fuel ce (delete_request id) pending (done_response (cs "deleted") id).

(** ** The whole response is read *)

Definition recv_bytes (r : recv) : cstr := match r with RecvBytes b => b | _ => [] end.
Definition recv_ok (r : recv) : Prop := match r with RecvBytes b => b ≠ [] | RecvEintr => True | RecvError => False end.

(** Enough fuel for a response. *)
Definition recv_size (pending : list recv) : nat := sum_list ((λ r, S (length (recv_bytes r))) <$> pending).

Lemma read_response_spec fuel grow pending cap buf :
  Forall recv_ok pending → (∀ c, grow c = true) → (recv_size pending < fuel)%nat →
  Z.of_nat (length buf) < cap - 1 →
  read_response fuel grow pending cap buf = Some (Some (buf_str (buf ++ mjoin (recv_bytes <$> pending)))).
Proof.
  intros Hok Hg. revert pending cap buf Hok.
  induction fuel as [|fuel IH]; intros pending cap buf Hok Hf Hb; [lia|]. cbn [read_response].
  destruct pending as [|r pending]; [csimpl; by rewrite app_nil_r|].
  apply Forall_cons in Hok as [Hr Hok]. unfold recv_size in Hf. csimpl in Hf. fold (recv_size pending) in Hf.
  destruct r as [b| |]; [|csimpl; apply IH; [done|simpl in Hf; lia|done]|done].
  cbn [sock_read]. cbn [recv_bytes] in *. set (n := Z.to_nat (cap - Z.of_nat (length buf) - 1)).
  assert (0 < n)%nat as Hn by lia.
  assert (∀ bytes rest, bytes ≠ [] → (length bytes ≤ n)%nat → Forall recv_ok rest →
    (recv_size rest < fuel)%nat → mjoin (recv_bytes <$> RecvBytes b :: pending) = bytes ++ mjoin (recv_bytes <$> rest) →
    (if cap - 1 <=? Z.of_nat (length (buf ++ bytes))
     then if grow (cap * 2) then read_response fuel grow rest (cap * 2) (buf ++ bytes) else Some None
     else read_response fuel grow rest cap (buf ++ bytes)) =
    Some (Some (buf_str (buf ++ mjoin (recv_bytes <$> RecvBytes b :: pending))))) as Hnext.
  { intros bytes rest Hne Hl Hrest Hfuel ->. rewrite length_app, Hg, (assoc_L (++)).
    destruct (Z.leb_spec (cap - 1) (Z.of_nat (length buf + length bytes)));
      apply IH; rewrite ?length_app; (done || lia). }
  destruct (Nat.ltb_spec n (length b)) as [Hlt|Hge].
  - destruct (take n b) as [|x t] eqn:Ht.
    { apply (f_equal length) in Ht. rewrite length_take in Ht. simpl in Ht. lia. }
    rewrite <- Ht. apply Hnext; [by rewrite Ht|rewrite length_take; lia| | |].
    + constructor; [|done]. intros Hd. apply (f_equal length) in Hd. rewrite length_drop in Hd. simpl in Hd. lia.
    + unfold recv_size. csimpl. rewrite length_drop. fold (recv_size pending). lia.
    + csimpl. by rewrite (assoc_L (++)), take_drop.
  - destruct b as [|x b]; [done|]. apply Hnext; [done|done|done| |done]. simpl in Hf. lia.
Qed.

Record client_fine (cl : client_env) (cmd : cstr) : Prop := {
  cf_socket : cl_socket cl = true; cf_path : (length (cl_path cl) < SUN_PATH)%nat;
  cf_connect : cl_connect cl = true; cf_malloc_req : cl_malloc_req cl = true;
  cf_written : cl_written cl = Z.of_nat (length (cmd ++ [LF])); cf_malloc : cl_malloc cl = true;
  cf_grow : ∀ c, cl_grow cl c = true;
}.

(** The response arrives, in pieces of any size. *)
Definition arrives (resp : cstr) (pending : list recv) : Prop :=
  Forall recv_ok pending ∧ mjoin (recv_bytes <$> pending) = resp.

Lemma run_request_spec fuel cl cmd pending resp k :
  client_fine cl cmd → arrives resp pending → (recv_size pending < fuel)%nat →
  run_request fuel cl (Some cmd) pending k = (cmd ++ [LF], Some (k (buf_str resp))).
Proof.
  intros [Hs Hp Hc Hr Hw Hm Hg] [Hok <-] Hf. unfold run_request, control_request.
  rewrite Hs, Hc, Hr, Hm, (proj2 (Nat.leb_gt _ _)), Hw, Z.eqb_refl, Nat2Z.id, take_ge by done. cbn [negb].
  by rewrite read_response_spec.
Qed.

(** ** Parsing what the daemon prints *)

Lemma next_line_first l rest : LF ∉ l → next_line (l ++ LF :: rest) = Some (l, rest).
Proof.
  intros Hl. unfold next_line. destruct (l ++ LF :: rest) as [|a s] eqn:Hs; [by destruct l|].
  by rewrite <- Hs, strsep_first.
Qed.

Lemma expect_ok_line rest : expect_ok (OK_LINE ++ rest) = Some rest.
Proof. done. Qed.

Lemma err_refused msg : expect_ok (buf_str (take 255 (cs "ERR " ++ msg ++ [LF]))) = None.
Proof.
  change (cs "ERR " ++ msg ++ [LF]) with ("E"%char :: (cs "RR " ++ msg ++ [LF])). cbn [take].
  generalize (take 254 (cs "RR " ++ msg ++ [LF])). intros l. unfold buf_str. cbn [take_while].
  change (negb (aeqb "E" NUL)) with true. cbv iota. unfold expect_ok, next_line. cbn [strsep].
  change (aeqb "E" LF) with false. cbv iota. by destruct (strsep _ _).
Qed.

Lemma skip_count n rest : skip_line (count_line n ++ rest) = rest.
Proof.
  unfold skip_line, count_line. rewrite <- !(assoc_L (++)). cbn [app].
  change (cs "COUNT " ++ print_signed n ++ LF :: rest) with (cs "COUNT " ++ print_signed n ++ LF :: rest).
  rewrite (assoc_L (++)), next_line_first; [done|].
  rewrite elem_of_app. intros [Hin|Hin].
  - by apply (bool_decide_unpack (LF ∉ cs "COUNT ")) in Hin.
  - by apply print_signed_chars in Hin as [[=]|?].
Qed.

(** An empty digest makes the row a malformed one. *)
Lemma scan_fields_row r :
  tellable r →
  scan_fields (row_text r) =
    if (length (res_sha256_hex r) =? 0)%nat then None
    else Some (verdict_word r, res_rule_name r, res_score r, res_sha256_hex r).
Proof.
  intros [(Hrt & _) (Hst & _) Hz Hrl Hsl]. unfold scan_fields, row_text.
  assert ((length (verdict_word r) =? 0)%nat = false ∧ fits 16 (verdict_word r) = true) as (Hv0 & Hvl)
    by (unfold verdict_word; by destruct (_ =? _)).
  rewrite !strsep_first by (done || apply plain_print || apply verdict_plain). rewrite strchr_notin by done.
  rewrite Hv0, Hvl. unfold fits. rewrite !(proj2 (Nat.ltb_lt _ _)) by lia.
  cbn [negb orb]. destruct (length (res_sha256_hex r) =? 0)%nat; cbn [negb orb]; [done|].
  rewrite <- (app_nil_r (print_signed (res_score r))), skip_space_print, scan_long_print by (done || lia).
  by rewrite (proj2 (Z.ltb_ge _ _)), (proj2 (Z.ltb_ge (2 ^ 31 - 1) _)) by lia.
Qed.

Lemma row_line r : tellable r → LF ∉ row_text r.
Proof.
  intros [(_ & Hr & _) (_ & Hs & _) _ _ _]. destruct (verdict_plain r) as (_ & Hv & _).
  destruct (plain_print (res_score r)) as (_ & Hp & _). unfold row_text.
  rewrite !elem_of_app, !elem_of_cons, !elem_of_app, !elem_of_cons, !elem_of_app, !elem_of_cons.
  intros [?|[[=]|[?|[[=]|[?|[[=]|?]]]]]]; done.
Qed.

Lemma row_no_nul r : tellable r → NUL ∉ row_text r.
Proof.
  intros [(_ & _ & Hr) (_ & _ & Hs) _ _ _]. destruct (verdict_plain r) as (_ & _ & Hv).
  destruct (plain_print (res_score r)) as (_ & _ & Hp). unfold row_text.
  rewrite !elem_of_app, !elem_of_cons, !elem_of_app, !elem_of_cons, !elem_of_app, !elem_of_cons.
  intros [?|[[=]|[?|[[=]|[?|[[=]|?]]]]]]; done.
Qed.

Lemma buf_str_id s : NUL ∉ s → buf_str s = s.
Proof.
  intros Hn. apply take_while_all, Forall_forall. intros a Ha. apply negb_true_iff, aeqb_neq. by intros ->.
Qed.

(** The whole answer to a scan. *)
Definition scan_answer (r : scan_result) : cstr := OK_LINE ++ count_line 1 ++ scan_row r ++ END_LINE.

(** What avctl says of a result. *)
Definition told (path : cstr) (r : scan_result) : cstr :=
  if res_verdict r =? AV_VERDICT_MALICIOUS then
    cs "MALICIOUS: " ++ path ++ (match res_rule_name r with [] => [] | _ => cs " - " end) ++
    res_rule_name r ++ cs " (score=" ++ print_signed (res_score r) ++ cs ")" ++ [LF] ++
    cs "sha256: " ++ res_sha256_hex r ++ [LF]
  else cs "CLEAN: " ++ path ++ [LF] ++ cs "sha256: " ++ res_sha256_hex r ++ [LF].

(** For a file without a hash, nothing. *)
Definition reported_of (path : cstr) (r : scan_result) : Z * cstr :=
  if (length (res_sha256_hex r) =? 0)%nat then failed else (0, told path r).

Lemma scan_told path r : tellable r → scan_response path (buf_str (scan_answer r)) = reported_of path r.
Proof.
  intros Ht. unfold scan_answer. rewrite row_sent by done. rewrite buf_str_id.
  - unfold scan_response. rewrite expect_ok_line, skip_count, <- (assoc_L (++)). cbn [app].
    rewrite next_line_first by (by apply row_line). rewrite scan_fields_row by done.
    unfold reported_of. destruct (length _ =? 0)%nat; [done|].
    unfold scan_report, verdict_word, told. by destruct (_ =? _).
  - pose proof (row_no_nul r Ht) as Hn. rewrite !elem_of_app. intros [H|[H|[[H|H]|H]]].
    + by apply (bool_decide_unpack (NUL ∉ OK_LINE)) in H.
    + by apply (bool_decide_unpack (NUL ∉ count_line 1)) in H.
    + done.
    + by apply list_elem_of_singleton in H.
    + by apply (bool_decide_unpack (NUL ∉ END_LINE)) in H.
Qed.

(** ** The two programs together *)

(** The daemon begins to read each of these bytes before its deadline. *)
Definition delivered (start_sec start_nsec : Z) (bytes : cstr) (events : list read_event) : Prop :=
  bytes_of events = bytes ∧ Forall no_failure events ∧
  Forall (begun_in_time (start_sec + AVD_CONTROL_RECV_TIMEOUT_SECS) start_nsec) events.

Lemma bytes_of_app l l' : bytes_of (l ++ l') = bytes_of l ++ bytes_of l'.
Proof. unfold bytes_of. apply omap_app. Qed.

Lemma bytes_of_split events l c l' :
  bytes_of events = l ++ c :: l' →
  ∃ pre ev post, events = pre ++ ev :: post ∧ ev_result ev = RByte c ∧ bytes_of pre = l.
Proof.
  revert l. induction events as [|ev events IH]; intros l He; [by destruct l|].
  change (ev :: events) with ([ev] ++ events) in He. rewrite bytes_of_app in He.
  assert (bytes_of [ev] = [] ∨ ∃ b, ev_result ev = RByte b ∧ bytes_of [ev] = [b]) as Hev.
  { unfold bytes_of. cbn [omap list_omap]. destruct (ev_result ev) as [| | |b]; eauto. }
  destruct Hev as [Hev|(b & Hb & Hev)].
  - rewrite Hev in He. destruct (IH l He) as (pre & e & post & -> & ? & <-).
    exists (ev :: pre), e, post. split_and!; [done..|].
    change (ev :: pre) with ([ev] ++ pre). by rewrite bytes_of_app, Hev.
  - rewrite Hev in He. destruct l as [|a l]; injection He as <- He.
    + by exists [], ev, events.
    + destruct (IH l He) as (pre & e & post & -> & ? & <-).
      exists (ev :: pre), e, post. split_and!; [done..|].
      change (ev :: pre) with ([ev] ++ pre). by rewrite bytes_of_app, Hev.
Qed.

Section together.
Context `{!Fuzzy} {W : Type} `{!Posix W}.

(** A delivered request is handled. *)
Lemma request_handled ce uid start_sec start_nsec cmd events (w : W) h s :
  delivered start_sec start_nsec (cmd ++ [LF]) events → LF ∉ cmd → NUL ∉ cmd → cmd ≠ [] →
  (length cmd + 1 < AVD_SOCK_LINE_MAX)%nat →
  control_conn_main ce (Some uid) start_sec start_nsec events w h s =
    Some (handle_control_line ce cmd uid (uid =? 0) w h s).
Proof.
  intros (Hb & Hf & Ht) Hlf Hn Hne Hl. unfold control_conn_main, read_line.
  destruct (bytes_of_split _ _ _ _ Hb) as (pre & ev & post & -> & Hev & <-).
  change (pre ++ ev :: post) with (pre ++ [ev] ++ post) in Hf, Ht. rewrite (assoc_L (++)) in Ht.
  apply Forall_app in Hf as [Hf _]. apply Forall_app in Ht as [Ht _].
  rewrite read_loop_complete by done. cbn [app]. rewrite buf_str_id by done. by destruct (bytes_of pre).
Qed.

Lemma strchr_none s c : strchr s c = None → c ∉ s.
Proof.
  induction s as [|a s IH]; [intros _; apply not_elem_of_nil|]. simpl.
  destruct (aeqb a c) eqn:Ha; [done|]. apply aeqb_neq in Ha. rewrite not_elem_of_cons. auto.
Qed.

Lemma check_field_inv s max : check_field_len s max = true → (LF ∉ s) ∧ (length s ≤ max)%nat.
Proof.
  unfold check_field_len. destruct (strchr s LF) eqn:Hc; [done|].
  rewrite negb_true_iff, Nat.ltb_ge. split; [by apply strchr_none|done].
Qed.

Lemma scan_request_spec path cmd :
  scan_request path = Some cmd → cmd = SCAN ++ path ∧ (LF ∉ path) ∧ (length path < PATH_MAX)%nat.
Proof.
  unfold scan_request. destruct (negb _); [done|].
  destruct (check_field_len path (PATH_MAX - 1)) eqn:Hc; [|done]. apply check_field_inv in Hc as [? ?].
  cbn [negb]. destruct (fits _ _); [|done]. intros [= <-]. split_and!; [done..|unfold PATH_MAX in *; lia].
Qed.

Lemma handle_scan ce path uid is_root (w : W) h s :
  handle_control_line ce (SCAN ++ path) uid is_root w h s =
    if is_root then cmd_scan ce path w h s
    else (w, h, send_err (permission_denied (cs "scan <path>")) s).
Proof.
  destruct (prefix_argument SCAN path) as [Hp Ha]. unfold handle_control_line. rewrite Hp, Ha.
  by destruct is_root.
Qed.

(** A scan that is not made, and one that is. *)
Lemma cmd_scan_open ce path (w : W) h :
  hd_error path = Some SLASH →
  match open_rdonly path w with
  | Some fd =>
      if match fstat fd w with Some st => S_ISREG (st_mode st) | None => false end && ce_fcntl ce then
        ∀ out q w' h',
          perform_scan (ce_env ce) (ce_engine ce) fd path None 0 true (ce_scan ce) w h = (out, q, w', h') →
          cmd_scan ce path w h (open_sock []) = (w', h', open_sock (scan_answer out))
      else ∃ msg, cmd_scan ce path w h (open_sock []) = (w, h, send_err msg (open_sock []))
  | None => ∃ msg, cmd_scan ce path w h (open_sock []) = (w, h, send_err msg (open_sock []))
  end.
Proof.
  intros Ha. destruct path as [|b path]; [done|]. injection Ha as ->. unfold cmd_scan.
  rewrite aeqb_refl. cbn [negb]. destruct (open_rdonly _ w) as [fd|]; [|by eexists].
  destruct (match fstat fd w with Some _ => _ | None => _ end); cbn [negb andb]; [|by eexists].
  destruct (ce_fcntl ce); cbn [negb]; [|by eexists].
  intros out q w' h' ->. unfold open_sock. rewrite !send_open. cbn [app]. unfold scan_answer.
  by rewrite <- !(assoc_L (++)).
Qed.

(** C9: [avctl scan] tells what the daemon found, if the row can carry it.  avctl sends one line, the
    command and the path, and nothing for a path that is relative, too long or holds a newline.  If
    the line reaches the daemon in time, from root, the daemon scans the file that path names, once;
    and however its reply is cut into pieces and interrupted by signals, avctl reads all of it and,
    if the rule name holds no tab, newline or NUL, prints the verdict, the rules, the score and the
    SHA-256 of that scan, with exit status 0; except that for a file that could not be hashed, where
    the digest is empty, it prints nothing and exits with 1 although the file has been scanned.  If
    the daemon refuses, because the peer is not root or the path does not name a regular file it can
    open, nothing has changed, and avctl prints nothing and exits with 1. *)
Theorem scan_end_to_end ce cl path uid start_sec start_nsec events (w : W) h :
  is_Some (scan_request path) → NUL ∉ path → client_fine cl (cs "SCAN " ++ path) →
  named (ce_scan ce) → sane (si_sha (ce_scan ce)) →
  delivered start_sec start_nsec ((cs "SCAN " ++ path) ++ [LF]) events →
  ∃ w' h' s',
    control_conn_main ce (Some uid) start_sec start_nsec events w h (open_sock []) = Some (w', h', s') ∧
    ∀ pending, arrives (sk_out s') pending → ∀ fuel, (recv_size pending < fuel)%nat →
      let '(sent, reported) := do_scan fuel cl path pending in
      sent = (cs "SCAN " ++ path) ++ [LF] ∧
      match (if uid =? 0 then open_rdonly path w else None) with
      | Some fd =>
          if match fstat fd w with Some st => S_ISREG (st_mode st) | None => false end && ce_fcntl ce
          then
            ∃ out q, perform_scan (ce_env ce) (ce_engine ce) fd path None 0 true (ce_scan ce) w h =
                (out, q, w', h') ∧
              (plain (res_rule_name out) → reported = Some (reported_of path out)) ∧
              length (res_sha256_hex out) = (if hashable (si_sha (ce_scan ce)) then 64 else 0)%nat
          else w' = w ∧ h' = h ∧ reported = Some failed
      | None => w' = w ∧ h' = h ∧ reported = Some failed
      end.
Proof.
  intros [cmd Hr] Hnul Hcl Hn Hs Hd. pose proof (scan_request_spec _ _ Hr) as (-> & Hlf & Hl).
  assert (hd_error path = Some SLASH) as Hp.
  { unfold scan_request in Hr. destruct path as [|a p]; [done|].
    destruct (aeqb a SLASH) eqn:Ha; [|done]. by apply aeqb_eq in Ha as ->. }
  assert (∀ s' pending fuel (P : option (Z * cstr) → Prop),
    arrives (sk_out s') pending → (recv_size pending < fuel)%nat →
    P (Some (scan_response path (buf_str (sk_out s')))) →
    let '(sent, reported) := do_scan fuel cl path pending in
    sent = (cs "SCAN " ++ path) ++ [LF] ∧ P reported) as Hclient.
  { intros s' pending fuel P Ha Hf HP. unfold do_scan. rewrite Hr.
    by rewrite (run_request_spec _ _ _ _ _ _ Hcl Ha Hf). }
  assert (∀ msg, scan_response path (buf_str (sk_out (send_err msg (open_sock [])))) = failed) as Herr.
  { intros msg. rewrite send_err_open. unfold scan_response. cbn [sk_out open_sock app]. by rewrite err_refused. }
  assert (∀ c, c ∉ cs "SCAN " → c ∉ path → c ∉ cs "SCAN " ++ path) as Hin by (intros; by rewrite elem_of_app; intros [?|?]).
  rewrite (request_handled ce uid start_sec start_nsec (cs "SCAN " ++ path)) by
    (done || (apply Hin; [by apply (bool_decide_unpack _)|done]) ||
     (rewrite length_app; unfold AVD_SOCK_LINE_MAX; simpl length; lia)).
  change (cs "SCAN ") with SCAN. rewrite handle_scan. destruct (uid =? 0).
  2: { eexists _, _, _. split; [done|]. intros pending Ha fuel Hf. by apply (Hclient _ _ _ _ Ha Hf). }
  pose proof (cmd_scan_open ce path w h Hp) as Hc. destruct (open_rdonly path w) as [fd|].
  2: { destruct Hc as [msg Hc]. rewrite Hc. eexists _, _, _. split; [done|]. intros pending Ha fuel Hf.
       apply (Hclient _ _ _ _ Ha Hf). by rewrite Herr. }
  destruct (match fstat fd w with Some _ => _ | None => _ end && _).
  2: { destruct Hc as [msg Hc]. rewrite Hc. eexists _, _, _. split; [done|]. intros pending Ha fuel Hf.
       apply (Hclient _ _ _ _ Ha Hf). by rewrite Herr. }
  destruct (perform_scan (ce_env ce) (ce_engine ce) fd path None 0 true (ce_scan ce) w h)
    as [[[out q] w'] h'] eqn:Hps.
  rewrite (Hc _ _ _ _ eq_refl). eexists _, _, _. split; [done|]. intros pending Ha fuel Hf.
  apply (Hclient _ _ _ (λ reported, ∃ out q, _ = (out, q, w', h') ∧ (plain (res_rule_name out) → reported = Some (reported_of path out)) ∧
    length (res_sha256_hex out) = (if hashable (si_sha (ce_scan ce)) then 64 else 0)%nat) Ha Hf).
  exists out, q. split_and!; [done| |].
  - intros Hplain. cbn [sk_out open_sock]. by rewrite scan_told by (by eapply scan_tellable).
  - destruct (sane_hash _ Hs) as [_ Hl']. rewrite <- Hl'. unfold perform_scan in Hps.
    assert (length (scan_hash None (si_sha (ce_scan ce))) < 65)%nat as Hlt by (rewrite Hl'; destruct (hashable _); lia).
    destruct (analyse _ _ _) as [[v r] sc]. destruct (if v =? AV_VERDICT_MALICIOUS then _ else _) as [q1 w1].
    injection Hps as <- _ _ _. cbn [res_sha256_hex]. exact (f_equal length (strscpy_fit _ _ Hlt)).
Qed.
End together.

(** ** The listing of the quarantine *)

(** A text that %n[^\t] reads whole, after a tab. *)
Definition row_field (n : nat) (s : cstr) : Prop :=
  s ≠ [] ∧ plain s ∧ (length s ≤ n)%nat ∧ match s with [] => True | a :: _ => isspace_c a = false end.

Definition fields_row (id path : cstr) (ts : Z) (rule sha : cstr) : cstr :=
  id ++ TAB :: path ++ TAB :: print_signed ts ++ TAB :: rule ++ TAB :: sha.

Lemma scan_tab fmt n s t :
  row_field n s → sscanf_c (DBlank :: fmt) (TAB :: s ++ t) = sscanf_c fmt (s ++ t).
Proof.
  intros (Hne & _ & _ & Hs). cbn [sscanf_c skip_space]. change (isspace_c TAB) with true. cbv iota.
  rewrite skip_space_id; [done|]. by destruct s.
Qed.

Lemma scan_to_tab fmt n s t :
  row_field n s → sscanf_c (DSet n [TAB] :: fmt) (s ++ TAB :: t) = FStr s :: sscanf_c fmt (TAB :: t).
Proof.
  intros (Hne & (Ht & _) & Hl & _). apply scan_set; [done| |done|by left].
  apply Forall_forall. intros a Ha ->%list_elem_of_singleton. done.
Qed.

Lemma quarantine_row_fields id path ts rule sha :
  row_field 255 id → row_field 4095 path → - 2 ^ 63 ≤ ts < 2 ^ 63 → row_field 127 rule → row_field 127 sha →
  quarantine_row (fields_row id path ts rule sha) =
    pad 40 id ++ SPACE :: pad 6 rule ++ SPACE :: pad 20 (print_signed ts) ++ SPACE :: path ++ [LF].
Proof.
  intros Hi Hp Hts Hr Hs. unfold quarantine_row, fields_row. change (PATH_MAX - 1)%nat with 4095%nat.
  rewrite scan_to_tab by done. rewrite (scan_tab _ _ path) by done. rewrite scan_to_tab by done.
  assert (∀ fmt t, sscanf_c (DBlank :: DLong :: fmt) (TAB :: print_signed ts ++ TAB :: t) =
    FLong ts :: sscanf_c fmt (TAB :: t)) as ->.
  { intros fmt t. change (sscanf_c (DBlank :: DLong :: fmt) (TAB :: print_signed ts ++ TAB :: t)) with
      (sscanf_c (DLong :: fmt) (skip_space (print_signed ts ++ TAB :: t))).
    by rewrite skip_space_print, scan_field_print. }
  rewrite (scan_tab _ _ rule) by done. rewrite scan_to_tab by done.
  rewrite <- (app_nil_r sha) at 1. rewrite (scan_tab _ _ sha) by done.
  destruct Hs as (Hne & (Ht & Hlf & _) & Hl & _). rewrite scan_set; [done|done| |done|done].
  apply Forall_forall. intros a Ha. rewrite !not_elem_of_cons.
  split_and!; [by intros ->|by intros ->|apply not_elem_of_nil].
Qed.

Lemma strsep_length s d tok rest : strsep s d = (tok, Some rest) → (length rest < length s)%nat.
Proof.
  revert tok. induction s as [|a s IH]; intros tok; [done|]. cbn [strsep].
  destruct (aeqb a d); [intros [= _ <-]; simpl; lia|]. destruct (strsep s d) as [t [r|]]; [|done].
  intros [= _ <-]. specialize (IH t eq_refl). simpl. lia.
Qed.

(** More fuel than the reply is long changes nothing. *)
Lemma quarantine_rows_enough fuel cursor :
  (length cursor ≤ fuel)%nat → quarantine_rows (S fuel) cursor = quarantine_rows fuel cursor.
Proof.
  revert cursor. induction fuel as [|fuel IH]; intros cursor Hl; [by destruct cursor; [|simpl in Hl; lia]|].
  change (quarantine_rows (S (S fuel)) cursor) with
    (match next_line cursor with
     | Some (line, rest) =>
         if strcmp_eq line (cs "END") then [] else quarantine_row line ++ quarantine_rows (S fuel) rest
     | None => [] end).
  cbn [quarantine_rows]. destruct (next_line cursor) as [[line rest]|] eqn:Hn; [|done].
  destruct (strcmp_eq line (cs "END")); [done|]. f_equal. apply IH. unfold next_line in Hn.
  destruct cursor as [|a s]; [done|]. destruct (strsep (a :: s) LF) as [tok [r|]] eqn:Hs; injection Hn as _ <-.
  - apply strsep_length in Hs. simpl in Hs, Hl. lia.
  - simpl. lia.
Qed.

Lemma quarantine_rows_lines fuel ls :
  Forall (λ l, (LF ∉ l) ∧ l ≠ cs "END") ls → (length ls < fuel)%nat →
  quarantine_rows fuel (mjoin (line_of <$> ls) ++ END_LINE) = mjoin (quarantine_row <$> ls).
Proof.
  revert fuel. induction ls as [|l ls IH]; intros [|fuel] Hls Hf; try (simpl in Hf; lia); [done|].
  apply Forall_cons in Hls as [[Hl He] Hls]. cbn [quarantine_rows fmap list_fmap mjoin list_join].
  unfold line_of at 1. rewrite <- !(assoc_L (++)). cbn [app]. rewrite next_line_first by done.
  destruct (strcmp_eq l (cs "END")) eqn:E; [by apply strcmp_eq_spec in E|].
  rewrite IH; [done..|simpl in Hf; lia].
Qed.

Section listing.
Context `{!Fuzzy} {W : Type} `{!Posix W}.

Definition entry_id (d_name : cstr) : cstr := take (length d_name - length SUFFIX) d_name.

(** The columns of an entry: its path, the time and the rule; "?" without a sidecar. *)
Definition shown_row (e : env) (w : W) (d_name : cstr) : cstr :=
  let '(path, ts, rule) :=
    match entry_meta e d_name w with
    | Some meta => (original_path meta, timestamp meta, rule_name meta)
    | None => (cs "?", 0, cs "?")
    end in
  pad 40 (entry_id d_name) ++ SPACE :: pad 6 rule ++ SPACE :: pad 20 (print_signed ts) ++ SPACE :: path ++ [LF].

(** An entry that a row can carry. *)
Definition listable (e : env) (w : W) (d_name : cstr) : Prop :=
  row_field 255 (entry_id d_name) ∧
  ∀ meta, entry_meta e d_name w = Some meta →
    row_field 4095 (original_path meta) ∧ - 2 ^ 63 ≤ timestamp meta < 2 ^ 63 ∧
    row_field 127 (rule_name meta) ∧ row_field 127 (sha256_hex meta).

Lemma question_field n : (0 < n)%nat → row_field n (cs "?").
Proof. intros Hn. split_and!; [done|by apply (bool_decide_unpack _)..|done|done]. Qed.

Lemma fields_row_chars id path ts rule sha c :
  c ≠ TAB → c ∉ print_signed ts → Forall (λ s : cstr, c ∉ s) [id; path; rule; sha] →
  c ∉ fields_row id path ts rule sha.
Proof.
  intros Ht Hp Hf. rewrite !Forall_cons in Hf. destruct Hf as (? & ? & ? & ? & _). unfold fields_row.
  repeat (rewrite elem_of_app || rewrite elem_of_cons). tauto.
Qed.

Lemma fields_row_length id path ts rule sha :
  row_field 255 id → row_field 4095 path → - 2 ^ 63 ≤ ts < 2 ^ 63 → row_field 127 rule → row_field 127 sha →
  (length (fields_row id path ts rule sha) + 2 < AVD_ROW_MAX)%nat.
Proof.
  intros (_ & _ & ? & _) (_ & _ & ? & _) Hts (_ & _ & ? & _) (_ & _ & ? & _).
  pose proof (print_signed_length ts 19) as Hp. unfold fields_row, AVD_ROW_MAX, PATH_MAX.
  repeat (rewrite length_app || cbn [length]). lia.
Qed.

(** The row of such an entry, and what avctl makes of it. *)
Lemma listed_line e (w : W) d :
  listable e w d →
  ∃ l, entry_row e w d = line_of l ∧ (LF ∉ l) ∧ (NUL ∉ l) ∧ l ≠ cs "END" ∧
    quarantine_row l = shown_row e w d.
Proof.
  intros [Hid Hmeta].
  set (m := match entry_meta e d w with
            | Some meta => (original_path meta, timestamp meta, rule_name meta, sha256_hex meta)
            | None => (cs "?", 0, cs "?", cs "?")
            end).
  assert (row_field 4095 m.1.1.1 ∧ - 2 ^ 63 ≤ m.1.1.2 < 2 ^ 63 ∧ row_field 127 m.1.2 ∧ row_field 127 m.2)
    as (Hp & Hts & Hr & Hs).
  { unfold m. destruct (entry_meta e d w) as [meta|]; [by apply Hmeta|].
    split_and!; try done; apply question_field; lia. }
  exists (fields_row (entry_id d) m.1.1.1 m.1.1.2 m.1.2 m.2).
  pose proof Hid as (Hne & (_ & Hi1 & Hi2) & Hil & _). pose proof Hp as (_ & (_ & Hp1 & Hp2) & _).
  pose proof Hr as (_ & (_ & Hr1 & Hr2) & _). pose proof Hs as (_ & (_ & Hs1 & Hs2) & _).
  destruct (plain_print m.1.1.2) as (_ & Hn1 & Hn2).
  split_and!.
  - unfold entry_row. fold (entry_id d). rewrite (strscpy_fit (entry_id d)) by (unfold PATH_MAX; lia).
    pose proof (fields_row_length _ _ _ _ _ Hid Hp Hts Hr Hs) as Hl.
    assert ((match entry_meta e d w with
      | Some meta => entry_id d ++ [TAB] ++ original_path meta ++ [TAB] ++ print_signed (timestamp meta) ++
          [TAB] ++ rule_name meta ++ [TAB] ++ sha256_hex meta ++ [LF]
      | None => entry_id d ++ [TAB] ++ cs "?" ++ [TAB] ++ cs "0" ++ [TAB] ++ cs "?" ++ [TAB] ++ cs "?" ++ [LF]
      end) = line_of (fields_row (entry_id d) m.1.1.1 m.1.1.2 m.1.2 m.2)) as ->.
    { unfold line_of, fields_row, m. destruct (entry_meta e d w) as [meta|]; cbn [fst snd app];
        repeat (rewrite <- (assoc_L (++)); cbn [app]); done. }
    apply strscpy_fit. unfold line_of. rewrite length_app. simpl length in *. lia.
  - apply fields_row_chars; [done|done|]. by repeat constructor.
  - apply fields_row_chars; [done|done|]. by repeat constructor.
  - intros He. assert (TAB ∈ cs "END") as Ht.
    { rewrite <- He. unfold fields_row. rewrite elem_of_app, elem_of_cons. auto. }
    by apply (bool_decide_unpack (TAB ∉ cs "END")) in Ht.
  - rewrite quarantine_row_fields by done. unfold shown_row, m. by destruct (entry_meta e d w).
Qed.

(** C31: [avctl quarantine list] shows the peer's entries and no others.  If the request reaches
    the daemon in time, nothing changes, and however the reply is cut into pieces and interrupted
    by signals, avctl prints below its header one row for each entry of the quarantine that the
    peer may see, all of them for root and its own for another user, in the daemon's order, with
    the id, the rule, the time and the original path of the sidecar.  This is for a daemon that can
    read its directory and allocate, and for entries of which the row can be read back
    ([listable]): no field is empty, begins with a blank or holds a tab or a newline, and each fits
    avctl's buffer (255 bytes for the id, 127 for the rule and the digest, 4095 for the path).  Any
    other entry is counted, but its row is dropped without a word, see
    [ClientExamples.list_unhashed]. *)
Theorem list_end_to_end ce cl uid start_sec start_nsec events (w : W) h names :
  client_fine cl (cs "QUARANTINE LIST") →
  delivered start_sec start_nsec (cs "QUARANTINE LIST" ++ [LF]) events →
  ce_dir ce = Some names → ce_malloc ce = true →
  let shown := List.filter (entry_visible (ce_env ce) uid (uid =? 0) w) (List.filter filter_quarantined names) in
  Forall (listable (ce_env ce) w) shown →
  ∃ s', control_conn_main ce (Some uid) start_sec start_nsec events w h (open_sock []) = Some (w, h, s') ∧
    ∀ pending, arrives (sk_out s') pending → ∀ fuel, (recv_size pending < fuel)%nat →
      do_quarantine_list fuel cl pending =
        (cs "QUARANTINE LIST" ++ [LF], Some (0, LIST_HEADER ++ mjoin (shown_row (ce_env ce) w <$> shown))).
Proof.
  intros Hcl Hd Hdir Hm shown Hlist.
  rewrite (request_handled ce uid start_sec start_nsec (cs "QUARANTINE LIST")) by
    (done || by apply (bool_decide_unpack _)).
  eexists. split; [done|].
  intros pending Ha fuel Hf. unfold do_quarantine_list. rewrite (run_request_spec _ _ _ _ _ _ Hcl Ha Hf).
  clear Ha Hf. pose proof (quarantine_list_open ce uid (uid =? 0) w [] names Hdir Hm) as Ho.
  cbv zeta in Ho. fold shown in Ho. rewrite Ho. unfold open_sock. cbn [sk_out app].
  assert (∃ ls, entry_row (ce_env ce) w <$> shown = line_of <$> ls ∧
    Forall (λ l, (LF ∉ l) ∧ l ≠ cs "END") ls ∧ Forall (λ l, NUL ∉ l) ls ∧
    quarantine_row <$> ls = shown_row (ce_env ce) w <$> shown) as (ls & Hrows & Hls & Hnul & Hshown).
  { clear -Hlist. induction Hlist as [|d ds Hd Hds (ls & Hr & Hf & Hn & Hs)]; [by exists []|].
    destruct (listed_line _ _ _ Hd) as (l & Hl & ? & ? & ? & Hq). exists (l :: ls).
    cbn [fmap list_fmap]. rewrite Hl, Hq. split_and!; [by f_equal|by constructor|by constructor|by f_equal]. }
  rewrite Hrows, length_fmap, <- Hshown. rewrite <- !(assoc_L (++)). rewrite buf_str_id.
  - unfold list_response. rewrite expect_ok_line. rewrite skip_count.
    rewrite quarantine_rows_lines; [done|done|]. rewrite !length_app.
    pose proof (lines_length ls). simpl length. lia.
  - rewrite !elem_of_app. intros [Hin|[Hin|[Hin|Hin]]].
    + by apply (bool_decide_unpack (NUL ∉ OK_LINE)) in Hin.
    + unfold count_line in Hin. rewrite !elem_of_app in Hin. destruct Hin as [Hin|[Hin|Hin]].
      * by apply (bool_decide_unpack (NUL ∉ cs "COUNT ")) in Hin.
      * by apply plain_print in Hin.
      * by apply list_elem_of_singleton in Hin.
    + apply list_elem_of_join in Hin as (l & Hin & Hl). apply list_elem_of_fmap in Hl as (l' & -> & Hl').
      rewrite Forall_forall in Hnul. unfold line_of in Hin. apply elem_of_app in Hin as [Hin|Hin].
      * by apply (Hnul l').
      * by apply list_elem_of_singleton in Hin.
    + by apply (bool_decide_unpack (NUL ∉ END_LINE)) in Hin.
Qed.
End listing.

(** ** Restoring and deleting *)

Section restoring.
Context `{!Fuzzy} {W : Type} `{!Posix W}.

Lemma handle_restore ce id uid is_root (w : W) h s :
  handle_control_line ce (QUARANTINE_RESTORE ++ id) uid is_root w h s =
    if is_root then
      let '(r, _, w') := cmd_quarantine_restore (ce_env ce) id w in (w', h, send_reply r s)
    else (w, h, send_err (permission_denied (cs "quarantine restore <id>")) s).
Proof.
  destruct (prefix_argument QUARANTINE_RESTORE id) as [Hp Ha]. unfold handle_control_line. rewrite Hp, Ha.
  by destruct is_root.
Qed.

Lemma handle_delete ce id uid is_root (w : W) h s :
  handle_control_line ce (QUARANTINE_DELETE ++ id) uid is_root w h s =
    if is_root then let '(r, w') := cmd_quarantine_delete (ce_env ce) id w in (w', h, send_reply r s)
    else (w, h, send_err (permission_denied (cs "quarantine delete <id>")) s).
Proof.
  destruct (prefix_argument QUARANTINE_DELETE id) as [Hp Ha]. unfold handle_control_line. rewrite Hp, Ha.
  by destruct is_root.
Qed.

(** What avctl makes of a reply. *)
Lemma reply_read verb id r :
  done_response verb id (buf_str (sk_out (send_reply r (open_sock [])))) =
    match r with ReplyOk => (0, verb ++ cs ": " ++ id ++ [LF]) | ReplyErr _ => failed end.
Proof.
  destruct r as [|msg]; cbn [send_reply]; unfold done_response.
  - done.
  - rewrite send_err_open. cbn [sk_out open_sock app]. by rewrite err_refused.
Qed.

(** An id that avctl sends reaches the daemon whole. *)
Lemma id_request verb id cmd :
  (verb = QUARANTINE_RESTORE ∧ restore_request id = Some cmd ∨
   verb = QUARANTINE_DELETE ∧ delete_request id = Some cmd) → NUL ∉ id →
  cmd = verb ++ id ∧ (LF ∉ cmd) ∧ (NUL ∉ cmd) ∧ cmd ≠ [] ∧ (length cmd + 1 < AVD_SOCK_LINE_MAX)%nat.
Proof.
  unfold restore_request, delete_request, AVCTL_ID_MAXLEN. intros Hc Hn.
  destruct (check_field_len id 255) eqn:Hf; [|by destruct Hc as [[_ ?]|[_ ?]]]. cbn [negb] in Hc.
  apply check_field_inv in Hf as [Hlf Hl].
  assert (cmd = verb ++ id ∧ (verb = QUARANTINE_RESTORE ∨ verb = QUARANTINE_DELETE)) as [-> Hv].
  { destruct Hc as [[-> Hc]|[-> Hc]]; (destruct (fits _ _); [|done]); injection Hc as <-; auto. }
  assert ((LF ∉ verb) ∧ (NUL ∉ verb) ∧ (length verb ≤ 19)%nat ∧ verb ≠ []) as (? & ? & ? & ?).
  { destruct Hv as [-> | ->]; (split_and!; [by apply (bool_decide_unpack _)..|simpl; lia|done]). }
  rewrite !elem_of_app, length_app. unfold AVD_SOCK_LINE_MAX, PATH_MAX.
  split_and!; [done|tauto|tauto|by destruct verb|lia].
Qed.

(** [avctl quarantine restore] and [delete] do to the entry named, and to no other, what the
    daemon's commands do, if the peer is root, and say so only when the daemon says it was done. *)
Theorem restore_end_to_end ce cl id cmd uid start_sec start_nsec events (w : W) h :
  NUL ∉ id → client_fine cl cmd → delivered start_sec start_nsec (cmd ++ [LF]) events →
  (restore_request id = Some cmd →
   let '(r, _, w1) := cmd_quarantine_restore (ce_env ce) id w in
   ∃ w' h' s',
     control_conn_main ce (Some uid) start_sec start_nsec events w h (open_sock []) = Some (w', h', s') ∧
     w' = (if uid =? 0 then w1 else w) ∧ h' = h ∧
     ∀ pending, arrives (sk_out s') pending → ∀ fuel, (recv_size pending < fuel)%nat →
       do_quarantine_restore fuel cl id pending =
         (cmd ++ [LF], Some (match r with
                             | ReplyOk => if uid =? 0 then (0, cs "restored: " ++ id ++ [LF]) else failed
                             | ReplyErr _ => failed
                             end))) ∧
  (delete_request id = Some cmd →
   let '(r, w1) := cmd_quarantine_delete (ce_env ce) id w in
   ∃ w' h' s',
     control_conn_main ce (Some uid) start_sec start_nsec events w h (open_sock []) = Some (w', h', s') ∧
     w' = (if uid =? 0 then w1 else w) ∧ h' = h ∧
     ∀ pending, arrives (sk_out s') pending → ∀ fuel, (recv_size pending < fuel)%nat →
       do_quarantine_delete fuel cl id pending =
         (cmd ++ [LF], Some (match r with
                             | ReplyOk => if uid =? 0 then (0, cs "deleted: " ++ id ++ [LF]) else failed
                             | ReplyErr _ => failed
                             end))).
Proof.
  intros Hn Hcl Hd. split; intros Hr.
  - destruct (id_request QUARANTINE_RESTORE id cmd) as (-> & Hreq); [by left|done|].
    destruct Hreq as (? & ? & ? & ?).
    destruct (cmd_quarantine_restore (ce_env ce) id w) as [[r log] w1] eqn:Hc.
    rewrite (request_handled ce uid start_sec start_nsec (QUARANTINE_RESTORE ++ id)), handle_restore, Hc by done. destruct (uid =? 0); eexists _, _, _;
      (split; [done|split_and!; [done..|]]); intros pending Ha fuel Hf;
      unfold do_quarantine_restore; rewrite Hr, (run_request_spec _ _ _ _ _ _ Hcl Ha Hf).
    + by rewrite reply_read; destruct r.
    + match goal with |- context [send_err ?m ?s] => change (send_err m s) with (send_reply (ReplyErr m) s) end.
      rewrite reply_read. by destruct r.
  - destruct (id_request QUARANTINE_DELETE id cmd) as (-> & Hreq); [by right|done|].
    destruct Hreq as (? & ? & ? & ?).
    destruct (cmd_quarantine_delete (ce_env ce) id w) as [r w1] eqn:Hc.
    rewrite (request_handled ce uid start_sec start_nsec (QUARANTINE_DELETE ++ id)), handle_delete, Hc by done. destruct (uid =? 0); eexists _, _, _;
      (split; [done|split_and!; [done..|]]); intros pending Ha fuel Hf;
      unfold do_quarantine_delete; rewrite Hr, (run_request_spec _ _ _ _ _ _ Hcl Ha Hf).
    + by rewrite reply_read; destruct r.
    + match goal with |- context [send_err ?m ?s] => change (send_err m s) with (send_reply (ReplyErr m) s) end.
      rewrite reply_read. by destruct r.
Qed.
End restoring.

(** ** Examples *)

Module ClientExamples.
Import ToyFs OpsExamples CorpusExamples ScanExamples SockExamples ControlExamples.
#[local] Existing Instance toy_fuzzy.

Definition client (cmd : cstr) : client_env :=
  {| cl_path := cs "/run/avd/avd.sock"; cl_socket := true; cl_connect := true; cl_malloc_req := true;
     cl_written := Z.of_nat (length (cmd ++ [LF])); cl_malloc := true; cl_grow := λ _, true |}.

Definition abc_sha : sha_io :=
  {| sha_junk := replicate 64 0; sha_dup := true; sha_fdopen := true; sha_fseek := true;
     sha_reads := [[97; 98; 99]]; sha_ferror := false |}.

(** A daemon with this scan and these names in its directory. *)
Definition serving (sha : sha_io) (names : list cstr) : conn_env :=
  {| ce_env := daemon; ce_engine := eng; ce_status := {| st_uptime := 9; st_queue_len := 0; st_scan_threads := 8 |};
     ce_dir := Some names; ce_malloc := true; ce_fcntl := true;
     ce_scan := {| si_sha := sha; si_yara_ret := 0; si_yara := packed; si_fuzzy := sample_io;
                   si_tlsh := sample_io; si_time := 1700000001 |} |}.

Definition x_path : cstr := cs "/home/u/x".

(** What the daemon answers, in three pieces with a signal between them. *)
Definition answer (ce : conn_env) (uid : Z) (cmd : cstr) (w : toy) : list recv :=
  match control_conn_main ce (Some uid) 0 0 (typed cmd) w history_init (open_sock []) with
  | Some (_, _, s) => [RecvBytes (take 2 (sk_out s)); RecvEintr; RecvBytes (take 20 (drop 2 (sk_out s)));
                       RecvBytes (drop 22 (sk_out s))]
  | None => []
  end.

Example scan_found :
  do_scan 999 (client (cs "SCAN /home/u/x")) x_path (answer (serving abc_sha []) 0 (cs "SCAN /home/u/x") (disk 493)) =
  (cs "SCAN /home/u/x" ++ [LF],
   Some (0, cs "MALICIOUS: /home/u/x - No_Section_Headers,High_Overall_Entropy (score=100)" ++ [LF] ++
            cs "sha256: ba7816bf8f01cfea414140de5dae2223b00361a396177a9cb410ff61f20015ad" ++ [LF])).
Proof. vm_compute. reflexivity. Qed.

(** A user is refused. *)
Example scan_refused :
  (do_scan 999 (client (cs "SCAN /home/u/x")) x_path
    (answer (serving abc_sha []) 1000 (cs "SCAN /home/u/x") (disk 493))).2 = Some failed.
Proof. vm_compute. reflexivity. Qed.

(** When the file could not be hashed the daemon has the verdict, and has put the file in
    quarantine, but avctl takes the row for a malformed one. *)
Example scan_unhashed :
  (do_scan 999 (client (cs "SCAN /home/u/x")) x_path
    (answer (serving no_sha []) 0 (cs "SCAN /home/u/x") (disk 493))).2 = Some failed ∧
  mjoin (recv_bytes <$> answer (serving no_sha []) 0 (cs "SCAN /home/u/x") (disk 493)) =
    OK_LINE ++ count_line 1 ++ cs "MALICIOUS" ++ [TAB] ++ cs "No_Section_Headers,High_Overall_Entropy" ++ [TAB] ++
    cs "100" ++ [TAB; LF] ++ END_LINE.
Proof. split; vm_compute; reflexivity. Qed.

Lemma typed_delivered cmd : delivered 0 0 (cmd ++ [LF]) (typed cmd).
Proof.
  unfold delivered, typed. generalize (cmd ++ [LF]). intros l. split_and!.
  - induction l as [|a l IH]; [done|]. unfold bytes_of in *. cbn [fmap list_fmap omap list_omap]. by rewrite IH.
  - apply Forall_fmap, Forall_true. done.
  - apply Forall_fmap, Forall_true. intros a. by left.
Qed.

Lemma client_is_fine cmd : client_fine (client cmd) cmd.
Proof. constructor; try done. by apply Nat.ltb_lt. Qed.

Lemma abc_sane : sane abc_sha.
Proof. split; [done|by apply (bool_decide_unpack _)]. Qed.

Definition found : scan_result :=
  (perform_scan daemon eng fd x_path None 0 true (ce_scan (serving abc_sha [])) (disk 493) history_init).1.1.1.

Lemma found_plain : plain (res_rule_name found).
Proof.
  assert (res_rule_name found = cs "No_Section_Headers,High_Overall_Entropy") as -> by (vm_compute; reflexivity).
  by apply (bool_decide_unpack _).
Qed.

Lemma scan_end_to_end_witness :
  ∃ w' h' s',
    control_conn_main (serving abc_sha []) (Some 0) 0 0 (typed (cs "SCAN " ++ x_path)) (disk 493) history_init
      (open_sock []) = Some (w', h', s') ∧
    do_scan (S (recv_size [RecvBytes (sk_out s'); RecvEintr])) (client (cs "SCAN " ++ x_path)) x_path
      [RecvBytes (sk_out s'); RecvEintr] =
      ((cs "SCAN " ++ x_path) ++ [LF], Some (0, told x_path found)).
Proof.
  destruct (scan_end_to_end (serving abc_sha []) (client (cs "SCAN " ++ x_path)) x_path 0 0 0
    (typed (cs "SCAN " ++ x_path)) (disk 493) history_init) as (w' & h' & s' & Hc & Hr).
  - by eexists.
  - by apply (bool_decide_unpack _).
  - apply client_is_fine.
  - exact packed_named.
  - exact abc_sane.
  - apply typed_delivered.
  - exists w', h', s'. split; [exact Hc|].
    assert (sk_out s' ≠ []) as Hne.
    { intros He. assert ((λ x, sk_out x.2) <$> control_conn_main (serving abc_sha []) (Some 0) 0 0
        (typed (cs "SCAN " ++ x_path)) (disk 493) history_init (open_sock []) = Some []) as Hn
        by (rewrite Hc; cbn; by rewrite He).
      vm_compute in Hn. discriminate Hn. }
    assert (arrives (sk_out s') [RecvBytes (sk_out s'); RecvEintr]) as Ha.
    { split; [by repeat constructor|]. cbn. apply app_nil_r. }
    specialize (Hr _ Ha _ (Nat.lt_succ_diag_r _)).
    destruct (do_scan _ _ _ _) as [sent reported]. destruct Hr as [-> Hr]. f_equal.
    assert (∃ out q, perform_scan daemon eng fd x_path None 0 true (ce_scan (serving abc_sha [])) (disk 493)
      history_init = (out, q, w', h') ∧ (plain (res_rule_name out) → reported = Some (reported_of x_path out)))
      as (out & q & Hp & Ht) by (destruct Hr as (out & q & Hp & Ht & _); exists out, q; split; [exact Hp|exact Ht]).
    assert (out = found) as -> by (unfold found; rewrite Hp; reflexivity).
    rewrite (Ht found_plain). reflexivity.
Defined.

(** An entry whose sidecar has no hash is not listed, although it is counted. *)
Example list_unhashed :
  do_quarantine_list 999 (client (cs "QUARANTINE LIST"))
    (answer (serving no_sha names1) 1000 (cs "QUARANTINE LIST") disk1) =
  (cs "QUARANTINE LIST" ++ [LF], Some (0, LIST_HEADER)) ∧
  entry_visible daemon 1000 false disk1 (cs "1_2_x.quarantined") = true.
Proof. split; vm_compute; reflexivity. Qed.

(** The same two entries with a complete sidecar. *)
Definition disk2 : toy := boot [
  (cs "/var/lib/av-quarantine/1_2_x.quarantined.meta",
   ((0, 30), {| i_mode := Z.lor S_IFREG 384; i_uid := 0; i_gid := 0;
      i_data := cs "ORIGINAL_UID=1000" ++ [LF] ++ cs "ORIGINAL_PATH=/home/u/x" ++ [LF] ++
                cs "RULE_NAME=Eicar" ++ [LF] ++ cs "SHA256=00ff" ++ [LF] ++ cs "TIMESTAMP=1700000001" ++ [LF] |}))].

Definition row_field_check (n : nat) (s : cstr) : bool :=
  negb (length s =? 0)%nat && bool_decide (plain s) && (length s <=? n)%nat &&
  match s with [] => true | a :: _ => negb (isspace_c a) end.

Lemma row_field_sound n s : row_field_check n s = true → row_field n s.
Proof.
  unfold row_field_check. rewrite !andb_true_iff, bool_decide_eq_true, Nat.leb_le.
  intros [[[Hne ?] ?] Hs]. split_and!; [by destruct s|done..|]. destruct s; [done|]. by apply negb_true_iff in Hs.
Qed.

Definition listable_check (w : toy) (d : cstr) : bool :=
  row_field_check 255 (entry_id d) &&
  match entry_meta daemon d w with
  | None => true
  | Some meta =>
      row_field_check 4095 (original_path meta) && (- 2 ^ 63 <=? timestamp meta) && (timestamp meta <? 2 ^ 63) &&
      row_field_check 127 (rule_name meta) && row_field_check 127 (sha256_hex meta)
  end.

Lemma listable_sound w d : listable_check w d = true → listable daemon w d.
Proof.
  unfold listable_check, listable. rewrite andb_true_iff. intros [Hid Hm]. split; [by apply row_field_sound|].
  intros meta He. rewrite He, !andb_true_iff, Z.leb_le, Z.ltb_lt in Hm.
  destruct Hm as [[[[? ?] ?] ?] ?]. split_and!; (done || by apply row_field_sound).
Qed.

Lemma list_end_to_end_witness :
  ∃ s', control_conn_main (serving no_sha names1) (Some 0) 0 0 (typed (cs "QUARANTINE LIST")) disk2 history_init
      (open_sock []) = Some (disk2, history_init, s') ∧
    ∀ pending, arrives (sk_out s') pending → ∀ fuel, (recv_size pending < fuel)%nat →
      do_quarantine_list fuel (client (cs "QUARANTINE LIST")) pending =
        (cs "QUARANTINE LIST" ++ [LF],
         Some (0, LIST_HEADER ++
           pad 40 (cs "1_2_x") ++ SPACE :: pad 6 (cs "Eicar") ++ SPACE :: pad 20 (cs "1700000001") ++
             SPACE :: cs "/home/u/x" ++ [LF] ++
           pad 40 (cs "3_4_y") ++ SPACE :: pad 6 (cs "?") ++ SPACE :: pad 20 (cs "0") ++ SPACE :: cs "?" ++ [LF])).
Proof.
  destruct (list_end_to_end (serving no_sha names1) (client (cs "QUARANTINE LIST")) 0 0 0
    (typed (cs "QUARANTINE LIST")) disk2 history_init names1) as (s' & Hc & Hr).
  - apply client_is_fine.
  - apply typed_delivered.
  - reflexivity.
  - reflexivity.
  - apply List.Forall_forall. intros d Hd. apply listable_sound. revert d Hd. apply forallb_forall.
    vm_compute. reflexivity.
  - exists s'. split; [exact Hc|]. intros pending Ha fuel Hf. rewrite (Hr pending Ha fuel Hf).
    vm_compute. reflexivity.
Defined.
End ClientExamples.
