(* ===== verification/AvctlSave.v ===== *)
(** * Saving the state to a file: userspace/avctl/avctl.c

    [do_save] with the destination's directory pinned by [pin_save_parent], the
    checks of what the temporary name is, and the cleanup.  The calls relative
    to an open directory are operations of the class [Dirs].  Between any two
    of them other users may do whatever their permissions allow ([others]):
    each call first lets them act.  An inode is never reused for another
    file: one that lost its last name stays.  Messages on the standard error
    are not modelled; the summary on the standard output is. *)

From Stdlib Require Import ZArith Lia Ascii String.
From stdpp Require Import prelude list gmap.
From S2P Require Import Prelude CString CText Stdio Posix AvctlProc.

Local Open Scope Z_scope.

(** ** Directories and files *)

Record dnode := { n_mode : Z; n_uid : Z; n_nlink : Z; n_data : cstr }.

(** The names of each directory, and the inodes. *)
Record dtree := { links : gmap (inum * cstr) inum; inodes : gmap inum dnode }.

(** What [struct stat] holds of it. *)
Record dstat := { ds_ino : inum; ds_mode : Z; ds_uid : Z; ds_nlink : Z }.

Definition dstat_of (i : inum) (n : dnode) : dstat :=
  {| ds_ino := i; ds_mode := n_mode n; ds_uid := n_uid n; ds_nlink := n_nlink n |}.

Definition with_content (d : cstr) (n : dnode) : dnode :=
  {| n_mode := n_mode n; n_uid := n_uid n; n_nlink := n_nlink n; n_data := d |}.

Definition same_file (n n' : dnode) : Prop :=
  n_mode n' = n_mode n ∧ n_uid n' = n_uid n ∧ n_data n' = n_data n.

Definition open_to_others (mode : Z) : bool := negb (Z.land mode (Z.lor S_IWGRP S_IWOTH) =? 0).
Definition sticky (mode : Z) : bool := negb (Z.land mode S_ISVTX =? 0).

(** A directory in which no other user can rename or remove the files of [euid]. *)
Definition trusted_dir (euid : Z) (n : dnode) : Prop :=
  S_ISDIR (n_mode n) = true ∧ (n_uid n = euid ∨ n_uid n = 0) ∧
  (open_to_others (n_mode n) = false ∨ sticky (n_mode n) = true).

(** A file only [euid] can write. *)
Definition private_file (euid : Z) (n : dnode) : Prop :=
  S_ISREG (n_mode n) = true ∧ n_uid n = euid ∧ open_to_others (n_mode n) = false.

(** ** What may change

    From [t] to [t'] the names in [allow] and the inodes in [own] may change
    in any way.  Everything else is left to the other users: they cannot
    touch trusted directories, the private files in them, nor, in those that
    only the owner can write, any name at all. *)
Record changes (euid : Z) (allow : inum → cstr → Prop) (own : inum → Prop) (t t' : dtree) : Prop := {
  ch_dir : ∀ d n, inodes t !! d = Some n → trusted_dir euid n →
    ∃ n', inodes t' !! d = Some n' ∧ n_mode n' = n_mode n ∧ n_uid n' = n_uid n;
  ch_file : ∀ d n k i m, inodes t !! d = Some n → trusted_dir euid n → ¬ allow d k → ¬ own i →
    links t !! (d, k) = Some i → inodes t !! i = Some m → private_file euid m →
    links t' !! (d, k) = Some i ∧ ∃ m', inodes t' !! i = Some m' ∧ same_file m m';
  ch_closed : ∀ d n k, inodes t !! d = Some n → trusted_dir euid n → open_to_others (n_mode n) = false →
    ¬ allow d k → links t' !! (d, k) = links t !! (d, k);
}.

Definition nothing {A} : A → Prop := λ _, False.
Definition no_name : inum → cstr → Prop := λ _ _, False.

(** What the other users may do. *)
Definition others (euid : Z) : dtree → dtree → Prop := changes euid no_name nothing.

(** Every file is still there, with its contents; link counts may differ. *)
Definition files_kept (t t' : dtree) : Prop :=
  ∀ i n, inodes t !! i = Some n → ∃ n', inodes t' !! i = Some n' ∧ same_file n n'.

(** ** The calls

    [true] is success.  [pending w i] is what the stream on [i] has buffered. *)
Class Dirs (W : Type) := {
  tree : W → dtree;
  pending : W → inum → cstr;
  geteuid : Z;

  (** [open] of "/" or of "." with O_DIRECTORY|O_NOFOLLOW. *)
  open_start : bool → W → option inum * W;
  (** [openat] with O_DIRECTORY|O_NOFOLLOW. *)
  openat_dir : inum → cstr → W → option inum * W;
  fstat_fd : inum → W → option dstat * W;
  (** With AT_SYMLINK_NOFOLLOW. *)
  fstatat : inum → cstr → W → option dstat * W;
  (** With O_WRONLY|O_CREAT|O_EXCL|O_NOFOLLOW and 0600. *)
  openat_excl : inum → cstr → W → option inum * W;
  fdopen : inum → W → bool * W;
  fprintf : inum → cstr → W → bool * W;
  fflush : inum → W → bool * W;
  fsync : inum → W → bool * W;
  fclose : inum → W → bool * W;
  unlinkat : inum → cstr → W → bool * W;
  renameat : inum → cstr → cstr → W → bool * W;

  open_start_ok b w r w' : open_start b w = (r, w') →
    others geteuid (tree w) (tree w') ∧ pending w' = pending w;
  openat_dir_ok d k w r w' : openat_dir d k w = (r, w') →
    others geteuid (tree w) (tree w') ∧ pending w' = pending w;
  fstat_fd_ok i w r w' : fstat_fd i w = (r, w') →
    others geteuid (tree w) (tree w') ∧ pending w' = pending w ∧
    ∀ st, r = Some st → ∃ n, inodes (tree w') !! i = Some n ∧ st = dstat_of i n;
  fstatat_ok d k w r w' : fstatat d k w = (r, w') →
    others geteuid (tree w) (tree w') ∧ pending w' = pending w ∧
    ∀ st, r = Some st → ∃ i n, links (tree w') !! (d, k) = Some i ∧ inodes (tree w') !! i = Some n ∧
      st = dstat_of i n;
  openat_excl_ok d k w r w' : openat_excl d k w = (r, w') →
    pending w' = pending w ∧
    ∃ t, others geteuid (tree w) t ∧
      match r with
      | Some i => links t !! (d, k) = None ∧ inodes t !! i = None ∧
          ∃ n, private_file geteuid n ∧ n_data n = [] ∧
            tree w' = {| links := <[(d, k) := i]> (links t); inodes := <[i := n]> (inodes t) |}
      | None => tree w' = t
      end;
  fdopen_ok i w r w' : fdopen i w = (r, w') →
    others geteuid (tree w) (tree w') ∧ (r = true → pending w' i = []);
  (** Some of what is buffered may get to the file. *)
  fprintf_ok i s w r w' : fprintf i s w = (r, w') →
    ∃ t, others geteuid (tree w) t ∧ ∀ n, inodes t !! i = Some n →
      ∃ d, tree w' = {| links := links t; inodes := <[i := with_content d n]> (inodes t) |} ∧
        (r = true → d ++ pending w' i = n_data n ++ pending w i ++ s);
  fflush_ok i w r w' : fflush i w = (r, w') →
    ∃ t, others geteuid (tree w) t ∧ ∀ n, inodes t !! i = Some n →
      ∃ d, tree w' = {| links := links t; inodes := <[i := with_content d n]> (inodes t) |} ∧
        (r = true → d = n_data n ++ pending w i ∧ pending w' i = []);
  fsync_ok i w r w' : fsync i w = (r, w') → others geteuid (tree w) (tree w') ∧ pending w' = pending w;
  fclose_ok i w r w' : fclose i w = (r, w') →
    ∃ t, others geteuid (tree w) t ∧ ∀ n, inodes t !! i = Some n →
      ∃ d, tree w' = {| links := links t; inodes := <[i := with_content d n]> (inodes t) |} ∧
        (r = true → d = n_data n ++ pending w i);
  unlinkat_ok d k w r w' : unlinkat d k w = (r, w') →
    ∃ t, others geteuid (tree w) t ∧
      if r then links (tree w') = delete (d, k) (links t) ∧ files_kept t (tree w') else tree w' = t;
  (** Of two names of the same file nothing is changed. *)
  renameat_ok d k k' w r w' : renameat d k k' w = (r, w') →
    ∃ t, others geteuid (tree w) t ∧
      if r then ∃ i, links t !! (d, k) = Some i ∧ files_kept t (tree w') ∧
        links (tree w') =
          (if decide (links t !! (d, k') = Some i) then links t
           else <[(d, k') := i]> (delete (d, k) (links t)))
      else tree w' = t;
}.

Section save.
Context {W : Type} `{!Dirs W}.

(** ** The destination *)

(** 0 is [true]. *)
Definition save_dir_trusted_fd (fd : inum) (w : W) : bool * W :=
  let '(st, w) := fstat_fd fd w in
  (match st with
   | None => false
   | Some st =>
       if negb (S_ISDIR (ds_mode st)) then false
       else if negb (ds_uid st =? geteuid) && negb (ds_uid st =? 0) then false
       else if negb (Z.land (ds_mode st) (Z.lor S_IWGRP S_IWOTH) =? 0) && (Z.land (ds_mode st) S_ISVTX =? 0)
       then false
       else true
   end, w).

(** 0 is [true]. *)
Definition save_stat_is_ours (st : dstat) : bool :=
  if negb (S_ISREG (ds_mode st)) then false
  else if negb (ds_uid st =? geteuid) then false
  else if negb (ds_nlink st =? 1) then false
  else true.

Definition save_tmp_lstat : inum → cstr → W → option dstat * W := fstatat.

(** What lies between the slashes. *)
Fixpoint split_slashes (p seg : cstr) : list cstr :=
  match p with
  | [] => [seg]
  | a :: p => if aeqb a SLASH then seg :: split_slashes p [] else split_slashes p (seg ++ [a])
  end.

Definition segments (p : cstr) : list cstr :=
  List.filter (λ s, negb (length s =? 0)%nat) (split_slashes p []).

(** The loop of [pin_save_parent], from the open directory [cur]. *)
Fixpoint pin_walk (cur : inum) (comps : list cstr) (w : W) : option inum * W :=
  match comps with
  | [] => (Some cur, w)
  | comp :: comps =>
      if (PATH_MAX <=? length comp)%nat then (None, w)
      else if strcmp_eq comp (cs ".") then pin_walk cur comps w
      else
        let '(next, w) := openat_dir cur comp w in
        match next with
        | None => (None, w)
        | Some next =>
            let '(ok, w) := save_dir_trusted_fd next w in
            if ok then pin_walk next comps w else (None, w)
        end
  end.

(** [parent_fd], [base] and [tmpbase]. *)
Definition pin_save_parent (path : cstr) (w : W) : option (inum * cstr * cstr) * W :=
  let '(parent, base) :=
    match strrchr path SLASH with
    | None => ([], path)
    | Some slash => (take (length path - length slash) path, drop 1 slash)
    end in
  if (PATH_MAX <=? length base)%nat then (None, w)
  else if (PATH_MAX <=? length base + 4)%nat then (None, w)
  else
    let tmpbase := base ++ cs ".tmp" in
    let '(cur, w) := open_start (match path with a :: _ => aeqb a SLASH | [] => false end) w in
    match cur with
    | None => (None, w)
    | Some cur =>
        let '(ok, w) := save_dir_trusted_fd cur w in
        if negb ok then (None, w)
        else
          let '(cur, w) := pin_walk cur (segments parent) w in
          (match cur with Some fd => Some (fd, base, tmpbase) | None => None end, w)
    end.

(** ** The stream *)

(** One [fprintf] for each line that is printed at all; the result is [werr]. *)
Fixpoint print_lines (out : inum) (texts : list cstr) (werr : bool) (w : W) : bool * W :=
  match texts with
  | [] => (werr, w)
  | [] :: texts => print_lines out texts werr w
  | text :: texts =>
      let '(ok, w) := fprintf out text w in
      print_lines out texts (werr || negb ok) w
  end.

(** The lines printed for a /proc file, from what [fgets] gives of it. *)
Definition save_lines (p : proc_file) (file : stream) : list cstr :=
  match p with
  | PROC_PATH => save_sig_line <$> stream_lines SAVE_LINE file
  | TRUST_PROC_PATH => save_trust_line <$> stream_lines SAVE_LINE file
  | PROTECTED_PROC_PATH => save_protect_line <$> stream_lines SAVE_LINE file
  | POLICY_PROC_PATH => [save_policy (stream_lines SAVE_LINE file)]
  end.

Definition SAVE_FILES : list proc_file := [PROC_PATH; TRUST_PROC_PATH; PROTECTED_PROC_PATH; POLICY_PROC_PATH].

(** What each [fopen] of a /proc file gives, and the reads of it, which can fail. *)
Definition proc_source : Type := proc_file → option stream.

(** The files in order; [None] when one cannot be opened. *)
Fixpoint print_files (out : inum) (src : proc_source) (files : list proc_file) (werr : bool) (w : W)
    : option bool * W :=
  match files with
  | [] => (Some werr, w)
  | p :: files =>
      match src p with
      | None => (None, w)
      | Some file =>
          let '(werr, w) := print_lines out (save_lines p file) werr w in
          print_files out src files werr w
      end
  end.

(** ** [save_abort] *)

(** The name is still that of the open file, and ours. *)
Definition tmp_is_ours (identity : option dstat) (d : inum) (tmpbase : cstr) (w : W) : bool * W :=
  match identity with
  | None => (false, w)
  | Some fst =>
      let '(lst, w) := save_tmp_lstat d tmpbase w in
      (match lst with
       | Some lst => bool_decide (ds_ino lst = ds_ino fst) && save_stat_is_ours lst
       | None => false
       end, w)
  end.

Definition save_abort (out d : inum) (tmpbase : cstr) (w : W) : W :=
  let '(fst, w) := fstat_fd out w in
  let '(ours, w) := tmp_is_ours fst d tmpbase w in
  let '(_, w) := fclose out w in
  if ours then (unlinkat d tmpbase w).2 else w.

(** ** [do_save] *)

(** From the [fflush] on: the status. *)
Definition save_finish (out d : inum) (base tmpbase : cstr) (werr : bool) (w : W) : Z * W :=
  let '(flushed, w) := fflush out w in
  let '(synced, w) := fsync out w in
  let '(fst, w) := fstat_fd out w in
  let '(same, w) := tmp_is_ours fst d tmpbase w in
  let '(written_st, w) := fstat_fd out w in
  let '(closed, w) := fclose out w in
  let werr := werr || negb flushed || negb synced || negb same || negb closed in
  let '(still_ours, w) := tmp_is_ours written_st d tmpbase w in
  let have_written := match written_st with Some _ => true | None => false end in
  if werr || negb still_ours then
    (1, if still_ours || negb have_written then (unlinkat d tmpbase w).2 else w)
  else
    let '(ok, w) := renameat d tmpbase base w in
    if negb ok then
      let '(ours, w) := tmp_is_ours written_st d tmpbase w in
      (1, if ours then (unlinkat d tmpbase w).2 else w)
    else
      let '(_, w) := fsync d w in
      (0, w).

(** How many lines a file gave. *)
Definition save_count (src : proc_source) (p : proc_file) : Z :=
  match src p with
  | Some file => Z.of_nat (length (List.filter (λ l, negb (length l =? 0)%nat) (save_lines p file)))
  | None => 0
  end.

Definition save_summary (path : cstr) (src : proc_source) : cstr :=
  let trust_count := save_count src TRUST_PROC_PATH in
  let protect_count := save_count src PROTECTED_PROC_PATH in
  cs "saved " ++ print_signed (save_count src PROC_PATH) ++ cs " signature(s), " ++
  print_signed trust_count ++ cs " trusted entr" ++ (if trust_count =? 1 then cs "y" else cs "ies") ++ cs ", " ++
  print_signed protect_count ++ cs " protected path" ++ (if protect_count =? 1 then [] else cs "s") ++
  cs ", and the daemon-unavailable policy to " ++ path ++ [LF].

(** The status, what is printed, and the files. *)
Definition do_save_file (path : cstr) (src : proc_source) (w : W) : Z * cstr * W :=
  if (PATH_MAX <=? length path)%nat then (1, [], w)
  else if negb (fits (PATH_MAX + 8) (path ++ cs ".tmp")) then (1, [], w)
  else
    let '(dest, w) := pin_save_parent path w in
    match dest with
    | None => (1, [], w)
    | Some (d, base, tmpbase) =>
        let '(tmp_fd, w) := openat_excl d tmpbase w in
        match tmp_fd with
        | None => (1, [], w)
        | Some out =>
            let '(opened, w) := fdopen out w in
            if negb opened then (1, [], (unlinkat d tmpbase w).2)
            else
              let '(ok, w) := fprintf out (save_header path) w in
              let '(werr, w) := print_files out src SAVE_FILES (negb ok) w in
              match werr with
              | None => (1, [], save_abort out d tmpbase w)
              | Some werr =>
                  let '(status, w) := save_finish out d base tmpbase werr w in
                  (status, if status =? 0 then save_summary path src else [], w)
              end
        end
    end.
End save.

(** To the standard output, which is all there is to it but the status;
    [written]: no write to it failed. *)
Fixpoint stdout_files (src : proc_source) (files : list proc_file) : bool * cstr :=
  match files with
  | [] => (true, [])
  | p :: files =>
      match src p with
      | None => (false, [])
      | Some file =>
          let '(ok, rest) := stdout_files src files in (ok, mjoin (save_lines p file) ++ rest)
      end
  end.

Definition do_save_stdout (src : proc_source) (written : bool) : Z * cstr :=
  let '(ok, text) := stdout_files src SAVE_FILES in
  (if ok && written then 0 else 1, text).

(** ** What changes compose to *)

Lemma changes_refl euid allow own t : changes euid allow own t t.
Proof. split; [eauto| |done]. intros. split; [done|]. by eexists. Qed.

Lemma changes_weaken euid allow own allow' own' t t' :
  (∀ d k, allow d k → allow' d k) → (∀ i, own i → own' i) →
  changes euid allow own t t' → changes euid allow' own' t t'.
Proof.
  intros Ha Ho [H1 H2 H3]. split; [done| |].
  - intros d n k i m ?? Hna Hno. apply (H2 d n k i m); auto.
  - intros d n k ??? Hna. apply (H3 d n k); auto.
Qed.

Lemma others_changes euid allow own t t' : others euid t t' → changes euid allow own t t'.
Proof. by apply changes_weaken. Qed.

Lemma trusted_same euid n n' :
  n_mode n' = n_mode n → n_uid n' = n_uid n → trusted_dir euid n → trusted_dir euid n'.
Proof. unfold trusted_dir. by intros -> ->. Qed.

Lemma private_same euid n n' : same_file n n' → private_file euid n → private_file euid n'.
Proof. unfold private_file. by intros (-> & -> & _). Qed.

Lemma changes_trans euid allow own t1 t2 t3 :
  changes euid allow own t1 t2 → changes euid allow own t2 t3 → changes euid allow own t1 t3.
Proof.
  intros [D1 F1 C1] [D2 F2 C2]. split.
  - intros d n Hd Ht. destruct (D1 d n Hd Ht) as (n' & Hd' & Hm & Hu).
    destruct (D2 d n' Hd' (trusted_same _ _ _ Hm Hu Ht)) as (n'' & ? & ? & ?).
    exists n''. split; [done|]. split; congruence.
  - intros d n k i m Hd Ht Ha Ho Hl Hi Hp. destruct (D1 d n Hd Ht) as (n' & Hd' & Hm & Hu).
    destruct (F1 d n k i m Hd Ht Ha Ho Hl Hi Hp) as (Hl' & m' & Hi' & Hs).
    destruct (F2 d n' k i m' Hd' (trusted_same _ _ _ Hm Hu Ht) Ha Ho Hl' Hi' (private_same _ _ _ Hs Hp))
      as (Hl'' & m'' & Hi'' & Hs'').
    split; [done|]. exists m''. split; [done|]. unfold same_file in *. intuition congruence.
  - intros d n k Hd Ht Hc Ha. destruct (D1 d n Hd Ht) as (n' & Hd' & Hm & Hu).
    rewrite (C2 d n' k Hd' (trusted_same _ _ _ Hm Hu Ht)); [|by rewrite Hm|done]. by apply (C1 d n k).
Qed.

(** An inode that was not there before needs no exception. *)
Lemma changes_fresh euid allow i t1 t2 t3 :
  others euid t1 t2 → inodes t2 !! i = None → changes euid allow (eq i) t2 t3 →
  changes euid allow nothing t1 t3.
Proof.
  intros Ho Hf H. pose proof (changes_trans _ _ _ _ _ _ (others_changes _ allow (eq i) _ _ Ho) H) as [D F C].
  split; [done| |done]. intros d n k j m Hd Ht Ha _ Hl Hj Hp. apply (F d n k j m); try done. intros <-.
  destruct (ch_file _ _ _ _ _ Ho d n k i m Hd Ht) as (_ & m' & Hi & _); [auto..|congruence].
Qed.

(** ** The temporary file while it is held *)

Section proofs.
Context {W : Type} `{!Dirs W}.

(** In the trusted directory [d] the name [tmp] is a private file's, with these contents. *)
Definition held (d : inum) (tmp : cstr) (i : inum) (data : cstr) (t : dtree) : Prop :=
  (∃ n, inodes t !! d = Some n ∧ trusted_dir geteuid n) ∧ links t !! (d, tmp) = Some i ∧
  ∃ m, inodes t !! i = Some m ∧ private_file geteuid m ∧ n_data m = data.

(** What avctl may change meanwhile. *)
Definition mine (d : inum) (tmp : cstr) : inum → cstr → Prop := λ d' k, d' = d ∧ k = tmp.

Lemma held_others d tmp i data t t' : others geteuid t t' → held d tmp i data t → held d tmp i data t'.
Proof.
  intros [D F C] ((n & Hd & Ht) & Hl & m & Hi & Hp & Hdata).
  destruct (D d n Hd Ht) as (n' & Hd' & Hm & Hu).
  destruct (F d n tmp i m Hd Ht) as (Hl' & m' & Hi' & Hs); [by intros []..|done|done|done|].
  split; [exists n'; split; [done|by eapply trusted_same]|]. split; [done|]. exists m'.
  split; [done|]. split; [by eapply private_same|]. destruct Hs as (_ & _ & ->). done.
Qed.

Lemma dir_not_file euid n m : trusted_dir euid n → private_file euid m → n ≠ m.
Proof.
  intros (Hd & _) (Hf & _) ->. unfold S_ISDIR, S_ISREG in *. apply Z.eqb_eq in Hd, Hf. rewrite Hd in Hf.
  discriminate Hf.
Qed.

(** Writing to it. *)
Lemma held_written d tmp i data data' t t' :
  others geteuid t t' → held d tmp i data t →
  ∀ t'', (∀ n, inodes t' !! i = Some n →
    t'' = {| links := links t'; inodes := <[i := with_content data' n]> (inodes t') |}) →
  held d tmp i data' t'' ∧ changes geteuid (mine d tmp) (eq i) t t''.
Proof.
  intros Ho Hh t'' Hw. pose proof (held_others _ _ _ _ _ _ Ho Hh) as ((n & Hd & Ht) & Hl & m & Hi & Hp & Hdata).
  specialize (Hw m Hi) as ->.
  assert (i ≠ d) as Hne by (intros ->; assert (n = m) by congruence; by apply (dir_not_file geteuid n m)).
  split.
  - split; [exists n; cbn; by rewrite lookup_insert_ne|]. split; [done|]. exists (with_content data' m).
    cbn. by rewrite lookup_insert_eq.
  - eapply changes_trans; [by apply others_changes|]. split; cbn.
    + intros d' n' Hd' Ht'. destruct (decide (d' = i)) as [->|].
      * rewrite lookup_insert_eq. assert (n' = m) as -> by congruence. by eexists.
      * rewrite lookup_insert_ne by done. eauto.
    + intros d' n' k j m' ????? Hj Hpj. split; [done|]. rewrite lookup_insert_ne by done. by exists m'.
    + done.
Qed.

(** Removing it. *)
Lemma held_unlinked d tmp i data (w : W) :
  held d tmp i data (tree w) → changes geteuid (mine d tmp) (eq i) (tree w) (tree (unlinkat d tmp w).2).
Proof.
  intros Hh. destruct (unlinkat d tmp w) as [r w'] eqn:Hu. cbn [snd].
  destruct (unlinkat_ok _ _ _ _ _ Hu) as (t & Ho & Hr).
  apply (changes_trans _ _ _ _ t); [by apply others_changes|]. destruct r; [|rewrite Hr; apply changes_refl].
  destruct Hr as [Hl Hk]. split.
  - intros d' n Hd _. destruct (Hk _ _ Hd) as (n' & ? & ? & ? & _). eauto.
  - intros d' n k j m Hd _ Ha _ Hlj Hj _. rewrite Hl, lookup_delete_ne by (intros [= <- <-]; by apply Ha).
    split; [done|]. by apply Hk.
  - intros d' n k _ _ _ Ha. by rewrite Hl, lookup_delete_ne by (intros [= <- <-]; by apply Ha).
Qed.

Lemma bool_decide_mode (st : dstat) :
  negb (Z.land (ds_mode st) (Z.lor S_IWGRP S_IWOTH) =? 0) && (Z.land (ds_mode st) S_ISVTX =? 0) = false ↔
  open_to_others (ds_mode st) = false ∨ sticky (ds_mode st) = true.
Proof.
  unfold open_to_others, sticky. destruct (Z.land (ds_mode st) (Z.lor S_IWGRP S_IWOTH) =? 0),
    (Z.land (ds_mode st) S_ISVTX =? 0); cbn; intuition done.
Qed.

Lemma dir_trusted_spec fd (w w' : W) ok :
  save_dir_trusted_fd fd w = (ok, w') →
  others geteuid (tree w) (tree w') ∧ pending w' = pending w ∧
  (ok = true → ∃ n, inodes (tree w') !! fd = Some n ∧ trusted_dir geteuid n).
Proof.
  unfold save_dir_trusted_fd. destruct (fstat_fd fd w) as [st w1] eqn:Hf.
  destruct (fstat_fd_ok _ _ _ _ Hf) as (Ho & Hp & Hst). intros [= <- <-]. split; [done|]. split; [done|].
  destruct st as [st|]; [|done]. destruct (Hst _ eq_refl) as (n & Hn & ->). clear Hst Hf.
  pose proof (bool_decide_mode (dstat_of fd n)) as Hmode.
  destruct (S_ISDIR _) eqn:Hd; [|done]. cbn [negb].
  destruct (negb (ds_uid _ =? geteuid) && negb _) eqn:Hu; [done|].
  destruct (negb (Z.land _ _ =? 0) && _) eqn:Hm; [done|]. intros _. exists n. split; [done|].
  split; [done|]. split; [|by apply Hmode].
  cbn in Hu. apply andb_false_iff in Hu. rewrite !negb_false_iff, !Z.eqb_eq in Hu. done.
Qed.

Lemma pin_walk_spec comps cur (w w' : W) r :
  pin_walk cur comps w = (r, w') →
  (∃ n, inodes (tree w) !! cur = Some n ∧ trusted_dir geteuid n) →
  others geteuid (tree w) (tree w') ∧
  ∀ d, r = Some d → ∃ n, inodes (tree w') !! d = Some n ∧ trusted_dir geteuid n.
Proof.
  revert cur w. induction comps as [|comp comps IH]; intros cur w; cbn [pin_walk].
  { intros [= <- <-] Hc. split; [apply changes_refl|]. by intros d [= <-]. }
  destruct (PATH_MAX <=? length comp)%nat; [intros [= <- <-] _; split; [apply changes_refl|done]|].
  destruct (strcmp_eq comp (cs ".")); [by apply IH|].
  destruct (openat_dir cur comp w) as [next w1] eqn:Hop. destruct (openat_dir_ok _ _ _ _ _ Hop) as [Ho1 _].
  destruct next as [next|]; [|intros [= <- <-] _; done].
  destruct (save_dir_trusted_fd next w1) as [ok w2] eqn:Ht.
  destruct (dir_trusted_spec _ _ _ _ Ht) as (Ho2 & _ & Hok).
  pose proof (changes_trans _ _ _ _ _ _ Ho1 Ho2) as Ho.
  destruct ok; [|intros [= <- <-] _; done]. intros Hw _.
  destruct (IH _ _ Hw (Hok eq_refl)) as [Ho3 Hr]. split; [by eapply changes_trans|done].
Qed.

Lemma pin_save_parent_spec path (w w' : W) r :
  pin_save_parent path w = (r, w') →
  others geteuid (tree w) (tree w') ∧
  ∀ d base tmpbase, r = Some (d, base, tmpbase) →
    tmpbase = base ++ cs ".tmp" ∧ (∃ parent, path = parent ++ base) ∧ (SLASH ∉ base) ∧
    ∃ n, inodes (tree w') !! d = Some n ∧ trusted_dir geteuid n.
Proof.
  unfold pin_save_parent. pose proof (strrchr_spec path SLASH) as Hs.
  set (pb := match strrchr path SLASH with Some _ => _ | None => _ end).
  assert ((∃ parent, path = parent ++ pb.2) ∧ (SLASH ∉ pb.2)) as [Hpath Hbase].
  { unfold pb. destruct (strrchr path SLASH) as [q|]; cbn [snd].
    - destruct Hs as (a & b & -> & -> & Hb). split; [|done]. exists (a ++ [SLASH]). by rewrite <- (assoc_L (++)).
    - split; [by exists []|done]. }
  destruct pb as [parent base]. cbn [snd] in *.
  destruct (PATH_MAX <=? length base)%nat; [intros [= <- <-]; split; [apply changes_refl|done]|].
  destruct (PATH_MAX <=? length base + 4)%nat; [intros [= <- <-]; split; [apply changes_refl|done]|].
  destruct (open_start _ w) as [cur w1] eqn:Hop. destruct (open_start_ok _ _ _ _ Hop) as [Ho1 _].
  destruct cur as [cur|]; [|by intros [= <- <-]].
  destruct (save_dir_trusted_fd cur w1) as [ok w2] eqn:Ht.
  destruct (dir_trusted_spec _ _ _ _ Ht) as (Ho2 & _ & Hok).
  pose proof (changes_trans _ _ _ _ _ _ Ho1 Ho2) as Ho. destruct ok; cbn [negb]; [|by intros [= <- <-]].
  destruct (pin_walk cur (segments parent) w2) as [d w3] eqn:Hw.
  destruct (pin_walk_spec _ _ _ _ _ Hw (Hok eq_refl)) as [Ho3 Hd]. intros [= <- <-].
  split; [by eapply changes_trans|]. intros d' base' tmpbase' Hr. destruct d as [d|]; [|done].
  injection Hr as <- <- <-. by split_and!; [..|apply Hd].
Qed.

(** ** The steps of a save *)

(** The stream on [i] has been given this text, unless there was an error. *)
Definition writing (d : inum) (tmp : cstr) (i : inum) (werr : bool) (text : cstr) (w : W) : Prop :=
  ∃ data, held d tmp i data (tree w) ∧ (werr = false → data ++ pending w i = text).

(** A step that keeps the name, and changes nothing but its file. *)
Definition step (d : inum) (tmp : cstr) (i : inum) (w w' : W) : Prop :=
  changes geteuid (mine d tmp) (eq i) (tree w) (tree w').

Lemma step_trans d tmp i (w1 w2 w3 : W) : step d tmp i w1 w2 → step d tmp i w2 w3 → step d tmp i w1 w3.
Proof. apply changes_trans. Qed.

(** A call that only lets others act. *)
Lemma writing_quiet d tmp i werr text (w w' : W) :
  others geteuid (tree w) (tree w') → pending w' = pending w →
  writing d tmp i werr text w → writing d tmp i werr text w' ∧ step d tmp i w w'.
Proof.
  intros Ho Hp (data & Hh & Ht). split; [|by apply others_changes]. exists data.
  split; [by eapply held_others|]. by rewrite Hp.
Qed.

(** A call that writes. *)
Lemma writing_written d tmp i werr text ok text' (w w' : W) (t : dtree) :
  others geteuid (tree w) t →
  (∀ n, inodes t !! i = Some n →
    ∃ data, tree w' = {| links := links t; inodes := <[i := with_content data n]> (inodes t) |} ∧
      (ok = true → n_data n ++ pending w i = text → data ++ pending w' i = text')) →
  writing d tmp i werr text w → writing d tmp i (werr || negb ok) text' w' ∧ step d tmp i w w'.
Proof.
  intros Ho Hw (data & Hh & Ht). pose proof (held_others _ _ _ _ _ _ Ho Hh) as (_ & _ & m & Hi & _ & Hm).
  destruct (Hw m Hi) as (data' & Htree & Hd).
  destruct (held_written d tmp i data data' _ _ Ho Hh (tree w')) as [Hh' Hc].
  { intros n Hn. assert (n = m) as -> by congruence. done. }
  split; [|done]. exists data'. split; [done|]. intros [-> Hok]%orb_false_iff. apply negb_false_iff in Hok as ->.
  apply Hd; [done|]. rewrite Hm. by apply Ht.
Qed.

Lemma fprintf_step d tmp i werr text s (w w' : W) ok :
  fprintf i s w = (ok, w') → writing d tmp i werr text w →
  writing d tmp i (werr || negb ok) (text ++ s) w' ∧ step d tmp i w w'.
Proof.
  intros Hf. destruct (fprintf_ok _ _ _ _ _ Hf) as (t & Ho & Hn). eapply writing_written; [done|].
  intros n Hi. destruct (Hn n Hi) as (data & -> & Hd). exists data. split; [done|].
  intros Hok <-. by rewrite (Hd Hok), (assoc_L (++)).
Qed.

Lemma print_lines_step d tmp i texts werr text (w w' : W) werr' :
  print_lines i texts werr w = (werr', w') → writing d tmp i werr text w →
  writing d tmp i werr' (text ++ mjoin texts) w' ∧ step d tmp i w w'.
Proof.
  revert werr text w. induction texts as [|[|a s] texts IH]; intros werr text w; cbn [print_lines mjoin list_join].
  - intros [= <- <-] Hw. rewrite app_nil_r. split; [done|apply changes_refl].
  - apply IH.
  - destruct (fprintf i (a :: s) w) as [ok w1] eqn:Hf. intros Hp Hw.
    destruct (fprintf_step _ _ _ _ _ _ _ _ _ Hf Hw) as [Hw1 H1].
    destruct (IH _ _ _ Hp Hw1) as [Hw2 H2]. rewrite (assoc_L (++)). split; [done|by eapply step_trans].
Qed.

Lemma print_files_step d tmp i src files werr text (w w' : W) r :
  print_files i src files werr w = (r, w') → writing d tmp i werr text w →
  step d tmp i w w' ∧ (∃ werr text', writing d tmp i werr text' w') ∧
  ∀ werr', r = Some werr' → ∀ texts, (∀ p, p ∈ files → src p = Some (texts p)) →
    writing d tmp i werr' (text ++ mjoin ((λ p, mjoin (save_lines p (texts p))) <$> files)) w'.
Proof.
  revert werr text w. induction files as [|p files IH]; intros werr text w; cbn [print_files].
  - intros [= <- <-] Hw. split_and!; [apply changes_refl|eauto|]. intros ? [= <-] texts _. by rewrite app_nil_r.
  - destruct (src p) as [txt|] eqn:Hsrc.
    2: { intros [= <- <-] Hw. split_and!; [apply changes_refl|eauto|done]. }
    destruct (print_lines i (save_lines p txt) werr w) as [werr1 w1] eqn:Hl. intros Hp Hw.
    destruct (print_lines_step _ _ _ _ _ _ _ _ _ Hl Hw) as [Hw1 H1].
    destruct (IH _ _ _ Hp Hw1) as (H2 & Hex & Hr). split_and!; [by eapply step_trans|done|].
    intros werr' -> texts Ht. specialize (Hr _ eq_refl texts).
    assert (txt = texts p) as ->. { specialize (Ht p ltac:(left)). congruence. }
    cbn [fmap list_fmap mjoin list_join]. rewrite (assoc_L (++)). apply Hr. intros q Hq. apply Ht. by right.
Qed.

(** Some file could not be opened unless there are all the texts. *)
Lemma print_files_texts i src files werr (w w' : W) werr' :
  print_files i src files werr w = (Some werr', w') → ∀ p, p ∈ files → is_Some (src p).
Proof.
  revert werr w. induction files as [|p files IH]; intros werr w; cbn [print_files];
    [by intros _ p ?%elem_of_nil|].
  destruct (src p) as [txt|] eqn:Hs; [|done]. destruct (print_lines _ _ _ _) as [werr1 w1]. intros Hp q.
  intros [->|Hq]%elem_of_cons; [by eexists|by eapply IH].
Qed.

Lemma fstat_step d tmp i werr text (w w' : W) st :
  fstat_fd i w = (st, w') → writing d tmp i werr text w →
  writing d tmp i werr text w' ∧ step d tmp i w w' ∧ ∀ s, st = Some s → ds_ino s = i.
Proof.
  intros Hf Hw. destruct (fstat_fd_ok _ _ _ _ Hf) as (Ho & Hp & Hs).
  destruct (writing_quiet _ _ _ _ _ _ _ Ho Hp Hw). split_and!; [done..|].
  intros s Hst. by destruct (Hs s Hst) as (n & _ & ->).
Qed.

Lemma is_ours_quiet d tmp identity (w w' : W) r :
  tmp_is_ours identity d tmp w = (r, w') → others geteuid (tree w) (tree w') ∧ pending w' = pending w.
Proof.
  unfold tmp_is_ours. destruct identity as [fst|]; [|intros [= <- <-]; split; [apply changes_refl|done]].
  unfold save_tmp_lstat. destruct (fstatat d tmp w) as [lst w1] eqn:Hf. intros [= <- <-].
  by destruct (fstatat_ok _ _ _ _ _ Hf) as (Ho & Hp & _).
Qed.

Lemma fflush_step d tmp i werr text (w w' : W) ok :
  fflush i w = (ok, w') → writing d tmp i werr text w →
  writing d tmp i (werr || negb ok) text w' ∧ step d tmp i w w'.
Proof.
  intros Hf. destruct (fflush_ok _ _ _ _ Hf) as (t & Ho & Hn). eapply writing_written; [done|].
  intros n Hi. destruct (Hn n Hi) as (data & -> & Hd). exists data. split; [done|].
  intros Hok <-. destruct (Hd Hok) as [-> ->]. by rewrite app_nil_r.
Qed.

(** Closed, the text is in the file. *)
Lemma fclose_step d tmp i werr text (w w' : W) ok :
  fclose i w = (ok, w') → writing d tmp i werr text w →
  step d tmp i w w' ∧
  ∃ data, held d tmp i data (tree w') ∧ (werr || negb ok = false → data = text).
Proof.
  intros Hf (data & Hh & Hw). destruct (fclose_ok _ _ _ _ Hf) as (t & Ho & Hn).
  pose proof (held_others _ _ _ _ _ _ Ho Hh) as (_ & _ & m & Hi & _ & Hm).
  destruct (Hn m Hi) as (data' & Htree & Hd).
  destruct (held_written d tmp i data data' _ _ Ho Hh (tree w')) as [Hh' Hc].
  { intros n Hi'. by assert (n = m) as -> by congruence. }
  split; [done|]. exists data'. split; [done|]. intros [-> Hok]%orb_false_iff.
  apply negb_false_iff in Hok. rewrite (Hd Hok), Hm. by apply Hw.
Qed.

(** The names that a save may change, with this status. *)
Definition may_change (d : inum) (base : cstr) (status : Z) : inum → cstr → Prop :=
  λ d' k, d' = d ∧ (k = base ++ cs ".tmp" ∨ status = 0 ∧ k = base).

Lemma mine_may_change d base status i (t t' : dtree) :
  changes geteuid (mine d (base ++ cs ".tmp")) (eq i) t t' → changes geteuid (may_change d base status) (eq i) t t'.
Proof. apply changes_weaken; [|done]. unfold mine, may_change. intros d' k [-> ->]. auto. Qed.

Lemma renameat_step d base i data (w w' : W) ok :
  renameat d (base ++ cs ".tmp") base w = (ok, w') → held d (base ++ cs ".tmp") i data (tree w) →
  if ok then held d base i data (tree w') ∧ changes geteuid (may_change d base 0) (eq i) (tree w) (tree w')
  else held d (base ++ cs ".tmp") i data (tree w') ∧ others geteuid (tree w) (tree w').
Proof.
  intros Hr Hh. destruct (renameat_ok _ _ _ _ _ _ Hr) as (t & Ho & Hok).
  pose proof (held_others _ _ _ _ _ _ Ho Hh) as Hht. destruct ok; [|by rewrite Hok].
  destruct Hok as (j & Hj & Hk & Hl). destruct Hht as ((n & Hd & Ht) & Hlt & m & Hi & Hp & Hm).
  assert (j = i) as -> by congruence. destruct (Hk _ _ Hd) as (n' & Hd' & Hmode & Huid & _).
  destruct (Hk _ _ Hi) as (m' & Hi' & Hs).
  assert (∀ d' k, ¬ may_change d base 0 d' k → links (tree w') !! (d', k) = links t !! (d', k)) as Hother.
  { intros d' k Ha. rewrite Hl. destruct (decide (links t !! (d, base) = Some i)); [done|].
    rewrite lookup_insert_ne, lookup_delete_ne; [done|..]; intros [= <- <-]; apply Ha; unfold may_change; auto. }
  split.
  - split; [exists n'; split; [done|by eapply trusted_same]|]. split.
    + rewrite Hl. destruct (decide (links t !! (d, base) = Some i)); [done|by rewrite lookup_insert_eq].
    + exists m'. split; [done|]. split; [by eapply private_same|]. by destruct Hs as (_ & _ & ->).
  - eapply changes_trans; [by apply others_changes|]. split.
    + intros d' n0 Hd0 _. destruct (Hk _ _ Hd0) as (n1 & ? & ? & ? & _). eauto.
    + intros d' n0 k j m0 _ _ Ha _ Hl0 Hi0 _. rewrite Hother by done. split; [done|]. by apply Hk.
    + intros d' n0 k _ _ _ Ha. by apply Hother.
Qed.

Lemma save_finish_spec i d base werr text (w w' : W) status :
  save_finish i d base (base ++ cs ".tmp") werr w = (status, w') →
  writing d (base ++ cs ".tmp") i werr text w →
  (status = 0 ∨ status = 1) ∧
  changes geteuid (may_change d base status) (eq i) (tree w) (tree w') ∧
  (status = 0 → werr = false ∧ held d base i text (tree w')).
Proof.
  set (tmp := base ++ cs ".tmp"). unfold save_finish. intros Hf Hw.
  destruct (fflush i w) as [flushed w1] eqn:E1. destruct (fflush_step _ _ _ _ _ _ _ _ E1 Hw) as [Hw1 S1].
  destruct (fsync i w1) as [synced w2] eqn:E2. destruct (fsync_ok _ _ _ _ E2) as [O2 P2].
  destruct (writing_quiet _ _ _ _ _ _ _ O2 P2 Hw1) as [Hw2 S2].
  destruct (fstat_fd i w2) as [fst w3] eqn:E3. destruct (fstat_step _ _ _ _ _ _ _ _ E3 Hw2) as (Hw3 & S3 & _).
  destruct (tmp_is_ours fst d tmp w3) as [same w4] eqn:E4. destruct (is_ours_quiet _ _ _ _ _ _ E4) as [O4 P4].
  destruct (writing_quiet _ _ _ _ _ _ _ O4 P4 Hw3) as [Hw4 S4].
  destruct (fstat_fd i w4) as [st w5] eqn:E5. destruct (fstat_step _ _ _ _ _ _ _ _ E5 Hw4) as (Hw5 & S5 & _).
  destruct (fclose i w5) as [closed w6] eqn:E6.
  destruct (fclose_step _ _ _ _ _ _ _ _ E6 Hw5) as (S6 & data & Hh6 & Hdata).
  destruct (tmp_is_ours st d tmp w6) as [still w7] eqn:E7. destruct (is_ours_quiet _ _ _ _ _ _ E7) as [O7 _].
  pose proof (held_others _ _ _ _ _ _ O7 Hh6) as Hh7.
  assert (step d tmp i w w7) as S.
  { repeat (eapply step_trans; [eassumption|]). by apply others_changes. }
  clear S1 S2 S3 S4 S5 S6 E1 E2 E3 E4 E5 E6 E7.
  assert (∀ w8, step d tmp i w7 w8 → changes geteuid (may_change d base 1) (eq i) (tree w) (tree w8)) as Hfail.
  { intros w8 H8. apply mine_may_change. by eapply changes_trans. }
  destruct (werr || _ || _ || _ || _ || negb still) eqn:Hbad.
  { injection Hf as <- <-. split_and!; [by right| |done]. apply Hfail.
    destruct (still || _); [by eapply held_unlinked|apply changes_refl]. }
  destruct (renameat d tmp base w7) as [ok w8] eqn:E8. pose proof (renameat_step _ _ _ _ _ _ _ E8 Hh7) as Hren.
  destruct ok; cbn [negb] in Hf.
  - destruct (fsync d w8) as [r9 w9] eqn:E9. destruct (fsync_ok _ _ _ _ E9) as [O9 _].
    injection Hf as <- <-. destruct Hren as [Hh8 C8].
    repeat rewrite orb_false_iff in Hbad. destruct Hbad as (((((-> & H1) & H2) & H3) & H4) & H5).
    split_and!; [by left| |].
    + eapply changes_trans; [by apply mine_may_change|]. eapply changes_trans; [done|]. by apply others_changes.
    + intros _. split; [done|]. rewrite <- Hdata; [by eapply held_others|]. by rewrite H1, H4.
  - destruct Hren as [Hh8 O8]. destruct (tmp_is_ours st d tmp w8) as [ours w9] eqn:E9.
    destruct (is_ours_quiet _ _ _ _ _ _ E9) as [O9 _]. injection Hf as <- <-. split_and!; [by right| |done].
    apply Hfail. eapply step_trans; [by apply others_changes|]. eapply step_trans; [by apply others_changes|].
    destruct ours; [|apply changes_refl]. eapply held_unlinked. by eapply held_others.
Qed.

Lemma save_abort_step d tmp i werr text (w : W) :
  writing d tmp i werr text w → step d tmp i w (save_abort i d tmp w).
Proof.
  unfold save_abort. intros Hw.
  destruct (fstat_fd i w) as [st w1] eqn:E1. destruct (fstat_step _ _ _ _ _ _ _ _ E1 Hw) as (Hw1 & S1 & _).
  destruct (tmp_is_ours st d tmp w1) as [ours w2] eqn:E2. destruct (is_ours_quiet _ _ _ _ _ _ E2) as [O2 P2].
  destruct (writing_quiet _ _ _ _ _ _ _ O2 P2 Hw1) as [Hw2 S2].
  destruct (fclose i w2) as [closed w3] eqn:E3.
  destruct (fclose_step _ _ _ _ _ _ _ _ E3 Hw2) as (S3 & data & Hh & _).
  eapply step_trans; [done|]. eapply step_trans; [done|]. eapply step_trans; [done|].
  destruct ours; [by eapply held_unlinked|apply changes_refl].
Qed.

(** The whole file that a save with these reads makes. *)
Definition saved (path : cstr) (reads : proc_file → stream) : cstr :=
  save_header path ++ mjoin ((λ p, mjoin (save_lines p (reads p))) <$> SAVE_FILES).

(** All four files were read to their end, in this state of the module. *)
Definition read_whole `{Hashtable.KernelHash} (k : kernel) (reads : proc_file → stream) : Prop :=
  ∀ p, reads p = whole (proc_read p k).

Lemma saved_kernel `{Hashtable.KernelHash} path k reads :
  read_whole k reads → saved path reads = save_text false path k.
Proof.
  intros Hr. unfold saved, save_text. cbn [SAVE_FILES fmap list_fmap mjoin list_join]. rewrite !Hr.
  cbn. by rewrite !app_nil_r.
Qed.

Lemma created_step d tmp i (t : dtree) n m :
  inodes t !! d = Some n → trusted_dir geteuid n → links t !! (d, tmp) = None → inodes t !! i = None →
  private_file geteuid m → n_data m = [] →
  let t' := {| links := <[(d, tmp) := i]> (links t); inodes := <[i := m]> (inodes t) |} in
  held d tmp i [] t' ∧ changes geteuid (mine d tmp) (eq i) t t'.
Proof.
  intros Hd Ht Hl Hi Hp Hm t'. assert (∀ j x, inodes t !! j = Some x → inodes t' !! j = Some x) as Hk.
  { intros j x Hj. cbn. rewrite lookup_insert_ne; [done|]. intros <-. congruence. }
  assert (∀ d' k, ¬ mine d tmp d' k → links t' !! (d', k) = links t !! (d', k)) as Hl'.
  { intros d' k Ha. cbn. rewrite lookup_insert_ne; [done|]. intros [= <- <-]. by apply Ha. }
  split.
  - split; [eauto|]. cbn. rewrite !lookup_insert_eq. eauto.
  - split; [eauto| |eauto]. intros d' n' k j x _ _ Ha _ Hlj Hj _. rewrite Hl' by done.
    split; [done|]. exists x. by split; [apply Hk|].
Qed.

(** Once the temporary file is there. *)
Lemma save_open path src d base i (w w' : W) status out :
  (let '(opened, w) := fdopen i w in
   if negb opened then (1, [], (unlinkat d (base ++ cs ".tmp") w).2)
   else
     let '(ok, w) := fprintf i (save_header path) w in
     let '(werr, w) := print_files i src SAVE_FILES (negb ok) w in
     match werr with
     | None => (1, [], save_abort i d (base ++ cs ".tmp") w)
     | Some werr =>
         let '(status, w) := save_finish i d base (base ++ cs ".tmp") werr w in
         (status, if status =? 0 then save_summary path src else [], w)
     end) = (status, out, w') →
  held d (base ++ cs ".tmp") i [] (tree w) →
  (status = 0 ∧ out = save_summary path src ∨ status = 1 ∧ out = []) ∧
  changes geteuid (may_change d base status) (eq i) (tree w) (tree w') ∧
  (status = 0 → ∃ reads, (∀ p, src p = Some (reads p)) ∧ held d base i (saved path reads) (tree w')).
Proof.
  set (tmp := base ++ cs ".tmp"). intros Hs Hh. destruct (fdopen i w) as [opened w1] eqn:E1.
  destruct (fdopen_ok _ _ _ _ E1) as [O1 P1]. pose proof (held_others _ _ _ _ _ _ O1 Hh) as Hh1.
  destruct opened; cbn [negb] in Hs.
  2: { injection Hs as <- <- <-. split_and!; [by right| |done].
       eapply changes_trans; [by apply others_changes|]. apply mine_may_change. by eapply held_unlinked. }
  assert (writing d tmp i false [] w1) as Hw1 by (exists []; split; [done|intros _; by apply P1]).
  destruct (fprintf i (save_header path) w1) as [ok w2] eqn:E2.
  destruct (fprintf_step _ _ _ _ _ _ _ _ _ E2 Hw1) as [Hw2 S2].
  destruct (print_files i src SAVE_FILES (negb ok) w2) as [r w3] eqn:E3.
  destruct (print_files_step _ _ _ _ _ _ _ _ _ _ E3 Hw2) as (S3 & (werr' & text' & Hany) & Htexts).
  assert (step d tmp i w w3) as S.
  { eapply step_trans; [by apply others_changes|]. by eapply step_trans. }
  destruct r as [werr|].
  2: { injection Hs as <- <- <-. split_and!; [by right| |done]. apply mine_may_change.
       eapply changes_trans; [exact S|]. by eapply save_abort_step. }
  pose proof (print_files_texts _ _ _ _ _ _ _ E3) as Hsrc.
  assert (∃ texts, ∀ p, src p = Some (texts p)) as (texts & Ht).
  { exists (λ p, default (whole []) (src p)). intros p. destruct (Hsrc p) as [x ->]; [|done].
    destruct p; repeat (left || right). }
  specialize (Htexts werr eq_refl texts (λ p _, Ht p)).
  destruct (save_finish i d base tmp werr w3) as [st w4] eqn:E4. injection Hs as -> <- ->.
  destruct (save_finish_spec _ _ _ _ _ _ _ _ E4 Htexts) as (Hst & Hch & Hok). split_and!.
  - destruct Hst as [-> | ->]; auto.
  - eapply changes_trans; [by apply mine_may_change|done].
  - intros H0. exists texts. split; [done|]. by destruct (Hok H0).
Qed.

End proofs.

(** To the standard output: all the lines, or status 1. *)
Lemma save_stdout_spec `{Hashtable.KernelHash} k path written :
  do_save_stdout (λ p, Some (whole (proc_read p k))) written = (if written then 0 else 1, save_text true path k).
Proof. unfold do_save_stdout, save_text. cbn. by rewrite !app_nil_r. Qed.

(** ** An instance

    Directories in memory, left alone by the other users; the calls that
    could change something fail as [failing] tells, one flag each. *)
Module ToyDirs.

Record toy := { t_tree : dtree; t_pending : gmap inum cstr; t_next : Z; t_failing : list bool }.

Definition buffered (w : toy) (i : inum) : cstr := default [] (t_pending w !! i).

Definition with_tree (t : dtree) (w : toy) : toy :=
  {| t_tree := t; t_pending := t_pending w; t_next := t_next w; t_failing := t_failing w |}.
Definition with_pending (i : inum) (s : cstr) (w : toy) : toy :=
  {| t_tree := t_tree w; t_pending := <[i := s]> (t_pending w); t_next := t_next w; t_failing := t_failing w |}.

(** Whether the next call fails. *)
Definition attempt (w : toy) : bool * toy :=
  (match t_failing w with true :: _ => false | _ => true end,
   {| t_tree := t_tree w; t_pending := t_pending w; t_next := t_next w + 1; t_failing := tail (t_failing w) |}).

Definition put (i : inum) (n : dnode) (t : dtree) : dtree :=
  {| links := links t; inodes := <[i := n]> (inodes t) |}.

Definition toy_openat_dir (d : inum) (k : cstr) (w : toy) : option inum * toy :=
  (i ← links (t_tree w) !! (d, k); n ← inodes (t_tree w) !! i; if S_ISDIR (n_mode n) then Some i else None, w).
Definition toy_fstat (i : inum) (w : toy) : option dstat * toy :=
  (dstat_of i <$> inodes (t_tree w) !! i, w).
Definition toy_fstatat (d : inum) (k : cstr) (w : toy) : option dstat * toy :=
  (i ← links (t_tree w) !! (d, k); dstat_of i <$> inodes (t_tree w) !! i, w).

Definition new_file : dnode := {| n_mode := Z.lor S_IFREG 384; n_uid := 0; n_nlink := 1; n_data := [] |}.

Definition toy_openat_excl (d : inum) (k : cstr) (w : toy) : option inum * toy :=
  let '(ok, w) := attempt w in
  let i := (0, t_next w) in
  match ok, links (t_tree w) !! (d, k), inodes (t_tree w) !! i with
  | true, None, None =>
      (Some i, with_tree {| links := <[(d, k) := i]> (links (t_tree w));
                            inodes := <[i := new_file]> (inodes (t_tree w)) |} w)
  | _, _, _ => (None, w)
  end.
Definition toy_fdopen (i : inum) (w : toy) : bool * toy :=
  let '(ok, w) := attempt w in (ok, if ok then with_pending i [] w else w).
Definition toy_fprintf (i : inum) (s : cstr) (w : toy) : bool * toy :=
  let '(ok, w) := attempt w in (ok, if ok then with_pending i (buffered w i ++ s) w else w).
Definition toy_flush (i : inum) (w : toy) : bool * toy :=
  let '(ok, w) := attempt w in
  (ok, match ok, inodes (t_tree w) !! i with
       | true, Some n =>
           with_pending i [] (with_tree (put i (with_content (n_data n ++ buffered w i) n) (t_tree w)) w)
       | _, _ => w
       end).
Definition toy_unlinkat (d : inum) (k : cstr) (w : toy) : bool * toy :=
  let '(ok, w) := attempt w in
  (ok, if ok then with_tree {| links := delete (d, k) (links (t_tree w)); inodes := inodes (t_tree w) |} w else w).
Definition toy_renameat (d : inum) (k k' : cstr) (w : toy) : bool * toy :=
  let '(ok, w) := attempt w in
  match ok, links (t_tree w) !! (d, k) with
  | true, Some i =>
      (true, with_tree {| links := if decide (links (t_tree w) !! (d, k') = Some i) then links (t_tree w)
                                   else <[(d, k') := i]> (delete (d, k) (links (t_tree w)));
                          inodes := inodes (t_tree w) |} w)
  | _, _ => (false, w)
  end.

Lemma put_same i n t : inodes t !! i = Some n → t = put i (with_content (n_data n) n) t.
Proof. intros Hi. destruct t as [l m], n. unfold put, with_content. cbn in *. by rewrite insert_id. Qed.

Lemma kept_refl t t' : inodes t' = inodes t → files_kept t t'.
Proof. intros He i n Hi. exists n. by rewrite He. Qed.

#[export, refine] Instance toy_dirs : Dirs toy := {
  tree := t_tree; pending := buffered; geteuid := 0;
  open_start := λ _ w, (Some (0, 2), w); openat_dir := toy_openat_dir; fstat_fd := toy_fstat;
  fstatat := toy_fstatat; openat_excl := toy_openat_excl; fdopen := toy_fdopen; fprintf := toy_fprintf;
  fflush := toy_flush; fsync := λ _, attempt; fclose := toy_flush; unlinkat := toy_unlinkat;
  renameat := toy_renameat;
}.
Proof.
  - intros b w r w' [= <- <-]. split; [apply changes_refl|done].
  - intros d k w r w' [= <- <-]. split; [apply changes_refl|done].
  - intros i w r w' [= <- <-]. split_and!; [apply changes_refl|done|].
    intros st Hs. destruct (inodes (t_tree w) !! i) as [n|]; [|done]. injection Hs as <-. eauto.
  - intros d k w r w' [= <- <-]. split_and!; [apply changes_refl|done|]. intros st Hs.
    destruct (links (t_tree w) !! (d, k)) as [i|]; [|done]. cbn in Hs.
    destruct (inodes (t_tree w) !! i) as [n|] eqn:Hn; [|done]. injection Hs as <-. eauto.
  - unfold toy_openat_excl. intros d k w r w' He. destruct (attempt w) as [ok w1] eqn:Ha.
    injection Ha as Hok <-. cbn in He. destruct ok, (links (t_tree w) !! (d, k)) eqn:Hl,
      (inodes (t_tree w) !! (0, t_next w + 1)) eqn:Hi; injection He as <- <-; (split; [done|]); exists (t_tree w);
      (split; [apply changes_refl|]); try done. split_and!; [done..|]. by exists new_file.
  - unfold toy_fdopen. intros i w r w' He. cbn in He. injection He as <- <-.
    destruct (match t_failing w with true :: _ => _ | _ => _ end); (split; [apply changes_refl|]); [|done].
    intros _. unfold buffered. cbn. by rewrite lookup_insert_eq.
  - unfold toy_fprintf. intros i s w r w' He. cbn in He. injection He as <- <-. exists (t_tree w).
    split; [apply changes_refl|]. intros n Hn. exists (n_data n).
    destruct (match t_failing w with true :: _ => _ | _ => _ end); (split; [by apply put_same|]); [|done].
    intros _. unfold buffered. cbn. by rewrite lookup_insert_eq.
  - unfold toy_flush. intros i w r w' He. cbn in He. injection He as <- <-. exists (t_tree w).
    split; [apply changes_refl|]. intros n Hn. rewrite Hn.
    destruct (match t_failing w with true :: _ => _ | _ => _ end).
    + eexists. split; [done|]. intros _. split; [done|]. unfold buffered. cbn. by rewrite lookup_insert_eq.
    + exists (n_data n). split; [by apply put_same|done].
  - intros i w r w' [= <- <-]. split; [apply changes_refl|done].
  - unfold toy_flush. intros i w r w' He. cbn in He. injection He as <- <-. exists (t_tree w).
    split; [apply changes_refl|]. intros n Hn. rewrite Hn.
    destruct (match t_failing w with true :: _ => _ | _ => _ end).
    + by eexists.
    + exists (n_data n). split; [by apply put_same|done].
  - unfold toy_unlinkat. intros d k w r w' He. cbn in He. injection He as <- <-. exists (t_tree w).
    split; [apply changes_refl|]. destruct (match t_failing w with true :: _ => _ | _ => _ end); [|done].
    split; [done|by apply kept_refl].
  - unfold toy_renameat. intros d k k' w r w' He. cbn in He. exists (t_tree w). split; [apply changes_refl|].
    destruct (match t_failing w with true :: _ => _ | _ => _ end); [|by injection He as <- <-].
    destruct (links (t_tree w) !! (d, k)) as [i|]; injection He as <- <-; [|done].
    exists i. split_and!; [done|by apply kept_refl|done].
Defined.
End ToyDirs.

(** ** Examples *)

Module SaveExamples.
Import ToyDirs Hashtable.ToyHash.

Definition dir (mode uid : Z) : dnode :=
  {| n_mode := Z.lor S_IFDIR mode; n_uid := uid; n_nlink := 2; n_data := [] |}.

(** /var, a sticky /tmp, /u of the user 1000, and an old /var/state. *)
Definition start (failing : list bool) : toy :=
  {| t_tree := {|
       links := list_to_map [((0, 2), cs "var", (0, 3)); ((0, 2), cs "tmp", (0, 4)); ((0, 2), cs "u", (0, 5));
                             ((0, 3), cs "state", (0, 6))];
       inodes := list_to_map [((0, 2), dir 493 0); ((0, 3), dir 493 0); ((0, 4), dir 1023 0); ((0, 5), dir 493 1000);
                              ((0, 6), {| n_mode := Z.lor S_IFREG 384; n_uid := 0; n_nlink := 1; n_data := cs "old" |})] |};
     t_pending := ∅; t_next := 100; t_failing := failing |}.

Definition tables : proc_source := λ p, Some (whole
  match p with
  | PROC_PATH => cs "sha256 00ff Eicar" ++ [LF]
  | TRUST_PROC_PATH => []
  | PROTECTED_PROC_PATH => cs "/etc/shadow" ++ [LF] ++ cs "/boot" ++ [LF]
  | POLICY_PROC_PATH => cs "closed" ++ [LF]
  end).

(** What a path of /var or /tmp holds. *)
Definition held_at (d : inum) (k : cstr) (w : toy) : option cstr :=
  i ← links (t_tree w) !! (d, k); n_data <$> inodes (t_tree w) !! i.

Definition snapshot : cstr :=
  cs "# kernel-av state dump - replay with: avctl load /var/state" ++ [LF] ++
  cs "sig add sha256 00ff Eicar" ++ [LF] ++ cs "protect add /etc/shadow" ++ [LF] ++
  cs "protect add /boot" ++ [LF] ++ cs "policy closed" ++ [LF].

Example save_ok :
  let '(status, out, w) := do_save_file (cs "/var/state") tables (start []) in
  status = 0 ∧
  out = cs "saved 1 signature(s), 0 trusted entries, 2 protected paths, and the daemon-unavailable policy to /var/state" ++
        [LF] ∧
  held_at (0, 3) (cs "state") w = Some snapshot ∧ held_at (0, 3) (cs "state.tmp") w = None.
Proof. vm_compute. split_and!; reflexivity. Qed.

(** The third line cannot be written: the old snapshot stays. *)
Example save_disk_full :
  let '(status, _, w) := do_save_file (cs "/var/state") tables (start [false; false; false; true]) in
  status = 1 ∧ held_at (0, 3) (cs "state") w = Some (cs "old") ∧ held_at (0, 3) (cs "state.tmp") w = None.
Proof. vm_compute. split_and!; reflexivity. Qed.

(** A read of the protected paths fails after 14 bytes: the save succeeds, with one path less. *)
Example truncated_save :
  let src p := match p with
    | PROTECTED_PROC_PATH => Some {| sm_text := take 14 (cs "/etc/shadow" ++ [LF] ++ cs "/boot"); sm_error := true |}
    | _ => tables p
    end in
  let '(status, _, w) := do_save_file (cs "/var/state") src (start []) in
  status = 0 ∧
  held_at (0, 3) (cs "state") w = Some
    (cs "# kernel-av state dump - replay with: avctl load /var/state" ++ [LF] ++
     cs "sig add sha256 00ff Eicar" ++ [LF] ++ cs "protect add /etc/shadow" ++ [LF] ++ cs "policy closed" ++ [LF]).
Proof. vm_compute. split; reflexivity. Qed.

(** Another user's directory, and a file, are no places to save to; a sticky directory is. *)
Example save_places :
  (λ path, (do_save_file (cs path) tables (start [])).1.1) <$>
    ["/u/state"; "/var/state/x"; "/tmp/state"; "//tmp/./state"; "/nowhere/state"]%string =
  [1; 1; 0; 0; 1].
Proof. vm_compute. reflexivity. Qed.

(** What a crashed save left is not overwritten. *)
Example save_stale :
  let w1 := (do_save_file (cs "/var/state.tmp") tables (start [])).2 in
  (do_save_file (cs "/var/state") tables w1).1.1 = 1 ∧ held_at (0, 3) (cs "state") w1 = Some (cs "old").
Proof. vm_compute. split; reflexivity. Qed.

Definition w1 : toy := (do_save_file (cs "/var/state") tables (start [])).2.

End SaveExamples.
