(* ===== verification/Avctl.v ===== *)
(** * avctl's command line: userspace/avctl/avctl.c

    [main] and the functions that take the rest of the arguments, over the
    commands of AvctlProc, AvctlClient and AvctlSave.  A command line is the
    list of the arguments after the program's name. *)

From Stdlib Require Import ZArith Lia Ascii String.
From stdpp Require Import prelude list gmap.
From S2P Require Import Prelude CString Hashtable CText Stdio AvctlProc AvctlLoad AvctlClient AvctlSave.

Local Open Scope Z_scope.

Definition CONTROL_SOCK_PATH_DEFAULT : cstr := cs "/run/avd/control.sock".

(** [getenv]'s answer. *)
Definition control_sock_path (AVD_SOCK_PATH : option cstr) : cstr :=
  default CONTROL_SOCK_PATH_DEFAULT AVD_SOCK_PATH.

(** What a run of avctl meets: the outcomes of its writes and of [fopen] on
    the module's files and on others, the daemon, and the standard output. *)
Record main_env := {
  me_write : write_env;
  me_load : nat → write_env;
  me_proc : proc_file → option (option nat);
  me_fopen : cstr → option cstr;
  me_getenv : option cstr;
  me_client : cstr → client_env;
  me_pending : list recv;
  me_stdout : bool;
}.

(** The exit status and what is printed ([None]: the model's fuel ran out),
    the module's tables, the files, and what was sent to the daemon. *)
Record outcome (W : Type) := {
  oc_exit : option (Z * cstr); oc_kernel : kernel; oc_files : W; oc_sent : cstr;
}.
Arguments oc_exit {W}. Arguments oc_kernel {W}. Arguments oc_files {W}. Arguments oc_sent {W}.

Section main.
Context `{KernelHash} {W : Type} `{!Dirs W}.

Definition reads_only (r : Z * cstr) (k : kernel) (w : W) : outcome W :=
  {| oc_exit := Some r; oc_kernel := k; oc_files := w; oc_sent := [] |}.

(** [usage] goes to the standard error. *)
Definition usage (k : kernel) (w : W) : outcome W := reads_only failed k w.

Definition writes (r : Z * cstr * kernel) (w : W) : outcome W :=
  {| oc_exit := Some r.1; oc_kernel := r.2; oc_files := w; oc_sent := [] |}.

Definition asks (r : cstr * option (Z * cstr)) (k : kernel) (w : W) : outcome W :=
  {| oc_exit := r.2; oc_kernel := k; oc_files := w; oc_sent := r.1 |}.

(** A file of the module, if it can be opened: all of it, or so many bytes and an error. *)
Definition proc_text (e : main_env) (k : kernel) (p : proc_file) : option stream :=
  match me_proc e p with
  | Some None => Some (whole (proc_read p k))
  | Some (Some n) => Some {| sm_text := take n (proc_read p k); sm_error := true |}
  | None => None
  end.

Definition do_trust (e : main_env) (args : list cstr) (k : kernel) (w : W) : outcome W :=
  match args with
  | [] => usage k w
  | verb :: args =>
      if strcmp_eq verb (cs "list") then reads_only (do_list_generic (proc_text e k TRUST_PROC_PATH) false) k w
      else if strcmp_eq verb (cs "add") then
        match args with
        | hex :: ((_ :: _) as words) => writes (do_trust_add (me_write e) hex words k) w
        | _ => usage k w
        end
      else if strcmp_eq verb (cs "del") then
        match args with hex :: _ => writes (do_trust_del (me_write e) hex k) w | [] => usage k w end
      else usage k w
  end.

Definition do_protect (e : main_env) (args : list cstr) (k : kernel) (w : W) : outcome W :=
  match args with
  | [] => usage k w
  | verb :: args =>
      if strcmp_eq verb (cs "list") then reads_only (do_protect_list (proc_text e k PROTECTED_PROC_PATH)) k w
      else if strcmp_eq verb (cs "add") then
        match args with path :: _ => writes (do_protect_add (me_write e) path k) w | [] => usage k w end
      else if strcmp_eq verb (cs "del") then
        match args with path :: _ => writes (do_protect_del (me_write e) path k) w | [] => usage k w end
      else usage k w
  end.

Definition do_policy (e : main_env) (args : list cstr) (k : kernel) (w : W) : outcome W :=
  match args with
  | [] => usage k w
  | verb :: args =>
      if strcmp_eq verb (cs "get") then reads_only (do_policy_get (proc_text e k POLICY_PROC_PATH)) k w
      else if strcmp_eq verb (cs "set") then
        match args with value :: _ => writes (do_policy_set (me_write e) value k) w | [] => usage k w end
      else usage k w
  end.

(** Enough for any response. *)
Definition response_fuel (e : main_env) : nat := S (recv_size (me_pending e)).

Definition do_quarantine (e : main_env) (args : list cstr) (k : kernel) (w : W) : outcome W :=
  let client := me_client e (control_sock_path (me_getenv e)) in
  match args with
  | [] => usage k w
  | verb :: args =>
      if strcmp_eq verb (cs "list")
      then asks (do_quarantine_list (response_fuel e) client (me_pending e)) k w
      else if strcmp_eq verb (cs "restore") then
        match args with
        | id :: _ => asks (do_quarantine_restore (response_fuel e) client id (me_pending e)) k w
        | [] => usage k w
        end
      else if strcmp_eq verb (cs "delete") then
        match args with
        | id :: _ => asks (do_quarantine_delete (response_fuel e) client id (me_pending e)) k w
        | [] => usage k w
        end
      else usage k w
  end.

Definition do_save (e : main_env) (path : cstr) (k : kernel) (w : W) : outcome W :=
  if strcmp_eq path (cs "-") then reads_only (do_save_stdout (proc_text e k) (me_stdout e)) k w
  else
    let '(r, w) := do_save_file path (proc_text e k) w in reads_only r k w.

Definition main (e : main_env) (args : list cstr) (k : kernel) (w : W) : outcome W :=
  match args with
  | [] => usage k w
  | verb :: args =>
      if strcmp_eq verb (cs "list") then reads_only (do_list_generic (proc_text e k PROC_PATH) true) k w
      else if strcmp_eq verb (cs "trust") then do_trust e args k w
      else if strcmp_eq verb (cs "protect") then do_protect e args k w
      else if strcmp_eq verb (cs "policy") then do_policy e args k w
      else if strcmp_eq verb (cs "save") then
        match args with path :: _ => do_save e path k w | [] => usage k w end
      else if strcmp_eq verb (cs "load") then
        match args with path :: _ => writes (do_load (me_load e) (me_fopen e path) k) w | [] => usage k w end
      else if strcmp_eq verb (cs "scan") then
        match args with
        | path :: _ =>
            asks (do_scan (response_fuel e) (me_client e (control_sock_path (me_getenv e))) path (me_pending e)) k w
        | [] => usage k w
        end
      else if strcmp_eq verb (cs "quarantine") then do_quarantine e args k w
      else if strcmp_eq verb (cs "add") then
        match args with
        | algo :: hex :: name :: _ => writes (do_add (me_write e) algo hex name k) w
        | _ => usage k w
        end
      else if strcmp_eq verb (cs "del") then
        match args with
        | algo :: hex :: _ => writes (do_del (me_write e) algo hex k) w
        | _ => usage k w
        end
      else usage k w
  end.
End main.

(** ** Which command lines reach what *)

(** [args] begins with one of these words. *)
Definition begins (words : list string) (args : list cstr) : bool :=
  match args with v :: _ => existsb (λ x, strcmp_eq v (cs x)) words | [] => false end.

Definition kernel_command (args : list cstr) : bool :=
  begins ["add"; "del"; "load"]%string args ||
  begins ["trust"; "protect"]%string args && begins ["add"; "del"]%string (tail args) ||
  begins ["policy"]%string args && begins ["set"]%string (tail args).

Definition file_command (args : list cstr) : bool :=
  begins ["save"]%string args && negb (begins ["-"]%string (tail args)).

Definition daemon_command (args : list cstr) : bool := begins ["scan"; "quarantine"]%string args.

(** ** Every run ends *)

Definition zero_one (z : Z) : Prop := z = 0 ∨ z = 1.

Lemma read_response_total fuel grow pending cap buf :
  (recv_size pending < fuel)%nat → is_Some (read_response fuel grow pending cap buf).
Proof.
  revert pending cap buf. induction fuel as [|fuel IH]; intros pending cap buf Hf; [lia|]. cbn [read_response].
  destruct pending as [|r pending]; [by eexists|].
  unfold recv_size in Hf. csimpl in Hf. fold (recv_size pending) in Hf.
  destruct r as [b| |]; [|apply IH; simpl in Hf; lia|by eexists]. cbn [sock_read recv_bytes] in *.
  set (n := Z.to_nat _). destruct (Nat.ltb_spec n (length b)) as [Hlt|Hge].
  - destruct (take n b) as [|x t] eqn:Ht; [by eexists|].
    assert (0 < n)%nat by (destruct n; [by rewrite take_0 in Ht|lia]).
    assert (recv_size (RecvBytes (drop n b) :: pending) < fuel)%nat.
    { unfold recv_size. csimpl. rewrite length_drop. fold (recv_size pending). lia. }
    destruct (_ <=? _); [|by apply IH]. destruct (grow _); [by apply IH|by eexists].
  - destruct b as [|x b]; [by eexists|]. simpl in Hf.
    destruct (_ <=? _); [|apply IH; lia]. destruct (grow _); [apply IH; lia|by eexists].
Qed.

Lemma run_request_total fuel ce cmd pending k :
  (recv_size pending < fuel)%nat → (∀ resp, zero_one (k resp).1) →
  ∃ status out, (run_request fuel ce cmd pending k).2 = Some (status, out) ∧ zero_one status.
Proof.
  intros Hf Hk. assert (∃ status out, Some failed = Some (status, out) ∧ zero_one status) as Hfail
    by (eexists _, _; by split; [|right]).
  unfold run_request. destruct cmd as [cmd|]; [|done]. unfold control_request.
  destruct (cl_socket ce); cbn [negb]; [|done]. destruct (SUN_PATH <=? _)%nat; [done|].
  destruct (cl_connect ce); cbn [negb]; [|done]. destruct (cl_malloc_req ce); cbn [negb]; [|done].
  destruct (cl_written ce =? _); cbn [negb]; [|done]. destruct (cl_malloc ce); cbn [negb]; [|done].
  destruct (read_response_total fuel (cl_grow ce) pending RESPONSE_CAP [] Hf) as [[resp|] ->]; [|done].
  cbn [snd]. specialize (Hk resp). destruct (k resp) as [status out]. by eexists _, _.
Qed.

Lemma scan_response_status path resp : zero_one (scan_response path resp).1.
Proof.
  unfold scan_response. destruct (expect_ok resp) as [cursor|]; [|by right].
  destruct (next_line _) as [[line ?]|]; [|by right].
  destruct (scan_fields line) as [[[[v r] z] s]|]; [|by right]. unfold scan_report.
  destruct (_ && _); [by right|]. destruct (strcmp_eq _ _); by left.
Qed.

Section confined.
Context `{KernelHash} {W : Type} `{!Dirs W}.

Lemma said_status (r : Z * kernel) text : zero_one (said r text).1.1.
Proof. unfold said. destruct (negb _); [by right|by left]. Qed.

(** Every command that writes to the module. *)
Lemma write_status e k :
  (∀ algo hex name, zero_one (do_add e algo hex name k).1.1) ∧
  (∀ algo hex, zero_one (do_del e algo hex k).1.1) ∧
  (∀ hex words, zero_one (do_trust_add e hex words k).1.1) ∧
  (∀ hex, zero_one (do_trust_del e hex k).1.1) ∧
  (∀ path, zero_one (do_protect_add e path k).1.1) ∧
  (∀ path, zero_one (do_protect_del e path k).1.1) ∧
  (∀ value, zero_one (do_policy_set e value k).1.1).
Proof.
  unfold do_add, do_del, do_trust_add, do_trust_del, do_protect_add, do_protect_del, do_policy_set.
  split_and!; intros; repeat (case_match; try (by right)); apply said_status.
Qed.

Lemma save_status path src (w : W) : zero_one (do_save_file path src w).1.1.
Proof.
  assert (∀ out d base tmp werr (w : W), zero_one (save_finish out d base tmp werr w).1) as Hfin.
  { intros out d base tmp werr v. unfold save_finish.
    destruct (fflush out v) as [b1 v1]. destruct (fsync out v1) as [b2 v2]. destruct (fstat_fd out v2) as [s3 v3].
    destruct (tmp_is_ours s3 d tmp v3) as [b4 v4]. destruct (fstat_fd out v4) as [s5 v5].
    destruct (fclose out v5) as [b6 v6]. destruct (tmp_is_ours s5 d tmp v6) as [b7 v7].
    destruct (_ || negb b7); [by right|]. destruct (renameat d tmp base v7) as [[] v8]; cbn [negb].
    - destruct (fsync d v8). by left.
    - destruct (tmp_is_ours s5 d tmp v8). by right. }
  unfold do_save_file. destruct (_ <=? _)%nat; [by right|]. destruct (negb _); [by right|].
  destruct (pin_save_parent path w) as [[[[d base] tmpbase]|] w1]; [|by right].
  destruct (openat_excl d tmpbase w1) as [[i|] w2]; [|by right].
  destruct (fdopen i w2) as [opened w3]. destruct (negb opened); [by right|].
  destruct (fprintf i _ w3) as [ok w4]. destruct (print_files _ _ _ _ w4) as [[werr|] w5]; [|by right].
  specialize (Hfin i d base tmpbase werr w5). by destruct (save_finish i d base tmpbase werr w5).
Qed.

(** A run that ends and touches only what it may. *)
Record confined (args : list cstr) (k : kernel) (w : W) (o : outcome W) : Prop := {
  cf_ends : ∃ status out, oc_exit o = Some (status, out) ∧ zero_one status;
  cf_kernel : kernel_command args = false → oc_kernel o = k;
  cf_files : file_command args = false → oc_files o = w;
  cf_sent : daemon_command args = false → oc_sent o = [];
}.

Lemma confined_read args k (w : W) r : zero_one r.1 → confined args k w (reads_only r k w).
Proof. destruct r. split; [eauto|done..]. Qed.

Lemma confined_usage args k (w : W) : confined args k w (usage k w).
Proof. apply confined_read. by right. Qed.

Lemma confined_write args r k (w : W) :
  kernel_command args = true → zero_one r.1.1 → confined args k w (writes r w).
Proof. intros Hc Hr. destruct r as [[status out] k']. split; [eauto|by rewrite Hc|done..]. Qed.

Lemma confined_ask args fuel ce cmd pending f k (w : W) :
  daemon_command args = true → (recv_size pending < fuel)%nat → (∀ resp, zero_one (f resp).1) →
  confined args k w (asks (run_request fuel ce cmd pending f) k w).
Proof.
  intros Hc Hf Hr. destruct (run_request_total fuel ce cmd pending f Hf Hr) as (status & out & He & Hz).
  split; [eauto|done|done|by rewrite Hc].
Qed.

Lemma done_status verb id resp : zero_one (done_response verb id resp).1.
Proof. unfold done_response. destruct (expect_ok _); [by left|by right]. Qed.

Lemma list_status resp : zero_one (list_response resp).1.
Proof. unfold list_response. destruct (expect_ok _); [by left|by right]. Qed.

Lemma listing_status text b : zero_one (do_list_generic text b).1.
Proof. destruct text; [by left|by right]. Qed.

(** The first word decides. *)
Ltac verb_is verb word := let E := fresh in
  destruct (strcmp_eq verb (cs word)) eqn:E; [apply strcmp_eq_spec in E as ->|clear E].

Lemma confined_trust e args k (w : W) : confined (cs "trust" :: args) k w (do_trust e args k w).
Proof.
  destruct (write_status (me_write e) k) as (_ & _ & Hadd & Hdel & _).
  unfold do_trust. destruct args as [|verb args]; [apply confined_usage|].
  verb_is verb "list"%string; [apply confined_read, listing_status|].
  verb_is verb "add"%string.
  { destruct args as [|hex [|word words]]; [apply confined_usage..|]. by apply confined_write. }
  verb_is verb "del"%string; [|apply confined_usage].
  destruct args as [|hex args]; [apply confined_usage|]. by apply confined_write.
Qed.

Lemma confined_protect e args k (w : W) : confined (cs "protect" :: args) k w (do_protect e args k w).
Proof.
  destruct (write_status (me_write e) k) as (_ & _ & _ & _ & Hadd & Hdel & _).
  unfold do_protect. destruct args as [|verb args]; [apply confined_usage|].
  verb_is verb "list"%string.
  { apply confined_read. destruct (proc_text e k PROTECTED_PROC_PATH); [by left|by right]. }
  verb_is verb "add"%string.
  { destruct args as [|path args]; [apply confined_usage|]. by apply confined_write. }
  verb_is verb "del"%string; [|apply confined_usage].
  destruct args as [|path args]; [apply confined_usage|]. by apply confined_write.
Qed.

Lemma confined_policy e args k (w : W) : confined (cs "policy" :: args) k w (do_policy e args k w).
Proof.
  destruct (write_status (me_write e) k) as (_ & _ & _ & _ & _ & _ & Hset).
  unfold do_policy. destruct args as [|verb args]; [apply confined_usage|].
  verb_is verb "get"%string.
  { apply confined_read. destruct (proc_text e k POLICY_PROC_PATH); [by left|by right]. }
  verb_is verb "set"%string; [|apply confined_usage].
  destruct args as [|value args]; [apply confined_usage|]. by apply confined_write.
Qed.

Lemma confined_quarantine e args k (w : W) : confined (cs "quarantine" :: args) k w (do_quarantine e args k w).
Proof.
  assert (recv_size (me_pending e) < response_fuel e)%nat as Hfuel by (unfold response_fuel; lia).
  unfold do_quarantine. destruct args as [|verb args]; [apply confined_usage|].
  verb_is verb "list"%string; [by apply confined_ask; [..|apply list_status]|].
  verb_is verb "restore"%string.
  { destruct args as [|id args]; [apply confined_usage|]. by apply confined_ask; [..|intros; apply done_status]. }
  verb_is verb "delete"%string; [|apply confined_usage].
  destruct args as [|id args]; [apply confined_usage|]. by apply confined_ask; [..|intros; apply done_status].
Qed.

Lemma confined_save e path args k (w : W) : confined (cs "save" :: path :: args) k w (do_save e path k w).
Proof.
  unfold do_save. destruct (strcmp_eq path (cs "-")) eqn:Hp.
  - apply confined_read. unfold do_save_stdout. destruct (stdout_files _ _) as [ok text].
    destruct (ok && _); [by left|by right].
  - pose proof (save_status path (proc_text e k) w) as Hs.
    destruct (do_save_file path (proc_text e k) w) as [[status out] w'] eqn:Hd.
    split; [eauto|done| |done]. unfold file_command. cbn [tail begins existsb]. by rewrite Hp.
Qed.

Lemma load_status env text k : zero_one (do_load env text k).1.1.
Proof. destruct text as [text|]; [|by right]. cbn [do_load]. destruct (ls_errors _ =? 0)%nat; [by left|by right]. Qed.

(** Every run of avctl ends, with status 0 or 1, and does no more than its command line says.
    Whatever the arguments, the module's tables and what the daemon, the files and the calls
    answer: only add, del and load, their trust and protect forms and [policy set] can change
    anything in the module; only [save] to a file touches the file system; and only [scan] and
    [quarantine] send anything to the daemon. *)
Theorem main_confined e args k (w : W) : confined args k w (main e args k w).
Proof.
  destruct (write_status (me_write e) k) as (Hadd & Hdel & _).
  assert (recv_size (me_pending e) < response_fuel e)%nat as Hfuel by (unfold response_fuel; lia).
  unfold main. destruct args as [|verb args]; [apply confined_usage|].
  verb_is verb "list"%string; [apply confined_read, listing_status|].
  verb_is verb "trust"%string; [apply confined_trust|].
  verb_is verb "protect"%string; [apply confined_protect|].
  verb_is verb "policy"%string; [apply confined_policy|].
  verb_is verb "save"%string.
  { destruct args as [|path args]; [apply confined_usage|apply confined_save]. }
  verb_is verb "load"%string.
  { destruct args as [|path args]; [apply confined_usage|]. by apply confined_write; [|apply load_status]. }
  verb_is verb "scan"%string.
  { destruct args as [|path args]; [apply confined_usage|].
    by apply confined_ask; [..|intros; apply scan_response_status]. }
  verb_is verb "quarantine"%string; [apply confined_quarantine|].
  verb_is verb "add"%string.
  { destruct args as [|algo [|hex [|name args]]]; [apply confined_usage..|]. by apply confined_write. }
  verb_is verb "del"%string; [|apply confined_usage].
  destruct args as [|algo [|hex args]]; [apply confined_usage..|]. by apply confined_write.
Qed.
End confined.

(** ** Examples *)

Module MainExamples.
Import ToyHash LoadExamples ToyDirs SaveExamples.

(** Everything works; the daemon is not running; this is the file that can be read. *)
Definition run_env (file : option cstr) : main_env :=
  {| me_write := fine; me_load := λ _, fine; me_proc := λ _, Some None; me_fopen := λ _, file; me_getenv := None;
     me_client := λ path, {| cl_path := path; cl_socket := true; cl_connect := false; cl_malloc_req := true;
                             cl_written := 0; cl_malloc := true; cl_grow := λ _, true |};
     me_pending := []; me_stdout := true |}.

Definition run (file : option cstr) (args : list string) (k : kernel) (w : toy) : outcome toy :=
  main (run_env file) (cs <$> args) k w.

(** What [avctl save /var/state] leaves there, [avctl load] brings back after a reload, and
    [avctl policy get] tells. *)
Example save_reload :
  let o1 := run None ["policy"; "set"; "fail-closed"]%string LoadExamples.saved (start []) in
  let o2 := run None ["save"; "/var/state"]%string (oc_kernel o1) (oc_files o1) in
  let o3 := run (held_at (0, 3) (cs "state") (oc_files o2)) ["load"; "/var/state"]%string (kernel_init false) (oc_files o2) in
  let o4 := run None ["policy"; "get"]%string (oc_kernel o3) (oc_files o3) in
  (fst <$> oc_exit o1, fst <$> oc_exit o2, fst <$> oc_exit o3) = (Some 0, Some 0, Some 0) ∧
  oc_exit o4 = Some (0, cs "fail-closed" ++ [LF]).
Proof. vm_compute. split; reflexivity. Qed.

(** Too few arguments, an unknown word, and a daemon that is not there. *)
Example refusals :
  (λ args, oc_exit (run None args (kernel_init true) (start []))) <$>
    [[]; ["add"; "md5"; "00"]; ["trust"; "add"; "00"]; ["policy"; "off"]; ["scan"; "/bin/ls"]]%string =
  replicate 5 (Some failed).
Proof. vm_compute. reflexivity. Qed.
End MainExamples.
