(* ===== verification/Daemon.v ===== *)
(** * Starting and stopping the daemon: userspace/avd/avd.c

    [main] with what it needs: the five settings, [load_rules],
    [register_with_kernel], the order of the start-up, the receive loop and the way it stops.
    libyara, libnl, pthreads and the signal calls are the outcomes of their
    calls; the parts that [main] starts are Corpus', ScanQueue's and Server's. *)

From Stdlib Require Import ZArith Lia Ascii String.
From stdpp Require Import prelude list gmap.
From S2P Require Import Prelude CString CText Corpus ScanQueue Posix Scan Server.

Local Open Scope Z_scope.

(** ** Settings *)

Definition DEFAULT_RULES_DIR : cstr := cs "rules".
Definition DEFAULT_CORPUS_FILE : cstr := cs "corpus/fuzzy_hashes.txt".
Definition DEFAULT_TLSH_CORPUS_FILE : cstr := cs "corpus/tlsh_hashes.txt".
Definition DEFAULT_QUARANTINE_DIR : cstr := cs "/var/lib/av-quarantine".
Definition DEFAULT_CONTROL_SOCK_PATH : cstr := cs "/run/avd/control.sock".

(** The argument, the environment variable or the default. *)
Definition setting (argv : list cstr) (i : nat) (env : option cstr) (default_val : cstr) : cstr :=
  match argv !! i with Some arg => arg | None => default default_val env end.

Record config := {
  rules_dir : cstr; corpus_file : cstr; quarantine_dir : cstr; tlsh_corpus_file : cstr;
  control_sock_path : cstr; avd_scan_threads : Z; avd_scan_queue_max : Z;
}.

Definition absolute (path : cstr) : bool := match path with a :: _ => aeqb a SLASH | [] => false end.

(** [argv] without the program's name; [getenv]. *)
Definition configure (argv : list cstr) (getenv : cstr → option cstr) : option config :=
  let rules_dir := setting argv 0 (getenv (cs "AVD_RULES_DIR")) DEFAULT_RULES_DIR in
  let corpus_file := setting argv 1 (getenv (cs "AVD_CORPUS_FILE")) DEFAULT_CORPUS_FILE in
  let quarantine_dir := setting argv 2 (getenv (cs "AVD_QUARANTINE_DIR")) DEFAULT_QUARANTINE_DIR in
  let tlsh_corpus_file := setting argv 3 (getenv (cs "AVD_TLSH_CORPUS_FILE")) DEFAULT_TLSH_CORPUS_FILE in
  let control_sock_path := setting argv 4 (getenv (cs "AVD_SOCK_PATH")) DEFAULT_CONTROL_SOCK_PATH in
  if negb (absolute quarantine_dir) then None
  else if negb (absolute control_sock_path) then None
  else Some {|
    rules_dir := rules_dir; corpus_file := corpus_file; quarantine_dir := quarantine_dir;
    tlsh_corpus_file := tlsh_corpus_file; control_sock_path := control_sock_path;
    avd_scan_threads := parse_tunable_env (getenv (cs "AVD_SCAN_THREADS"))
      AVD_SCAN_THREADS_DEFAULT AVD_SCAN_THREADS_MIN AVD_SCAN_THREADS_MAX;
    avd_scan_queue_max := parse_tunable_env (getenv (cs "AVD_SCAN_QUEUE_MAX"))
      AVD_SCAN_QUEUE_MAX_DEFAULT AVD_SCAN_QUEUE_MIN AVD_SCAN_QUEUE_MAX_MAX |}.

(** ** [load_rules] *)

(** A name in the directory, whether it opens, and the errors libyara finds. *)
Record rule_file := { d_name : cstr; rf_opens : bool; rf_errors : Z }.

Definition ends_with (name suffix : cstr) : bool :=
  (length suffix <=? length name)%nat && strcmp_eq (drop (length name - length suffix) name) suffix.

Definition is_rule_name (name : cstr) : bool := ends_with name (cs ".yar") || ends_with name (cs ".yara").

Definition rule_path (dir name : cstr) : cstr := strscpy (dir ++ SLASH :: name) PATH_MAX.

(** The files that were loaded, and [total_errors]. *)
Fixpoint load_rule_files (dir : cstr) (entries : list rule_file) (loaded : list cstr) (total_errors : Z)
    : list cstr * Z :=
  match entries with
  | [] => (loaded, total_errors)
  | entry :: entries =>
      if negb (is_rule_name (d_name entry)) then load_rule_files dir entries loaded total_errors
      else if negb (rf_opens entry) then load_rule_files dir entries loaded total_errors
      else if 0 <? rf_errors entry
      then load_rule_files dir entries loaded (total_errors + rf_errors entry)
      else load_rule_files dir entries (loaded ++ [rule_path dir (d_name entry)]) total_errors
  end.

(** What libyara and the directory answer. *)
Record rules_io := { yr_initialize : bool; yr_compiler_create : bool; yr_readdir : option (list rule_file);
                     yr_compiler_get_rules : bool }.

(** [None] is -1. *)
Definition load_rules (io : rules_io) (dir : cstr) : option (list cstr * Z) :=
  if negb (yr_initialize io) then None
  else if negb (yr_compiler_create io) then None
  else match yr_readdir io with
  | None => None
  | Some entries =>
      let r := load_rule_files dir entries [] 0 in
      if negb (yr_compiler_get_rules io) then None else Some r
  end.

(** ** The start-up *)

Definition register_with_kernel (io : send_io) : Z :=
  if negb (alloc_ok io) then -1
  else if negb (put_ok io) then -1
  else if send_ok io then 0 else -1.

(** How many workers start: up to the first failure. *)
Fixpoint spawn_workers (create : nat → bool) (n i : nat) : nat :=
  match n with
  | O => 0
  | S n => if create i then S (spawn_workers create n (S i)) else 0
  end.

(** What the start-up meets, in its order. *)
Record startup_io := {
  su_argv : list cstr; su_getenv : cstr → option cstr;
  su_sigaction : bool; su_sig_block : bool;
  su_selftest : Z; su_rules : rules_io;
  su_realloc : nat → bool; su_fopen : cstr → option cstr; su_malloc : bool;
  su_nl_alloc : bool; su_connect : bool; su_family : Z; su_register : send_io;
  su_calloc : bool; su_worker : nat → bool;
  su_socket : bool; su_listen : bool; su_control_thread : bool; su_sig_unblock : bool;
}.

(** The daemon in its receive loop, or on its way out before it. *)
Record serving := { sv_config : config; sv_engine : engine; sv_workers : nat; sv_control : bool }.
Inductive startup := Exit1 | Aborts (s : serving) | Serves (s : serving).

Section start.
Context `{!Fuzzy} {W : Type} `{!Posix W}.

(** The control socket and its thread, which may fail. *)
Definition start_control (euid : Z) (io : startup_io) (path : cstr) (w : W) : bool * W :=
  let '(r, w) := start_control_socket euid path (su_socket io) (su_listen io) w in
  match r with
  | Listening => if su_control_thread io then (true, w) else (false, (unlink path w).2)
  | _ => (false, w)
  end.

Definition main_start (euid : Z) (io : startup_io) (w : W) : startup * W :=
  match configure (su_argv io) (su_getenv io) with
  | None => (Exit1, w)
  | Some cfg =>
      if negb (su_sigaction io) then (Exit1, w)
      else if negb (su_sig_block io) then (Exit1, w)
      else if negb (su_selftest io =? 0) then (Exit1, w)
      else match load_rules (su_rules io) (rules_dir cfg) with
      | None => (Exit1, w)
      | Some _ =>
          match load_fuzzy_corpus (su_realloc io) (su_fopen io (corpus_file cfg)) (su_malloc io) with
          | None => (Exit1, w)
          | Some fuzzy =>
              match load_tlsh_corpus (su_realloc io) (su_fopen io (tlsh_corpus_file cfg)) (su_malloc io) with
              | None => (Exit1, w)
              | Some tlsh =>
                  if negb (su_nl_alloc io) then (Exit1, w)
                  else if negb (su_connect io) then (Exit1, w)
                  else if su_family io <? 0 then (Exit1, w)
                  else if register_with_kernel (su_register io) <? 0 then (Exit1, w)
                  else if negb (su_calloc io) then (Exit1, w)
                  else
                    let spawned := spawn_workers (su_worker io) (Z.to_nat (avd_scan_threads cfg)) 0 in
                    if (spawned =? 0)%nat then (Exit1, w)
                    else
                      let '(control, w) := start_control euid io (control_sock_path cfg) w in
                      let s := {| sv_config := cfg;
                                  sv_engine := {| compiled_rules := true; fuzzy_corpus := fuzzy; tlsh_corpus := tlsh |};
                                  sv_workers := spawned; sv_control := control |} in
                      if negb (su_sig_unblock io) then (Aborts s, w) else (Serves s, w)
              end
          end
      end
  end.
End start.

(** ** Stopping

    The main thread, the accept thread and the connections that wait. *)

(** In the loop: before the test of [running]; past it, before the receive; in the receive.  After
    it: on the way to the self-connect, in the join of the accept thread, out. *)
Inductive main_pc := MTest | MEnter | MRecv | MStopping | MJoin | MExit.
Inductive accept_pc := ATop | AAccept | AConn | AEnd.

Record life := {
  running : bool; control_started : bool; main_at : main_pc; accept_at : accept_pc; backlog : nat;
}.

(** The signals are unblocked, the threads have been started. *)
Definition life_init (control : bool) : life :=
  {| running := true; control_started := control; main_at := MTest;
     accept_at := if control then ATop else AEnd; backlog := 0 |}.

Definition with_main (m : main_pc) (s : life) : life :=
  {| running := running s; control_started := control_started s; main_at := m;
     accept_at := accept_at s; backlog := backlog s |}.
Definition with_accept (a : accept_pc) (n : nat) (s : life) : life :=
  {| running := running s; control_started := control_started s; main_at := main_at s;
     accept_at := a; backlog := n |}.
Definition with_backlog (n : nat) (s : life) : life := with_accept (accept_at s) n s.

(** What libnl and the kernel do: whether a signal ends a receive that blocks, with -NLE_INTR, or
    libnl starts [recvmsg] again after EINTR, and whether [socket] and [connect] work at the
    shutdown. *)
Record calls := { recv_interrupted : bool; wake_connects : bool }.

(** What happens to the daemon: a termination signal, a client, a message of the kernel's, an error
    of libnl's. *)
Inductive event := Signal | Client | Message | RecvError.

Section stopping.
Context (c : calls).

(** [handle_sigint], in the main thread. *)
Definition handle_sigint (s : life) : life :=
  {| running := false; control_started := control_started s;
     main_at := match main_at s with MRecv => if recv_interrupted c then MTest else MRecv | m => m end;
     accept_at := accept_at s; backlog := backlog s |}.

Definition world_step (e : event) (s : life) : option life :=
  match e, main_at s with
  | Signal, _ => Some (handle_sigint s)
  | Client, _ => if control_started s then Some (with_backlog (S (backlog s)) s) else None
  | Message, MRecv => Some (with_main MTest s)
  | RecvError, MRecv => Some (with_main MStopping s)
  | _, _ => None
  end.

(** What the daemon's two threads do by themselves.  The workers are drained and joined in
    [MStopping]: see ScanQueue. *)
Inductive daemon_step (s : life) : life → Prop :=
  | loop_test : main_at s = MTest → daemon_step s (with_main (if running s then MEnter else MStopping) s)
  | loop_recv : main_at s = MEnter → daemon_step s (with_main MRecv s)
  | no_control : main_at s = MStopping → control_started s = false → daemon_step s (with_main MExit s)
  (** the self-connect *)
  | wake : main_at s = MStopping → control_started s = true →
      daemon_step s (with_main MJoin (with_backlog ((if wake_connects c then 1 else 0) + backlog s) s))
  | join : main_at s = MJoin → accept_at s = AEnd → daemon_step s (with_main MExit s)
  | at_top : accept_at s = ATop →
      daemon_step s (with_accept (if running s then AAccept else AEnd) (backlog s) s)
  | accepted n : accept_at s = AAccept → backlog s = S n → daemon_step s (with_accept AConn n s)
  (** with a connection waiting, [accept] can also fail *)
  | accept_failed n : accept_at s = AAccept → backlog s = S n →
      daemon_step s (with_accept (if running s then ATop else AEnd) (S n) s)
  | handed_over : accept_at s = AConn → daemon_step s (with_accept ATop (backlog s) s).

Definition life_step (s s' : life) : Prop := daemon_step s s' ∨ ∃ e, world_step e s = Some s'.

(** Without anything that ends a receive: no message, no error, and no signal unless libnl starts
    the call again. *)
Definition quiet_step (s s' : life) : Prop :=
  daemon_step s s' ∨ world_step Client s = Some s' ∨
  (recv_interrupted c = false ∧ world_step Signal s = Some s').

(** What ends one. *)
Definition ends_recv (e : event) : Prop := e = Message ∨ (e = Signal ∧ recv_interrupted c = true).

(** How far from the end, outside of the receive. *)
Definition life_weight (s : life) : nat :=
  match main_at s with MEnter => 5 | MRecv => 4 | MTest => 3 | MStopping => 2 | MJoin => 1 | MExit => 0 end +
  match accept_at s with AAccept => 3 | AConn => 2 | ATop => 1 | AEnd => 0 end.

(** Whatever happens from [s] on, the daemon's own steps take it to the exit: there is always a way
    there, every step of its own is progress, no event takes it further away, and at most [n]
    steps are left. *)
Definition stops_within (n : nat) (s : life) : Prop :=
  ∀ s', rtc life_step s s' →
    (∃ s'', rtc daemon_step s' s'' ∧ main_at s'' = MExit) ∧ (life_weight s' ≤ n)%nat ∧
    (∀ s'', daemon_step s' s'' → (life_weight s'' < life_weight s')%nat) ∧
    (∀ e s'', world_step e s' = Some s'' → life_weight s'' = life_weight s').

(** Each thread waits for something that only the other, or an event, can do. *)
Definition halted (s : life) : Prop := ∀ s', ¬ daemon_step s s'.

(** On its way out after a signal. *)
Definition leaving (s : life) : Prop :=
  running s = false ∧ main_at s ≠ MEnter ∧ main_at s ≠ MRecv ∧
  (main_at s = MJoin → accept_at s = AAccept → (0 < backlog s)%nat).

Lemma leaving_down s s' : leaving s → daemon_step s s' → (life_weight s' < life_weight s)%nat.
Proof.
  intros (Hr & Hm & Hn & _) Hs. destruct s as [r k m a n]. simpl in *. subst r.
  inversion Hs; subst; unfold life_weight; simpl in *; subst; simpl; try lia; done.
Qed.

Lemma leaving_event e s s' : leaving s → world_step e s = Some s' → life_weight s' = life_weight s.
Proof.
  intros (Hr & Hm & Hn & _) Hs. destruct s as [r k m a n]. simpl in *. subst r.
  destruct e, m; simpl in *; simplify_eq; try done; by destruct k; simplify_eq.
Qed.

Lemma steps_keep (R : life → life → Prop) (P : life → Prop) s s' :
  (∀ a b, P a → R a b → P b) → P s → rtc R s s' → P s'.
Proof. intros Hk Hp Hs. induction Hs as [|a b d Hab _ IH]; eauto. Qed.

Lemma leaving_step s s' : wake_connects c = true → leaving s → life_step s s' → leaving s'.
Proof.
  intros Hw (Hr & Hm & Hn & Hb) [Hs|[e Hs]]; destruct s as [r k m a n]; simpl in *; subst r.
  - inversion Hs; subst; unfold leaving; simpl in *; subst; split_and!; try done; intros; simplify_eq/=; try done.
    rewrite Hw. lia.
  - destruct e, m; simpl in *; simplify_eq; try done; destruct k; simplify_eq; unfold leaving; simpl;
      split_and!; try done; intros; lia.
Qed.

Lemma leaving_go s : leaving s → main_at s = MExit ∨ ∃ s', daemon_step s s'.
Proof.
  intros (Hr & Hm & Hn & Hb). destruct s as [r k m a n]. simpl in *. subst r.
  destruct m; try done; [right; eexists; by apply loop_test|right|right|by left].
  - destruct k; eexists; [by apply wake|by apply no_control].
  - destruct a; [eexists; by apply at_top| |eexists; by apply handed_over|eexists; by apply join].
    destruct n as [|n]; [specialize (Hb eq_refl eq_refl); lia|]. eexists. by apply (accepted _ n).
Qed.

Lemma leaving_exits s : wake_connects c = true → leaving s → ∃ s', rtc daemon_step s s' ∧ main_at s' = MExit.
Proof.
  intros Hw. induction s as [s IH] using (induction_ltof1 _ life_weight). unfold ltof in IH. intros Hl.
  destruct (leaving_go s Hl) as [He|[s1 H1]]; [by exists s|].
  destruct (IH s1 (leaving_down s s1 Hl H1)) as (s2 & H2 & He).
  - eapply leaving_step; [done..|by left].
  - exists s2. split; [by eapply rtc_l|done].
Qed.

Lemma leaving_stops s : wake_connects c = true → leaving s → stops_within (life_weight s) s.
Proof.
  intros Hw Hl s' Hs.
  assert (leaving s' ∧ (life_weight s' ≤ life_weight s)%nat) as [Hl' Hle].
  { apply (steps_keep life_step (λ a, leaving a ∧ (life_weight a ≤ life_weight s)%nat)) with s; [|done|done].
    intros a b [Ha Hab] Hstep. split; [by eapply leaving_step|].
    destruct Hstep as [Hd|[e He]]; [pose proof (leaving_down _ _ Ha Hd)|pose proof (leaving_event _ _ _ Ha He)]; lia. }
  split_and!; [by apply leaving_exits|done|intros; by apply leaving_down|intros e s'' ?; by apply (leaving_event e)].
Qed.

(** Joining a thread that still means to accept connections. *)
Definition stuck (s : life) : Prop :=
  main_at s = MJoin ∧ (running s = false ∨ accept_at s ≠ AEnd).

Lemma stuck_steps s s' : rtc life_step s s' → stuck s → running s' = true → main_at s' = MJoin.
Proof.
  intros Hs Hst. assert (stuck s' ∨ running s' = false) as [[? _]|Hr]; [|done|by rewrite Hr].
  apply (steps_keep life_step (λ a, stuck a ∨ running a = false)) with s; [|by left|done].
  clear. intros a b Ha [Hs|[e Hs]]; destruct a as [r k m x n]; simpl in *.
  - destruct r; [|right; by inversion Hs; subst]. destruct Ha as [[Hm [?|Hx]]|?]; [done| |done]. simpl in *. subst m.
    left. inversion Hs; subst; simpl in *; try done; split; simpl; try done; by right.
  - destruct e, m; simpl in *; simplify_eq; auto; destruct k; simplify_eq; simpl; auto;
      destruct Ha as [[? Ha]|?]; auto; left; split; simpl in *; auto; congruence.
Qed.

(** Blocked in the receive, with [running] cleared. *)
Lemma blocked_quiet s s' : rtc quiet_step s s' → main_at s = MRecv → main_at s' = MRecv.
Proof.
  intros Hs Hm. apply (steps_keep quiet_step (λ a, main_at a = MRecv)) with s; [|done|done].
  clear. intros a b Ha [Hs|[Hs|[Hi Hs]]]; [inversion Hs; subst; simpl in *; congruence|..]; simpl in Hs.
  - destruct (control_started a); by simplify_eq.
  - injection Hs as <-. simpl. by rewrite Ha, Hi.
Qed.

(** Where a signal is seen. *)
Definition heeds (s : life) : Prop := main_at s = MTest ∨ (main_at s = MRecv ∧ recv_interrupted c = true).

Lemma signal_leaves s : heeds s → leaving (handle_sigint s) ∧ (life_weight (handle_sigint s) ≤ 6)%nat.
Proof.
  intros [Hm|[Hm Hi]]; unfold leaving, life_weight, handle_sigint; simpl; rewrite Hm, ?Hi;
    (split; [by split_and!|destruct (accept_at s); lia]).
Qed.

Lemma stops_weaken n m s : stops_within n s → (n ≤ m)%nat → stops_within m s.
Proof. intros Hs Hle s' Hr. destruct (Hs s' Hr) as (?&?&?&?). split_and!; [done|lia|done..]. Qed.

Lemma signal_stops s : wake_connects c = true → heeds s → stops_within 6 (handle_sigint s).
Proof.
  intros Hw Hh. destruct (signal_leaves s Hh) as [Hl Hle].
  exact (stops_weaken _ _ _ (leaving_stops _ Hw Hl) Hle).
Qed.

(** In the receive with [running] cleared, what ends the receive stops the daemon. *)
Lemma blocked_stops e s s' :
  wake_connects c = true → running s = false → main_at s = MRecv → ends_recv e →
  world_step e s = Some s' → stops_within 6 s'.
Proof.
  intros Hw Hr Hm He Hs.
  assert (running s' = false ∧ main_at s' = MTest ∧ accept_at s' = accept_at s) as (Hr'&Hm'&Ha').
  { destruct He as [->|[-> Hi]]; simpl in Hs; rewrite ?Hm in Hs; injection Hs as <-; simpl; by rewrite ?Hm, ?Hi. }
  apply (stops_weaken (life_weight s')).
  - apply leaving_stops; [done|]. unfold leaving. rewrite Hr', Hm'. by split_and!.
  - unfold life_weight. rewrite Hm'. destruct (accept_at s'); lia.
Qed.
End stopping.

(** The calls do what the code expects of them. *)
Definition reliable : calls := {| recv_interrupted := true; wake_connects := true |}.

(** Run the daemon: what each thread, or the world, does next. *)
Inductive move := Main | Accept | World (e : event).

Definition play_one (c : calls) (m : move) (s : life) : option life :=
  match m with
  | World e => world_step c e s
  | Main =>
      match main_at s with
      | MTest => Some (with_main (if running s then MEnter else MStopping) s)
      | MEnter => Some (with_main MRecv s)
      | MStopping =>
          Some (if control_started s
                then with_main MJoin (with_backlog ((if wake_connects c then 1 else 0) + backlog s) s)
                else with_main MExit s)
      | MJoin => match accept_at s with AEnd => Some (with_main MExit s) | _ => None end
      | MRecv | MExit => None
      end
  | Accept =>
      match accept_at s, backlog s with
      | ATop, n => Some (with_accept (if running s then AAccept else AEnd) n s)
      | AAccept, S n => Some (with_accept AConn n s)
      | AConn, n => Some (with_accept ATop n s)
      | _, _ => None
      end
  end.

Definition play (c : calls) (ms : list move) (s : life) : option life :=
  foldl (λ o m, o ≫= play_one c m) (Some s) ms.

Lemma play_one_step c m s s' : play_one c m s = Some s' → life_step c s s'.
Proof.
  destruct m as [| |e]; simpl; [| |by right; exists e]; intros Hs; left.
  - destruct (main_at s) eqn:Hm; simplify_eq; [by apply loop_test|by apply loop_recv| |].
    + destruct (control_started s) eqn:Hc; [by apply wake|by apply no_control].
    + destruct (accept_at s) eqn:?; simplify_eq. by apply join.
  - destruct (accept_at s) eqn:Ha, (backlog s) as [|n] eqn:Hb; simplify_eq; rewrite <- ?Hb;
      [by apply at_top|by apply at_top|by eapply accepted|by apply handed_over|by apply handed_over].
Qed.

Lemma play_steps c ms s s' : play c ms s = Some s' → rtc (life_step c) s s'.
Proof.
  unfold play. revert s. induction ms as [|m ms IH]; intros s; cbn [foldl]; [intros [= <-]; apply rtc_refl|].
  cbn. destruct (play_one c m s) as [s1|] eqn:H1.
  - intros Hs. eapply rtc_l; [by eapply play_one_step|by apply IH].
  - intros Hs. exfalso. clear -Hs. induction ms as [|? ms IH]; cbn in Hs; [done|by apply IH].
Qed.

Ltac halts := intros ? Hs; inversion Hs; simplify_eq/=.

(** C28: when a termination signal stops the daemon, and when not, whatever the calls [c] do.
    If the self-connect of the shutdown works, a signal that comes while the receive loop tests
    [running] stops it, and so does one that comes in the receive if it ends the receive, with
    -NLE_INTR: whatever clients, messages and further signals come and however the threads are
    scheduled, at most six steps of its own are left, and none of them can be blocked for good.
    (1) If libnl starts the receive again after EINTR, as its [nl_recv] does, a signal there only
    clears [running]: whatever clients and signals come the daemon stays in the receive, until a
    message, which stops it.  (2) A signal between the test and the receive is lost in the same way,
    until a message or, if it ends a receive, a second signal.  (3) After an error of the receive
    [running] is still set: there is a run after which [main] waits for the accept thread while that
    waits for a connection, no client can change that, and a signal that comes only then does not
    wake it.  (4) If the self-connect's calls fail, a stop after a signal can hang in the same way. *)
Theorem stop_after_signal c :
  (wake_connects c = true → ∀ s, heeds c s → stops_within c 6 (handle_sigint c s)) ∧
  (recv_interrupted c = false → ∀ s, main_at s = MRecv →
     (∀ s1, rtc (quiet_step c) (handle_sigint c s) s1 → main_at s1 = MRecv) ∧
     ∀ s1, wake_connects c = true → world_step c Message (handle_sigint c s) = Some s1 → stops_within c 6 s1) ∧
  (∀ control, ∃ s s1,
     rtc (life_step c) (life_init control) s ∧ main_at s = MEnter ∧
     rtc (daemon_step c) (handle_sigint c s) s1 ∧ halted c s1 ∧
     (∀ s2, rtc (quiet_step c) s1 s2 → main_at s2 = MRecv) ∧
     ∀ e s2, wake_connects c = true → ends_recv c e → world_step c e s1 = Some s2 → stops_within c 6 s2) ∧
  (∃ s, rtc (life_step c) (life_init true) s ∧ running s = true ∧ main_at s = MJoin ∧
     halted c s ∧ halted c (handle_sigint c s) ∧
     ∀ s1, rtc (life_step c) s s1 → running s1 = true → main_at s1 = MJoin) ∧
  (wake_connects c = false →
   ∃ s, rtc (life_step c) (life_init true) s ∧ running s = false ∧ main_at s = MJoin ∧ halted c s).
Proof.
  split_and!.
  - intros Hw s. by apply signal_stops.
  - intros Hi s Hm. assert (main_at (handle_sigint c s) = MRecv) as Hm' by (simpl; by rewrite Hm, Hi).
    split; [intros s1 Hs; exact (blocked_quiet c _ _ Hs Hm')|].
    intros s1 Hw. apply (blocked_stops c Message); [done|done|done|by left].
  - intros control.
    set (s := {| running := true; control_started := control; main_at := MEnter;
                 accept_at := if control then AAccept else AEnd; backlog := 0 |}).
    exists s, (with_main MRecv (handle_sigint c s)). split_and!.
    + apply (play_steps _ (if control then [Main; Accept] else [Main])). by destruct control.
    + done.
    + apply rtc_once. by apply loop_recv.
    + destruct control; halts.
    + intros s2 Hs. by apply blocked_quiet with (1 := Hs).
    + intros e s2 Hw He. by apply blocked_stops.
  - exists {| running := true; control_started := true; main_at := MJoin; accept_at := AAccept; backlog := 0 |}.
    split_and!; try done; [|halts..|].
    + apply (play_steps _ ([Main; Main; World RecvError; Main; Accept] ++
        if wake_connects c then [Accept; Accept; Accept] else [])).
      unfold play. simpl. by destruct (wake_connects c).
    + intros s1 Hs. apply stuck_steps with (1 := Hs). split; [done|by right].
  - intros Hw.
    exists {| running := false; control_started := true; main_at := MJoin; accept_at := AAccept; backlog := 0 |}.
    split_and!; try done; [|halts].
    apply (play_steps _ [Accept; World Signal; Main; Main]). unfold play. simpl. by rewrite Hw.
Qed.

(** ** What a start-up gives *)

Lemma rule_files_spec dir entries loaded total :
  Forall (λ f, 0 ≤ rf_errors f) entries →
  let good := List.filter (λ f, is_rule_name (d_name f) && rf_opens f) entries in
  load_rule_files dir entries loaded total =
    (loaded ++ ((λ f, rule_path dir (d_name f)) <$> List.filter (λ f, rf_errors f =? 0) good),
     total + foldr Z.add 0 (rf_errors <$> good)).
Proof.
  intros Hf. revert loaded total. induction Hf as [|f entries Hf0 _ IH]; intros loaded total; cbn.
  { by rewrite app_nil_r, Z.add_0_r. }
  destruct (is_rule_name (d_name f)); cbn [negb andb]; [|apply IH].
  destruct (rf_opens f); cbn [negb]; [|apply IH]. cbn [List.filter fmap list_fmap foldr].
  destruct (Z.ltb_spec 0 (rf_errors f)), (Z.eqb_spec (rf_errors f) 0); try lia; rewrite IH; f_equal; try lia.
  cbn [fmap list_fmap]. by rewrite <- (assoc_L (++)).
Qed.

Lemma spawn_bound create n i : (spawn_workers create n i ≤ n)%nat.
Proof. revert i. induction n as [|n IH]; intros i; simpl; [lia|]. destruct (create i); [specialize (IH (S i)); lia|lia]. Qed.

Section started.
Context `{!Fuzzy} {W : Type} `{!Posix W}.

(** The settings are what they should be. *)
Definition config_ok (cfg : config) : Prop :=
  absolute (quarantine_dir cfg) = true ∧ absolute (control_sock_path cfg) = true ∧
  1 ≤ avd_scan_threads cfg ≤ 256 ∧ 1 ≤ avd_scan_queue_max cfg ≤ 65536.

Lemma tunable_range val default_val min_val max_val :
  min_val ≤ default_val ≤ max_val → min_val ≤ parse_tunable_env val default_val min_val max_val ≤ max_val.
Proof.
  intros Hd. unfold parse_tunable_env. destruct val as [[|a val]|]; [done| |done].
  destruct (strtol (a :: val)) as [[v e] rest].
  destruct (e || _ || _) eqn:E1; cbn [orb]; [done|].
  destruct (Z.ltb_spec v min_val); cbn [orb]; [done|]. destruct (Z.ltb_spec max_val v); [done|lia].
Qed.

Lemma configure_ok argv getenv cfg : configure argv getenv = Some cfg → config_ok cfg.
Proof.
  unfold configure. destruct (absolute _) eqn:Hq; cbn [negb]; [|done].
  destruct (absolute (setting argv 4 _ _)) eqn:Hc; cbn [negb]; [|done]. intros [= <-].
  split_and!; try done; apply tunable_range; done.
Qed.

Lemma register_zero io : 0 ≤ register_with_kernel io → register_with_kernel io = 0.
Proof. unfold register_with_kernel. destruct (alloc_ok io), (put_ok io), (send_ok io); cbn; lia. Qed.

(** What has to work: everything but the control socket. *)
Definition essential (io : startup_io) : Prop :=
  su_sigaction io = true ∧ su_sig_block io = true ∧ su_selftest io = 0 ∧
  su_nl_alloc io = true ∧ su_connect io = true ∧ 0 ≤ su_family io ∧
  register_with_kernel (su_register io) = 0 ∧ su_calloc io = true ∧ su_worker io 0%nat = true.

(** A step of the start-up that failed. *)
Ltac gives_up :=
  split_and!; [done|split; [by intros [? [=]]|]|done];
  intros ((? & ? & ? & ? & ? & ? & ? & ? & ?) & ? & ? & ? & [? ?] & [? ?] & [? ?]); simplify_eq; lia || congruence.

(** The daemon serves if and only if all that scanning needs is there.  It gets to its receive
    loop exactly when the quarantine and the socket have absolute paths, the signals are set up,
    the self-test passes, the rules and both corpora load, the kernel takes the registration and
    a first worker starts, and the signals can be unblocked; the control socket does not count.
    It then serves with the corpora read from its files, between 1 and 256 workers, never more than were
    asked for, and a queue of 1 to 65536; it offers the control socket only if that listens, and
    when it gives up before that, nothing in the file system has changed. *)
Theorem startup_spec euid io (w : W) :
  let '(r, w') := main_start euid io w in
  (r = Exit1 → w' = w) ∧
  ((∃ s, r = Serves s) ↔
   essential io ∧ su_sig_unblock io = true ∧
   ∃ cfg, configure (su_argv io) (su_getenv io) = Some cfg ∧ is_Some (load_rules (su_rules io) (rules_dir cfg)) ∧
     is_Some (load_fuzzy_corpus (su_realloc io) (su_fopen io (corpus_file cfg)) (su_malloc io)) ∧
     is_Some (load_tlsh_corpus (su_realloc io) (su_fopen io (tlsh_corpus_file cfg)) (su_malloc io))) ∧
  (∀ s, r = Serves s →
     configure (su_argv io) (su_getenv io) = Some (sv_config s) ∧ config_ok (sv_config s) ∧
     load_fuzzy_corpus (su_realloc io) (su_fopen io (corpus_file (sv_config s))) (su_malloc io) =
       Some (fuzzy_corpus (sv_engine s)) ∧
     load_tlsh_corpus (su_realloc io) (su_fopen io (tlsh_corpus_file (sv_config s))) (su_malloc io) =
       Some (tlsh_corpus (sv_engine s)) ∧
     (1 ≤ sv_workers s)%nat ∧ Z.of_nat (sv_workers s) ≤ avd_scan_threads (sv_config s) ∧
     (sv_control s = true → start_control_socket euid (control_sock_path (sv_config s)) (su_socket io)
        (su_listen io) w = (Listening, w'))).
Proof.
  unfold main_start, essential.
  destruct (configure (su_argv io) (su_getenv io)) as [cfg|] eqn:Hcfg; [|gives_up].
  pose proof (configure_ok _ _ _ Hcfg) as Hok.
  destruct (su_sigaction io); cbn [negb]; [|gives_up].
  destruct (su_sig_block io); cbn [negb]; [|gives_up].
  destruct (Z.eqb_spec (su_selftest io) 0); cbn [negb]; [|gives_up].
  destruct (load_rules (su_rules io) (rules_dir cfg)) as [rules|] eqn:Hrules; [|gives_up].
  destruct (load_fuzzy_corpus _ _ _) as [fuzzy|] eqn:Hfuzzy; [|gives_up].
  destruct (load_tlsh_corpus _ _ _) as [tlsh|] eqn:Htlsh; [|gives_up].
  destruct (su_nl_alloc io); cbn [negb]; [|gives_up].
  destruct (su_connect io); cbn [negb]; [|gives_up].
  destruct (Z.ltb_spec (su_family io) 0); [gives_up|].
  destruct (Z.ltb_spec (register_with_kernel (su_register io)) 0) as [|Hreg]; [gives_up|].
  apply register_zero in Hreg.
  destruct (su_calloc io); cbn [negb]; [|gives_up].
  pose proof (spawn_bound (su_worker io) (Z.to_nat (avd_scan_threads cfg)) 0) as Hsp.
  assert ((spawn_workers (su_worker io) (Z.to_nat (avd_scan_threads cfg)) 0 = 0)%nat ↔ su_worker io 0%nat = false) as Hz.
  { destruct Hok as (_ & _ & [Hlo _] & _). destruct (Z.to_nat (avd_scan_threads cfg)) eqn:E; [lia|]. cbn.
    destruct (su_worker io 0%nat); done. }
  destruct (Nat.eqb_spec (spawn_workers (su_worker io) (Z.to_nat (avd_scan_threads cfg)) 0) 0) as [E|E].
  { apply Hz in E. gives_up. }
  assert (su_worker io 0%nat = true) as Hw0 by (destruct (su_worker io 0%nat); [done|by destruct E; apply Hz]).
  destruct (start_control euid io (control_sock_path cfg) w) as [control w1] eqn:Hctl.
  destruct (su_sig_unblock io); cbn [negb].
  2: { split_and!; [done|split; [by intros [? [=]]|by intros (_ & ? & _)]|done]. }
  split_and!; [done| |].
  - split; [|eauto]. intros _. split_and!; try done. exists cfg. by rewrite Hrules, Hfuzzy, Htlsh.
  - intros s [= <-]. cbn [sv_config sv_engine sv_workers sv_control fuzzy_corpus tlsh_corpus].
    split_and!; try done; [lia|destruct Hok as (_ & _ & ? & _); lia|]. intros ->.
    unfold start_control in Hctl. destruct (start_control_socket _ _ _ _ _) as [r w2].
    destruct r; try done. destruct (su_control_thread io); [by injection Hctl as <-|done].
Qed.
End started.

(** ** Examples *)

Module DaemonExamples.
Import ToyFs CorpusExamples ServerExamples.
#[local] Existing Instance toy_fuzzy.

Definition no_env (_ : cstr) : option cstr := None.
Definition env_of (l : list (string * string)) (name : cstr) : option cstr :=
  (λ p, cs p.2) <$> List.find (λ p, strcmp_eq (cs p.1) name) l.

Example settings :
  (λ c, (control_sock_path c, avd_scan_threads c, avd_scan_queue_max c)) <$>
    configure [cs "/etc/rules"] (env_of [("AVD_SOCK_PATH", "/tmp/s"); ("AVD_SCAN_THREADS", "4"); ("AVD_SCAN_QUEUE_MAX", "0")]%string) =
  Some (cs "/tmp/s", 4, 256) ∧
  configure [] (env_of [("AVD_QUARANTINE_DIR", "quarantine")]%string) = None.
Proof. vm_compute. split; reflexivity. Qed.

Definition rules_ok : rules_io :=
  {| yr_initialize := true; yr_compiler_create := true; yr_compiler_get_rules := true;
     yr_readdir := Some [{| d_name := cs "."; rf_opens := true; rf_errors := 0 |};
                         {| d_name := cs "a.yar"; rf_opens := true; rf_errors := 0 |};
                         {| d_name := cs "b.yara"; rf_opens := true; rf_errors := 2 |};
                         {| d_name := cs "c.yara"; rf_opens := false; rf_errors := 0 |};
                         {| d_name := cs ".yara"; rf_opens := true; rf_errors := 0 |}] |}.

Example rules_loaded : load_rules rules_ok (cs "rules") = Some ([cs "rules/a.yar"; cs "rules/.yara"], 2).
Proof. vm_compute. reflexivity. Qed.

(** A start with all but, perhaps, the control socket. *)
Definition start_with (listen : bool) : startup_io :=
  {| su_argv := []; su_getenv := no_env; su_sigaction := true; su_sig_block := true; su_selftest := 0;
     su_rules := rules_ok; su_realloc := λ _, true; su_fopen := λ _, None; su_malloc := true;
     su_nl_alloc := true; su_connect := true; su_family := 27;
     su_register := {| alloc_ok := true; put_ok := true; attrs_ok := true; send_ok := true |};
     su_calloc := true; su_worker := λ i, (i <? 3)%nat; su_socket := true; su_listen := listen;
     su_control_thread := true; su_sig_unblock := true |}.

Example starts :
  (λ listen, match (main_start 0 (start_with listen) (ServerExamples.run 493 [])).1 with
             | Serves s => Some (sv_workers s, sv_control s) | _ => None end) <$> [true; false] =
  [Some (3%nat, true); Some (3%nat, false)].
Proof. vm_compute. reflexivity. Qed.
(** A stop in good order, without and with a control socket; a client served on the way. *)
Example stops_in_order :
  main_at <$> play reliable [Main; Main; World Signal; Main; Main] (life_init false) = Some MExit ∧
  main_at <$> play reliable [Main; Accept; Main; World Client; World Message; Accept; World Signal; Main; Main;
                             Accept; Accept; Main] (life_init true) = Some MExit.
Proof. vm_compute. split; reflexivity. Qed.

(** With a receive that is started again after a signal, signals and clients do not do. *)
Example receive_restarted :
  main_at <$> play {| recv_interrupted := false; wake_connects := true |}
    [Main; Accept; Main; World Signal; World Client; Accept; World Signal; Accept; Accept] (life_init true) =
  Some MRecv.
Proof. vm_compute. reflexivity. Qed.

Lemma stop_after_signal_witness :
  main_at (life_init true) = MTest ∧ stops_within reliable 6 (handle_sigint reliable (life_init true)).
Proof. split; [reflexivity|]. apply (proj1 (stop_after_signal reliable)); [|left]; reflexivity. Defined.
End DaemonExamples.
